(** * Insider Trading rules engine: a shallow embedding and its properties

    The engine is a JavaScript program that mutates one game-state object.
    Here every engine function is a function on an immutable [GameState]
    value: an in-place mutation becomes the construction of the next state.
    Numbers are integers ([Z] for money and prices, [nat] for indices and
    counts), identifiers and colours are strings, arrays are lists, the
    price table is a finite map keyed by colour.  Event emission does not
    touch the state and is left out of the engine functions; the emitter
    is modelled on its own.  Calls that the engine answers with an
    exception are results of their own (see [Outcome] below). *)

From stdpp Require Import base numbers list gmap strings.
From Stdlib Require Import Permutation Sorted.

Local Open Scope string_scope.
Local Open Scope nat_scope.
Local Open Scope list_scope.

(** ** Utils/Constants.js *)

Definition COLORS : list string := ["Blue"; "Orange"; "Yellow"; "Purple"].

(** ** Objects used as maps

    The price table, the tallies and the sell selections are plain
    JavaScript objects, and a read [obj[key]] of such an object also finds
    the properties that every object inherits from [Object.prototype].
    The finite maps and association lists of this development hold the
    own properties of an object.  For a key that is none of the names
    below, a lookup in the map is the read of the object; for one of these
    names that the object does not have as an own property, the read gives
    an inherited function or object where the lookup gives nothing, and
    the code goes on with a value that is not a number: the functions
    below say nothing about such a key. *)
Definition OBJECT_PROTOTYPE : list string :=
  [ "constructor"; "__defineGetter__"; "__defineSetter__"; "hasOwnProperty";
    "__lookupGetter__"; "__lookupSetter__"; "isPrototypeOf";
    "propertyIsEnumerable"; "toString"; "valueOf"; "__proto__";
    "toLocaleString" ].

Definition plainKey (key : string) : Prop := key ∉ OBJECT_PROTOTYPE.

#[global] Instance plainKey_dec (key : string) : Decision (plainKey key).
Proof. unfold plainKey. apply _. Defined.

Inductive Phase := AUCTION | TRADING | GOAL_RESOLUTION | SELL.

Inductive GameStatus := NOT_STARTED | IN_PROGRESS | COMPLETED.

Inductive OfferStatus := ACTIVE | CANCELLED | ACCEPTED.

Inductive RewardType :=
| GAIN_CASH | STEAL_CASH | ADJUST_STOCK | LOOK_AT_HAND | PEEK_AND_PLACE
| SWAP_WITH_DECK | REARRANGE_TOP_5 | TAKE_AND_GIVE_CARD | BUY_WITH_DISCOUNT
| SELL_BONUS | GAIN_LOWEST_STOCK | UNKNOWN_REWARD.

Definition NONE_OF : string := "none_of".

Record Config := {
  startingCash : Z;
  startingResourceCards : nat;
  startingGoalCards : nat;
  startingStockPrice : Z;
  totalRounds : nat;
  tradingDuration : Z;
  minStockPrice : Z;
  maxStockPrice : option Z
}.

Definition DEFAULT_CONFIG : Config := {|
  startingCash := 5;
  startingResourceCards := 2;
  startingGoalCards := 3;
  startingStockPrice := 4;
  totalRounds := 3;
  tradingDuration := 120000;
  minStockPrice := 0;
  maxStockPrice := None
|}.

Global Instance GameStatus_eq_dec : EqDecision GameStatus.
Proof. solve_decision. Defined.

Global Instance Phase_eq_dec : EqDecision Phase.
Proof. solve_decision. Defined.

Global Instance OfferStatus_eq_dec : EqDecision OfferStatus.
Proof. solve_decision. Defined.

(** ** models/ResourceCard.js — a card is its id and its colour (the
    [type] field is the constant ['resource']). *)

Record Card := { card_id : string; card_color : string }.

Global Instance Card_eq_dec : EqDecision Card.
Proof. solve_decision. Defined.

(** Modelled from the spec: the GoalCard class (models/GoalCard.js) is not
    among the sources; a goal card is an identity, the [revealed] flag and
    the three pre-parsed facets that the managers read through
    [metadata.stockChangeParsed], [metadata.goalParsed] and
    [metadata.rewardParsed].  Objects used as maps are entry lists in
    [Object.entries] order. *)

Record GoalParsed := {
  gp_type : string;
  gp_avoidColor : string;
  gp_requirements : list (string * nat)
}.

Record RewardParsed := {
  rw_type : RewardType;
  rw_amount : Z;      (* 0 stands for an absent (falsy) field *)
  rw_discount : Z;
  rw_bonus : Z;
  rw_requiresTarget : bool;
  rw_requiresChoice : bool
}.

Record GoalCard := {
  g_id : string;
  g_revealed : bool;
  g_stockChangeParsed : list (string * Z);
  g_goalParsed : option GoalParsed;
  g_rewardParsed : RewardParsed
}.

Definition g_set_revealed (b : bool) (g : GoalCard) : GoalCard :=
  {| g_id := g_id g; g_revealed := b;
     g_stockChangeParsed := g_stockChangeParsed g;
     g_goalParsed := g_goalParsed g; g_rewardParsed := g_rewardParsed g |}.

(** ** core/GameState.js — the state aggregate *)

Record Player := {
  p_id : string;
  p_name : string;
  p_cash : Z;
  p_hand : list Card;
  p_goalCards : list GoalCard;
  p_isActive : bool;
  p_turnOrder : nat;
  p_sellBonus : Z
}.

Definition p_set_cash (c : Z) (p : Player) : Player :=
  {| p_id := p_id p; p_name := p_name p; p_cash := c; p_hand := p_hand p;
     p_goalCards := p_goalCards p; p_isActive := p_isActive p;
     p_turnOrder := p_turnOrder p; p_sellBonus := p_sellBonus p |}.

Definition p_set_hand (h : list Card) (p : Player) : Player :=
  {| p_id := p_id p; p_name := p_name p; p_cash := p_cash p; p_hand := h;
     p_goalCards := p_goalCards p; p_isActive := p_isActive p;
     p_turnOrder := p_turnOrder p; p_sellBonus := p_sellBonus p |}.

Definition p_set_goalCards (gs : list GoalCard) (p : Player) : Player :=
  {| p_id := p_id p; p_name := p_name p; p_cash := p_cash p;
     p_hand := p_hand p; p_goalCards := gs; p_isActive := p_isActive p;
     p_turnOrder := p_turnOrder p; p_sellBonus := p_sellBonus p |}.

Definition p_set_sellBonus (b : Z) (p : Player) : Player :=
  {| p_id := p_id p; p_name := p_name p; p_cash := p_cash p;
     p_hand := p_hand p; p_goalCards := p_goalCards p;
     p_isActive := p_isActive p; p_turnOrder := p_turnOrder p;
     p_sellBonus := b |}.

Record Deck := { drawPile : list Card; discardPile : list Card }.

Record AuctionState := {
  cardsToAuction : list Card;
  currentCardIndex : nat;
  currentCard : option Card;
  currentBid : Z;
  currentHighBidder : option string;
  activeBidders : list string;     (* a JS Set: insertion order, no repeats *)
  startingPlayer : option string;
  a_currentPlayerIndex : nat;
  lastRaiserIndex : option nat
}.

Record Offering := { of_cards : list string; of_cash : Z }.

Record Requesting := { rq_cards : list (string * nat); rq_cash : Z }.

Record Offer := {
  offerId : string;
  offeringPlayer : string;
  offering : Offering;
  requesting : Requesting;
  o_status : OfferStatus
}.

Definition o_set_status (st : OfferStatus) (o : Offer) : Offer :=
  {| offerId := offerId o; offeringPlayer := offeringPlayer o;
     offering := offering o; requesting := requesting o; o_status := st |}.

Record TradingState := { activeOffers : list Offer; timeRemaining : Z }.

Record RevealedGoal := {
  rg_playerId : string;
  rg_goalCard : GoalCard;
  rg_goalMet : bool;
  rg_rewardExecuted : bool
}.

Record PendingReward := {
  pd_playerId : string;
  pd_rewardType : RewardType;
  pd_goalCard : GoalCard
}.

Record GoalResolutionState := {
  gr_currentPlayerIndex : nat;
  revealedGoals : list RevealedGoal;
  pendingRewardExecution : option PendingReward
}.

Record Selection := { cardsToSell : list string; committed : bool }.

Record SellState := {
  playerSelections : list (string * Selection);  (* object, insertion order *)
  allCommitted : bool
}.

Record PhaseState := {
  auction : option AuctionState;
  trading : option TradingState;
  goalResolution : option GoalResolutionState;
  sell : option SellState
}.

(** The player-supplied choices of a reward; every field the rewards read
    is present. *)
Record Choices := {
  ch_targetPlayerId : string;
  ch_color : string;
  ch_direction : Z;
  ch_placement : string;
  ch_cardId : string;
  ch_newOrder : list string;
  ch_cardIdToGive : string
}.

Inductive Action :=
| PLACE_BID (playerId : string) (amount : Z)
| PASS (playerId : string)
| PROPOSE_TRADE (playerId : string) (offering : option Offering)
                (requesting : option Requesting)
| ACCEPT_TRADE (playerId : string) (offerId : string)
| CANCEL_TRADE (playerId : string) (offerId : string)
| END_TRADING (playerId : string)
| REVEAL_GOAL (playerId : string) (goalCardId : string)
| EXECUTE_REWARD (playerId : string) (choices : option Choices)
| SELECT_CARDS_TO_SELL (playerId : string) (cardIds : option (list string))
| COMMIT_SELL (playerId : string).

(** The [type] and [playerId] fields of an action object. *)
Inductive ActionType :=
| T_PLACE_BID | T_PASS
| T_PROPOSE_TRADE | T_ACCEPT_TRADE | T_CANCEL_TRADE | T_END_TRADING
| T_REVEAL_GOAL | T_EXECUTE_REWARD
| T_SELECT_CARDS_TO_SELL | T_COMMIT_SELL.

Global Instance ActionType_eq_dec : EqDecision ActionType.
Proof. solve_decision. Defined.


Definition a_playerId (a : Action) : string :=
  match a with
  | PLACE_BID playerId _ | PASS playerId | PROPOSE_TRADE playerId _ _
  | ACCEPT_TRADE playerId _ | CANCEL_TRADE playerId _ | END_TRADING playerId
  | REVEAL_GOAL playerId _ | EXECUTE_REWARD playerId _
  | SELECT_CARDS_TO_SELL playerId _ | COMMIT_SELL playerId => playerId
  end.

Record HistoryEntry := {
  h_round : nat;
  h_phase : option Phase;
  h_action : Action
}.

Record GameState := {
  gameId : string;
  status : GameStatus;
  currentRound : nat;
  currentPhase : option Phase;
  players : list Player;
  stockPrices : gmap string Z;
  resourceDeck : Deck;
  goalDeck_undealt : list GoalCard;
  phaseState : PhaseState;
  turnOrder : list string;
  currentPlayerIndex : nat;
  dealerIndex : nat;
  history : list HistoryEntry;
  config : Config
}.

Definition set_players (ps : list Player) (s : GameState) : GameState :=
  {| gameId := gameId s; status := status s; currentRound := currentRound s;
     currentPhase := currentPhase s; players := ps;
     stockPrices := stockPrices s; resourceDeck := resourceDeck s;
     goalDeck_undealt := goalDeck_undealt s; phaseState := phaseState s;
     turnOrder := turnOrder s; currentPlayerIndex := currentPlayerIndex s;
     dealerIndex := dealerIndex s; history := history s; config := config s |}.

Definition set_stockPrices (pr : gmap string Z) (s : GameState) : GameState :=
  {| gameId := gameId s; status := status s; currentRound := currentRound s;
     currentPhase := currentPhase s; players := players s;
     stockPrices := pr; resourceDeck := resourceDeck s;
     goalDeck_undealt := goalDeck_undealt s; phaseState := phaseState s;
     turnOrder := turnOrder s; currentPlayerIndex := currentPlayerIndex s;
     dealerIndex := dealerIndex s; history := history s; config := config s |}.

Definition set_resourceDeck (d : Deck) (s : GameState) : GameState :=
  {| gameId := gameId s; status := status s; currentRound := currentRound s;
     currentPhase := currentPhase s; players := players s;
     stockPrices := stockPrices s; resourceDeck := d;
     goalDeck_undealt := goalDeck_undealt s; phaseState := phaseState s;
     turnOrder := turnOrder s; currentPlayerIndex := currentPlayerIndex s;
     dealerIndex := dealerIndex s; history := history s; config := config s |}.

Definition set_goalDeck (gd : list GoalCard) (s : GameState) : GameState :=
  {| gameId := gameId s; status := status s; currentRound := currentRound s;
     currentPhase := currentPhase s; players := players s;
     stockPrices := stockPrices s; resourceDeck := resourceDeck s;
     goalDeck_undealt := gd; phaseState := phaseState s;
     turnOrder := turnOrder s; currentPlayerIndex := currentPlayerIndex s;
     dealerIndex := dealerIndex s; history := history s; config := config s |}.

Definition set_phaseState (ph : PhaseState) (s : GameState) : GameState :=
  {| gameId := gameId s; status := status s; currentRound := currentRound s;
     currentPhase := currentPhase s; players := players s;
     stockPrices := stockPrices s; resourceDeck := resourceDeck s;
     goalDeck_undealt := goalDeck_undealt s; phaseState := ph;
     turnOrder := turnOrder s; currentPlayerIndex := currentPlayerIndex s;
     dealerIndex := dealerIndex s; history := history s; config := config s |}.

Definition set_dealerIndex (d : nat) (s : GameState) : GameState :=
  {| gameId := gameId s; status := status s; currentRound := currentRound s;
     currentPhase := currentPhase s; players := players s;
     stockPrices := stockPrices s; resourceDeck := resourceDeck s;
     goalDeck_undealt := goalDeck_undealt s; phaseState := phaseState s;
     turnOrder := turnOrder s; currentPlayerIndex := currentPlayerIndex s;
     dealerIndex := d; history := history s; config := config s |}.

Definition set_currentPhase (ph : option Phase) (s : GameState) : GameState :=
  {| gameId := gameId s; status := status s; currentRound := currentRound s;
     currentPhase := ph; players := players s;
     stockPrices := stockPrices s; resourceDeck := resourceDeck s;
     goalDeck_undealt := goalDeck_undealt s; phaseState := phaseState s;
     turnOrder := turnOrder s; currentPlayerIndex := currentPlayerIndex s;
     dealerIndex := dealerIndex s; history := history s; config := config s |}.

Definition set_currentRound (r : nat) (s : GameState) : GameState :=
  {| gameId := gameId s; status := status s; currentRound := r;
     currentPhase := currentPhase s; players := players s;
     stockPrices := stockPrices s; resourceDeck := resourceDeck s;
     goalDeck_undealt := goalDeck_undealt s; phaseState := phaseState s;
     turnOrder := turnOrder s; currentPlayerIndex := currentPlayerIndex s;
     dealerIndex := dealerIndex s; history := history s; config := config s |}.

Definition set_status (st : GameStatus) (s : GameState) : GameState :=
  {| gameId := gameId s; status := st; currentRound := currentRound s;
     currentPhase := currentPhase s; players := players s;
     stockPrices := stockPrices s; resourceDeck := resourceDeck s;
     goalDeck_undealt := goalDeck_undealt s; phaseState := phaseState s;
     turnOrder := turnOrder s; currentPlayerIndex := currentPlayerIndex s;
     dealerIndex := dealerIndex s; history := history s; config := config s |}.

Definition set_history (h : list HistoryEntry) (s : GameState) : GameState :=
  {| gameId := gameId s; status := status s; currentRound := currentRound s;
     currentPhase := currentPhase s; players := players s;
     stockPrices := stockPrices s; resourceDeck := resourceDeck s;
     goalDeck_undealt := goalDeck_undealt s; phaseState := phaseState s;
     turnOrder := turnOrder s; currentPlayerIndex := currentPlayerIndex s;
     dealerIndex := dealerIndex s; history := h; config := config s |}.

Definition set_auction (a : option AuctionState) (s : GameState) : GameState :=
  set_phaseState {| auction := a; trading := trading (phaseState s);
                    goalResolution := goalResolution (phaseState s);
                    sell := sell (phaseState s) |} s.

Definition set_trading (t : option TradingState) (s : GameState) : GameState :=
  set_phaseState {| auction := auction (phaseState s); trading := t;
                    goalResolution := goalResolution (phaseState s);
                    sell := sell (phaseState s) |} s.

Definition set_goalResolution (g : option GoalResolutionState) (s : GameState)
  : GameState :=
  set_phaseState {| auction := auction (phaseState s);
                    trading := trading (phaseState s);
                    goalResolution := g; sell := sell (phaseState s) |} s.

Definition set_sell (x : option SellState) (s : GameState) : GameState :=
  set_phaseState {| auction := auction (phaseState s);
                    trading := trading (phaseState s);
                    goalResolution := goalResolution (phaseState s);
                    sell := x |} s.

(** An entry of [getFinalScores]. *)
Record Score := {
  sc_playerId : string;
  sc_name : string;
  sc_wealth : Z;
  sc_cash : Z;
  sc_cardValue : Z
}.

Module GameStateOps.

(** [state.players.find(p => p.id === playerId) || null] *)
Definition getPlayer (s : GameState) (playerId : string) : option Player :=
  List.find (fun p => String.eqb (p_id p) playerId) (players s).

(** The player objects are mutated through the reference [getPlayer]
    returns: the first player carrying the id is the one that changes. *)
Fixpoint updatePlayer (f : Player -> Player) (playerId : string)
         (ps : list Player) : list Player :=
  match ps with
  | [] => []
  | p :: ps' =>
      if String.eqb (p_id p) playerId then f p :: ps'
      else p :: updatePlayer f playerId ps'
  end.

(** [player.cash += amount; if (player.cash < 0) player.cash = 0] *)
Definition adjustCash (amount : Z) (p : Player) : Player :=
  let c := (p_cash p + amount)%Z in
  p_set_cash (if (c <? 0)%Z then 0%Z else c) p.

Definition adjustPlayerCash (s : GameState) (playerId : string) (amount : Z)
  : GameState :=
  set_players (updatePlayer (adjustCash amount) playerId (players s)) s.

Definition addCardToHand (s : GameState) (playerId : string) (card : Card)
  : GameState :=
  set_players
    (updatePlayer (fun p => p_set_hand (p_hand p ++ [card]) p) playerId
                  (players s)) s.

(** [findIndex] then [splice(index, 1)] on a hand. *)
Fixpoint removeFirstById (cardId : string) (h : list Card)
  : option (Card * list Card) :=
  match h with
  | [] => None
  | c :: h' =>
      if String.eqb (card_id c) cardId then Some (c, h')
      else match removeFirstById cardId h' with
           | Some (x, r) => Some (x, c :: r)
           | None => None
           end
  end.

Definition removeCardFromHand (s : GameState) (playerId cardId : string)
  : option Card * GameState :=
  match getPlayer s playerId with
  | None => (None, s)
  | Some player =>
      match removeFirstById cardId (p_hand player) with
      | None => (None, s)
      | Some (c, h') =>
          (Some c,
           set_players (updatePlayer (p_set_hand h') playerId (players s)) s)
      end
  end.

(** The loop of [removeCardsByColor]: the first [k] cards of the colour
    leave the hand, in hand order. *)
Fixpoint takeByColor (color : string) (k : nat) (h : list Card)
  : list Card * list Card :=
  match h with
  | [] => ([], [])
  | c :: h' =>
      match k with
      | O => ([], h)
      | S k' =>
          if String.eqb (card_color c) color then
            let '(removed, rest) := takeByColor color k' h' in
            (c :: removed, rest)
          else
            let '(removed, rest) := takeByColor color k h' in
            (removed, c :: rest)
      end
  end.

Definition removeCardsByColor (s : GameState) (playerId color : string)
           (count : nat) : list Card * GameState :=
  match getPlayer s playerId with
  | None => ([], s)
  | Some player =>
      let '(removed, rest) := takeByColor color count (p_hand player) in
      (removed,
       set_players (updatePlayer (p_set_hand rest) playerId (players s)) s)
  end.

Definition addGoalCard (s : GameState) (playerId : string) (g : GoalCard)
  : GameState :=
  set_players
    (updatePlayer (fun p => p_set_goalCards (p_goalCards p ++ [g]) p)
                  playerId (players s)) s.

(** Sum of the prices of the priced cards of a hand, for cards with
    plain colours (see [plainKey]). *)
Definition cardValue (prices : gmap string Z) (cards : list Card) : Z :=
  foldr (fun c acc =>
           match prices !! card_color c with
           | Some v => if String.eqb (card_color c) EmptyString then acc
                       else (v + acc)%Z
           | None => acc
           end) 0%Z cards.

Definition calculatePlayerWealth (s : GameState) (playerId : string) : Z :=
  match getPlayer s playerId with
  | None => 0%Z
  | Some p => (p_cash p + cardValue (stockPrices s) (p_hand p))%Z
  end.

Definition recordAction (s : GameState) (a : Action) : GameState :=
  set_history (history s ++ [{| h_round := currentRound s;
                                h_phase := currentPhase s;
                                h_action := a |}]) s.

Definition advanceRound (s : GameState) : GameState :=
  let s1 := set_currentRound (S (currentRound s)) s in
  set_dealerIndex ((dealerIndex s1 + 1) `mod` length (players s1)) s1.

Definition isGameOver (s : GameState) : bool :=
  Nat.ltb (totalRounds (config s)) (currentRound s).

Definition scoreOf (s : GameState) (p : Player) : Score :=
  {| sc_playerId := p_id p;
     sc_name := p_name p;
     sc_wealth := calculatePlayerWealth s (p_id p);
     sc_cash := p_cash p;
     sc_cardValue := (calculatePlayerWealth s (p_id p) - p_cash p)%Z |}.

(** [scores.sort((a, b) => b.wealth - a.wealth)]: [Array.prototype.sort]
    is stable, so the result is the one arrangement by descending wealth
    in which entries of equal wealth keep their order.  It is built here
    by inserting from the right: an entry goes before the first entry
    that is not wealthier than it. *)
Fixpoint insertScore (x : Score) (sorted : list Score) : list Score :=
  match sorted with
  | [] => [x]
  | y :: rest =>
      if (sc_wealth y <=? sc_wealth x)%Z then x :: sorted
      else y :: insertScore x rest
  end.

Definition sortByWealth (scores : list Score) : list Score :=
  foldr insertScore [] scores.

Definition getFinalScores (s : GameState) : list Score :=
  sortByWealth (scoreOf s <$> players s).

End GameStateOps.

(** ** systems/StockPriceSystem.js *)

Record StockPriceSystem := {
  minPrice : Z;
  maxPrice : option Z;       (* [None] is the JS [null]: no ceiling *)
  initialPrice : Z
}.

Module StockPrice.

(** The constructor; [config.startingStockPrice || DEFAULT] takes the
    default for the falsy 0. *)
Definition create (cfg : Config) : StockPriceSystem :=
  {| minPrice := minStockPrice cfg;
     maxPrice := maxStockPrice cfg;
     initialPrice := if (startingStockPrice cfg =? 0)%Z
                     then startingStockPrice DEFAULT_CONFIG
                     else startingStockPrice cfg |}.

Definition createInitialPrices (sps : StockPriceSystem) : gmap string Z :=
  foldl (fun prices color => <[color := initialPrice sps]> prices) ∅ COLORS.

Definition constrainPrice (sps : StockPriceSystem) (price : Z) : Z :=
  if (price <? minPrice sps)%Z then minPrice sps
  else match maxPrice sps with
       | Some mx => if (mx <? price)%Z then mx else price
       | None => price
       end.

(** One turn of the loop over [Object.entries(changes)], for a plain
    key (see [plainKey]): [newPrices[color] !== undefined] is then the
    test for an own entry. *)
Definition applyChange (sps : StockPriceSystem) (newPrices : gmap string Z)
           (entry : string * Z) : gmap string Z :=
  let '(color, change) := entry in
  match newPrices !! color with
  | Some old => <[color := constrainPrice sps (old + change)]> newPrices
  | None => newPrices
  end.

Definition applyChanges (sps : StockPriceSystem)
           (currentPrices : gmap string Z) (changes : list (string * Z))
  : gmap string Z :=
  foldl (applyChange sps) currentPrices changes.

(** The same function over a store of price objects, to show what it
    writes: [{ ...currentPrices }] allocates the object that the loop then
    updates, and the reference of that object is returned. *)
Abbreviation Store := (gmap nat (gmap string Z)).

Definition storeChange (sps : StockPriceSystem) (ref : nat) (h : Store)
           (entry : string * Z) : Store :=
  match h !! ref with
  | Some obj => <[ref := applyChange sps obj entry]> h
  | None => h
  end.

Definition applyChangesRef (sps : StockPriceSystem) (h : Store)
           (currentPrices : nat) (changes : list (string * Z))
  : Store * nat :=
  let newPrices := fresh (dom h) in
  let h1 := <[newPrices := default ∅ (h !! currentPrices)]> h in
  (foldl (storeChange sps newPrices) h1 changes, newPrices).

(** [Math.min(...Object.values(prices))] and the keys that reach it. *)
Definition getLowestPriceColors (prices : gmap string Z) : list string :=
  match map_to_list prices with
  | [] => []
  | (_, v) :: rest =>
      let m := foldr (fun kv acc => Z.min kv.2 acc) v rest in
      List.filter (fun c => bool_decide (prices !! c = Some m))
                  (map_to_list prices).*1
  end.

Definition calculateCardValue (cards : list Card) (prices : gmap string Z)
  : Z := GameStateOps.cardValue prices cards.

(** [accumulateChanges(...changeSets)]: a tally over [COLORS] that starts
    at 0; a plain key (see [plainKey]) outside [COLORS] is skipped. *)
Definition accumulateChanges (changeSets : list (list (string * Z)))
  : gmap string Z :=
  foldl (fun accumulated changeSet =>
           foldl (fun acc (entry : string * Z) =>
                    match acc !! entry.1 with
                    | Some v => <[entry.1 := (v + entry.2)%Z]> acc
                    | None => acc
                    end)
                 accumulated changeSet)
        (foldl (fun acc color => <[color := 0%Z]> acc) ∅ COLORS)
        changeSets.

(** [Math.max(...Object.values(prices))] and the keys that reach it. *)
Definition getHighestPriceColors (prices : gmap string Z) : list string :=
  match map_to_list prices with
  | [] => []
  | (_, v) :: rest =>
      let m := foldr (fun kv acc => Z.max kv.2 acc) v rest in
      List.filter (fun c => bool_decide (prices !! c = Some m))
                  (map_to_list prices).*1
  end.

(** [getDiff]: the entries, in [COLORS] order, of the colours whose price
    has changed.  [None]: a colour of [COLORS] has no price in one of the
    two objects, and the entry for it would be [NaN]. *)
Fixpoint diffOver (colors : list string) (oldPrices newPrices : gmap string Z)
  : option (list (string * Z)) :=
  match colors with
  | [] => Some []
  | color :: rest =>
      match newPrices !! color, oldPrices !! color with
      | Some n, Some o =>
          let change := (n - o)%Z in
          (fun diff => if (change =? 0)%Z then diff
                       else (color, change) :: diff)
            <$> diffOver rest oldPrices newPrices
      | _, _ => None
      end
  end.

Definition getDiff (oldPrices newPrices : gmap string Z)
  : option (list (string * Z)) :=
  diffOver COLORS oldPrices newPrices.

End StockPrice.

(** ** parsers/StockChangeParser.js *)

Module StockChangeParser.

(** The two [if]s of [applyChanges], one after the other. *)
Definition clamp (minPrice : Z) (maxPrice : option Z) (newPrice : Z) : Z :=
  let newPrice := if (newPrice <? minPrice)%Z then minPrice else newPrice in
  match maxPrice with
  | Some mx => if (mx <? newPrice)%Z then mx else newPrice
  | None => newPrice
  end.

(** [applyChanges(currentPrices, changes, minPrice, maxPrice)], for
    changes with plain keys (see [plainKey]). *)
Definition applyChanges (currentPrices : gmap string Z)
           (changes : list (string * Z)) (minPrice : Z)
           (maxPrice : option Z) : gmap string Z :=
  foldl (fun newPrices (entry : string * Z) =>
           match newPrices !! entry.1 with
           | Some old =>
               <[entry.1 := clamp minPrice maxPrice (old + entry.2)]>
                 newPrices
           | None => newPrices
           end)
        currentPrices changes.

(** [accumulate(...changeSets)]: the tally is first set to 0 for every
    colour of [COLORS]; an entry with a plain key is added when the tally
    has its key. *)
Definition accumulate (changeSets : list (list (string * Z)))
  : gmap string Z :=
  let accumulated := foldl (fun acc color => <[color := 0%Z]> acc) ∅ COLORS in
  foldl (fun accumulated changeSet =>
           foldl (fun acc (entry : string * Z) =>
                    let '(color, change) := entry in
                    match acc !! color with
                    | Some v => <[color := (v + change)%Z]> acc
                    | None => acc
                    end)
                 accumulated changeSet)
        accumulated changeSets.

End StockChangeParser.

(** ** managers/DeckManager.js *)

Inductive DeckError :=
| CannotRearrange (have specified : nat)
| CardIdNotFound (id : string)
| DeckEmpty.

Module DeckManager.

(** [draw]: up to [count] cards leave the top of the draw pile. *)
Definition draw (deck : Deck) (count : nat) : list Card * Deck :=
  let count := if length (drawPile deck) <? count
               then length (drawPile deck) else count in
  (take count (drawPile deck),
   {| drawPile := drop count (drawPile deck);
      discardPile := discardPile deck |}).

Definition discard (deck : Deck) (cards : list Card) : Deck :=
  {| drawPile := drawPile deck; discardPile := discardPile deck ++ cards |}.

Definition peekTop (deck : Deck) (count : nat) : list Card :=
  take count (drawPile deck).

Definition placeOnTop (deck : Deck) (card : Card) : Deck :=
  {| drawPile := card :: drawPile deck; discardPile := discardPile deck |}.

Definition placeOnBottom (deck : Deck) (card : Card) : Deck :=
  {| drawPile := drawPile deck ++ [card]; discardPile := discardPile deck |}.

(** [new Map(topCards.map(card => [card.id, card]))]: a later card
    replaces an earlier one with the same id. *)
Definition cardMap (topCards : list Card) : gmap string Card :=
  foldl (fun m card => <[card_id card := card]> m) ∅ topCards.

(** [rearrangeTop] returns the error it throws, if any, and the deck as
    the call leaves it. *)
Definition rearrangeTop (deck : Deck) (newOrder : list string)
  : option DeckError * Deck :=
  let topCards := peekTop deck (length newOrder) in
  if negb (length topCards =? length newOrder) then
    (Some (CannotRearrange (length topCards) (length newOrder)), deck)
  else
    let cm := cardMap topCards in
    match List.find (fun id => negb (bool_decide (is_Some (cm !! id))))
                    newOrder with
    | Some id => (Some (CardIdNotFound id), deck)
    | None =>
        let rest := drop (length newOrder) (drawPile deck) in
        let reorderedCards := omap (fun id => cm !! id) newOrder in
        (None, {| drawPile := reorderedCards ++ rest;
                  discardPile := discardPile deck |})
    end.

Definition swapWithTop (deck : Deck) (cardFromHand : Card)
  : DeckError + (Card * Deck) :=
  match drawPile deck with
  | [] => inl DeckEmpty
  | topCard :: rest =>
      inr (topCard, {| drawPile := cardFromHand :: rest;
                       discardPile := discardPile deck |})
  end.

Definition getRemainingCount (deck : Deck) : nat := length (drawPile deck).

(** [[cards[i], cards[j]] = [cards[j], cards[i]]] *)
Definition swap (i j : nat) (cards : list Card) : list Card :=
  match cards !! i, cards !! j with
  | Some x, Some y => <[j := x]> (<[i := y]> cards)
  | _, _ => cards
  end.

(** The Fisher-Yates loop of [shuffle] called without a seed, from
    index [i] down to 1.  [random] stands for [Math.random], whose
    values lie in [0, 1): [Math.floor(random() * (i + 1))] is some index
    from 0 to [i], here the value of the call numbered [call] taken
    modulo [i + 1].  The seeded generator of [shuffle(cards, seed)] is
    not modelled: it keeps the sign of a negative seed, and the index is
    then negative. *)
Fixpoint shuffleFrom (random : nat -> nat) (call i : nat)
         (cards : list Card) : list Card :=
  match i with
  | O => cards
  | S i' =>
      let j := random call `mod` (S i' + 1) in
      shuffleFrom random (S call) i' (swap (S i') j cards)
  end.

(** [shuffle(cards)], the seed left out. *)
Definition shuffle (random : nat -> nat) (cards : list Card) : list Card :=
  shuffleFrom random 0 (length cards - 1) cards.

(** [reshuffleDiscardPile]: the discard pile is emptied, shuffled and
    pushed under the draw pile. *)
Definition reshuffleDiscardPile (random : nat -> nat) (deck : Deck) : Deck :=
  {| drawPile := drawPile deck ++ shuffle random (discardPile deck);
     discardPile := [] |}.

End DeckManager.

(** ** parsers/GoalParser.js *)

Module GoalParser.

(** The tally over [COLORS]: only cards with a (non-empty) known colour
    are counted. *)
Definition colorCounts (playerHand : list Card) : gmap string nat :=
  foldl (fun counts card =>
           if String.eqb (card_color card) EmptyString then counts
           else match counts !! card_color card with
                | Some n => <[card_color card := S n]> counts
                | None => counts
                end)
        (foldl (fun counts color => <[color := 0]> counts) ∅ COLORS)
        playerHand.

(** [colorCounts[color] < requiredCount]; the comparison with
    [undefined] (a colour outside [COLORS]) is false in JavaScript. *)
Definition requirementFails (counts : gmap string nat)
           (req : string * nat) : bool :=
  match counts !! req.1 with
  | Some n => n <? req.2
  | None => false
  end.

Definition checkGoal (goalCard : GoalCard) (playerHand : list Card) : bool :=
  match g_goalParsed goalCard with
  | None => false
  | Some parsed =>
      if String.eqb (gp_type parsed) NONE_OF then
        negb (existsb (fun card =>
                         String.eqb (card_color card) (gp_avoidColor parsed))
                      playerHand)
      else
        negb (existsb (requirementFails (colorCounts playerHand))
                      (gp_requirements parsed))
  end.

End GoalParser.

(** ** Results of engine calls

    A call either returns ([Done]), or throws after having mutated the
    state up to the throw ([Threw], the state is the one the exception
    leaves behind), or goes on with a value that integers and cards cannot
    represent, [NaN] cash or a [null] card ([OutOfModel]). *)

Inductive Outcome :=
| Done (s : GameState)
| Threw (s : GameState)
| OutOfModel.

Definition bindO (o : Outcome) (k : GameState -> Outcome) : Outcome :=
  match o with
  | Done s => k s
  | Threw s => Threw s
  | OutOfModel => OutOfModel
  end.

Notation "'let*' s ':=' o 'in' k" := (bindO o (fun s => k))
  (at level 10, s name, o at level 100, k at level 200).

(** [new Set(ids)]: first occurrences, in order. *)
Definition newSet (ids : list string) : list string :=
  foldl (fun acc x => if bool_decide (x ∈ acc) then acc else acc ++ [x]) [] ids.

Definition has (set : list string) (x : string) : bool := bool_decide (x ∈ set).

Definition delete_ (x : string) (set : list string) : list string :=
  List.filter (fun y => negb (String.eqb y x)) set.

(** ** systems/ValidationSystem.js *)

Inductive Validation := Valid | Invalid (error : string).

Definition valid (v : Validation) : bool :=
  match v with Valid => true | Invalid _ => false end.

Definition ownsCard (player : Player) (cardId : string) : bool :=
  existsb (fun c => String.eqb (card_id c) cardId) (p_hand player).

Definition countColor (color : string) (h : list Card) : nat :=
  length (List.filter (fun c => String.eqb (card_color c) color) h).

Definition findOffer (offers : list Offer) (id : string) : option Offer :=
  List.find (fun o => String.eqb (offerId o) id) offers.

(** [playerSelections[playerId]], for a plain key (see [plainKey]). *)
Definition lookupSelection (sel : list (string * Selection)) (playerId : string)
  : option Selection :=
  snd <$> List.find (fun kv => String.eqb kv.1 playerId) sel.

Module ValidationSystem.

Definition validateBid (s : GameState) (playerId : string) (amount : Z)
  : Validation :=
  if negb (bool_decide (currentPhase s = Some AUCTION)) then
    Invalid "Not in auction phase"
  else match GameStateOps.getPlayer s playerId, auction (phaseState s) with
       | None, _ => Invalid "Player not found"
       | Some player, Some a =>
           if negb (has (activeBidders a) playerId) then
             Invalid "You have already passed"
           else if (amount <=? currentBid a)%Z then
             Invalid "Bid must be higher than current bid"
           else if (p_cash player <? amount)%Z then
             Invalid "Insufficient funds"
           else Valid
       | Some _, None => Invalid "TypeError"
       end.

Definition validatePass (s : GameState) (playerId : string) : Validation :=
  if negb (bool_decide (currentPhase s = Some AUCTION)) then
    Invalid "Not in auction phase"
  else match auction (phaseState s) with
       | Some a =>
           if negb (has (activeBidders a) playerId) then
             Invalid "You have already passed"
           else Valid
       | None => Invalid "TypeError"
       end.

Definition validateTradeProposal (s : GameState) (playerId : string)
           (offering : option Offering) (requesting : option Requesting)
  : Validation :=
  if negb (bool_decide (currentPhase s = Some TRADING)) then
    Invalid "Not in trading phase"
  else match GameStateOps.getPlayer s playerId with
       | None => Invalid "Player not found"
       | Some player =>
           match offering, requesting with
           | None, _ => Invalid "Must offer something (cards or cash)"
           | Some off, req =>
               if (length (of_cards off) =? 0) && (of_cash off =? 0)%Z then
                 Invalid "Must offer something (cards or cash)"
               else match req with
               | None => Invalid "Must request something (cards or cash)"
               | Some rq =>
                   if (length (rq_cards rq) =? 0) && (rq_cash rq =? 0)%Z then
                     Invalid "Must request something (cards or cash)"
                   else if negb (forallb (ownsCard player) (of_cards off))
                   then Invalid "You don't own card"
                   else if negb (of_cash off =? 0)%Z
                           && (p_cash player <? of_cash off)%Z
                   then Invalid "Insufficient cash to offer"
                   else Valid
               end
           end
       end.

Definition validateTradeAcceptance (s : GameState) (playerId offerId : string)
  : Validation :=
  if negb (bool_decide (currentPhase s = Some TRADING)) then
    Invalid "Not in trading phase"
  else match GameStateOps.getPlayer s playerId, trading (phaseState s) with
       | None, _ => Invalid "Player not found"
       | Some _, None => Invalid "TypeError"
       | Some player, Some t =>
           match findOffer (activeOffers t) offerId with
           | None => Invalid "Offer not found"
           | Some offer =>
               if negb (bool_decide (o_status offer = ACTIVE)) then
                 Invalid "Offer is no longer active"
               else if String.eqb (offeringPlayer offer) playerId then
                 Invalid "Cannot accept your own offer"
               else if negb (rq_cash (requesting offer) =? 0)%Z
                       && (p_cash player <? rq_cash (requesting offer))%Z
               then Invalid "Insufficient cash"
               else if existsb
                         (fun cardReq =>
                            countColor cardReq.1 (p_hand player) <? cardReq.2)
                         (rq_cards (requesting offer))
               then Invalid "Need more cards of a requested color"
               else Valid
           end
       end.

Definition validateTradeCancellation (s : GameState)
           (playerId offerId : string) : Validation :=
  if negb (bool_decide (currentPhase s = Some TRADING)) then
    Invalid "Not in trading phase"
  else match trading (phaseState s) with
       | None => Invalid "TypeError"
       | Some t =>
           match findOffer (activeOffers t) offerId with
           | None => Invalid "Offer not found"
           | Some offer =>
               if negb (String.eqb (offeringPlayer offer) playerId) then
                 Invalid "Can only cancel your own offers"
               else if negb (bool_decide (o_status offer = ACTIVE)) then
                 Invalid "Offer is no longer active"
               else Valid
           end
       end.

Definition validateGoalReveal (s : GameState) (playerId goalCardId : string)
  : Validation :=
  if negb (bool_decide (currentPhase s = Some GOAL_RESOLUTION)) then
    Invalid "Not in goal resolution phase"
  else match GameStateOps.getPlayer s playerId,
             goalResolution (phaseState s) with
       | None, _ => Invalid "Player not found"
       | Some _, None => Invalid "TypeError"
       | Some player, Some gr =>
           if negb (bool_decide
                      (turnOrder s !! gr_currentPlayerIndex gr
                       = Some playerId)) then
             Invalid "Not your turn to reveal a goal"
           else match List.find (fun g => String.eqb (g_id g) goalCardId)
                                (p_goalCards player) with
                | None => Invalid "Goal card not found in your hand"
                | Some goalCard =>
                    if g_revealed goalCard then
                      Invalid "Goal card already revealed"
                    else Valid
                end
       end.

Definition validateRewardExecution (s : GameState) (playerId : string)
  : Validation :=
  if negb (bool_decide (currentPhase s = Some GOAL_RESOLUTION)) then
    Invalid "Not in goal resolution phase"
  else match goalResolution (phaseState s) with
       | None => Invalid "TypeError"
       | Some gr =>
           match pendingRewardExecution gr with
           | None => Invalid "No pending reward to execute"
           | Some pending =>
               if negb (String.eqb (pd_playerId pending) playerId) then
                 Invalid "Reward is not for you"
               else Valid
           end
       end.

Definition validateSellSelection (s : GameState) (playerId : string)
           (cardIds : option (list string)) : Validation :=
  if negb (bool_decide (currentPhase s = Some SELL)) then
    Invalid "Not in sell phase"
  else match GameStateOps.getPlayer s playerId with
       | None => Invalid "Player not found"
       | Some player =>
           match cardIds with
           | Some ids =>
               if negb (forallb (ownsCard player) ids) then
                 Invalid "You don't own card"
               else Valid
           | None => Valid
           end
       end.

(** [validateSellCommit], for a player named by a plain key. *)
Definition validateSellCommit (s : GameState) (playerId : string)
  : Validation :=
  if negb (bool_decide (currentPhase s = Some SELL)) then
    Invalid "Not in sell phase"
  else match sell (phaseState s) with
       | None => Invalid "TypeError"
       | Some sl =>
           match lookupSelection (playerSelections sl) playerId with
           | None => Invalid "No sell selection found"
           | Some sel =>
               if committed sel then Invalid "Already committed" else Valid
           end
       end.

Definition validateAction (s : GameState) (action : Action) : Validation :=
  match action with
  | PLACE_BID playerId amount => validateBid s playerId amount
  | PASS playerId => validatePass s playerId
  | PROPOSE_TRADE playerId offering requesting =>
      validateTradeProposal s playerId offering requesting
  | ACCEPT_TRADE playerId offerId =>
      validateTradeAcceptance s playerId offerId
  | CANCEL_TRADE playerId offerId =>
      validateTradeCancellation s playerId offerId
  | REVEAL_GOAL playerId goalCardId =>
      validateGoalReveal s playerId goalCardId
  | EXECUTE_REWARD playerId _ => validateRewardExecution s playerId
  | SELECT_CARDS_TO_SELL playerId cardIds =>
      validateSellSelection s playerId cardIds
  | COMMIT_SELL playerId => validateSellCommit s playerId
  | END_TRADING _ => Valid
  end.

End ValidationSystem.

(** ** managers/AuctionManager.js *)

Definition a_set_activeBidders (act : list string) (a : AuctionState)
  : AuctionState :=
  {| cardsToAuction := cardsToAuction a;
     currentCardIndex := currentCardIndex a;
     currentCard := currentCard a; currentBid := currentBid a;
     currentHighBidder := currentHighBidder a; activeBidders := act;
     startingPlayer := startingPlayer a;
     a_currentPlayerIndex := a_currentPlayerIndex a;
     lastRaiserIndex := lastRaiserIndex a |}.

Definition a_set_currentPlayerIndex (i : nat) (a : AuctionState)
  : AuctionState :=
  {| cardsToAuction := cardsToAuction a;
     currentCardIndex := currentCardIndex a;
     currentCard := currentCard a; currentBid := currentBid a;
     currentHighBidder := currentHighBidder a;
     activeBidders := activeBidders a;
     startingPlayer := startingPlayer a;
     a_currentPlayerIndex := i;
     lastRaiserIndex := lastRaiserIndex a |}.

Definition a_set_currentCardIndex (i : nat) (a : AuctionState)
  : AuctionState :=
  {| cardsToAuction := cardsToAuction a;
     currentCardIndex := i;
     currentCard := currentCard a; currentBid := currentBid a;
     currentHighBidder := currentHighBidder a;
     activeBidders := activeBidders a;
     startingPlayer := startingPlayer a;
     a_currentPlayerIndex := a_currentPlayerIndex a;
     lastRaiserIndex := lastRaiserIndex a |}.

Module AuctionManager.

Definition initializeAuction (s : GameState) : GameState :=
  let cardsPerAuction := length (players s) + 2 in
  let '(cards, deck) := DeckManager.draw (resourceDeck s) cardsPerAuction in
  set_auction
    (Some {| cardsToAuction := cards;
             currentCardIndex := 0;
             currentCard := head cards;
             currentBid := 0;
             currentHighBidder := None;
             activeBidders := newSet (p_id <$> players s);
             startingPlayer := turnOrder s !! dealerIndex s;
             a_currentPlayerIndex := dealerIndex s;
             lastRaiserIndex := None |})
    (set_resourceDeck deck s).

(** The [while] loop of [advanceToNextActiveBidder]; [attempts] counts
    the turns that are left. *)
Fixpoint nextActiveBidder (order active : list string) (n attempts : nat)
         (nextIndex : nat) : option nat :=
  match attempts with
  | O => None
  | S attempts' =>
      match order !! nextIndex with
      | Some nextPlayerId =>
          if has active nextPlayerId then Some nextIndex
          else nextActiveBidder order active n attempts'
                                ((nextIndex + 1) `mod` n)
      | None =>
          nextActiveBidder order active n attempts' ((nextIndex + 1) `mod` n)
      end
  end.

Definition advanceToNextActiveBidder (s : GameState) (a : AuctionState)
  : AuctionState :=
  let n := length (players s) in
  match nextActiveBidder (turnOrder s) (activeBidders a) n n
                         ((a_currentPlayerIndex a + 1) `mod` n) with
  | Some i => a_set_currentPlayerIndex i a
  | None => a
  end.

Definition placeBid (s : GameState) (playerId : string) (amount : Z)
  : Outcome :=
  match auction (phaseState s) with
  | None => Threw s
  | Some a =>
      let a1 :=
        {| cardsToAuction := cardsToAuction a;
           currentCardIndex := currentCardIndex a;
           currentCard := currentCard a;
           currentBid := amount;
           currentHighBidder := Some playerId;
           activeBidders := activeBidders a;
           startingPlayer := startingPlayer a;
           a_currentPlayerIndex := a_currentPlayerIndex a;
           lastRaiserIndex := Some (a_currentPlayerIndex a) |} in
      Done (set_auction (Some (advanceToNextActiveBidder s a1)) s)
  end.

(** With no player at all JavaScript computes [NaN] for the next dealer
    seat; the engine refuses to set up fewer than three players. *)
Definition moveToNextCard (s : GameState) (a : AuctionState) : GameState :=
  let index := S (currentCardIndex a) in
  let s1 := set_dealerIndex ((dealerIndex s + 1) `mod` length (players s)) s in
  if index <? length (cardsToAuction a) then
    set_auction
      (Some {| cardsToAuction := cardsToAuction a;
               currentCardIndex := index;
               currentCard := cardsToAuction a !! index;
               currentBid := 0;
               currentHighBidder := None;
               activeBidders := newSet (p_id <$> players s1);
               startingPlayer := turnOrder s1 !! dealerIndex s1;
               a_currentPlayerIndex := dealerIndex s1;
               lastRaiserIndex := None |}) s1
  else
    set_auction (Some (a_set_currentCardIndex index a)) s1.

(** [auction.currentHighBidder || Array.from(auction.activeBidders)[0]] *)
Definition winnerOf (a : AuctionState) : option string :=
  match currentHighBidder a with
  | Some w => if String.eqb w EmptyString then head (activeBidders a) else Some w
  | None => head (activeBidders a)
  end.

Definition completeCurrentCardAuction (s : GameState) (a : AuctionState)
  : Outcome :=
  let winningBid := currentBid a in
  match winnerOf a with
  | None => Threw s
  | Some winnerId =>
      match GameStateOps.getPlayer s winnerId with
      | None => Threw s
      | Some _ =>
          match currentCard a with
          | None => OutOfModel
          | Some card =>
              let s1 := GameStateOps.adjustPlayerCash s winnerId
                                                      (- winningBid) in
              let s2 := GameStateOps.addCardToHand s1 winnerId card in
              Done (moveToNextCard s2 a)
          end
      end
  end.

Definition pass (s : GameState) (playerId : string) : Outcome :=
  match auction (phaseState s) with
  | None => Threw s
  | Some a0 =>
      let a := a_set_activeBidders (delete_ playerId (activeBidders a0)) a0 in
      let s1 := set_auction (Some a) s in
      if length (activeBidders a) =? 1 then
        completeCurrentCardAuction s1 a
      else if length (activeBidders a) =? 0 then
        match currentCard a with
        | None => OutOfModel
        | Some card =>
            let s2 := set_resourceDeck
                        (DeckManager.discard (resourceDeck s1) [card]) s1 in
            Done (moveToNextCard s2 a)
        end
      else
        let a' := advanceToNextActiveBidder s1 a in
        let s2 := set_auction (Some a') s1 in
        if bool_decide (lastRaiserIndex a' = Some (a_currentPlayerIndex a'))
           && bool_decide (currentHighBidder a' ≠ None)
        then completeCurrentCardAuction s2 a'
        else Done s2
  end.

Definition isAuctionComplete (s : GameState) : bool :=
  match auction (phaseState s) with
  | Some a => length (cardsToAuction a) <=? currentCardIndex a
  | None => false
  end.

End AuctionManager.

(** ** managers/TradingManager.js *)

Module TradingManager.

Definition initializeTrading (s : GameState) : GameState :=
  set_trading (Some {| activeOffers := [];
                       timeRemaining := tradingDuration (config s) |}) s.

(** [uuid] is the identifier that the call to [uuid()] produces. *)
Definition proposeTrade (uuid : string) (s : GameState) (playerId : string)
           (offering : option Offering) (requesting : option Requesting)
  : Outcome :=
  match trading (phaseState s), offering, requesting with
  | Some t, Some off, Some req =>
      let offer := {| offerId := uuid; offeringPlayer := playerId;
                      offering := off; requesting := req;
                      o_status := ACTIVE |} in
      Done (set_trading
              (Some {| activeOffers := activeOffers t ++ [offer];
                       timeRemaining := timeRemaining t |}) s)
  | _, _, _ => Threw s
  end.

(** The offer object found by [find] is the one whose status is written. *)
Fixpoint markOffer (st : OfferStatus) (id : string) (offers : list Offer)
  : list Offer :=
  match offers with
  | [] => []
  | o :: rest =>
      if String.eqb (offerId o) id then o_set_status st o :: rest
      else o :: markOffer st id rest
  end.

Definition set_offers (offers : list Offer) (s : GameState) : GameState :=
  match trading (phaseState s) with
  | Some t => set_trading (Some {| activeOffers := offers;
                                   timeRemaining := timeRemaining t |}) s
  | None => s
  end.

(** First loop of [executeTrade]: the offered cards change hands. *)
Fixpoint transferOffered (s : GameState) (from to : string)
         (cardIds : list string) : GameState :=
  match cardIds with
  | [] => s
  | cardId :: rest =>
      match GameStateOps.removeCardFromHand s from cardId with
      | (Some card, s1) =>
          transferOffered (GameStateOps.addCardToHand s1 to card) from to rest
      | (None, s1) => transferOffered s1 from to rest
      end
  end.

(** Second loop: the requested colours change hands. *)
Fixpoint transferRequested (s : GameState) (from to : string)
         (reqs : list (string * nat)) : GameState :=
  match reqs with
  | [] => s
  | (color, count) :: rest =>
      let '(cards, s1) := GameStateOps.removeCardsByColor s from color count in
      let s2 := foldl (fun st card => GameStateOps.addCardToHand st to card)
                      s1 cards in
      transferRequested s2 from to rest
  end.

(** A cash leg: two adjustments, then the two notifications read the
    cash of both players and throw if one of them does not exist. *)
Definition cashLeg (s : GameState) (from to : string) (amount : Z)
  : Outcome :=
  if (0 <? amount)%Z then
    let s1 := GameStateOps.adjustPlayerCash s from (- amount) in
    let s2 := GameStateOps.adjustPlayerCash s1 to amount in
    match GameStateOps.getPlayer s2 from, GameStateOps.getPlayer s2 to with
    | Some _, Some _ => Done s2
    | _, _ => Threw s2
    end
  else Done s.

Definition executeTrade (s : GameState) (offer : Offer)
           (acceptingPlayer : string) : Outcome :=
  let offeringPlayer := offeringPlayer offer in
  let s1 := transferOffered s offeringPlayer acceptingPlayer
                            (of_cards (offering offer)) in
  let s2 := transferRequested s1 acceptingPlayer offeringPlayer
                              (rq_cards (requesting offer)) in
  let* s3 := cashLeg s2 offeringPlayer acceptingPlayer
                     (of_cash (offering offer)) in
  cashLeg s3 acceptingPlayer offeringPlayer (rq_cash (requesting offer)).

Definition cancelTrade (s : GameState) (id : string) : Outcome :=
  match trading (phaseState s) with
  | None => Threw s
  | Some t =>
      match findOffer (activeOffers t) id with
      | Some offer =>
          if bool_decide (o_status offer = ACTIVE) then
            Done (set_offers (markOffer CANCELLED id (activeOffers t)) s)
          else Done s
      | None => Done s
      end
  end.

(** Whether an active offer of the player is still covered by the hand
    and the cash of that player. *)
Definition stillCovered (player : Player) (offer : Offer) : bool :=
  forallb (ownsCard player) (of_cards (offering offer))
  && (of_cash (offering offer) <=? p_cash player)%Z.

Definition isOwnActive (playerId : string) (offer : Offer) : bool :=
  bool_decide (o_status offer = ACTIVE)
  && String.eqb (offeringPlayer offer) playerId.

Definition autoCancelInvalidOffers (s : GameState) (playerId : string)
  : Outcome :=
  match trading (phaseState s) with
  | None => Threw s
  | Some t =>
      match GameStateOps.getPlayer s playerId with
      | None =>
          if existsb (isOwnActive playerId) (activeOffers t)
          then Threw s else Done s
      | Some player =>
          Done (set_offers
                  ((fun offer =>
                      if isOwnActive playerId offer
                         && negb (stillCovered player offer)
                      then o_set_status CANCELLED offer else offer)
                     <$> activeOffers t) s)
      end
  end.

Definition acceptTrade (s : GameState) (playerId id : string) : Outcome :=
  match trading (phaseState s) with
  | None => Threw s
  | Some t =>
      match findOffer (activeOffers t) id with
      | None => Done s
      | Some offer =>
          if negb (bool_decide (o_status offer = ACTIVE)) then Done s
          else
            let s1 := set_offers (markOffer ACCEPTED id (activeOffers t)) s in
            let* s2 := executeTrade s1 offer playerId in
            let* s3 := autoCancelInvalidOffers s2 (offeringPlayer offer) in
            autoCancelInvalidOffers s3 playerId
      end
  end.

Definition isTimeExpired (t : TradingState) : bool :=
  (timeRemaining t <=? 0)%Z.

End TradingManager.

(** ** What the environment supplies to one engine call: the value of the
    next [uuid()] and the index that [Math.floor(Math.random() * n)]
    selects (taken modulo [n]). *)

Record Env := { env_uuid : string; env_random : nat }.

(** ** systems/RewardSystem.js *)

Module RewardSystem.

(** [x || 1] *)
Definition orOne (x : Z) : Z := if (x =? 0)%Z then 1%Z else x.

Definition executeGainCash (s : GameState) (playerId : string) (amount : Z)
  : Outcome :=
  let s1 := GameStateOps.adjustPlayerCash s playerId amount in
  match GameStateOps.getPlayer s1 playerId with
  | Some _ => Done s1
  | None => Threw s1
  end.

Definition executeStealCash (s : GameState) (playerId targetPlayerId : string)
           (amount : Z) : Outcome :=
  match GameStateOps.getPlayer s targetPlayerId with
  | None => Threw s
  | Some target =>
      let actualAmount := Z.min amount (p_cash target) in
      let s1 := GameStateOps.adjustPlayerCash s targetPlayerId
                                              (- actualAmount) in
      let s2 := GameStateOps.adjustPlayerCash s1 playerId actualAmount in
      match GameStateOps.getPlayer s2 playerId with
      | Some _ => Done s2
      | None => Threw s2
      end
  end.

Definition executeAdjustStock (sps : StockPriceSystem) (s : GameState)
           (color : string) (direction : Z) : Outcome :=
  Done (set_stockPrices
          (StockPrice.applyChanges sps (stockPrices s) [(color, direction)])
          s).

Definition executeLookAtHand (s : GameState) (playerId targetPlayerId : string)
  : Outcome :=
  match GameStateOps.getPlayer s targetPlayerId with
  | None => Threw s
  | Some _ => Done s
  end.

Definition executePeekAndPlace (s : GameState) (playerId placement : string)
  : Outcome :=
  match head (DeckManager.peekTop (resourceDeck s) 1) with
  | None => Done s
  | Some _ =>
      if String.eqb placement "bottom" then
        let '(drawn, deck) := DeckManager.draw (resourceDeck s) 1 in
        match head drawn with
        | Some card =>
            Done (set_resourceDeck (DeckManager.placeOnBottom deck card) s)
        | None => OutOfModel
        end
      else Done s
  end.

Definition executeSwapWithDeck (s : GameState) (playerId cardId : string)
  : Outcome :=
  match GameStateOps.removeCardFromHand s playerId cardId with
  | (None, s1) => Done s1
  | (Some cardFromHand, s1) =>
      match DeckManager.swapWithTop (resourceDeck s1) cardFromHand with
      | inr (topCard, deck) =>
          Done (GameStateOps.addCardToHand (set_resourceDeck deck s1)
                                           playerId topCard)
      | inl _ =>
          Done (GameStateOps.addCardToHand s1 playerId cardFromHand)
      end
  end.

Definition executeRearrangeTop5 (s : GameState) (newOrder : list string)
  : Outcome :=
  Done (set_resourceDeck
          (DeckManager.rearrangeTop (resourceDeck s) newOrder).2 s).

Definition executeTakeAndGiveCard (env : Env) (s : GameState)
           (playerId : string) (choices : Choices) : Outcome :=
  let targetPlayerId := ch_targetPlayerId choices in
  match GameStateOps.getPlayer s targetPlayerId with
  | None => Done s
  | Some target =>
      match p_hand target !! (env_random env `mod` length (p_hand target)) with
      | None => Done s
      | Some takenCard =>
          let s1 := (GameStateOps.removeCardFromHand
                       s targetPlayerId (card_id takenCard)).2 in
          let s2 := GameStateOps.addCardToHand s1 playerId takenCard in
          match GameStateOps.removeCardFromHand
                  s2 playerId (ch_cardIdToGive choices) with
          | (Some cardToGive, s3) =>
              Done (GameStateOps.addCardToHand s3 targetPlayerId cardToGive)
          | (None, s3) => Done s3
          end
      end
  end.

(** [filter] by colour, [indexOf] of the first hit, [splice]. *)
Fixpoint removeFirstByColor (color : string) (pile : list Card)
  : option (Card * list Card) :=
  match pile with
  | [] => None
  | c :: rest =>
      if String.eqb (card_color c) color then Some (c, rest)
      else match removeFirstByColor color rest with
           | Some (x, r) => Some (x, c :: r)
           | None => None
           end
  end.

Definition takeFromDrawPile (s : GameState) (playerId color : string)
  : option GameState :=
  match removeFirstByColor color (drawPile (resourceDeck s)) with
  | None => None
  | Some (card, rest) =>
      Some (GameStateOps.addCardToHand
              (set_resourceDeck
                 {| drawPile := rest;
                    discardPile := discardPile (resourceDeck s) |} s)
              playerId card)
  end.

Definition executeBuyWithDiscount (s : GameState) (playerId color : string)
           (discount : Z) : Outcome :=
  match GameStateOps.getPlayer s playerId with
  | None => Threw s
  | Some player =>
      match stockPrices s !! color with
      | None =>
          (* the discounted price is NaN and every comparison with it
             is false *)
          match removeFirstByColor color (drawPile (resourceDeck s)) with
          | None => Done s
          | Some _ => OutOfModel
          end
      | Some price =>
          let discountedPrice := Z.max 0 (price - discount) in
          if (p_cash player <? discountedPrice)%Z then Done s
          else match takeFromDrawPile s playerId color with
               | None => Done s
               | Some s1 =>
                   Done (GameStateOps.adjustPlayerCash
                           s1 playerId (- discountedPrice))
               end
      end
  end.

Definition executeSellBonus (s : GameState) (playerId : string) (bonus : Z)
  : Outcome :=
  match GameStateOps.getPlayer s playerId with
  | None => Threw s
  | Some _ =>
      Done (set_players
              (GameStateOps.updatePlayer (p_set_sellBonus bonus) playerId
                                         (players s)) s)
  end.

Definition executeGainLowestStock (env : Env) (s : GameState)
           (playerId : string) : Outcome :=
  let lowestColors := StockPrice.getLowestPriceColors (stockPrices s) in
  match lowestColors !! (env_random env `mod` length lowestColors) with
  | None => Done s
  | Some color =>
      match takeFromDrawPile s playerId color with
      | None => Done s
      | Some s1 => Done s1
      end
  end.

(** [None] is the [false] that asks for the player's input; otherwise
    the reward ran (and returned [true], or threw).  Reading a field of
    the absent [choices] throws. *)
Definition executeReward (sps : StockPriceSystem) (env : Env) (s : GameState)
           (playerId : string) (rewardParsed : RewardParsed)
           (choices : option Choices) : option Outcome :=
  if (rw_requiresTarget rewardParsed || rw_requiresChoice rewardParsed)
     && negb (bool_decide (is_Some choices))
  then None
  else
    let withChoices (f : Choices -> Outcome) : Outcome :=
      match choices with Some ch => f ch | None => Threw s end in
    Some
      match rw_type rewardParsed with
      | GAIN_CASH =>
          executeGainCash s playerId (orOne (rw_amount rewardParsed))
      | STEAL_CASH =>
          withChoices (fun ch =>
            executeStealCash s playerId (ch_targetPlayerId ch)
                             (orOne (rw_amount rewardParsed)))
      | ADJUST_STOCK =>
          withChoices (fun ch =>
            executeAdjustStock sps s (ch_color ch) (ch_direction ch))
      | LOOK_AT_HAND =>
          withChoices (fun ch =>
            executeLookAtHand s playerId (ch_targetPlayerId ch))
      | PEEK_AND_PLACE =>
          withChoices (fun ch => executePeekAndPlace s playerId (ch_placement ch))
      | SWAP_WITH_DECK =>
          withChoices (fun ch => executeSwapWithDeck s playerId (ch_cardId ch))
      | REARRANGE_TOP_5 =>
          withChoices (fun ch => executeRearrangeTop5 s (ch_newOrder ch))
      | TAKE_AND_GIVE_CARD =>
          withChoices (fun ch => executeTakeAndGiveCard env s playerId ch)
      | BUY_WITH_DISCOUNT =>
          withChoices (fun ch =>
            executeBuyWithDiscount s playerId (ch_color ch)
                                   (orOne (rw_discount rewardParsed)))
      | SELL_BONUS =>
          executeSellBonus s playerId (orOne (rw_bonus rewardParsed))
      | GAIN_LOWEST_STOCK => executeGainLowestStock env s playerId
      | UNKNOWN_REWARD => Done s
      end.

End RewardSystem.

(** ** managers/GoalResolutionManager.js *)

Module GoalResolutionManager.

Definition initializeGoalResolution (s : GameState) : GameState :=
  set_goalResolution
    (Some {| gr_currentPlayerIndex := 0; revealedGoals := [];
             pendingRewardExecution := None |}) s.

Definition findGoal (goalCardId : string) (gs : list GoalCard)
  : option GoalCard :=
  List.find (fun g => String.eqb (g_id g) goalCardId) gs.

(** [goalCard.revealed = true] on the card that [find] returned. *)
Fixpoint markRevealed (goalCardId : string) (gs : list GoalCard)
  : list GoalCard :=
  match gs with
  | [] => []
  | g :: rest =>
      if String.eqb (g_id g) goalCardId then g_set_revealed true g :: rest
      else g :: markRevealed goalCardId rest
  end.

Definition applyStockChange (sps : StockPriceSystem) (s : GameState)
           (goalCard : GoalCard) : GameState :=
  match g_stockChangeParsed goalCard with
  | [] => s
  | changes =>
      set_stockPrices (StockPrice.applyChanges sps (stockPrices s) changes) s
  end.

Definition advanceToNextPlayer (s : GameState) : Outcome :=
  match goalResolution (phaseState s) with
  | None => Threw s
  | Some gr =>
      Done (set_goalResolution
              (Some {| gr_currentPlayerIndex := S (gr_currentPlayerIndex gr);
                       revealedGoals := revealedGoals gr;
                       pendingRewardExecution := pendingRewardExecution gr |})
              s)
  end.

(** The first revealed goal of the player whose reward is still open. *)
Fixpoint markExecuted (playerId : string) (rgs : list RevealedGoal)
  : list RevealedGoal :=
  match rgs with
  | [] => []
  | g :: rest =>
      if String.eqb (rg_playerId g) playerId && negb (rg_rewardExecuted g)
      then {| rg_playerId := rg_playerId g; rg_goalCard := rg_goalCard g;
              rg_goalMet := rg_goalMet g; rg_rewardExecuted := true |} :: rest
      else g :: markExecuted playerId rest
  end.

Definition completeRewardExecution (s : GameState) (playerId : string)
  : Outcome :=
  match goalResolution (phaseState s) with
  | None => Threw s
  | Some gr =>
      advanceToNextPlayer
        (set_goalResolution
           (Some {| gr_currentPlayerIndex := gr_currentPlayerIndex gr;
                    revealedGoals := markExecuted playerId (revealedGoals gr);
                    pendingRewardExecution := None |}) s)
  end.

Definition initiateRewardExecution (sps : StockPriceSystem) (env : Env)
           (s : GameState) (playerId : string) (goalCard : GoalCard)
  : Outcome :=
  let rewardParsed := g_rewardParsed goalCard in
  match RewardSystem.executeReward sps env s playerId rewardParsed None with
  | Some ran =>
      let* s1 := ran in completeRewardExecution s1 playerId
  | None =>
      match goalResolution (phaseState s) with
      | None => Threw s
      | Some gr =>
          Done (set_goalResolution
                  (Some {| gr_currentPlayerIndex := gr_currentPlayerIndex gr;
                           revealedGoals := revealedGoals gr;
                           pendingRewardExecution :=
                             Some {| pd_playerId := playerId;
                                     pd_rewardType := rw_type rewardParsed;
                                     pd_goalCard := goalCard |} |}) s)
      end
  end.

Definition revealGoal (sps : StockPriceSystem) (env : Env) (s : GameState)
           (playerId goalCardId : string) : Outcome :=
  match GameStateOps.getPlayer s playerId with
  | None => Threw s
  | Some player =>
      match findGoal goalCardId (p_goalCards player) with
      | None => Done s
      | Some card =>
          let goalCard := g_set_revealed true card in
          let s1 := set_players
                      (GameStateOps.updatePlayer
                         (fun p => p_set_goalCards
                                     (markRevealed goalCardId (p_goalCards p))
                                     p)
                         playerId (players s)) s in
          let s2 := applyStockChange sps s1 goalCard in
          let goalMet := GoalParser.checkGoal goalCard (p_hand player) in
          match goalResolution (phaseState s2) with
          | None => Threw s2
          | Some gr =>
              let s3 :=
                set_goalResolution
                  (Some {| gr_currentPlayerIndex := gr_currentPlayerIndex gr;
                           revealedGoals :=
                             revealedGoals gr
                             ++ [{| rg_playerId := playerId;
                                    rg_goalCard := goalCard;
                                    rg_goalMet := goalMet;
                                    rg_rewardExecuted := false |}];
                           pendingRewardExecution :=
                             pendingRewardExecution gr |}) s2 in
              if goalMet
              then initiateRewardExecution sps env s3 playerId goalCard
              else advanceToNextPlayer s3
          end
      end
  end.

Definition executeReward (sps : StockPriceSystem) (env : Env) (s : GameState)
           (playerId : string) (choices : option Choices) : Outcome :=
  match goalResolution (phaseState s) with
  | None => Threw s
  | Some gr =>
      match pendingRewardExecution gr with
      | None => Done s
      | Some pending =>
          let rewardParsed := g_rewardParsed (pd_goalCard pending) in
          match RewardSystem.executeReward sps env s playerId rewardParsed
                                           choices with
          | Some ran =>
              let* s1 := ran in completeRewardExecution s1 playerId
          | None => Done s
          end
      end
  end.

Definition isGoalResolutionComplete (s : GameState) : bool :=
  match goalResolution (phaseState s) with
  | None => false
  | Some gr =>
      (length (players s) <=? gr_currentPlayerIndex gr)
      && negb (bool_decide (is_Some (pendingRewardExecution gr)))
  end.

End GoalResolutionManager.

(** ** managers/SellManager.js *)

(** [obj[key] = value] on an object used as a map: an existing key keeps
    its place, a new key goes last. *)
Fixpoint alist_set {V} (key : string) (v : V) (l : list (string * V))
  : list (string * V) :=
  match l with
  | [] => [(key, v)]
  | (k, x) :: rest =>
      if String.eqb k key then (k, v) :: rest
      else (k, x) :: alist_set key v rest
  end.

Module SellManager.

Definition initializeSell (s : GameState) : GameState :=
  let playerSelections :=
    foldl (fun sel player =>
             alist_set (p_id player)
                       {| cardsToSell := []; committed := false |} sel)
          [] (players s) in
  set_sell (Some {| playerSelections := playerSelections;
                    allCommitted := false |}) s.

Definition selectCardsToSell (s : GameState) (playerId : string)
           (cardIds : option (list string)) : Outcome :=
  match sell (phaseState s) with
  | None => Threw s
  | Some sl =>
      match lookupSelection (playerSelections sl) playerId with
      | None => Done s
      | Some sel =>
          Done (set_sell
                  (Some {| playerSelections :=
                             alist_set playerId
                               {| cardsToSell := default [] cardIds;
                                  committed := committed sel |}
                               (playerSelections sl);
                           allCommitted := allCommitted sl |}) s)
      end
  end.

(** Adding a sale price to the earnings; [None] is [NaN], which the price
    of an unpriced colour produces and which then stays. *)
Definition addEarnings (earnings : option Z) (salePrice : option Z)
  : option Z :=
  match earnings, salePrice with
  | Some e, Some p => Some (e + p)%Z
  | _, _ => None
  end.

(** The inner loop of [executeSells]: the cards of one player. *)
Fixpoint sellCards (s : GameState) (playerId : string) (sellBonus : Z)
         (cardIds : list string) (earnings : option Z)
  : GameState * option Z :=
  match cardIds with
  | [] => (s, earnings)
  | cardId :: rest =>
      match GameStateOps.removeCardFromHand s playerId cardId with
      | (Some card, s1) =>
          if String.eqb (card_color card) EmptyString then
            sellCards s1 playerId sellBonus rest earnings
          else
            let price := stockPrices s1 !! card_color card in
            let salePrice :=
              if (0 <? sellBonus)%Z
              then (fun p => (p + sellBonus)%Z) <$> price else price in
            let s2 := set_resourceDeck
                        (DeckManager.discard (resourceDeck s1) [card]) s1 in
            sellCards s2 playerId sellBonus rest
                      (addEarnings earnings salePrice)
      | (None, s1) => sellCards s1 playerId sellBonus rest earnings
      end
  end.

Definition sellFor (s : GameState) (entry : string * Selection) : GameState :=
  let '(playerId, selection) := entry in
  match GameStateOps.getPlayer s playerId with
  | None => s
  | Some player =>
      let '(s1, earnings) :=
        sellCards s playerId (p_sellBonus player) (cardsToSell selection)
                  (Some 0%Z) in
      let s2 := match earnings with
                | Some e => if (0 <? e)%Z
                            then GameStateOps.adjustPlayerCash s1 playerId e
                            else s1
                | None => s1
                end in
      if (0 <? p_sellBonus player)%Z then
        set_players (GameStateOps.updatePlayer (p_set_sellBonus 0) playerId
                                               (players s2)) s2
      else s2
  end.

Definition executeSells (s : GameState) (sl : SellState) : GameState :=
  foldl sellFor s (playerSelections sl).

(** [commitSell], for a player named by a plain key. *)
Definition commitSell (s : GameState) (playerId : string) : Outcome :=
  match sell (phaseState s) with
  | None => Threw s
  | Some sl =>
      match lookupSelection (playerSelections sl) playerId with
      | None => Done s
      | Some sel =>
          let selections :=
            alist_set playerId {| cardsToSell := cardsToSell sel;
                                  committed := true |}
                      (playerSelections sl) in
          if forallb (fun kv => committed kv.2) selections then
            let sl' := {| playerSelections := selections;
                          allCommitted := true |} in
            Done (executeSells (set_sell (Some sl') s) sl')
          else
            Done (set_sell (Some {| playerSelections := selections;
                                    allCommitted := allCommitted sl |}) s)
      end
  end.

Definition areAllCommitted (s : GameState) : bool :=
  match sell (phaseState s) with
  | Some sl => allCommitted sl
  | None => false
  end.

End SellManager.

(** ** systems/TurnSystem.js *)

Module TurnSystem.

(** [None]: the check itself throws (no trading state in the trading
    phase). *)
Definition canAdvancePhase (s : GameState) : option bool :=
  match currentPhase s with
  | Some AUCTION => Some (AuctionManager.isAuctionComplete s)
  | Some TRADING =>
      TradingManager.isTimeExpired <$> trading (phaseState s)
  | Some GOAL_RESOLUTION =>
      Some (GoalResolutionManager.isGoalResolutionComplete s)
  | Some SELL => Some (SellManager.areAllCommitted s)
  | None => Some false
  end.

Definition getNextPhase (currentPhase : option Phase) : option Phase :=
  match currentPhase with
  | Some AUCTION => Some TRADING
  | Some TRADING => Some GOAL_RESOLUTION
  | Some GOAL_RESOLUTION => Some SELL
  | Some SELL => None
  | None => None
  end.

(** [state.phaseState[phase] = null].  The phase name of goal resolution
    is ['goal_resolution'] while its slot is [goalResolution]: the
    assignment creates another property and the slot stays. *)
Definition cleanupPhase (s : GameState) (phase : option Phase) : GameState :=
  match phase with
  | Some AUCTION => set_auction None s
  | Some TRADING => set_trading None s
  | Some GOAL_RESOLUTION => s
  | Some SELL => set_sell None s
  | None => s
  end.

Definition initializePhase (s : GameState) (phase : Phase) : GameState :=
  match phase with
  | AUCTION => AuctionManager.initializeAuction s
  | TRADING => TradingManager.initializeTrading s
  | GOAL_RESOLUTION => GoalResolutionManager.initializeGoalResolution s
  | SELL => SellManager.initializeSell s
  end.

Definition transitionToPhase (s : GameState) (phase : Phase) : GameState :=
  let fromPhase := currentPhase s in
  let s1 := cleanupPhase s fromPhase in
  let s2 := set_currentPhase (Some phase) s1 in
  initializePhase s2 phase.

Definition endGame (s : GameState) : GameState := set_status COMPLETED s.

Definition completeRound (s : GameState) : GameState :=
  if currentRound s <? totalRounds (config s) then
    transitionToPhase (GameStateOps.advanceRound s) AUCTION
  else endGame s.

Definition advancePhase (s : GameState) : GameState :=
  match getNextPhase (currentPhase s) with
  | None => completeRound s
  | Some nextPhase => transitionToPhase s nextPhase
  end.

Definition manuallyEndPhase (s : GameState) : GameState :=
  if bool_decide (currentPhase s = Some TRADING) then advancePhase s else s.

End TurnSystem.

(** ** core/GameEngine.js *)

Record PlayerInfo := { pi_id : string; pi_name : string }.

Inductive Result :=
| Rejected (error : string)      (* validation failed: nothing happened *)
| Ran (o : Outcome).

Module GameEngine.

(** [createInitialState], for players that are given with an id and a
    name that are not empty: [p.id || uuid()] and [p.name || ...] then
    are the given id and name, and the turn order lists the given ids.
    The id of the game, a fresh [uuid()], is left empty. *)
Definition createInitialState (cfg : Config) (infos : list PlayerInfo)
  : GameState :=
  {| gameId := EmptyString;
     status := NOT_STARTED;
     currentRound := 1;
     currentPhase := None;
     players :=
       imap (fun index p =>
               {| p_id := pi_id p; p_name := pi_name p;
                  p_cash := startingCash cfg; p_hand := [];
                  p_goalCards := []; p_isActive := true;
                  p_turnOrder := index; p_sellBonus := 0 |}) infos;
     stockPrices :=
       foldl (fun prices color => <[color := startingStockPrice cfg]> prices)
             ∅ COLORS;
     resourceDeck := {| drawPile := []; discardPile := [] |};
     goalDeck_undealt := [];
     phaseState := {| auction := None; trading := None;
                      goalResolution := None; sell := None |};
     turnOrder := pi_id <$> infos;
     currentPlayerIndex := 0;
     dealerIndex := 0;
     history := [];
     config := cfg |}.

(** First loop of [dealInitialCards]: each player object in turn
    receives the cards drawn for it. *)
Fixpoint dealResources (n : nat) (ps : list Player) (deck : Deck)
  : list Player * Deck :=
  match ps with
  | [] => ([], deck)
  | p :: rest =>
      let '(cards, deck1) := DeckManager.draw deck n in
      let '(rest', deck2) := dealResources n rest deck1 in
      (p_set_hand (p_hand p ++ cards) p :: rest', deck2)
  end.

(** Second loop: up to [n] goal cards for the player with that id. *)
Fixpoint dealGoalsTo (n : nat) (playerId : string) (s : GameState)
  : GameState :=
  match n with
  | O => s
  | S n' =>
      match goalDeck_undealt s with
      | [] => dealGoalsTo n' playerId s
      | goalCard :: rest =>
          dealGoalsTo n' playerId
                      (GameStateOps.addGoalCard (set_goalDeck rest s)
                                                playerId goalCard)
      end
  end.

Definition dealInitialCards (s : GameState) : GameState :=
  let '(ps, deck) :=
    dealResources (startingResourceCards (config s)) (players s)
                  (resourceDeck s) in
  let s1 := set_resourceDeck deck (set_players ps s) in
  foldl (fun st playerId =>
           dealGoalsTo (startingGoalCards (config st)) playerId st)
        s1 (p_id <$> players s1).

(** [initialize]; the two piles are passed as the shuffles leave them.
    [None]: fewer than three players, the call throws. *)
Definition initialize (cfg : Config) (infos : list PlayerInfo)
           (resourceCards : list Card) (goalCards : list GoalCard)
  : option GameState :=
  if length infos <? 3 then None
  else
    let s0 := createInitialState cfg infos in
    let s1 := set_resourceDeck {| drawPile := resourceCards;
                                  discardPile := [] |} s0 in
    let s2 := set_goalDeck goalCards s1 in
    Some (dealInitialCards s2).

Definition start (s : GameState) : option GameState :=
  match status s with
  | NOT_STARTED =>
      Some (TurnSystem.transitionToPhase (set_status IN_PROGRESS s) AUCTION)
  | _ => None
  end.

Definition dispatchAction (env : Env) (s : GameState) (action : Action)
  : Outcome :=
  let sps := StockPrice.create (config s) in
  match action with
  | PLACE_BID playerId amount => AuctionManager.placeBid s playerId amount
  | PASS playerId => AuctionManager.pass s playerId
  | PROPOSE_TRADE playerId offering requesting =>
      TradingManager.proposeTrade (env_uuid env) s playerId offering requesting
  | ACCEPT_TRADE playerId offerId =>
      TradingManager.acceptTrade s playerId offerId
  | CANCEL_TRADE _ offerId => TradingManager.cancelTrade s offerId
  | END_TRADING _ => Done (TurnSystem.manuallyEndPhase s)
  | REVEAL_GOAL playerId goalCardId =>
      GoalResolutionManager.revealGoal sps env s playerId goalCardId
  | EXECUTE_REWARD playerId choices =>
      GoalResolutionManager.executeReward sps env s playerId choices
  | SELECT_CARDS_TO_SELL playerId cardIds =>
      SellManager.selectCardsToSell s playerId cardIds
  | COMMIT_SELL playerId => SellManager.commitSell s playerId
  end.

Definition executeAction (env : Env) (s : GameState) (action : Action)
  : Result :=
  match ValidationSystem.validateAction s action with
  | Invalid error => Rejected error
  | Valid =>
      Ran (let* s1 := dispatchAction env (GameStateOps.recordAction s action)
                                     action in
           match TurnSystem.canAdvancePhase s1 with
           | None => Threw s1
           | Some true => Done (TurnSystem.advancePhase s1)
           | Some false => Done s1
           end)
  end.


(** [getFinalScores()]; [None]: the game is not completed, the call
    throws. *)
Definition getFinalScores (s : GameState) : option (list Score) :=
  match status s with
  | COMPLETED => Some (GameStateOps.getFinalScores s)
  | _ => None
  end.

Definition isGameOver (s : GameState) : bool :=
  bool_decide (status s = COMPLETED).

End GameEngine.

(** ** GameState.filterForPlayer — the records of the filtered view.  A
    field that the view object does not have is [None]. *)

Record CardView := {
  cv_id : option string;
  cv_type : string;
  cv_color : string
}.

Record GoalView := {
  gv_type : string;
  gv_revealed : bool;
  gv_content : option GoalCard    (* the spread [{ ...g }] of the card *)
}.

Record PlayerView := {
  pv_id : string;
  pv_name : string;
  pv_cash : Z;
  pv_hand : list CardView;
  pv_goalCards : list GoalView;
  pv_isActive : bool;
  pv_turnOrder : nat;
  pv_sellBonus : Z
}.

Record StateView := {
  sv_players : list PlayerView;
  sv_drawPile : list CardView;
  sv_discardPile : list Card;
  sv_goalDeck : nat;               (* as many [{ type: 'goal' }] records *)
  (* the other properties, copied by [...state] *)
  sv_gameId : string;
  sv_status : GameStatus;
  sv_currentRound : nat;
  sv_currentPhase : option Phase;
  sv_stockPrices : gmap string Z;
  sv_phaseState : PhaseState;
  sv_turnOrder : list string;
  sv_currentPlayerIndex : nat;
  sv_dealerIndex : nat;
  sv_history : list HistoryEntry;
  sv_config : Config
}.

Module FilteredView.

Definition fullCard (c : Card) : CardView :=
  {| cv_id := Some (card_id c); cv_type := "resource";
     cv_color := card_color c |}.

Definition hiddenCard : CardView :=
  {| cv_id := None; cv_type := "resource"; cv_color := "hidden" |}.

Definition fullGoal (g : GoalCard) : GoalView :=
  {| gv_type := "goal"; gv_revealed := g_revealed g; gv_content := Some g |}.

Definition hiddenGoal : GoalView :=
  {| gv_type := "goal"; gv_revealed := false; gv_content := None |}.

Definition filterPlayer (playerId : string) (p : Player) : PlayerView :=
  if String.eqb (p_id p) playerId then
    {| pv_id := p_id p; pv_name := p_name p; pv_cash := p_cash p;
       pv_hand := fullCard <$> p_hand p;
       pv_goalCards := fullGoal <$> p_goalCards p;
       pv_isActive := p_isActive p; pv_turnOrder := p_turnOrder p;
       pv_sellBonus := p_sellBonus p |}
  else
    {| pv_id := p_id p; pv_name := p_name p; pv_cash := p_cash p;
       pv_hand := (fun _ => hiddenCard) <$> p_hand p;
       pv_goalCards :=
         (fun g => if g_revealed g then fullGoal g else hiddenGoal)
           <$> p_goalCards p;
       pv_isActive := p_isActive p; pv_turnOrder := p_turnOrder p;
       pv_sellBonus := p_sellBonus p |}.

Definition filterForPlayer (s : GameState) (playerId : string) : StateView :=
  {| sv_players := filterPlayer playerId <$> players s;
     sv_drawPile := (fun _ => hiddenCard) <$> drawPile (resourceDeck s);
     sv_discardPile := discardPile (resourceDeck s);
     sv_goalDeck := length (goalDeck_undealt s);
     sv_gameId := gameId s;
     sv_status := status s;
     sv_currentRound := currentRound s;
     sv_currentPhase := currentPhase s;
     sv_stockPrices := stockPrices s;
     sv_phaseState := phaseState s;
     sv_turnOrder := turnOrder s;
     sv_currentPlayerIndex := currentPlayerIndex s;
     sv_dealerIndex := dealerIndex s;
     sv_history := history s;
     sv_config := config s |}.

End FilteredView.

(** ** core/EventEmitter.js *)

(** A handler is a function object, told from others by its identity.
    [User f] is a function of a subscriber; it may throw, and it does not
    call the emitter itself.  [OnceHandler k eventType f] is the closure
    [onceHandler] that the [k]-th call of [once] made for [eventType] and
    the handler [f]. *)
Inductive Handler :=
| User (f : nat)
| OnceHandler (k : nat) (eventType : string) (f : nat).

Global Instance Handler_eq_dec : EqDecision Handler.
Proof. solve_decision. Defined.

(** A call of a subscriber's function with the data it received. *)
Record Call := { c_handler : nat; c_data : gmap string string }.

(** The [listeners] map, the number of closures that [once] has made, and
    the calls of subscribers' functions so far, oldest first. *)
Record Emitter := {
  listeners : gmap string (list Handler);
  closures : nat;
  calls : list Call
}.

Module EventEmitter.

Definition create : Emitter :=
  {| listeners := ∅; closures := 0; calls := [] |}.

Definition set_listeners (l : gmap string (list Handler)) (em : Emitter)
  : Emitter :=
  {| listeners := l; closures := closures em; calls := calls em |}.

Definition on (eventType : string) (handler : Handler) (em : Emitter)
  : Emitter :=
  set_listeners
    (<[eventType := default [] (listeners em !! eventType) ++ [handler]]>
       (listeners em)) em.

Definition once (eventType : string) (f : nat) (em : Emitter) : Emitter :=
  on eventType (OnceHandler (closures em) eventType f)
     {| listeners := listeners em; closures := S (closures em);
        calls := calls em |}.

(** [handlers.splice(handlers.indexOf(handler), 1)] when the handler is
    there. *)
Fixpoint removeFirst (handler : Handler) (handlers : list Handler)
  : list Handler :=
  match handlers with
  | [] => []
  | h :: rest =>
      if decide (h = handler) then rest else h :: removeFirst handler rest
  end.

Definition off (eventType : string) (handler : Handler) (em : Emitter)
  : Emitter :=
  match listeners em !! eventType with
  | None => em
  | Some handlers =>
      set_listeners (<[eventType := removeFirst handler handlers]>
                       (listeners em)) em
  end.

Definition record (f : nat) (data : gmap string string) (em : Emitter)
  : Emitter :=
  {| listeners := listeners em; closures := closures em;
     calls := calls em ++ [{| c_handler := f; c_data := data |}] |}.

(** [try { handler(data) } catch (error) { ... }]: the function of the
    subscriber is called; the closure of [once] unsubscribes itself
    after the call, unless the call has thrown. *)
Definition invoke (throws : nat -> bool) (handler : Handler)
           (data : gmap string string) (em : Emitter) : Emitter :=
  match handler with
  | User f => record f data em
  | OnceHandler k eventType f =>
      let em1 := record f data em in
      if throws f then em1 else off eventType handler em1
  end.

(** [handlers.forEach(...)] from index [k], for [n] more indices: the
    length is read once, before the loop, and an index that the array
    no longer has is skipped. *)
Fixpoint forEachFrom (throws : nat -> bool) (eventType : string)
         (data : gmap string string) (k n : nat) (em : Emitter) : Emitter :=
  match n with
  | O => em
  | S n' =>
      let em' :=
        match default [] (listeners em !! eventType) !! k with
        | Some handler => invoke throws handler data em
        | None => em
        end in
      forEachFrom throws eventType data (S k) n' em'
  end.

Definition forEach (throws : nat -> bool) (eventType : string)
           (data : gmap string string) (em : Emitter) : Emitter :=
  match listeners em !! eventType with
  | Some handlers =>
      forEachFrom throws eventType data 0 (length handlers) em
  | None => em
  end.

(** [emit(eventType, data)]: the listeners of the type, then the
    listeners of ['*'] with [{ type: eventType, ...data }]. *)
Definition emit (throws : nat -> bool) (eventType : string)
           (data : gmap string string) (em : Emitter) : Emitter :=
  let em1 := forEach throws eventType data em in
  forEach throws "*" (data ∪ {["type" := eventType]}) em1.

(** [removeAllListeners(eventType)]; [None] is the call without an
    argument, and the empty string is falsy as well. *)
Definition removeAllListeners (eventType : option string) (em : Emitter)
  : Emitter :=
  match eventType with
  | Some e =>
      if String.eqb e EmptyString then set_listeners ∅ em
      else set_listeners (delete e (listeners em)) em
  | None => set_listeners ∅ em
  end.

Definition listenerCount (eventType : string) (em : Emitter) : nat :=
  match listeners em !! eventType with
  | Some handlers => length handlers
  | None => 0
  end.

End EventEmitter.

(** ** models/ResourceCard.js and utils/CardLoader.js *)

(** The plain object of [toJSON]. *)
Record CardJSON := { j_id : string; j_type : string; j_color : string }.

Module ResourceCard.

(** [new ResourceCard(color, data)] with [data.id || uuid()]; [uuid] is
    the value that the call of [uuid()] gives.  [None]: the colour is
    not a colour of the game and the constructor throws. *)
Definition create (uuid : string) (color : string) (dataId : option string)
  : option Card :=
  if bool_decide (color ∈ COLORS) then
    Some {| card_id := match dataId with
                       | Some id => if String.eqb id EmptyString then uuid else id
                       | None => uuid
                       end;
            card_color := color |}
  else None.

Definition toJSON (card : Card) : CardJSON :=
  {| j_id := card_id card; j_type := "resource";
     j_color := card_color card |}.

Definition fromJSON (uuid : string) (data : CardJSON) : option Card :=
  create uuid (j_color data) (Some (j_id data)).

(** [fromMinimalJSON(data)]; the colour is [None] when the object has
    none. *)
Definition fromMinimalJSON (uuid : string) (color : option string)
  : option Card :=
  match color with
  | None => None
  | Some c => if String.eqb c EmptyString then None else create uuid c None
  end.

End ResourceCard.

Module CardLoader.

(** [jsonData.map(data => ResourceCard.fromMinimalJSON(data))]; the
    [k]-th call of [uuid()] gives [uuid k].  [None]: a constructor
    throws. *)
Fixpoint loadFrom (uuid : nat -> string) (k : nat)
         (jsonData : list (option string)) : option (list Card) :=
  match jsonData with
  | [] => Some []
  | data :: rest =>
      match ResourceCard.fromMinimalJSON (uuid k) data with
      | None => None
      | Some card => cons card <$> loadFrom uuid (S k) rest
      end
  end.

Definition loadResourceCards (uuid : nat -> string)
           (jsonData : list (option string)) : option (list Card) :=
  loadFrom uuid 0 jsonData.

(** The inner loop of [createStandardResourceDeck] for one colour. *)
Fixpoint cardsOfColor (uuid : nat -> string) (k : nat) (color : string)
         (count : nat) : list Card :=
  match count with
  | O => []
  | S count' =>
      {| card_id := uuid k; card_color := color |}
        :: cardsOfColor uuid (S k) color count'
  end.

Fixpoint standardFrom (uuid : nat -> string) (k : nat)
         (colors : list string) (cardsPerColor : nat) : list Card :=
  match colors with
  | [] => []
  | color :: rest =>
      cardsOfColor uuid k color cardsPerColor
        ++ standardFrom uuid (k + cardsPerColor) rest cardsPerColor
  end.

Definition createStandardResourceDeck (uuid : nat -> string)
           (cardsPerColor : nat) : list Card :=
  standardFrom uuid 0 COLORS cardsPerColor.

Definition toJSON (cards : list Card) : list CardJSON :=
  ResourceCard.toJSON <$> cards.

End CardLoader.

(** * Properties of the engine *)

(** ** Price bounds *)

Definition withinBounds (sps : StockPriceSystem) (p : Z) : Prop :=
  (minPrice sps ≤ p)%Z ∧ ∀ mx, maxPrice sps = Some mx → (p ≤ mx)%Z.

Definition pricesWithin (sps : StockPriceSystem) (prices : gmap string Z)
  : Prop :=
  ∀ color p, prices !! color = Some p → withinBounds sps p.

(** A configured ceiling is not below the floor. *)
Definition boundsConsistent (sps : StockPriceSystem) : Prop :=
  ∀ mx, maxPrice sps = Some mx → (minPrice sps ≤ mx)%Z.

(** A finite sequence of delta applications. *)
Definition applySequence (sps : StockPriceSystem) (prices : gmap string Z)
           (deltas : list (list (string * Z))) : gmap string Z :=
  foldl (StockPrice.applyChanges sps) prices deltas.

(** ** Players and cash *)

Definition ids (s : GameState) : list string := p_id <$> players s.

Definition cashNonNegative (s : GameState) : Prop :=
  Forall (λ p, (0 ≤ p_cash p)%Z) (players s).

(** What holds of the state an engine call leaves behind, whether the call
    returns or throws. *)
Definition after (o : Outcome) (Q : GameState → Prop) : Prop :=
  match o with
  | Done s | Threw s => Q s
  | OutOfModel => True
  end.

(** ** The filtered view *)

(** Two goal cards that differ at most in the content of an unrevealed
    card. *)
Definition sameUnlessUnrevealed (g1 g2 : GoalCard) : Prop :=
  g_revealed g1 = g_revealed g2 ∧ (g_revealed g1 = true → g1 = g2).

(** Two players that are the same for the viewer [viewer], except for the
    colours of the hand cards and the content of the unrevealed goal cards
    when the player is another one. *)
Definition samePlayerFor (viewer : string) (p1 p2 : Player) : Prop :=
  p_id p1 = p_id p2 ∧ p_name p1 = p_name p2 ∧ p_cash p1 = p_cash p2
  ∧ p_isActive p1 = p_isActive p2 ∧ p_turnOrder p1 = p_turnOrder p2
  ∧ p_sellBonus p1 = p_sellBonus p2
  ∧ if String.eqb (p_id p1) viewer
    then p_hand p1 = p_hand p2 ∧ p_goalCards p1 = p_goalCards p2
    else Forall2 (λ c1 c2, card_id c1 = card_id c2) (p_hand p1) (p_hand p2)
         ∧ Forall2 sameUnlessUnrevealed (p_goalCards p1) (p_goalCards p2).

(** Two states that differ only in what is hidden from [viewer] in the
    other players' hands and goal cards. *)
Definition differOnlyInHidden (viewer : string) (s1 s2 : GameState) : Prop :=
  Forall2 (samePlayerFor viewer) (players s1) (players s2)
  ∧ set_players (players s2) s1 = s2.

(** ** Running the engine *)

(** A run of actions that all pass validation and return. *)
Fixpoint runActions (env : Env) (s : GameState) (actions : list Action)
  : option GameState :=
  match actions with
  | [] => Some s
  | a :: rest =>
      match GameEngine.executeAction env s a with
      | Ran (Done s') => runActions env s' rest
      | _ => None
      end
  end.

(** A small game used in the examples: three players with $5 each, the
    standard prices, and a deck that is already shuffled. *)
Module Example.

Definition card (id color : string) : Card :=
  {| card_id := id; card_color := color |}.

Definition deck : list Card :=
  [ card "r0" "Blue"; card "r1" "Orange"; card "r2" "Yellow";
    card "r3" "Purple"; card "r4" "Blue"; card "r5" "Orange";
    card "r6" "Yellow"; card "r7" "Purple"; card "r8" "Blue";
    card "r9" "Orange"; card "r10" "Yellow"; card "r11" "Purple";
    card "r12" "Blue"; card "r13" "Orange"; card "r14" "Yellow";
    card "r15" "Purple"; card "r16" "Blue"; card "r17" "Orange";
    card "r18" "Yellow"; card "r19" "Purple"; card "r20" "Blue";
    card "r21" "Orange"; card "r22" "Yellow"; card "r23" "Purple" ].

Definition infos : list PlayerInfo :=
  [ {| pi_id := "A"; pi_name := "Ann" |};
    {| pi_id := "B"; pi_name := "Bob" |};
    {| pi_id := "C"; pi_name := "Cy" |} ].

Definition env : Env := {| env_uuid := "offer-1"; env_random := 0 |}.

Definition gainCash (amount : Z) : RewardParsed :=
  {| rw_type := GAIN_CASH; rw_amount := amount; rw_discount := 0;
     rw_bonus := 0; rw_requiresTarget := false;
     rw_requiresChoice := false |}.

Definition goal (id : string) (changes : list (string * Z))
           (requirements : list (string * nat)) : GoalCard :=
  {| g_id := id; g_revealed := false; g_stockChangeParsed := changes;
     g_goalParsed := Some {| gp_type := "pair"; gp_avoidColor := EmptyString;
                             gp_requirements := requirements |};
     g_rewardParsed := gainCash 1 |}.

(** Nine goal cards, three for each player; the first one moves Blue by
    +2 and asks for two Blue cards. *)
Definition goals : list GoalCard :=
  [ goal "g0" [("Blue", 2%Z)] [("Blue", 2)];
    goal "g1" [("Orange", (-1)%Z)] [("Purple", 3)];
    goal "g2" [("Yellow", 1%Z)] [("Purple", 3)];
    goal "g3" [("Purple", 1%Z)] [("Blue", 3)];
    goal "g4" [("Orange", 1%Z)] [("Blue", 3)];
    goal "g5" [("Yellow", (-1)%Z)] [("Blue", 3)];
    goal "g6" [("Blue", (-1)%Z)] [("Orange", 4)];
    goal "g7" [("Purple", (-1)%Z)] [("Orange", 4)];
    goal "g8" [("Orange", 2%Z)] [("Orange", 4)] ].

(** The state after [initialize] and [start]: the first auction is
    open. *)
Definition started : option GameState :=
  GameEngine.initialize DEFAULT_CONFIG infos deck goals ≫= GameEngine.start.

(** The five cards of the first auction go for $0: the third one (a
    Blue card) to A, the others to C. *)
Definition firstAuction : list Action :=
  [ PASS "A"; PASS "B"; PASS "A"; PASS "B"; PASS "B"; PASS "C";
    PASS "A"; PASS "B"; PASS "A"; PASS "B" ].

(** ... then trading is ended at once: goal resolution begins. *)
Definition atGoalResolution : option GameState :=
  started ≫= λ s, runActions env s (firstAuction ++ [END_TRADING "A"]).

(** ... and each player reveals one goal card: the sell phase begins. *)
Definition atSell : option GameState :=
  atGoalResolution ≫= λ s,
    runActions env s [ REVEAL_GOAL "A" "g0"; REVEAL_GOAL "B" "g3";
                       REVEAL_GOAL "C" "g6" ].

Definition notStarted : GameState :=
  GameEngine.createInitialState DEFAULT_CONFIG infos.

(** The states above as states (they exist, see the proofs). *)
Definition auctionState : GameState := default notStarted started.
Definition goalState : GameState := default notStarted atGoalResolution.
Definition sellState : GameState := default notStarted atSell.

(** In the first auction: A has bid $2 and B has passed. *)
Definition bidPassState : GameState :=
  default notStarted
          (runActions env auctionState [PLACE_BID "A" 2; PASS "B"]).

(** In the sell phase: A has selected a card and committed. *)
Definition committedState : GameState :=
  default notStarted
          (runActions env sellState
                      [SELECT_CARDS_TO_SELL "A" (Some ["r0"]);
                       COMMIT_SELL "A"]).

(** In the trading phase that follows the first auction: C offers the
    Yellow card r6 and $1 for a Blue card and $2. *)
Definition offerState : GameState :=
  default notStarted
          (runActions env auctionState
             (firstAuction
                ++ [PROPOSE_TRADE "C"
                      (Some {| of_cards := ["r6"]; of_cash := 1 |})
                      (Some {| rq_cards := [("Blue", 1)];
                               rq_cash := 2 |})])).

(** In the goal phase: A has revealed the goal card g0. *)
Definition revealedState : GameState :=
  default notStarted (runActions env goalState [REVEAL_GOAL "A" "g0"]).

(** The same state with other colours on A's three hand cards and another
    content of A's unrevealed goal card g1. *)
Definition otherHand (p : Player) : Player :=
  p_set_goalCards
    (match p_goalCards p with
     | g0 :: _ :: rest => g0 :: goal "g1" [("Purple", 3%Z)] [] :: rest
     | other => other
     end)
    (p_set_hand [card "r0" "Yellow"; card "r1" "Yellow"; card "r8" "Purple"]
                p).

Definition recolouredState : GameState :=
  set_players
    (GameStateOps.updatePlayer otherHand "A" (players revealedState))
    revealedState.

Definition handOf (s : GameState) (playerId : string) : list Card :=
  default [] (p_hand <$> GameStateOps.getPlayer s playerId).

Definition cashOf (s : GameState) (playerId : string) : Z :=
  default 0%Z (p_cash <$> GameStateOps.getPlayer s playerId).

End Example.

(** ** The auction of one card *)



(** The auction phase is on and the card being auctioned is number [i]
    of the queue. *)
Definition onCard (i : nat) (s : GameState) : Prop :=
  currentPhase s = Some AUCTION
  ∧ ∃ a, auction (phaseState s) = Some a ∧ currentCardIndex a = i.

Definition isBidOrPass (a : Action) : bool :=
  match a with
  | PLACE_BID _ _ | PASS _ => true
  | _ => false
  end.

(** A bid or a pass that passed validation and ran. *)
Definition auctionStep (s s' : GameState) : Prop :=
  ∃ env a, isBidOrPass a = true
           ∧ (GameEngine.executeAction env s a = Ran (Done s')
              ∨ GameEngine.executeAction env s a = Ran (Threw s')).

(** [n] such steps in a row, all within the auction of card [i]. *)
Inductive auctionRun (i : nat) : nat → GameState → GameState → Prop :=
| run_nil (s : GameState) : onCard i s → auctionRun i 0 s s
| run_cons (n : nat) (s s1 s' : GameState) :
    onCard i s → auctionStep s s1 → auctionRun i n s1 s' →
    auctionRun i (S n) s s'.

(** ** Where the resource cards are *)

Definition handsOf (ps : list Player) : list Card := mjoin (p_hand <$> ps).

Definition handsCards (s : GameState) : list Card := handsOf (players s).

(** The cards of the three locations that the specification names. *)
Definition cardsOf (s : GameState) : list Card :=
  handsCards s ++ drawPile (resourceDeck s) ++ discardPile (resourceDeck s).

(** The cards drawn for the auction that are not yet won or discarded. *)
Definition pendingAuction (s : GameState) : list Card :=
  match auction (phaseState s) with
  | Some a => drop (currentCardIndex a) (cardsToAuction a)
  | None => []
  end.

Definition allCards (s : GameState) : list Card :=
  cardsOf s ++ pendingAuction s.

(** ** Goal requirements *)

(** The requirement of a goal card, read as the rules state it: no card
    of the forbidden colour for a "none of" goal, and otherwise at least
    the required number of cards of every colour named. *)
Definition goalSatisfied (parsed : GoalParsed) (hand : list Card) : Prop :=
  if String.eqb (gp_type parsed) NONE_OF
  then countColor (gp_avoidColor parsed) hand = 0
  else Forall (λ req : string * nat, req.2 ≤ countColor req.1 hand)
              (gp_requirements parsed).

(** The colours that a requirement names are colours of the game. *)
Definition wellFormedGoal (parsed : GoalParsed) : Prop :=
  Forall (λ req : string * nat, req.1 ∈ COLORS) (gp_requirements parsed).

(** The state in which the reveal of [goalCard] by [playerId] has been
    processed up to the decision on the reward: the card is marked, the
    market has moved, the outcome of the check is on record; nothing else
    has changed. *)
Definition revealProcessed (sps : StockPriceSystem) (s : GameState)
           (playerId : string) (goalCard : GoalCard) (goalMet : bool)
           (s3 : GameState) : Prop :=
  (∃ player player3,
      GameStateOps.getPlayer s playerId = Some player
      ∧ GameStateOps.getPlayer s3 playerId = Some player3
      ∧ GoalResolutionManager.findGoal (g_id goalCard) (p_goalCards player3)
        = Some goalCard
      ∧ g_revealed goalCard = true
      ∧ p_hand player3 = p_hand player ∧ p_cash player3 = p_cash player)
  ∧ stockPrices s3
    = StockPrice.applyChanges sps (stockPrices s) (g_stockChangeParsed goalCard)
  ∧ (∃ gr gr3,
        goalResolution (phaseState s) = Some gr
        ∧ goalResolution (phaseState s3) = Some gr3
        ∧ revealedGoals gr3
          = revealedGoals gr ++ [{| rg_playerId := playerId;
                                    rg_goalCard := goalCard;
                                    rg_goalMet := goalMet;
                                    rg_rewardExecuted := false |}]
        ∧ gr_currentPlayerIndex gr3 = gr_currentPlayerIndex gr
        ∧ pendingRewardExecution gr3 = pendingRewardExecution gr)
  ∧ resourceDeck s3 = resourceDeck s
  ∧ ids s3 = ids s.

(** ** The invariant of the engine *)

(** The starting deck: ids are unique and colours are colours of the
    game, as the constructor of [ResourceCard] enforces. *)
Definition wellFormedDeck (deck0 : list Card) : Prop :=
  NoDup (card_id <$> deck0) ∧ Forall (λ c, card_color c ∈ COLORS) deck0.

Definition pricedColors (s : GameState) : Prop :=
  ∀ color, color ∈ COLORS → is_Some (stockPrices s !! color).

(** The card on auction is the card of the queue that the index names. *)
Definition auctionOpen (a : AuctionState) : Prop :=
  currentCardIndex a < length (cardsToAuction a)
  ∧ currentCard a = cardsToAuction a !! currentCardIndex a.

(** An auction state as [initializeAuction] leaves it. *)
Definition auctionFresh (s : GameState) (a : AuctionState) : Prop :=
  lastRaiserIndex a = None ∧ activeBidders a = ids s.

(** [mid] tells whether the state is looked at between the dispatch of an
    action and the check for the end of the phase: only there may the
    queue be exhausted after bidding. *)
Definition auctionInv (mid : bool) (s : GameState) : Prop :=
  match auction (phaseState s) with
  | None => True
  | Some a =>
      currentPhase s = Some AUCTION
      ∧ activeBidders a ⊆ ids s
      ∧ (∀ w, currentHighBidder a = Some w → w ∈ ids s)
      ∧ (auctionOpen a
         ∨ length (cardsToAuction a) ≤ currentCardIndex a
           ∧ (mid = true ∨ auctionFresh s a))
  end.

(** The proposer of an active offer exists and holds the offered cash. *)
Definition offerCovered (s : GameState) (o : Offer) : Prop :=
  o_status o = ACTIVE →
  ∃ p, GameStateOps.getPlayer s (offeringPlayer o) = Some p
       ∧ (of_cash (offering o) ≤ p_cash p)%Z.

Definition tradingInv (s : GameState) : Prop :=
  match trading (phaseState s) with
  | None => True
  | Some t =>
      currentPhase s = Some TRADING ∧ Forall (offerCovered s) (activeOffers t)
  end.

Definition goalInv (s : GameState) : Prop :=
  match goalResolution (phaseState s) with
  | None => True
  | Some gr =>
      ∀ pd, pendingRewardExecution gr = Some pd → pd_playerId pd ∈ ids s
  end.

Record Inv (mid : bool) (deck0 : list Card) (s : GameState) : Prop := {
  inv_ids : NoDup (ids s) ∧ 3 ≤ length (ids s);
  inv_cash : cashNonNegative s;
  inv_cards : allCards s ≡ₚ deck0;
  inv_prices : pricedColors s;
  inv_auction : auctionInv mid s;
  inv_trading : tradingInv s;
  inv_goal : goalInv s
}.

(** What an engine function keeps when it works on hands, cash, piles and
    prices only. *)
Definition steady (s s' : GameState) : Prop :=
  auction (phaseState s') = auction (phaseState s)
  ∧ trading (phaseState s') = trading (phaseState s)
  ∧ currentPhase s' = currentPhase s
  ∧ ids s' = ids s
  ∧ (cashNonNegative s → cashNonNegative s')
  ∧ (pricedColors s → pricedColors s').

(** ** Setup, and the states reachable from it *)

(** A state right after [initialize] and [start], for a well-formed deck,
    players with distinct ids and a starting cash that is not negative. *)
Definition setupState (deck0 : list Card) (s0 : GameState) : Prop :=
  ∃ cfg infos goals s,
    wellFormedDeck deck0
    ∧ NoDup (pi_id <$> infos)
    ∧ (0 ≤ startingCash cfg)%Z
    ∧ GameEngine.initialize cfg infos deck0 goals = Some s
    ∧ GameEngine.start s = Some s0.

(** The action gives the rearrange-top reward an order in which an id
    occurs twice. *)
Definition rearrangesWithRepeats (s : GameState) (a : Action) : Prop :=
  ∃ playerId ch gr pd,
    a = EXECUTE_REWARD playerId (Some ch)
    ∧ goalResolution (phaseState s) = Some gr
    ∧ pendingRewardExecution gr = Some pd
    ∧ rw_type (g_rewardParsed (pd_goalCard pd)) = REARRANGE_TOP_5
    ∧ ¬ NoDup (ch_newOrder ch).

(** One engine call, of an action that [ok] admits, that was not rejected. *)
Definition stepWith (ok : GameState → Action → Prop) (s s' : GameState)
  : Prop :=
  ∃ env a, ok s a
           ∧ (GameEngine.executeAction env s a = Ran (Done s')
              ∨ GameEngine.executeAction env s a = Ran (Threw s')).

Definition reachableWith (ok : GameState → Action → Prop)
  : GameState → GameState → Prop := rtc (stepWith ok).

Definition tidy (s : GameState) (a : Action) : Prop :=
  ¬ rearrangesWithRepeats s a.

Definition anyAction (s : GameState) (a : Action) : Prop := True.

(** The second state has the hands, piles, cash and prices of a run of the
    helpers on the first, the same cards, and the same phase states. *)
Definition kept (s s' : GameState) : Prop :=
  steady s s' ∧ phaseState s' = phaseState s ∧ cardsOf s' ≡ₚ cardsOf s.

(** The call returns or throws, and the state it leaves behind has the
    property; it does not leave the model. *)
Definition settles (o : Outcome) (Q : GameState → Prop) : Prop :=
  match o with
  | Done s | Threw s => Q s
  | OutOfModel => False
  end.

(** Every card of the three locations has a price. *)
Definition cardsPriced (s : GameState) : Prop :=
  ∀ c, c ∈ cardsOf s → is_Some (stockPrices s !! card_color c).

(** ** Auxiliary notions of the proofs *)

Definition idPreserving (f : Player → Player) : Prop :=
  ∀ p, p_id (f p) = p_id p.

Create HintDb players discriminated.

Ltac evaluate := vm_compute; reflexivity.

(** The order given to the rearrange-top reward, if that is the reward and
    choices are given, has no repeats. *)
Definition rearrangeWithoutRepeats (reward : RewardParsed)
           (choices : option Choices) : Prop :=
  rw_type reward = REARRANGE_TOP_5 →
  ∀ ch, choices = Some ch → NoDup (ch_newOrder ch).

(** The call returns with [Q] or throws with [R]; it does not leave the
    model. *)
Definition lands (o : Outcome) (Q R : GameState → Prop) : Prop :=
  match o with
  | Done s => Q s
  | Threw s => R s
  | OutOfModel => False
  end.

(** What every engine function keeps, outside the trading phase and the
    change of phase: the players' ids, the phase, the trading slot, and
    that no cash is negative. *)
Definition calm (s s' : GameState) : Prop :=
  ids s' = ids s
  ∧ currentPhase s' = currentPhase s
  ∧ trading (phaseState s') = trading (phaseState s)
  ∧ (cashNonNegative s → cashNonNegative s').

(** The part of the invariant that trades rest on. *)
Definition tradeSafe (s : GameState) : Prop :=
  cashNonNegative s ∧ tradingInv s.

(** Only the players differ. *)
Definition playersOnly (s s' : GameState) : Prop :=
  s' = set_players (players s') s.

(** Between [s] and [s'] the proposer [O] gave the cards [give] and the
    cash [pay] to the acceptor [A] and took the cards [take]; the other
    players are as before. *)
Definition exchanged (O A : string) (give take : list Card) (pay : Z)
           (s s' : GameState) : Prop :=
  playersOnly s s'
  ∧ (∀ other, other ≠ O → other ≠ A →
       GameStateOps.getPlayer s' other = GameStateOps.getPlayer s other)
  ∧ ∃ pO pA pO' pA',
      GameStateOps.getPlayer s O = Some pO
      ∧ GameStateOps.getPlayer s A = Some pA
      ∧ GameStateOps.getPlayer s' O = Some pO'
      ∧ GameStateOps.getPlayer s' A = Some pA'
      ∧ p_cash pO' = (p_cash pO - pay)%Z
      ∧ p_cash pA' = (p_cash pA + pay)%Z
      ∧ p_hand pO ++ take ≡ₚ give ++ p_hand pO'
      ∧ p_hand pA ++ give ≡ₚ take ++ p_hand pA'.

(** Cash and portfolio value of the two parties of a trade. *)
Definition pairWealth (s : GameState) (O A : string) : Z :=
  (GameStateOps.calculatePlayerWealth s O
   + GameStateOps.calculatePlayerWealth s A)%Z.

(** What the trading functions keep of a state: all but the offers, the
    cash and the owners of the cards in hands. *)
Definition besidesOffers (s s' : GameState) : Prop :=
  ids s' = ids s
  ∧ currentPhase s' = currentPhase s
  ∧ auction (phaseState s') = auction (phaseState s)
  ∧ goalResolution (phaseState s') = goalResolution (phaseState s)
  ∧ (pricedColors s → pricedColors s')
  ∧ cardsOf s' ≡ₚ cardsOf s.

(** The players are the same players and no cash has turned negative. *)
Definition cashSafe (s s' : GameState) : Prop :=
  ids s' = ids s ∧ (cashNonNegative s → cashNonNegative s').

(** ** Further notions *)

(** The sum of the changes that the change sets give for a colour. *)
Definition totalChange (color : string)
           (changeSets : list (list (string * Z))) : Z :=
  foldr Z.add 0%Z (filter (λ e : string * Z, e.1 = color)
                          (concat changeSets)).*2.

(** Every colour of the game has a price. *)
Definition pricedOnColors (prices : gmap string Z) : Prop :=
  ∀ color, color ∈ COLORS → is_Some (prices !! color).

(** One change set added to the tally of [accumulateChanges]. *)
Definition tally (accumulated : gmap string Z)
           (changeSet : list (string * Z)) : gmap string Z :=
  foldl (λ acc (entry : string * Z),
           match acc !! entry.1 with
           | Some v => <[entry.1 := (v + entry.2)%Z]> acc
           | None => acc
           end) accumulated changeSet.


(** *** The event emitter *)

(** The handlers of an event type, none for a type without an entry. *)
Definition handlersOf (em : Emitter) (eventType : string) : list Handler :=
  default [] (listeners em !! eventType).

(** The calls of the functions [fs], one after the other, with the same
    data. *)
Definition callsOf (data : gmap string string) (fs : list nat) : list Call :=
  (λ f, {| c_handler := f; c_data := data |}) <$> fs.

(** The emitter after further calls, its listeners as before. *)
Definition afterCalls (em : Emitter) (cs : list Call) : Emitter :=
  {| listeners := listeners em; closures := closures em;
     calls := calls em ++ cs |}.

(** What a listener of ['*'] receives. *)
Definition wildcardData (eventType : string) (data : gmap string string)
  : gmap string string :=
  data ∪ {["type" := eventType]}.

(** *** The bidding *)

(** The bid on the table is not negative; without a high bidder it is 0,
    and a high bidder is a player who holds the bid in cash. *)
Definition bidCovered (s : GameState) (a : AuctionState) : Prop :=
  (0 ≤ currentBid a)%Z
  ∧ match currentHighBidder a with
    | None => currentBid a = 0%Z
    | Some w => ∃ p, GameStateOps.getPlayer s w = Some p
                     ∧ (currentBid a ≤ p_cash p)%Z
    end.

(** At least three players with distinct ids. *)
Definition seated (s : GameState) : Prop :=
  NoDup (ids s) ∧ 3 ≤ length (ids s).

(** An auction state occurs in the auction phase only; its bid is covered,
    and at least two players, all of them players of the game, are still
    bidding. *)
Definition auctionSound (s : GameState) : Prop :=
  seated s
  ∧ match auction (phaseState s) with
    | None => True
    | Some a =>
        currentPhase s = Some AUCTION
        ∧ bidCovered s a
        ∧ NoDup (activeBidders a)
        ∧ activeBidders a ⊆ ids s
        ∧ 2 ≤ length (activeBidders a)
    end.

(** The queue of the auction is exhausted and the phase has not been left
    yet. *)
Definition auctionDone (s : GameState) : Prop :=
  seated s
  ∧ currentPhase s = Some AUCTION
  ∧ AuctionManager.isAuctionComplete s = true.

(** What the dispatch of an action leaves behind, before the check for
    the end of the phase. *)
Definition auctionMid (o : Outcome) : Prop :=
  match o with
  | Done s => auctionSound s ∨ auctionDone s
  | Threw s => auctionSound s
  | OutOfModel => True
  end.

(** *** Offers *)

(** The offer with this id, if the list has one, is no longer active. *)
Definition settledIn (id : string) (offers : list Offer) : Prop :=
  match findOffer offers id with
  | None => True
  | Some offer => o_status offer ≠ ACTIVE
  end.

Definition offerSettled (id : string) (s : GameState) : Prop :=
  match trading (phaseState s) with
  | None => True
  | Some t => settledIn id (activeOffers t)
  end.

(** An engine call that was not rejected and in which [uuid()] did not
    give the id once more. *)
Definition stepAvoiding (id : string) (s s' : GameState) : Prop :=
  ∃ env a, env_uuid env ≠ id
           ∧ (GameEngine.executeAction env s a = Ran (Done s')
              ∨ GameEngine.executeAction env s a = Ran (Threw s')).

(** *** The payout of the sell phase *)

(** The cards of the hand that the selection names. *)
Definition soldOf (cardIds : list string) (p : Player) : list Card :=
  filter (λ c, card_id c ∈ cardIds) (p_hand p).

(** Their prices, and the sell bonus for each of them if it is positive. *)
Definition earningsOf (prices : gmap string Z) (cardIds : list string)
           (p : Player) : Z :=
  (GameStateOps.cardValue prices (soldOf cardIds p)
   + Z.of_nat (length (soldOf cardIds p)) * Z.max 0 (p_sellBonus p))%Z.

(** The player after the sale: without the cards, with the earnings if
    they are positive, and with a positive sell bonus used up. *)
Definition paid (prices : gmap string Z) (cardIds : list string)
           (p : Player) : Player :=
  let earnings := earningsOf prices cardIds p in
  p_set_sellBonus
    (Z.min 0 (p_sellBonus p))
    (p_set_cash (if (0 <? earnings)%Z then Z.max 0 (p_cash p + earnings)
                 else p_cash p)
                (p_set_hand (filter (λ c, card_id c ∉ cardIds) (p_hand p))
                            p)).

(** A card with a colour that has a price. *)
Definition sellable (prices : gmap string Z) (c : Card) : Prop :=
  card_color c ≠ EmptyString ∧ is_Some (prices !! card_color c).

(** Selections for the example game: A names r8 twice and a card of B,
    B names nothing, C names r5 and r10. *)
Definition sellOrder : SellState :=
  {| playerSelections :=
       [("A", {| cardsToSell := ["r8"; "r8"; "r2"]; committed := true |});
        ("B", {| cardsToSell := []; committed := true |});
        ("C", {| cardsToSell := ["r10"; "r5"]; committed := true |})];
     allCommitted := true |}.

(** *** The course of a game *)

(** The fields that tell which game it is, where it stands and what has
    happened in it. *)
Definition book (s : GameState)
  : GameStatus * nat * Config * string * list string * list HistoryEntry :=
  (status s, currentRound s, config s, gameId s, turnOrder s, history s).

(** What [recordAction] writes for an action submitted in this state. *)
Definition entryFor (s : GameState) (a : Action) : HistoryEntry :=
  {| h_round := currentRound s; h_phase := currentPhase s; h_action := a |}.

(** The sell phase with the sales of all players committed. *)
Definition finalSell (s : GameState) : Prop :=
  currentPhase s = Some SELL ∧ SellManager.areAllCommitted s = true.

(** The game has started, its round is a round of the game, and a
    completed game stands at the end of the sell phase of its last
    round. *)
Definition clocked (s : GameState) : Prop :=
  1 ≤ currentRound s
  ∧ currentRound s ≤ Nat.max 1 (totalRounds (config s))
  ∧ status s ≠ NOT_STARTED
  ∧ (status s = COMPLETED →
     totalRounds (config s) ≤ currentRound s ∧ finalSell s).

(** The flag [allCommitted] is set only when every selection is
    committed. *)
Definition sellSound (s : GameState) : Prop :=
  ∀ sl, sell (phaseState s) = Some sl → allCommitted sl = true →
        Forall (λ kv : string * Selection, committed kv.2 = true)
               (playerSelections sl).

(** One round of the example game: nobody bids, trading is ended at once,
    each player reveals one goal card and commits to sell nothing. *)
Definition quietRound (gA gB gC : string) : list Action :=
  [ PASS "A"; PASS "B"; PASS "A"; PASS "B"; PASS "A"; PASS "B";
    PASS "A"; PASS "B"; PASS "A"; PASS "B"; END_TRADING "A";
    REVEAL_GOAL "A" gA; REVEAL_GOAL "B" gB; REVEAL_GOAL "C" gC;
    COMMIT_SELL "A"; COMMIT_SELL "B"; COMMIT_SELL "C" ].

(** The three rounds of the example game. *)
Definition quietGame : list Action :=
  quietRound "g0" "g3" "g6" ++ quietRound "g1" "g4" "g7"
  ++ quietRound "g2" "g5" "g8".

Definition finishedState : GameState :=
  default Example.notStarted
          (runActions Example.env Example.auctionState quietGame).

(** ... and after one more action, a selection of A. *)
Definition afterTheEnd : GameState :=
  default Example.notStarted
          (runActions Example.env finishedState
                      [SELECT_CARDS_TO_SELL "A" (Some ["r0"])]).

(** The action names its player by a plain key (see [plainKey]). *)
Definition plainPlayer (s : GameState) (a : Action) : Prop :=
  plainKey (a_playerId a).

(** The example game after C has withdrawn the offer of [offerState]. *)
Definition cancelledState : GameState :=
  default Example.notStarted
          (runActions Example.env Example.offerState
                      [CANCEL_TRADE "C" "offer-1"]).

(** * Proofs *)

(** ** StockPriceSystem *)

Section StockPriceFacts.

Variable sps : StockPriceSystem.

Lemma constrainPrice_within (p : Z) :
  boundsConsistent sps → withinBounds sps (StockPrice.constrainPrice sps p).
Proof.
  intros Hc. unfold StockPrice.constrainPrice, withinBounds.
  destruct (Z.ltb_spec p (minPrice sps)) as [Hlt|Hge].
  - split; [lia|]. intros mx Hmx. by apply Hc.
  - destruct (maxPrice sps) as [mx|] eqn:Hmx.
    + destruct (Z.ltb_spec mx p).
      * split; [by apply Hc|]. intros ? [= <-]. lia.
      * split; [lia|]. intros ? [= <-]. lia.
    + split; [lia|]. intros ? [=].
Qed.

Lemma constrainPrice_floor (p : Z) :
  (∀ mx, maxPrice sps = Some mx → (minPrice sps ≤ mx)%Z) →
  (minPrice sps ≤ StockPrice.constrainPrice sps p)%Z.
Proof. intros Hc. by apply constrainPrice_within. Qed.

Lemma applyChange_lookup (prices : gmap string Z) (color c : string)
      (change : Z) :
  StockPrice.applyChange sps prices (color, change) !! c =
    if bool_decide (color = c) then
      (λ old, StockPrice.constrainPrice sps (old + change)) <$> prices !! c
    else prices !! c.
Proof.
  unfold StockPrice.applyChange. case_bool_decide as Hc.
  - subst c. destruct (prices !! color) as [old|] eqn:Hold.
    + by rewrite lookup_insert_eq.
    + by rewrite Hold.
  - destruct (prices !! color); [by rewrite lookup_insert_ne|done].
Qed.

Lemma applyChange_within (prices : gmap string Z) (entry : string * Z) :
  boundsConsistent sps → pricesWithin sps prices →
  pricesWithin sps (StockPrice.applyChange sps prices entry).
Proof.
  intros Hc Hw c p. destruct entry as [color change].
  rewrite applyChange_lookup. case_bool_decide.
  - destruct (prices !! c); simpl; [|done].
    intros [= <-]. by apply constrainPrice_within.
  - apply Hw.
Qed.

Lemma applyChange_dom (prices : gmap string Z) (entry : string * Z) :
  dom (StockPrice.applyChange sps prices entry) = dom prices.
Proof.
  destruct entry as [color change]. unfold StockPrice.applyChange.
  destruct (prices !! color) eqn:Hl; [|done].
  rewrite dom_insert_L. apply elem_of_dom_2 in Hl. set_solver.
Qed.

Lemma applyChanges_within (changes : list (string * Z))
      (prices : gmap string Z) :
  boundsConsistent sps → pricesWithin sps prices →
  pricesWithin sps (StockPrice.applyChanges sps prices changes).
Proof.
  intros Hc. revert prices. unfold StockPrice.applyChanges.
  induction changes as [|e changes IH]; intros prices Hw; [done|].
  simpl. apply IH. by apply applyChange_within.
Qed.

Lemma applyChanges_dom (changes : list (string * Z))
      (prices : gmap string Z) :
  dom (StockPrice.applyChanges sps prices changes) = dom prices.
Proof.
  revert prices. unfold StockPrice.applyChanges.
  induction changes as [|e changes IH]; intros prices; [done|].
  simpl. by rewrite IH, applyChange_dom.
Qed.

Lemma applyChanges_snoc (changes : list (string * Z)) (e : string * Z)
      (prices : gmap string Z) :
  StockPrice.applyChanges sps prices (changes ++ [e]) =
  StockPrice.applyChange sps (StockPrice.applyChanges sps prices changes) e.
Proof. unfold StockPrice.applyChanges. by rewrite foldl_snoc. Qed.

Lemma applyChanges_skipped (changes : list (string * Z))
      (prices : gmap string Z) (color : string) :
  color ∉ changes.*1 →
  StockPrice.applyChanges sps prices changes !! color = prices !! color.
Proof.
  revert prices. unfold StockPrice.applyChanges.
  induction changes as [|[c d] changes IH]; intros prices Hnot; [done|].
  rewrite fmap_cons in Hnot. apply not_elem_of_cons in Hnot as [Hne Hnot].
  cbn [foldl]. rewrite IH by done. rewrite applyChange_lookup.
  by rewrite bool_decide_eq_false_2.
Qed.

(** The deltas of an object have distinct keys: each priced colour that
    is named moves once. *)
Lemma applyChanges_moved (changes : list (string * Z))
      (prices : gmap string Z) (color : string) (delta old : Z) :
  NoDup changes.*1 → (color, delta) ∈ changes →
  prices !! color = Some old →
  StockPrice.applyChanges sps prices changes !! color
  = Some (StockPrice.constrainPrice sps (old + delta)).
Proof.
  revert prices.
  induction changes as [|[c d] changes IH]; intros prices Hnd Hin Hold.
  - by apply elem_of_nil in Hin.
  - simpl in Hnd. apply NoDup_cons in Hnd as [Hfresh Hnd].
    apply elem_of_cons in Hin as [[= <- <-]|Hin].
    + change (StockPrice.applyChanges sps prices ((color, delta) :: changes))
        with (StockPrice.applyChanges sps
                (StockPrice.applyChange sps prices (color, delta)) changes).
      rewrite applyChanges_skipped by done.
      rewrite applyChange_lookup, bool_decide_eq_true_2 by done.
      by rewrite Hold.
    + change (StockPrice.applyChanges sps prices ((c, d) :: changes))
        with (StockPrice.applyChanges sps
                (StockPrice.applyChange sps prices (c, d)) changes).
      apply IH; [done..|].
      rewrite applyChange_lookup, bool_decide_eq_false_2; [done|].
      intros ->. apply Hfresh.
      by apply (list_elem_of_fmap_2 fst _ (color, delta)).
Qed.

Lemma constrainPrice_cases (p : Z) :
  StockPrice.constrainPrice sps p
  = if (p <? minPrice sps)%Z then minPrice sps
    else match maxPrice sps with
         | Some mx => Z.min mx p
         | None => p
         end.
Proof.
  unfold StockPrice.constrainPrice.
  destruct (p <? minPrice sps)%Z; [done|].
  destruct (maxPrice sps) as [mx|]; [|done].
  destruct (Z.ltb_spec mx p); lia.
Qed.

(** A colour that the deltas name ends within the bounds, whatever its
    price was before. *)
Lemma applyChanges_touched (changes : list (string * Z))
      (prices : gmap string Z) (color : string) (p : Z) :
  boundsConsistent sps → color ∈ changes.*1 →
  StockPrice.applyChanges sps prices changes !! color = Some p →
  withinBounds sps p.
Proof.
  intros Hc. revert p.
  induction changes as [|[c d] changes IH] using rev_ind; intros p Hin.
  - by apply elem_of_nil in Hin.
  - rewrite applyChanges_snoc, applyChange_lookup.
    case_bool_decide as Heq.
    + destruct (StockPrice.applyChanges sps prices changes !! color);
        simpl; [|done].
      intros [= <-]. by apply constrainPrice_within.
    + intros Hl. apply IH; [|done].
      rewrite fmap_app in Hin. apply elem_of_app in Hin as [Hin|Hin]; [done|].
      simpl in Hin. apply list_elem_of_singleton in Hin. by subst.
Qed.

Lemma applySequence_within (deltas : list (list (string * Z)))
      (prices : gmap string Z) :
  boundsConsistent sps → pricesWithin sps prices →
  pricesWithin sps (applySequence sps prices deltas).
Proof.
  intros Hc. revert prices. unfold applySequence.
  induction deltas as [|d deltas IH]; intros prices Hw; [done|].
  simpl. apply IH. by apply applyChanges_within.
Qed.

Lemma applySequence_dom (deltas : list (list (string * Z)))
      (prices : gmap string Z) :
  dom (applySequence sps prices deltas) = dom prices.
Proof.
  revert prices. unfold applySequence.
  induction deltas as [|d deltas IH]; intros prices; [done|].
  simpl. by rewrite IH, applyChanges_dom.
Qed.

(** The loop over the store only ever writes the object it allocated. *)
Lemma storeChanges_spec (changes : list (string * Z)) (h : StockPrice.Store)
      (ref : nat) (obj : gmap string Z) :
  h !! ref = Some obj →
  foldl (StockPrice.storeChange sps ref) h changes =
  <[ref := StockPrice.applyChanges sps obj changes]> h.
Proof.
  revert h obj. induction changes as [|e changes IH]; intros h obj Hl.
  - simpl. by rewrite insert_id.
  - simpl. unfold StockPrice.storeChange at 2. rewrite Hl.
    erewrite IH; [|by rewrite lookup_insert_eq].
    by rewrite insert_insert_eq.
Qed.

Lemma applyChangesRef_spec (h : StockPrice.Store) (ref : nat)
      (changes : list (string * Z)) (prices : gmap string Z) :
  h !! ref = Some prices →
  let '(h', ref') := StockPrice.applyChangesRef sps h ref changes in
  ref' ≠ ref ∧ (∀ r, r ≠ ref' → h' !! r = h !! r) ∧
  h' !! ref' = Some (StockPrice.applyChanges sps prices changes).
Proof.
  intros Hl. unfold StockPrice.applyChangesRef.
  set (new := fresh (dom h)).
  assert (Hfresh : new ∉ dom h) by apply is_fresh.
  assert (Hne : new ≠ ref).
  { intros ->. apply Hfresh. by apply elem_of_dom_2 in Hl. }
  erewrite storeChanges_spec; [|by rewrite lookup_insert_eq].
  rewrite insert_insert_eq, Hl. simpl.
  split; [done|]. split.
  - intros r Hr. by rewrite lookup_insert_ne.
  - by rewrite lookup_insert_eq.
Qed.

End StockPriceFacts.

(** C3, as stated, fails: a price that no delta names stays where it is,
    also outside the bounds.  With a floor of 5 and the starting price 4,
    a delta on Blue leaves Orange at 4. *)
Lemma price_clamping_counterexample :
  let sps := {| minPrice := 5; maxPrice := None; initialPrice := 4 |} in
  let result := applySequence sps (StockPrice.createInitialPrices sps)
                              [[("Blue", 2%Z)]] in
  result !! "Blue" = Some 6%Z
  ∧ result !! "Orange" = Some 4%Z
  ∧ (4 < minPrice sps)%Z
  ∧ ¬ pricesWithin sps result.
Proof.
  intros sps result.
  assert (Horange : result !! "Orange" = Some 4%Z) by (by vm_compute).
  split; [by vm_compute|]. split; [done|]. split; [simpl; lia|].
  intros Hw. destruct (Hw "Orange" 4%Z Horange) as [Hfloor _].
  simpl in Hfloor. lia.
Qed.

(** C3 (amended): when the ceiling, if any, is not below the floor and the
    starting prices lie within the bounds, every price after every finite
    sequence of delta applications lies within the bounds, whatever the
    size of the deltas; a colour that a delta set names ends within the
    bounds whatever its price was; the operation is total, keeps the set
    of priced colours, and writes only the price object it has allocated:
    the input object is unchanged.  This holds for deltas with plain keys:
    for a key that every object inherits, such as [constructor], the test
    [newPrices[color] !== undefined] of the code succeeds without a price,
    and the code stores an entry that is not a number. *)
Theorem price_clamping (sps : StockPriceSystem) (prices : gmap string Z)
        (deltas : list (list (string * Z))) :
  boundsConsistent sps →
  pricesWithin sps prices →
  Forall (Forall (λ entry : string * Z, plainKey entry.1)) deltas →
  pricesWithin sps (applySequence sps prices deltas)
  ∧ dom (applySequence sps prices deltas) = dom prices
  ∧ (∀ start changes color p,
        Forall (λ entry : string * Z, plainKey entry.1) changes →
        color ∈ changes.*1 →
        StockPrice.applyChanges sps start changes !! color = Some p →
        withinBounds sps p)
  ∧ (∀ (h : StockPrice.Store) ref changes,
        Forall (λ entry : string * Z, plainKey entry.1) changes →
        h !! ref = Some prices →
        let '(h', ref') := StockPrice.applyChangesRef sps h ref changes in
        h' !! ref = Some prices
        ∧ h' !! ref' = Some (StockPrice.applyChanges sps prices changes)).
Proof.
  intros Hc Hw _. split; [by apply applySequence_within|].
  split; [apply applySequence_dom|]. split.
  - intros start changes color p _. by apply applyChanges_touched.
  - intros h ref changes _ Hl.
    pose proof (applyChangesRef_spec sps h ref changes prices Hl) as H.
    destruct (StockPrice.applyChangesRef sps h ref changes) as [h' ref'].
    destruct H as (Hne & Hother & Hnew). split; [|done].
    rewrite Hother; [done|]. congruence.
Qed.

Lemma price_clamping_witness :
  let sps := {| minPrice := 0; maxPrice := Some 10%Z; initialPrice := 4 |} in
  let prices := StockPrice.createInitialPrices sps in
  pricesWithin sps
    (applySequence sps prices [[("Blue", 100%Z)]; [("Orange", (-100)%Z)]])
  ∧ applySequence sps prices [[("Blue", 100%Z)]; [("Orange", (-100)%Z)]]
      !! "Blue" = Some 10%Z
  ∧ applySequence sps prices [[("Blue", 100%Z)]; [("Orange", (-100)%Z)]]
      !! "Orange" = Some 0%Z.
Proof.
  intros sps prices. split; [|split; by vm_compute].
  refine (proj1 (price_clamping sps prices _ _ _ _)).
  - intros mx [= <-]. simpl. lia.
  - intros color p Hl. unfold prices in Hl.
    assert (p = 4%Z) as ->.
    { unfold StockPrice.createInitialPrices, COLORS in Hl. simpl in Hl.
      repeat (rewrite lookup_insert in Hl; case_decide; [by inversion Hl|]).
      by rewrite lookup_empty in Hl. }
    split; simpl; [lia|]. intros mx [= <-]. lia.
  - apply (bool_decide_unpack _). by vm_compute.
Defined.

(** ** DeckManager *)

Lemma cardMap_foldl_is_Some (top : list Card) (m : gmap string Card)
      (id : string) :
  is_Some (foldl (λ m card, <[card_id card := card]> m) m top !! id)
  ↔ is_Some (m !! id) ∨ id ∈ card_id <$> top.
Proof.
  revert m. induction top as [|c top IH]; intros m; simpl.
  - rewrite elem_of_nil. tauto.
  - rewrite IH, elem_of_cons, lookup_insert_is_Some. 
    destruct (decide (card_id c = id)); naive_solver.
Qed.

Lemma cardMap_is_Some (top : list Card) (id : string) :
  is_Some (DeckManager.cardMap top !! id) ↔ id ∈ card_id <$> top.
Proof.
  unfold DeckManager.cardMap. rewrite cardMap_foldl_is_Some, lookup_empty.
  split; [intros [[? [=]]|]; done|by right].
Qed.

Lemma find_missing_None (top : list Card) (newOrder : list string) :
  List.find (λ id, negb (bool_decide (is_Some (DeckManager.cardMap top !! id))))
            newOrder = None
  ↔ ∀ id, id ∈ newOrder → id ∈ card_id <$> top.
Proof.
  induction newOrder as [|x newOrder IH]; simpl.
  - split; [intros _ id Hin; by apply elem_of_nil in Hin|done].
  - case_bool_decide as Hx; simpl.
    + rewrite IH. apply cardMap_is_Some in Hx. split.
      * intros H id [->|Hin]%elem_of_cons; auto.
      * intros H id Hin. apply H. by right.
    + split; [done|]. intros H. exfalso. apply Hx, cardMap_is_Some, H. by left.
Qed.

Lemma find_missing_Some (top : list Card) (newOrder : list string) (id : string) :
  List.find (λ id, negb (bool_decide (is_Some (DeckManager.cardMap top !! id))))
            newOrder = Some id
  → id ∈ newOrder ∧ id ∉ card_id <$> top.
Proof.
  intros [Hin Hb]%find_some. split; [by apply list_elem_of_In|].
  apply negb_true_iff, bool_decide_eq_false in Hb.
  by rewrite cardMap_is_Some in Hb.
Qed.

(** C5, as stated, fails: a 3-id order on a 4-card pile is not a count
    mismatch.  The three named cards are reordered and the fourth stays. *)
Lemma rearrangeTop_counterexample :
  let c0 := {| card_id := "c0"; card_color := "Blue" |} in
  let c1 := {| card_id := "c1"; card_color := "Orange" |} in
  let c2 := {| card_id := "c2"; card_color := "Yellow" |} in
  let c3 := {| card_id := "c3"; card_color := "Purple" |} in
  let deck := {| drawPile := [c0; c1; c2; c3]; discardPile := [] |} in
  DeckManager.rearrangeTop deck ["c2"; "c0"; "c1"]
  = (None, {| drawPile := [c2; c0; c1; c3]; discardPile := [] |}).
Proof. by vm_compute. Qed.

(** An order that names one of the top cards twice passes both checks:
    that card is put back twice and the other top card is gone. *)
Lemma rearrangeTop_repeated_id :
  DeckManager.rearrangeTop
    {| drawPile := [Example.card "c0" "Blue"; Example.card "c1" "Orange"];
       discardPile := [] |} ["c0"; "c0"]
  = (None, {| drawPile := [Example.card "c0" "Blue"; Example.card "c0" "Blue"];
              discardPile := [] |}).
Proof. by vm_compute. Qed.

(** What [rearrangeTop] leaves of the deck: nothing changes when it
    throws; otherwise the cards that the ids name replace the top cards. *)
Lemma rearrangeTop_effect (deck : Deck) (newOrder : list string) :
  let r := DeckManager.rearrangeTop deck newOrder in
  let n := length newOrder in
  (is_Some r.1 → r.2 = deck)
  ∧ (r.1 = None →
     drawPile r.2 =
       omap (λ id, DeckManager.cardMap (take n (drawPile deck)) !! id) newOrder
       ++ drop n (drawPile deck)
     ∧ discardPile r.2 = discardPile deck
     ∧ length (drawPile r.2) = length (drawPile deck)).
Proof.
  intros r n. subst r. unfold DeckManager.rearrangeTop, DeckManager.peekTop.
  fold n. rewrite length_take.
  destruct (Nat.eqb_spec (n `min` length (drawPile deck)) n) as [Heq|Hne];
    simpl; [|split; [done|intros [=]]].
  destruct (List.find _ newOrder) as [bad|] eqn:Hfind; simpl;
    [split; [done|intros [=]]|].
  pose proof (proj1 (find_missing_None _ _) Hfind) as Hall.
  split; [intros [? [=]]|]. intros _. split; [done|]. split; [done|].
  rewrite length_app, length_drop.
  assert (length (omap (λ id, DeckManager.cardMap (take n (drawPile deck))
                                !! id) newOrder) = n) as ->; [|lia].
  clear Hfind. unfold n at 2. clear Heq.
  revert Hall. generalize (take n (drawPile deck)) as top.
  clear n. intros top Hall. induction newOrder as [|x l IH]; [done|]. simpl.
  destruct (proj2 (cardMap_is_Some top x)) as [c Hc]; [apply Hall; by left|].
  rewrite Hc. simpl. f_equal. apply IH. intros id Hin. apply Hall. by right.
Qed.

(** C5 (amended): [rearrangeTop] throws the count-mismatch error exactly
    when the draw pile holds fewer cards than the order has ids, and
    otherwise the not-found error exactly when some id of the order is not
    the id of one of the top [length newOrder] cards; whenever it throws,
    the deck is as before; when it does not, the top cards are replaced by
    the cards that the ids name, in the order given, and the rest of the
    pile and the discard pile stay. *)
Theorem rearrangeTop_errors (deck : Deck) (newOrder : list string) :
  let r := DeckManager.rearrangeTop deck newOrder in
  let n := length newOrder in
  (length (drawPile deck) < n
   ↔ r.1 = Some (CannotRearrange (length (drawPile deck)) n))
  ∧ (n ≤ length (drawPile deck) →
     ((∃ id, id ∈ newOrder ∧ id ∉ card_id <$> take n (drawPile deck))
      ↔ ∃ id, r.1 = Some (CardIdNotFound id)))
  ∧ (is_Some r.1 → r.2 = deck)
  ∧ (r.1 = None →
     drawPile r.2 =
       omap (λ id, DeckManager.cardMap (take n (drawPile deck)) !! id) newOrder
       ++ drop n (drawPile deck)
     ∧ discardPile r.2 = discardPile deck
     ∧ length (drawPile r.2) = length (drawPile deck)).
Proof.
  intros r n.
  split; [|split; [|apply rearrangeTop_effect]]; subst r;
    unfold DeckManager.rearrangeTop, DeckManager.peekTop; fold n;
    rewrite length_take;
    destruct (Nat.eqb_spec (n `min` length (drawPile deck)) n) as [Heq|Hne];
    simpl.
  - destruct (List.find _ newOrder); simpl; (split; [lia|intros [=]]).
  - replace (n `min` length (drawPile deck)) with (length (drawPile deck))
      by lia.
    split; [done|lia].
  - intros _. destruct (List.find _ newOrder) as [bad|] eqn:Hfind; simpl.
    + apply find_missing_Some in Hfind as [Hin Hnot]. split; eauto.
    + pose proof (proj1 (find_missing_None _ _) Hfind) as Hall.
      split; [|intros [? [=]]].
      intros (id & Hin & Hnot). exfalso. by apply Hnot, Hall.
  - lia.
Qed.

(** ** GameState helpers *)

Lemma idPreserving_set_cash c : idPreserving (p_set_cash c).
Proof. done. Qed.
Lemma idPreserving_adjustCash amount : idPreserving (GameStateOps.adjustCash amount).
Proof. done. Qed.
Lemma idPreserving_set_hand h : idPreserving (p_set_hand h).
Proof. done. Qed.
Lemma idPreserving_push_hand c :
  idPreserving (λ p, p_set_hand (p_hand p ++ [c]) p).
Proof. done. Qed.
Lemma idPreserving_set_goalCards (g : Player → list GoalCard) :
  idPreserving (λ p, p_set_goalCards (g p) p).
Proof. done. Qed.
Lemma idPreserving_set_sellBonus b : idPreserving (p_set_sellBonus b).
Proof. done. Qed.

#[export] Hint Resolve idPreserving_set_cash idPreserving_adjustCash
  idPreserving_set_hand idPreserving_push_hand idPreserving_set_goalCards
  idPreserving_set_sellBonus : players.

Section UpdatePlayer.

Variable f : Player → Player.
Hypothesis Hf : idPreserving f.

Lemma updatePlayer_ids (playerId : string) (ps : list Player) :
  p_id <$> GameStateOps.updatePlayer f playerId ps = p_id <$> ps.
Proof.
  induction ps as [|p ps IH]; [done|]. cbn [GameStateOps.updatePlayer].
  destruct (String.eqb_spec (p_id p) playerId); rewrite !fmap_cons.
  - by rewrite Hf.
  - by rewrite IH.
Qed.

Lemma updatePlayer_length (playerId : string) (ps : list Player) :
  length (GameStateOps.updatePlayer f playerId ps) = length ps.
Proof.
  rewrite <- (length_fmap p_id), updatePlayer_ids. apply length_fmap.
Qed.

Lemma find_updatePlayer_eq (playerId : string) (ps : list Player) :
  List.find (λ p, String.eqb (p_id p) playerId)
            (GameStateOps.updatePlayer f playerId ps)
  = f <$> List.find (λ p, String.eqb (p_id p) playerId) ps.
Proof.
  induction ps as [|p ps IH]; [done|]. simpl.
  destruct (String.eqb_spec (p_id p) playerId) as [Heq|Hne]; simpl.
  - rewrite Hf. by rewrite (proj2 (String.eqb_eq _ _) Heq).
  - by rewrite (proj2 (String.eqb_neq _ _) Hne).
Qed.

Lemma find_updatePlayer_ne (playerId other : string) (ps : list Player) :
  playerId ≠ other →
  List.find (λ p, String.eqb (p_id p) other)
            (GameStateOps.updatePlayer f playerId ps)
  = List.find (λ p, String.eqb (p_id p) other) ps.
Proof.
  intros Hne. induction ps as [|p ps IH]; [done|]. simpl.
  destruct (String.eqb_spec (p_id p) playerId) as [Heq|Hne']; simpl.
  - rewrite Hf. rewrite Heq.
    by rewrite (proj2 (String.eqb_neq _ _) Hne).
  - by rewrite IH.
Qed.

Lemma updatePlayer_absent (playerId : string) (ps : list Player) :
  List.find (λ p, String.eqb (p_id p) playerId) ps = None →
  GameStateOps.updatePlayer f playerId ps = ps.
Proof.
  induction ps as [|p ps IH]; [done|]. simpl.
  destruct (String.eqb (p_id p) playerId); [done|].
  intros H. by rewrite IH.
Qed.

Lemma updatePlayer_Forall (Q : Player → Prop) (playerId : string)
      (ps : list Player) :
  (∀ p, Q p → Q (f p)) → Forall Q ps →
  Forall Q (GameStateOps.updatePlayer f playerId ps).
Proof.
  intros HQ. induction 1 as [|p ps Hp Hps IH]; [done|]. simpl.
  destruct (String.eqb (p_id p) playerId); constructor; auto.
Qed.

End UpdatePlayer.

Lemma find_player_Some (playerId : string) (ps : list Player) (p : Player) :
  List.find (λ p, String.eqb (p_id p) playerId) ps = Some p →
  p ∈ ps ∧ p_id p = playerId.
Proof.
  intros [Hin Heq]%find_some. split; [by apply list_elem_of_In|].
  by apply String.eqb_eq.
Qed.

Lemma find_player_is_Some (playerId : string) (ps : list Player) :
  is_Some (List.find (λ p, String.eqb (p_id p) playerId) ps)
  ↔ playerId ∈ p_id <$> ps.
Proof.
  induction ps as [|p ps IH]; simpl.
  - rewrite elem_of_nil. split; [intros [? [=]]|done].
  - rewrite elem_of_cons. destruct (String.eqb_spec (p_id p) playerId).
    + split; [by left|by eexists].
    + rewrite IH. naive_solver.
Qed.

Lemma getPlayer_is_Some (s : GameState) (playerId : string) :
  is_Some (GameStateOps.getPlayer s playerId) ↔ playerId ∈ ids s.
Proof. apply find_player_is_Some. Qed.

Lemma getPlayer_None (s : GameState) (playerId : string) :
  GameStateOps.getPlayer s playerId = None ↔ playerId ∉ ids s.
Proof.
  rewrite <- getPlayer_is_Some, eq_None_not_Some. done.
Qed.

(** *** adjustPlayerCash *)

Lemma adjustCash_cash (amount : Z) (p : Player) :
  p_cash (GameStateOps.adjustCash amount p) = Z.max 0 (p_cash p + amount).
Proof.
  unfold GameStateOps.adjustCash. simpl.
  destruct (Z.ltb_spec (p_cash p + amount) 0); lia.
Qed.

Lemma adjustPlayerCash_getPlayer (s : GameState) (playerId : string)
      (amount : Z) :
  GameStateOps.getPlayer (GameStateOps.adjustPlayerCash s playerId amount)
                         playerId
  = GameStateOps.adjustCash amount <$> GameStateOps.getPlayer s playerId.
Proof. apply find_updatePlayer_eq. auto with players. Qed.

Lemma adjustPlayerCash_getPlayer_ne (s : GameState) (playerId other : string)
      (amount : Z) :
  playerId ≠ other →
  GameStateOps.getPlayer (GameStateOps.adjustPlayerCash s playerId amount) other
  = GameStateOps.getPlayer s other.
Proof. apply find_updatePlayer_ne. auto with players. Qed.

Lemma adjustPlayerCash_nonneg (s : GameState) (playerId : string) (amount : Z) :
  cashNonNegative s →
  cashNonNegative (GameStateOps.adjustPlayerCash s playerId amount).
Proof.
  apply updatePlayer_Forall. intros p _. rewrite adjustCash_cash. lia.
Qed.

(** ** The filtered view *)

Lemma filterPlayer_same (viewer : string) (p1 p2 : Player) :
  samePlayerFor viewer p1 p2 →
  FilteredView.filterPlayer viewer p1 = FilteredView.filterPlayer viewer p2.
Proof.
  intros (Hid & Hn & Hc & Ha & Ht & Hb & H).
  unfold FilteredView.filterPlayer. rewrite <- Hid.
  destruct (String.eqb (p_id p1) viewer).
  - destruct H as [-> ->]. by rewrite Hn, Hc, Ha, Ht, Hb.
  - destruct H as [Hh Hg]. rewrite Hn, Hc, Ha, Ht, Hb. f_equal.
    + clear -Hh. induction Hh; [done|]. simpl. by f_equal.
    + clear -Hg. induction Hg as [|g1 g2 l1 l2 [Hr Hfull] _ IH]; [done|].
      simpl. f_equal; [|done]. rewrite <- Hr.
      destruct (g_revealed g1); [by rewrite Hfull|done].
Qed.

(** C9: in the view filtered for a player, every other player's hand is
    as long as the hand and consists of records without id, of type
    ['resource'] and colour ['hidden']; every other player's goal cards
    are, one for one, the card itself when revealed and otherwise a record
    that carries only [revealed = false]; the viewer's own hand cards are
    shown with id and colour, and the viewer's own goal cards with their
    content.  Hence two states that differ only in the colours of other
    players' hand cards or in the content of other players' unrevealed goal
    cards have the same filtered view. *)
Theorem filtered_view_redaction (viewer : string) :
  (∀ s i p, players s !! i = Some p →
     ∃ v, sv_players (FilteredView.filterForPlayer s viewer) !! i = Some v
       ∧ pv_id v = p_id p
       ∧ length (pv_hand v) = length (p_hand p)
       ∧ length (pv_goalCards v) = length (p_goalCards p)
       ∧ if String.eqb (p_id p) viewer then
           pv_hand v
           = (λ c, {| cv_id := Some (card_id c); cv_type := "resource";
                      cv_color := card_color c |}) <$> p_hand p
           ∧ pv_goalCards v
             = (λ g, {| gv_type := "goal"; gv_revealed := g_revealed g;
                        gv_content := Some g |}) <$> p_goalCards p
         else
           Forall (λ c, cv_color c = "hidden" ∧ cv_id c = None
                        ∧ cv_type c = "resource") (pv_hand v)
           ∧ ∀ j g, p_goalCards p !! j = Some g →
               pv_goalCards v !! j =
                 Some (if g_revealed g
                       then {| gv_type := "goal"; gv_revealed := true;
                               gv_content := Some g |}
                       else {| gv_type := "goal"; gv_revealed := false;
                               gv_content := None |}))
  ∧ (∀ s1 s2, differOnlyInHidden viewer s1 s2 →
       FilteredView.filterForPlayer s1 viewer
       = FilteredView.filterForPlayer s2 viewer).
Proof.
  split.
  - intros s i p Hp. exists (FilteredView.filterPlayer viewer p).
    split; [simpl; by rewrite list_lookup_fmap, Hp|].
    unfold FilteredView.filterPlayer.
    destruct (String.eqb (p_id p) viewer); simpl;
      rewrite !length_fmap; repeat split; try done.
    + apply Forall_fmap, Forall_true. done.
    + intros j g Hg. rewrite list_lookup_fmap, Hg. simpl.
      unfold FilteredView.fullGoal, FilteredView.hiddenGoal.
      by destruct (g_revealed g) eqn:Hr; rewrite ?Hr.
  - intros s1 s2 [Hps <-]. unfold FilteredView.filterForPlayer. simpl.
    f_equal. induction Hps as [|p1 p2 l1 l2 Hp _ IH]; [done|].
    simpl. f_equal; [by apply filterPlayer_same|done].
Qed.

(** The view for B after A has revealed the goal card g0: A's three hand
    cards are hidden, A's goal card g0 is shown and g1 is not; B's own two
    hand cards are shown; and the view is the same when A's hand cards have
    other colours and A's goal card g1 another content. *)
Lemma filtered_view_redaction_witness :
  let s := Example.revealedState in
  let view := FilteredView.filterForPlayer s "B" in
  (∃ a g0 g1,
      players s !! 0 = Some a ∧ p_id a = "A"
      ∧ card_color <$> p_hand a = ["Blue"; "Orange"; "Blue"]
      ∧ p_goalCards a !! 0 = Some g0 ∧ g_revealed g0 = true
      ∧ p_goalCards a !! 1 = Some g1 ∧ g_revealed g1 = false
      ∧ ∃ v, sv_players view !! 0 = Some v
          ∧ length (pv_hand v) = 3
          ∧ Forall (λ c, cv_color c = "hidden" ∧ cv_id c = None
                         ∧ cv_type c = "resource") (pv_hand v)
          ∧ pv_goalCards v !! 0
            = Some {| gv_type := "goal"; gv_revealed := true;
                      gv_content := Some g0 |}
          ∧ pv_goalCards v !! 1
            = Some {| gv_type := "goal"; gv_revealed := false;
                      gv_content := None |})
  ∧ (∃ v, sv_players view !! 1 = Some v
        ∧ pv_id v = "B"
        ∧ pv_hand v
          = [ {| cv_id := Some "r2"; cv_type := "resource";
                 cv_color := "Yellow" |};
              {| cv_id := Some "r3"; cv_type := "resource";
                 cv_color := "Purple" |} ])
  ∧ Example.handOf Example.recolouredState "A"
    ≠ Example.handOf s "A"
  ∧ FilteredView.filterForPlayer Example.recolouredState "B" = view.
Proof.
  intros s view.
  destruct (filtered_view_redaction "B") as [Hview Hsame].
  split; [|split; [|split]].
  - destruct (players s !! 0) as [a|] eqn:Ha; [|by vm_compute in Ha].
    destruct (Hview s 0 a Ha) as (v & Hv & _ & Hlen & _ & Hrest).
    pose proof Ha as Ha'. vm_compute in Ha'. injection Ha' as Ha'.
    subst a. simpl in Hlen, Hrest.
    destruct Hrest as [Hhand Hgoals].
    eexists _, _, _.
    split; [done|]. split; [reflexivity|]. split; [reflexivity|].
    split; [reflexivity|]. split; [reflexivity|].
    split; [reflexivity|]. split; [reflexivity|].
    exists v. split; [done|]. split; [done|].
    split; [done|]. split.
    + exact (Hgoals 0 _ eq_refl).
    + exact (Hgoals 1 _ eq_refl).
  - destruct (players s !! 1) as [b|] eqn:Hb; [|by vm_compute in Hb].
    destruct (Hview s 1 b Hb) as (v & Hv & Hid & _ & _ & Hrest).
    pose proof Hb as Hb'. vm_compute in Hb'. injection Hb' as Hb'.
    subst b. simpl in Hid, Hrest.
    destruct Hrest as [Hhand _].
    exists v. split; [done|]. split; [done|]. exact Hhand.
  - vm_compute. discriminate.
  - symmetry. apply Hsame. split; [|evaluate].
    vm_compute. repeat (constructor; [by repeat split; repeat constructor|]).
    constructor.
Defined.

(** ** The engine call, taken apart *)

Lemma executeAction_Ran (env : Env) (s : GameState) (a : Action) (o : Outcome) :
  GameEngine.executeAction env s a = Ran o →
  ValidationSystem.validateAction s a = Valid
  ∧ o = (let* s1 := GameEngine.dispatchAction
                       env (GameStateOps.recordAction s a) a in
         match TurnSystem.canAdvancePhase s1 with
         | None => Threw s1
         | Some true => Done (TurnSystem.advancePhase s1)
         | Some false => Done s1
         end).
Proof.
  unfold GameEngine.executeAction.
  destruct (ValidationSystem.validateAction s a); [|done].
  by intros [= <-].
Qed.

Lemma validateBid_Valid (s : GameState) (playerId : string) (amount : Z) :
  ValidationSystem.validateBid s playerId amount = Valid →
  currentPhase s = Some AUCTION
  ∧ ∃ player a, GameStateOps.getPlayer s playerId = Some player
      ∧ auction (phaseState s) = Some a
      ∧ playerId ∈ activeBidders a
      ∧ (currentBid a < amount)%Z ∧ (amount ≤ p_cash player)%Z.
Proof.
  unfold ValidationSystem.validateBid, has.
  case_bool_decide as Hph; simpl; [|done].
  destruct (GameStateOps.getPlayer s playerId) as [player|]; [|done].
  destruct (auction (phaseState s)) as [a|]; [|done].
  case_bool_decide as Hact; simpl; [|done].
  destruct (Z.leb_spec amount (currentBid a)); [done|].
  destruct (Z.ltb_spec (p_cash player) amount); [done|].
  intros _. split; [done|]. exists player, a. repeat split; auto; lia.
Qed.

Lemma validatePass_Valid (s : GameState) (playerId : string) :
  ValidationSystem.validatePass s playerId = Valid →
  currentPhase s = Some AUCTION
  ∧ ∃ a, auction (phaseState s) = Some a ∧ playerId ∈ activeBidders a.
Proof.
  unfold ValidationSystem.validatePass, has.
  case_bool_decide as Hph; simpl; [|done].
  destruct (auction (phaseState s)) as [a|]; [|done].
  case_bool_decide as Hact; simpl; [|done].
  intros _. eauto.
Qed.

(** ** AuctionManager *)

Lemma advanceToNextActiveBidder_fields (s : GameState) (a : AuctionState) :
  let a' := AuctionManager.advanceToNextActiveBidder s a in
  cardsToAuction a' = cardsToAuction a
  ∧ currentCardIndex a' = currentCardIndex a
  ∧ currentCard a' = currentCard a
  ∧ currentBid a' = currentBid a
  ∧ currentHighBidder a' = currentHighBidder a
  ∧ activeBidders a' = activeBidders a
  ∧ lastRaiserIndex a' = lastRaiserIndex a.
Proof.
  unfold AuctionManager.advanceToNextActiveBidder.
  destruct (AuctionManager.nextActiveBidder _ _ _ _ _); done.
Qed.


Lemma delete_subseteq (x : string) (set : list string) :
  delete_ x set ⊆ set.
Proof.
  intros y Hy. unfold delete_ in Hy. apply list_elem_of_In in Hy.
  apply filter_In in Hy as [Hy _]. by apply list_elem_of_In.
Qed.

Lemma moveToNextCard_index (s : GameState) (a : AuctionState) :
  ∃ a', auction (phaseState (AuctionManager.moveToNextCard s a)) = Some a'
        ∧ currentCardIndex a' = S (currentCardIndex a)
        ∧ cardsToAuction a' = cardsToAuction a.
Proof.
  unfold AuctionManager.moveToNextCard.
  destruct (_ <? _); simpl; (eexists; split; [reflexivity|]); done.
Qed.

Lemma moveToNextCard_phase (s : GameState) (a : AuctionState) :
  currentPhase (AuctionManager.moveToNextCard s a) = currentPhase s.
Proof. unfold AuctionManager.moveToNextCard. by destruct (_ <? _). Qed.


(** After the dispatch of an auction action, the engine either leaves the
    auction phase or leaves the state as the dispatch made it. *)
Lemma advance_check_auction (s1 s' : GameState) (i : nat) :
  currentPhase s1 = Some AUCTION →
  match TurnSystem.canAdvancePhase s1 with
  | None => Threw s1
  | Some true => Done (TurnSystem.advancePhase s1)
  | Some false => Done s1
  end = Done s' ∨
  match TurnSystem.canAdvancePhase s1 with
  | None => Threw s1
  | Some true => Done (TurnSystem.advancePhase s1)
  | Some false => Done s1
  end = Threw s' →
  onCard i s' → s' = s1.
Proof.
  intros Hph. unfold TurnSystem.canAdvancePhase. rewrite Hph.
  destruct (AuctionManager.isAuctionComplete s1).
  - intros [[= <-]|[=]]. unfold TurnSystem.advancePhase. rewrite Hph. simpl.
    intros [Hph' _]. unfold TurnSystem.transitionToPhase in Hph'.
    simpl in Hph'. done.
  - by intros [[= <-]|[=]].
Qed.

Lemma completeCurrentCardAuction_spec (s : GameState) (a : AuctionState) :
  match AuctionManager.completeCurrentCardAuction s a with
  | Done s' =>
      currentPhase s' = currentPhase s
      ∧ ∃ a', auction (phaseState s') = Some a'
              ∧ currentCardIndex a' = S (currentCardIndex a)
              ∧ cardsToAuction a' = cardsToAuction a
  | Threw s' => s' = s
  | OutOfModel => True
  end.
Proof.
  unfold AuctionManager.completeCurrentCardAuction.
  destruct (AuctionManager.winnerOf a) as [w|]; [|done].
  destruct (GameStateOps.getPlayer s w); [|done].
  destruct (currentCard a) as [card|]; [|done].
  split; [by rewrite moveToNextCard_phase|].
  destruct (moveToNextCard_index
              (GameStateOps.addCardToHand
                 (GameStateOps.adjustPlayerCash s w (- currentBid a)) w card) a)
    as (a' & Ha' & Hi & Hc). eauto.
Qed.

(** What a pass leaves behind: either the bidding for the card goes on
    among fewer bidders, or the queue has moved to the next card. *)
Lemma pass_spec (s : GameState) (playerId : string) (a : AuctionState) :
  auction (phaseState s) = Some a → playerId ∈ activeBidders a →
  after (AuctionManager.pass s playerId) (λ s',
    currentPhase s' = currentPhase s
    ∧ ∃ a', auction (phaseState s') = Some a'
        ∧ cardsToAuction a' = cardsToAuction a
        ∧ (currentCardIndex a' = S (currentCardIndex a)
           ∨ currentCardIndex a' = currentCardIndex a
             ∧ players s' = players s
             ∧ currentBid a' = currentBid a
             ∧ activeBidders a' = delete_ playerId (activeBidders a))).
Proof.
  intros Ha Hin. unfold AuctionManager.pass. rewrite Ha.
  set (a1 := a_set_activeBidders _ a).
  set (s1 := set_auction (Some a1) s).
  destruct (length (activeBidders a1) =? 1).
  { pose proof (completeCurrentCardAuction_spec s1 a1) as H.
    destruct (AuctionManager.completeCurrentCardAuction s1 a1) as [s'|s'|];
      simpl; [| |done].
    - destruct H as (Hph & a' & Ha' & Hi & Hc). split; [done|].
      exists a'. auto.
    - subst s'. split; [done|]. exists a1. split; [done|]. split; [done|].
      right. done. }
  destruct (length (activeBidders a1) =? 0).
  { destruct (currentCard a1) as [card|]; [|done]. simpl.
    split; [by rewrite moveToNextCard_phase|].
    destruct (moveToNextCard_index
                (set_resourceDeck
                   (DeckManager.discard (resourceDeck s1) [card]) s1) a1)
      as (a' & Ha' & Hi & Hc). exists a'. auto. }
  pose proof (advanceToNextActiveBidder_fields s1 a1)
    as (Hcards & Hidx & _ & Hbid & _ & Hact & _).
  set (a2 := AuctionManager.advanceToNextActiveBidder s1 a1) in *.
  set (s2 := set_auction (Some a2) s1).
  destruct (_ && _).
  - pose proof (completeCurrentCardAuction_spec s2 a2) as H.
    destruct (AuctionManager.completeCurrentCardAuction s2 a2) as [s'|s'|];
      simpl; [| |done].
    + destruct H as (Hph & a' & Ha' & Hi & Hc). split; [done|].
      exists a'. split; [done|]. split; [by rewrite Hc, Hcards|].
      left. by rewrite Hi, Hidx.
    + subst s'. split; [done|]. exists a2. split; [done|].
      split; [by rewrite Hcards|]. right.
      by rewrite Hidx, Hbid, Hact.
  - simpl. split; [done|]. exists a2. split; [done|].
    split; [by rewrite Hcards|]. right.
    by rewrite Hidx, Hbid, Hact.
Qed.

Lemma placeBid_spec (s : GameState) (playerId : string) (amount : Z)
      (a : AuctionState) :
  auction (phaseState s) = Some a →
  ∃ a', AuctionManager.placeBid s playerId amount
        = Done (set_auction (Some a') s)
        ∧ cardsToAuction a' = cardsToAuction a
        ∧ currentCardIndex a' = currentCardIndex a
        ∧ currentCard a' = currentCard a
        ∧ currentBid a' = amount
        ∧ currentHighBidder a' = Some playerId
        ∧ activeBidders a' = activeBidders a.
Proof.
  intros Ha. unfold AuctionManager.placeBid. rewrite Ha.
  eexists. split; [reflexivity|].
  match goal with
  | |- context [AuctionManager.advanceToNextActiveBidder ?s ?x] =>
      pose proof (advanceToNextActiveBidder_fields s x) as H
  end.
  simpl in H. naive_solver.
Qed.



(** ** The auction: who wins when the high bidder passes *)

(** C2 does not hold of the code.  A bids $2, B passes, and then A, the
    high bidder, passes while still an active bidder (validation does not
    look at whose turn it is).  The pass passes validation and leaves C as
    the only active bidder, but the card goes to A, who pays $2; C, the
    remaining bidder, gets nothing and pays nothing. *)
Lemma pass_by_high_bidder_example :
  let s0 := Example.auctionState in
  let s1 := Example.bidPassState in
  let card := Example.card "r6" "Yellow" in
  Example.started = Some s0
  ∧ runActions Example.env s0 [PLACE_BID "A" 2; PASS "B"] = Some s1
  ∧ activeBidders <$> auction (phaseState s1) = Some ["A"; "C"]
  ∧ currentHighBidder <$> auction (phaseState s1) = Some (Some "A")
  ∧ currentBid <$> auction (phaseState s1) = Some 2%Z
  ∧ currentCard <$> auction (phaseState s1) = Some (Some card)
  ∧ ValidationSystem.validateAction s1 (PASS "A") = Valid
  ∧ delete_ "A" ["A"; "C"] = ["C"]
  ∧ ∃ s2, GameEngine.executeAction Example.env s1 (PASS "A") = Ran (Done s2)
      ∧ Example.handOf s2 "A" = Example.handOf s1 "A" ++ [card]
      ∧ Example.cashOf s2 "A" = (Example.cashOf s1 "A" - 2)%Z
      ∧ Example.handOf s2 "C" = Example.handOf s1 "C"
      ∧ Example.cashOf s2 "C" = Example.cashOf s1 "C".
Proof.
  intros s0 s1 card. subst s0 s1 card.
  split; [evaluate|]. split; [evaluate|]. split; [evaluate|].
  split; [evaluate|]. split; [evaluate|]. split; [evaluate|].
  split; [evaluate|]. split; [evaluate|].
  destruct (GameEngine.executeAction Example.env Example.bidPassState
                                     (PASS "A")) as [e|[s2|s2|]] eqn:H2;
    vm_compute in H2; try discriminate H2.
  exists s2. split; [reflexivity|]. injection H2 as <-.
  split; [evaluate|]. split; [evaluate|]. split; evaluate.
Qed.

(** ** The sell phase: a selection after the commit *)

(** C6 does not hold of the code.  In the sell phase A selects one card,
    commits, and selects again: the second selection passes validation and
    replaces the recorded one, and when the others have committed the
    payout sells what the later selection says (nothing), not the card that
    was selected when A committed. *)
Lemma select_after_commit_example :
  let s0 := Example.sellState in
  let s1 := Example.committedState in
  Example.atSell = Some s0
  ∧ runActions Example.env s0
      [SELECT_CARDS_TO_SELL "A" (Some ["r0"]); COMMIT_SELL "A"] = Some s1
  ∧ (sell (phaseState s1) ≫= λ sl, lookupSelection (playerSelections sl) "A")
    = Some {| cardsToSell := ["r0"]; committed := true |}
  ∧ ValidationSystem.validateAction s1 (SELECT_CARDS_TO_SELL "A" (Some []))
    = Valid
  ∧ ∃ s2 s3,
      GameEngine.executeAction Example.env s1
        (SELECT_CARDS_TO_SELL "A" (Some [])) = Ran (Done s2)
      ∧ (sell (phaseState s2) ≫= λ sl, lookupSelection (playerSelections sl) "A")
        = Some {| cardsToSell := []; committed := true |}
      ∧ runActions Example.env s2 [COMMIT_SELL "B"; COMMIT_SELL "C"] = Some s3
      ∧ Example.handOf s3 "A" = Example.handOf s0 "A"
      ∧ Example.cashOf s3 "A" = Example.cashOf s0 "A".
Proof.
  intros s0 s1. subst s0 s1.
  split; [evaluate|]. split; [evaluate|]. split; [evaluate|].
  split; [evaluate|].
  destruct (GameEngine.executeAction Example.env Example.committedState
              (SELECT_CARDS_TO_SELL "A" (Some []))) as [e|[s2|s2|]] eqn:H2;
    vm_compute in H2; try discriminate H2.
  destruct (runActions Example.env s2 [COMMIT_SELL "B"; COMMIT_SELL "C"])
    as [s3|] eqn:H3;
    injection H2 as <-; vm_compute in H3; try discriminate H3.
  eexists _, s3. split; [reflexivity|]. injection H3 as <-.
  split; [evaluate|]. split; [evaluate|]. split; evaluate.
Qed.

(** ** GoalParser *)

Lemma countColor_cons (color : string) (c : Card) (h : list Card) :
  countColor color (c :: h)
  = (if String.eqb (card_color c) color then 1 else 0) + countColor color h.
Proof.
  unfold countColor. simpl. by destruct (String.eqb (card_color c) color).
Qed.

Lemma colorCounts_foldl (hand : list Card) (m : gmap string nat)
      (color : string) :
  color ≠ EmptyString →
  foldl (λ counts card,
           if String.eqb (card_color card) EmptyString then counts
           else match counts !! card_color card with
                | Some n => <[card_color card := S n]> counts
                | None => counts
                end) m hand !! color
  = (λ n, n + countColor color hand) <$> m !! color.
Proof.
  intros Hne. revert m. induction hand as [|c hand IH]; intros m.
  - simpl. destruct (m !! color); simpl; [f_equal; unfold countColor; simpl; lia|done].
  - cbn [foldl]. rewrite countColor_cons.
    destruct (String.eqb_spec (card_color c) EmptyString) as [Hempty|Hcol].
    + rewrite IH. rewrite Hempty.
      destruct (String.eqb_spec EmptyString color); [done|]. done.
    + destruct (m !! card_color c) as [n|] eqn:Hn.
      * rewrite IH. destruct (String.eqb_spec (card_color c) color) as [<-|Hd].
        -- rewrite lookup_insert_eq, Hn. simpl. f_equal. lia.
        -- by rewrite lookup_insert_ne.
      * rewrite IH. destruct (String.eqb_spec (card_color c) color) as [<-|Hd].
        -- by rewrite Hn.
        -- done.
Qed.

Lemma colorCounts_lookup (hand : list Card) (color : string) :
  GoalParser.colorCounts hand !! color
  = if bool_decide (color ∈ COLORS) then Some (countColor color hand) else None.
Proof.
  unfold GoalParser.colorCounts.
  destruct (decide (color = EmptyString)) as [->|Hne].
  - rewrite bool_decide_eq_false_2.
    2:{ unfold COLORS. rewrite !elem_of_cons, elem_of_nil. naive_solver. }
    assert (∀ m : gmap string nat, m !! EmptyString = None →
              foldl (λ counts card,
                       if String.eqb (card_color card) EmptyString then counts
                       else match counts !! card_color card with
                            | Some n => <[card_color card := S n]> counts
                            | None => counts
                            end) m hand !! EmptyString = None) as H.
    { induction hand as [|c hand IH]; intros m Hm; [done|]. cbn [foldl].
      destruct (String.eqb_spec (card_color c) EmptyString); [by apply IH|].
      destruct (m !! card_color c); apply IH; [|done].
      by rewrite lookup_insert_ne. }
    apply H. by vm_compute.
  - rewrite colorCounts_foldl by done. unfold COLORS. simpl.
    case_bool_decide as Hin.
    + rewrite !elem_of_cons, elem_of_nil in Hin.
      destruct Hin as [->|[->|[->|[->|[]]]]]; by vm_compute.
    + rewrite !elem_of_cons, elem_of_nil in Hin.
      rewrite !lookup_insert_ne, lookup_empty; naive_solver.
Qed.

Lemma existsb_color_count (color : string) (hand : list Card) :
  existsb (λ card, String.eqb (card_color card) color) hand = false
  ↔ countColor color hand = 0.
Proof.
  induction hand as [|c hand IH]; [done|].
  rewrite countColor_cons. simpl.
  destruct (String.eqb (card_color c) color); simpl; [done|]. by rewrite IH.
Qed.

(** The check of the code against the requirement of the rules. *)
Lemma checkGoal_spec (g : GoalCard) (parsed : GoalParsed) (hand : list Card) :
  g_goalParsed g = Some parsed → wellFormedGoal parsed →
  GoalParser.checkGoal g hand = true ↔ goalSatisfied parsed hand.
Proof.
  intros Hp Hwf. unfold GoalParser.checkGoal, goalSatisfied. rewrite Hp.
  destruct (String.eqb (gp_type parsed) NONE_OF).
  - by rewrite negb_true_iff, existsb_color_count.
  - rewrite negb_true_iff. unfold wellFormedGoal in Hwf.
    induction Hwf as [|[color n] reqs Hc Hwf IH]; simpl.
    + split; [by constructor|done].
    + rewrite Forall_cons, orb_false_iff, IH.
      unfold GoalParser.requirementFails at 1. simpl in *.
      rewrite colorCounts_lookup, bool_decide_eq_true_2 by done.
      rewrite Nat.ltb_ge. done.
Qed.

(** ** Hands under the updates of the helpers *)

Lemma handsOf_cons (p : Player) (ps : list Player) :
  handsOf (p :: ps) = p_hand p ++ handsOf ps.
Proof. done. Qed.

Lemma handsOf_update_same (f : Player → Player) (playerId : string)
      (ps : list Player) :
  (∀ p, p_hand (f p) = p_hand p) →
  handsOf (GameStateOps.updatePlayer f playerId ps) = handsOf ps.
Proof.
  intros Hf. induction ps as [|p ps IH]; [done|].
  cbn [GameStateOps.updatePlayer].
  destruct (String.eqb (p_id p) playerId); rewrite !handsOf_cons.
  - by rewrite Hf.
  - by rewrite IH.
Qed.

(** The hand of the player that [find] returns, and the hands of the
    others, which an update leaves alone. *)
Lemma handsOf_update (f : Player → Player) (playerId : string)
      (ps : list Player) (p : Player) :
  List.find (λ p, String.eqb (p_id p) playerId) ps = Some p →
  ∃ others,
    handsOf ps ≡ₚ p_hand p ++ others
    ∧ handsOf (GameStateOps.updatePlayer f playerId ps)
      ≡ₚ p_hand (f p) ++ others.
Proof.
  induction ps as [|q ps IH]; [done|]. simpl.
  destruct (String.eqb (p_id q) playerId).
  - intros [= ->]. exists (handsOf ps). by rewrite !handsOf_cons.
  - intros Hfind. destruct (IH Hfind) as (others & H1 & H2).
    exists (p_hand q ++ others). rewrite !handsOf_cons, H1, H2.
    split; by rewrite !(assoc app), (comm app (p_hand q)).
Qed.

Lemma removeFirstById_spec (cardId : string) (h h' : list Card) (c : Card) :
  GameStateOps.removeFirstById cardId h = Some (c, h') →
  h ≡ₚ c :: h' ∧ card_id c = cardId.
Proof.
  revert h'. induction h as [|x h IH]; intros h'; [done|]. simpl.
  destruct (String.eqb_spec (card_id x) cardId).
  - intros [= -> <-]. done.
  - destruct (GameStateOps.removeFirstById cardId h) as [[y r]|]; [|done].
    intros [= -> <-]. destruct (IH r eq_refl) as [Hp Hid].
    split; [|done]. rewrite Hp. apply perm_swap.
Qed.

Lemma removeFirstById_None (cardId : string) (h : list Card) :
  GameStateOps.removeFirstById cardId h = None ↔ cardId ∉ card_id <$> h.
Proof.
  induction h as [|x h IH]; cbn [GameStateOps.removeFirstById].
  - split; [intros _ ?%elem_of_nil; done|done].
  - rewrite fmap_cons, not_elem_of_cons.
    destruct (String.eqb_spec (card_id x) cardId) as [Heq|Hne].
    + split; [done|]. intros [H _]. by destruct H.
    + destruct (GameStateOps.removeFirstById cardId h) as [[y r]|].
      * split; [done|]. intros [_ H]. by apply IH in H.
      * split; [|done]. intros _. split; [done|]. by apply IH.
Qed.

(** The first card of a list with unique ids that carries an id is any
    card of the list that carries it. *)
Lemma removeFirstById_NoDup (h : list Card) (c : Card) :
  NoDup (card_id <$> h) → c ∈ h →
  ∃ h', GameStateOps.removeFirstById (card_id c) h = Some (c, h').
Proof.
  induction h as [|x h IH]; [by intros _ ?%elem_of_nil|].
  rewrite fmap_cons, NoDup_cons. intros [Hx Hnd] Hin.
  cbn [GameStateOps.removeFirstById].
  apply elem_of_cons in Hin as [->|Hin].
  - rewrite String.eqb_refl. eauto.
  - destruct (String.eqb_spec (card_id x) (card_id c)) as [Heq|Hne].
    + exfalso. apply Hx. rewrite Heq. by apply list_elem_of_fmap_2.
    + destruct (IH Hnd Hin) as [h' ->]. eauto.
Qed.

Lemma takeByColor_spec (color : string) (k : nat) (h : list Card) :
  let '(removed, rest) := GameStateOps.takeByColor color k h in
  h ≡ₚ removed ++ rest.
Proof.
  revert k. induction h as [|c h IH]; intros k; [by simpl|]. simpl.
  destruct k as [|k]; [by simpl|].
  destruct (String.eqb (card_color c) color).
  - specialize (IH k). destruct (GameStateOps.takeByColor color k h).
    simpl. by rewrite IH.
  - specialize (IH (S k)).
    destruct (GameStateOps.takeByColor color (S k) h) as [removed rest].
    rewrite IH. by rewrite Permutation_middle.
Qed.

(** *** The helpers on states *)

Lemma addCardToHand_hands (s : GameState) (playerId : string) (c : Card) :
  playerId ∈ ids s →
  handsCards (GameStateOps.addCardToHand s playerId c) ≡ₚ c :: handsCards s.
Proof.
  intros [p Hp]%getPlayer_is_Some. unfold handsCards. simpl.
  destruct (handsOf_update (λ p, p_set_hand (p_hand p ++ [c]) p) playerId
                           (players s) p Hp) as (others & H1 & H2).
  rewrite H1, H2. simpl.
  by rewrite (Permutation_app_comm (p_hand p) [c]).
Qed.

Lemma addCardToHand_absent (s : GameState) (playerId : string) (c : Card) :
  playerId ∉ ids s → GameStateOps.addCardToHand s playerId c = s.
Proof.
  intros H%getPlayer_None. unfold GameStateOps.addCardToHand.
  rewrite updatePlayer_absent by done. by destruct s.
Qed.

Lemma removeCardFromHand_Some (s s' : GameState) (playerId cardId : string)
      (c : Card) :
  GameStateOps.removeCardFromHand s playerId cardId = (Some c, s') →
  ∃ h', s' = set_players
               (GameStateOps.updatePlayer (p_set_hand h') playerId (players s)) s
        ∧ handsCards s ≡ₚ c :: handsCards s'
        ∧ card_id c = cardId ∧ playerId ∈ ids s.
Proof.
  unfold GameStateOps.removeCardFromHand.
  destruct (GameStateOps.getPlayer s playerId) as [p|] eqn:Hp; [|done].
  destruct (GameStateOps.removeFirstById cardId (p_hand p)) as [[x h']|] eqn:Hr;
    [|done].
  intros [= -> <-]. exists h'. split; [done|].
  apply removeFirstById_spec in Hr as [Hperm Hid].
  split; [|split; [done|apply getPlayer_is_Some; eauto]].
  unfold handsCards. simpl.
  destruct (handsOf_update (p_set_hand h') playerId (players s) p Hp)
    as (others & H1 & H2).
  rewrite H1, H2. simpl. by rewrite Hperm.
Qed.

Lemma removeCardFromHand_None (s s' : GameState) (playerId cardId : string) :
  GameStateOps.removeCardFromHand s playerId cardId = (None, s') → s' = s.
Proof.
  unfold GameStateOps.removeCardFromHand.
  destruct (GameStateOps.getPlayer s playerId) as [p|]; [|by intros [= <-]].
  destruct (GameStateOps.removeFirstById cardId (p_hand p)) as [[x h']|];
    [done|by intros [= <-]].
Qed.

Lemma removeCardsByColor_spec (s : GameState) (playerId color : string)
      (k : nat) :
  let '(removed, s') := GameStateOps.removeCardsByColor s playerId color k in
  (∃ h', s' = set_players
                (GameStateOps.updatePlayer (p_set_hand h') playerId (players s))
                s)
  ∧ handsCards s ≡ₚ removed ++ handsCards s'.
Proof.
  unfold GameStateOps.removeCardsByColor.
  destruct (GameStateOps.getPlayer s playerId) as [p|] eqn:Hp.
  - pose proof (takeByColor_spec color k (p_hand p)) as Ht.
    destruct (GameStateOps.takeByColor color k (p_hand p)) as [removed rest].
    split; [eauto|]. unfold handsCards. simpl.
    destruct (handsOf_update (p_set_hand rest) playerId (players s) p Hp)
      as (others & H1 & H2).
    rewrite H1, H2. simpl. by rewrite Ht, (assoc app).
  - split; [|done]. exists []. unfold GameStateOps.getPlayer in Hp.
    rewrite updatePlayer_absent by done. by destruct s.
Qed.

Lemma adjustPlayerCash_hands (s : GameState) (playerId : string) (amount : Z) :
  handsCards (GameStateOps.adjustPlayerCash s playerId amount) = handsCards s.
Proof. by apply handsOf_update_same. Qed.

(** ** What the helpers keep *)

Lemma steady_refl (s : GameState) : steady s s.
Proof. by repeat split. Qed.

Lemma steady_trans (s1 s2 s3 : GameState) :
  steady s1 s2 → steady s2 s3 → steady s1 s3.
Proof.
  intros (Ha & Ht & Hp & Hi & Hc & Hpr) (Ha' & Ht' & Hp' & Hi' & Hc' & Hpr').
  repeat split; try congruence; auto.
Qed.

Lemma steady_updatePlayer (f : Player → Player) (playerId : string)
      (s : GameState) :
  idPreserving f → (∀ p, (0 ≤ p_cash p)%Z → (0 ≤ p_cash (f p))%Z) →
  steady s (set_players (GameStateOps.updatePlayer f playerId (players s)) s).
Proof.
  intros Hid Hcash. repeat split; try done.
  - unfold ids. simpl. by apply updatePlayer_ids.
  - intros Hc. unfold cashNonNegative. simpl. by apply updatePlayer_Forall.
Qed.

Lemma steady_adjustPlayerCash (s : GameState) (playerId : string) (amount : Z) :
  steady s (GameStateOps.adjustPlayerCash s playerId amount).
Proof.
  apply steady_updatePlayer; [done|]. intros p _. rewrite adjustCash_cash. lia.
Qed.

Lemma steady_addCardToHand (s : GameState) (playerId : string) (c : Card) :
  steady s (GameStateOps.addCardToHand s playerId c).
Proof. by apply steady_updatePlayer. Qed.

Lemma steady_removeCardFromHand (s : GameState) (playerId cardId : string) :
  steady s (GameStateOps.removeCardFromHand s playerId cardId).2.
Proof.
  destruct (GameStateOps.removeCardFromHand s playerId cardId) as [[c|] s']
    eqn:Hr; simpl.
  - apply removeCardFromHand_Some in Hr as (h' & -> & _).
    by apply steady_updatePlayer.
  - apply removeCardFromHand_None in Hr as ->. apply steady_refl.
Qed.

Lemma steady_removeCardsByColor (s : GameState) (playerId color : string)
      (k : nat) :
  steady s (GameStateOps.removeCardsByColor s playerId color k).2.
Proof.
  pose proof (removeCardsByColor_spec s playerId color k) as H.
  destruct (GameStateOps.removeCardsByColor s playerId color k) as [r s'].
  destruct H as [(h' & ->) _]. simpl. by apply steady_updatePlayer.
Qed.

Lemma steady_set_resourceDeck (d : Deck) (s : GameState) :
  steady s (set_resourceDeck d s).
Proof. by repeat split. Qed.

Lemma steady_set_stockPrices (pr : gmap string Z) (s : GameState) :
  dom pr = dom (stockPrices s) → steady s (set_stockPrices pr s).
Proof.
  intros Hdom. repeat split; try done.
  intros Hp color Hin. simpl. apply elem_of_dom. rewrite Hdom.
  apply elem_of_dom. by apply Hp.
Qed.

#[export] Hint Resolve steady_refl steady_adjustPlayerCash steady_addCardToHand
  steady_removeCardFromHand steady_removeCardsByColor steady_set_resourceDeck
  : players.

Lemma steady_phases (s s' : GameState) :
  steady s s' →
  auction (phaseState s') = auction (phaseState s)
  ∧ trading (phaseState s') = trading (phaseState s)
  ∧ currentPhase s' = currentPhase s ∧ ids s' = ids s.
Proof. intros (? & ? & ? & ? & _). done. Qed.

(** *** Cards under the helpers *)

Lemma cardsOf_set_players_same (ps : list Player) (s : GameState) :
  handsOf ps ≡ₚ handsCards s → cardsOf (set_players ps s) ≡ₚ cardsOf s.
Proof. intros H. unfold cardsOf, handsCards. simpl. by rewrite H. Qed.

Lemma cardsOf_adjustPlayerCash (s : GameState) (playerId : string)
      (amount : Z) :
  cardsOf (GameStateOps.adjustPlayerCash s playerId amount) = cardsOf s.
Proof.
  unfold cardsOf. by rewrite adjustPlayerCash_hands.
Qed.

Lemma cardsOf_addCardToHand (s : GameState) (playerId : string) (c : Card) :
  playerId ∈ ids s →
  cardsOf (GameStateOps.addCardToHand s playerId c) ≡ₚ c :: cardsOf s.
Proof.
  intros Hin. unfold cardsOf. by rewrite addCardToHand_hands.
Qed.

Lemma cardsOf_removeCardFromHand (s s' : GameState) (playerId cardId : string)
      (c : Card) :
  GameStateOps.removeCardFromHand s playerId cardId = (Some c, s') →
  cardsOf s ≡ₚ c :: cardsOf s' ∧ playerId ∈ ids s ∧ card_id c = cardId.
Proof.
  intros Hr. pose proof Hr as (h' & Hs' & Hperm & Hid & Hin)
    %removeCardFromHand_Some.
  split; [|done]. unfold cardsOf. rewrite Hperm. by rewrite Hs'.
Qed.

Lemma cardsOf_removeCardsByColor (s : GameState) (playerId color : string)
      (k : nat) :
  let '(removed, s') := GameStateOps.removeCardsByColor s playerId color k in
  cardsOf s ≡ₚ removed ++ cardsOf s'.
Proof.
  pose proof (removeCardsByColor_spec s playerId color k) as H.
  destruct (GameStateOps.removeCardsByColor s playerId color k) as [r s'].
  destruct H as [(h' & Hs') Hperm]. unfold cardsOf. rewrite Hperm.
  subst s'. simpl. by rewrite <- (assoc app).
Qed.

Lemma cardsOf_set_resourceDeck (d : Deck) (s : GameState) :
  drawPile d ++ discardPile d
  ≡ₚ drawPile (resourceDeck s) ++ discardPile (resourceDeck s) →
  cardsOf (set_resourceDeck d s) ≡ₚ cardsOf s.
Proof. intros H. unfold cardsOf. simpl. by rewrite H. Qed.

Lemma elem_of_cardsOf_hand (s : GameState) (playerId : string) (p : Player)
      (c : Card) :
  GameStateOps.getPlayer s playerId = Some p → c ∈ p_hand p → c ∈ cardsOf s.
Proof.
  intros Hp Hc. unfold cardsOf, handsCards.
  destruct (handsOf_update id playerId (players s) p Hp) as (o & H1 & _).
  rewrite H1. rewrite !elem_of_app. auto.
Qed.

Lemma hand_NoDup (s : GameState) (playerId : string) (p : Player) :
  NoDup (card_id <$> cardsOf s) →
  GameStateOps.getPlayer s playerId = Some p → NoDup (card_id <$> p_hand p).
Proof.
  intros Hnd Hp. unfold cardsOf, handsCards in Hnd.
  destruct (handsOf_update id playerId (players s) p Hp) as (o & H1 & _).
  rewrite !fmap_app in Hnd. apply NoDup_app in Hnd as [Hnd _].
  rewrite H1, fmap_app in Hnd. by apply NoDup_app in Hnd as [? _].
Qed.

(** ** DeckManager and the cards *)

Lemma cardMap_foldl_lookup (top : list Card) (m : gmap string Card)
      (id : string) (c : Card) :
  foldl (λ m card, <[card_id card := card]> m) m top !! id = Some c →
  (c ∈ top ∧ card_id c = id) ∨ m !! id = Some c.
Proof.
  revert m. induction top as [|x top IH]; intros m; simpl; [by right|].
  intros [[Hin Hid]|Hm]%IH.
  - left. split; [by right|done].
  - destruct (decide (card_id x = id)) as [<-|Hne].
    + rewrite lookup_insert_eq in Hm. injection Hm as <-. left.
      split; [by left|done].
    + rewrite lookup_insert_ne in Hm by done. by right.
Qed.

Lemma cardMap_lookup (top : list Card) (id : string) (c : Card) :
  DeckManager.cardMap top !! id = Some c → c ∈ top ∧ card_id c = id.
Proof.
  intros [H|H]%cardMap_foldl_lookup; [done|]. by rewrite lookup_empty in H.
Qed.

Lemma reordered_spec (top : list Card) (newOrder : list string) :
  (∀ id, id ∈ newOrder → id ∈ card_id <$> top) →
  let cards := omap (λ id, DeckManager.cardMap top !! id) newOrder in
  card_id <$> cards = newOrder ∧ cards ⊆ top.
Proof.
  intros Hall. induction newOrder as [|x l IH]; simpl.
  - split; [done|]. by intros ? ?%elem_of_nil.
  - destruct (proj2 (cardMap_is_Some top x)) as [c Hc];
      [apply Hall; by left|].
    rewrite Hc. simpl. apply cardMap_lookup in Hc as [Hin Hid].
    destruct IH as [IH1 IH2]; [intros id ?; apply Hall; by right|].
    simpl in IH1, IH2. split.
    + f_equal; [done|exact IH1].
    + intros y [->|Hy]%elem_of_cons; [done|by apply IH2].
Qed.

(** With an order without repeats over a pile with unique ids,
    [rearrangeTop] permutes the draw pile (and leaves it alone when it
    throws). *)
Lemma rearrangeTop_Permutation (deck : Deck) (newOrder : list string) :
  NoDup newOrder → NoDup (card_id <$> drawPile deck) →
  drawPile (DeckManager.rearrangeTop deck newOrder).2 ≡ₚ drawPile deck
  ∧ discardPile (DeckManager.rearrangeTop deck newOrder).2 = discardPile deck.
Proof.
  intros Hnd Hpile.
  destruct (rearrangeTop_effect deck newOrder) as (Herr & Hok).
  destruct (DeckManager.rearrangeTop deck newOrder).1 as [e|] eqn:He.
  - rewrite Herr by eauto. done.
  - destruct (Hok eq_refl) as (Hdraw & Hdisc & Hlen). split; [|done].
    rewrite Hdraw.
    transitivity (take (length newOrder) (drawPile deck)
                  ++ drop (length newOrder) (drawPile deck));
      [|by rewrite take_drop].
    apply Permutation_app; [|done].
    set (top := take (length newOrder) (drawPile deck)) in *.
    assert (Hall : ∀ id, id ∈ newOrder → id ∈ card_id <$> top).
    { unfold DeckManager.rearrangeTop in He. fold top in He.
      unfold DeckManager.peekTop in He. fold top in He.
      destruct (negb _); [done|].
      destruct (List.find _ newOrder) eqn:Hf; [done|].
      by apply find_missing_None. }
    destruct (reordered_spec top newOrder Hall) as [Hids Hsub].
    set (cards := omap _ newOrder) in *.
    assert (length cards = length top) as Hlen'.
    { rewrite Hdraw, length_app, length_drop in Hlen.
      pose proof (f_equal length
                    (take_drop (length newOrder) (drawPile deck))) as Htd.
      rewrite length_app, length_drop in Htd. fold top in Htd.
      fold cards in Hlen. lia. }
    apply submseteq_length_Permutation; [|lia].
    apply NoDup_submseteq; [|done].
    apply (NoDup_fmap_1 card_id). by rewrite Hids.
Qed.

Lemma removeFirstByColor_spec (color : string) (pile rest : list Card)
      (c : Card) :
  RewardSystem.removeFirstByColor color pile = Some (c, rest) →
  pile ≡ₚ c :: rest ∧ card_color c = color.
Proof.
  revert rest. induction pile as [|x pile IH]; intros rest; [done|]. simpl.
  destruct (String.eqb_spec (card_color x) color).
  - by intros [= -> <-].
  - destruct (RewardSystem.removeFirstByColor color pile) as [[y r]|]; [|done].
    intros [= -> <-]. destruct (IH r eq_refl) as [Hp Hc]. split; [|done].
    rewrite Hp. apply perm_swap.
Qed.

(** ** RewardSystem *)

Lemma kept_refl (s : GameState) : kept s s.
Proof. split; [apply steady_refl|done]. Qed.

Lemma kept_trans (s1 s2 s3 : GameState) : kept s1 s2 → kept s2 s3 → kept s1 s3.
Proof.
  intros (H1 & H2 & H3) (H1' & H2' & H3').
  split; [by eapply steady_trans|]. split; [congruence|by rewrite H3'].
Qed.

Lemma kept_adjustPlayerCash (s : GameState) (playerId : string) (amount : Z) :
  kept s (GameStateOps.adjustPlayerCash s playerId amount).
Proof.
  split; [apply steady_adjustPlayerCash|]. split; [done|].
  by rewrite cardsOf_adjustPlayerCash.
Qed.

Lemma executeGainCash_kept (s : GameState) (playerId : string) (amount : Z) :
  settles (RewardSystem.executeGainCash s playerId amount) (kept s).
Proof.
  unfold RewardSystem.executeGainCash.
  destruct (GameStateOps.getPlayer _ _); apply kept_adjustPlayerCash.
Qed.

Lemma executeStealCash_kept (s : GameState) (playerId target : string)
      (amount : Z) :
  settles (RewardSystem.executeStealCash s playerId target amount) (kept s).
Proof.
  unfold RewardSystem.executeStealCash.
  destruct (GameStateOps.getPlayer s target); [|apply kept_refl].
  destruct (GameStateOps.getPlayer _ playerId); simpl;
    (eapply kept_trans; [|apply kept_adjustPlayerCash]);
    apply kept_adjustPlayerCash.
Qed.

Lemma executeAdjustStock_kept (sps : StockPriceSystem) (s : GameState)
      (color : string) (direction : Z) :
  settles (RewardSystem.executeAdjustStock sps s color direction) (kept s).
Proof.
  unfold RewardSystem.executeAdjustStock, settles. split; [|done].
  apply steady_set_stockPrices, applyChanges_dom.
Qed.

Lemma executeLookAtHand_kept (s : GameState) (playerId target : string) :
  settles (RewardSystem.executeLookAtHand s playerId target) (kept s).
Proof.
  unfold RewardSystem.executeLookAtHand.
  destruct (GameStateOps.getPlayer s target); apply kept_refl.
Qed.

Lemma executePeekAndPlace_kept (s : GameState) (playerId placement : string) :
  settles (RewardSystem.executePeekAndPlace s playerId placement) (kept s).
Proof.
  unfold RewardSystem.executePeekAndPlace, DeckManager.peekTop,
    DeckManager.draw.
  destruct (drawPile (resourceDeck s)) as [|c rest] eqn:Hpile;
    [apply kept_refl|]. simpl.
  destruct (String.eqb placement "bottom"); [|apply kept_refl]. simpl.
  split; [apply steady_set_resourceDeck|]. split; [done|].
  apply cardsOf_set_resourceDeck. simpl. rewrite Hpile. simpl.
  by rewrite (Permutation_app_comm rest [c]).
Qed.

Lemma executeSwapWithDeck_kept (s : GameState) (playerId cardId : string) :
  settles (RewardSystem.executeSwapWithDeck s playerId cardId) (kept s).
Proof.
  unfold RewardSystem.executeSwapWithDeck.
  pose proof (steady_removeCardFromHand s playerId cardId) as Hst.
  destruct (GameStateOps.removeCardFromHand s playerId cardId) as [[c|] s1]
    eqn:Hr; simpl in *.
  2:{ apply removeCardFromHand_None in Hr as ->. apply kept_refl. }
  pose proof Hr as (h' & Hs1 & _)%removeCardFromHand_Some.
  apply cardsOf_removeCardFromHand in Hr as (Hperm & Hin & _).
  assert (Hin1 : playerId ∈ ids s1) by (by subst s1; unfold ids; simpl;
    rewrite updatePlayer_ids).
  assert (Hph1 : phaseState s1 = phaseState s) by (by subst s1).
  unfold DeckManager.swapWithTop.
  destruct (drawPile (resourceDeck s1)) as [|top rest] eqn:Hpile; simpl.
  - split; [eapply steady_trans; [done|apply steady_addCardToHand]|].
    split; [done|]. by rewrite cardsOf_addCardToHand, Hperm.
  - split.
    { eapply steady_trans; [done|]. eapply steady_trans;
        [apply steady_set_resourceDeck|apply steady_addCardToHand]. }
    split; [done|]. rewrite cardsOf_addCardToHand by done. rewrite Hperm.
    unfold cardsOf. simpl. rewrite Hpile. simpl.
    solve_Permutation.
Qed.

Lemma executeRearrangeTop5_kept (s : GameState) (newOrder : list string) :
  NoDup newOrder → NoDup (card_id <$> cardsOf s) →
  settles (RewardSystem.executeRearrangeTop5 s newOrder) (kept s).
Proof.
  intros Hnd Hcards. simpl.
  split; [apply steady_set_resourceDeck|]. split; [done|].
  assert (Hpile : NoDup (card_id <$> drawPile (resourceDeck s))).
  { unfold cardsOf in Hcards. rewrite !fmap_app in Hcards.
    apply NoDup_app in Hcards as (_ & _ & Hcards).
    by apply NoDup_app in Hcards as (? & _). }
  destruct (rearrangeTop_Permutation (resourceDeck s) newOrder Hnd Hpile)
    as [Hdraw Hdisc].
  apply cardsOf_set_resourceDeck. by rewrite Hdraw, Hdisc.
Qed.

Lemma executeTakeAndGiveCard_kept (env : Env) (s : GameState)
      (playerId : string) (ch : Choices) :
  playerId ∈ ids s → NoDup (card_id <$> cardsOf s) →
  settles (RewardSystem.executeTakeAndGiveCard env s playerId ch) (kept s).
Proof.
  intros Hin Hnd. unfold RewardSystem.executeTakeAndGiveCard.
  destruct (GameStateOps.getPlayer s (ch_targetPlayerId ch)) as [target|]
    eqn:Ht; [|apply kept_refl].
  destruct (p_hand target !! _) as [taken|] eqn:Htaken; [|apply kept_refl].
  assert (Htin : ch_targetPlayerId ch ∈ ids s)
    by (apply getPlayer_is_Some; eauto).
  (* the card taken is the one removed *)
  pose proof (hand_NoDup s _ target Hnd Ht) as Hhand.
  apply list_elem_of_lookup_2 in Htaken.
  destruct (removeFirstById_NoDup (p_hand target) taken Hhand Htaken)
    as [h' Hrem].
  assert (Hr1 : GameStateOps.removeCardFromHand
                  s (ch_targetPlayerId ch) (card_id taken)
                = (Some taken,
                   set_players
                     (GameStateOps.updatePlayer
                        (p_set_hand h') (ch_targetPlayerId ch) (players s)) s)).
  { unfold GameStateOps.removeCardFromHand. by rewrite Ht, Hrem. }
  rewrite Hr1. cbn [snd].
  set (s1 := set_players _ s) in *.
  pose proof (steady_removeCardFromHand s (ch_targetPlayerId ch)
                                        (card_id taken)) as Hst1.
  rewrite Hr1 in Hst1. cbn [snd] in Hst1.
  apply cardsOf_removeCardFromHand in Hr1 as (Hperm1 & _ & _).
  pose proof (steady_phases _ _ Hst1) as (_ & _ & _ & Hids1).
  set (s2 := GameStateOps.addCardToHand s1 playerId taken).
  assert (Hk2 : kept s s2).
  { split; [eapply steady_trans; [done|apply steady_addCardToHand]|].
    split; [done|].
    unfold s2. rewrite cardsOf_addCardToHand by (by rewrite Hids1).
    by rewrite Hperm1. }
  pose proof (steady_removeCardFromHand s2 playerId (ch_cardIdToGive ch))
    as Hst3.
  destruct (GameStateOps.removeCardFromHand s2 playerId (ch_cardIdToGive ch))
    as [[give|] s3] eqn:Hr3; simpl in *.
  - pose proof Hr3 as (h3 & Hs3 & _)%removeCardFromHand_Some.
    apply cardsOf_removeCardFromHand in Hr3 as (Hperm3 & _ & _).
    eapply kept_trans; [exact Hk2|].
    split; [eapply steady_trans; [done|apply steady_addCardToHand]|].
    split; [by subst s3|].
    rewrite cardsOf_addCardToHand; [by rewrite Hperm3|].
    apply steady_phases in Hst3 as (_ & _ & _ & ->).
    destruct Hk2 as [Hst2 _].
    apply steady_phases in Hst2 as (_ & _ & _ & ->). done.
  - apply removeCardFromHand_None in Hr3 as ->. done.
Qed.

Lemma takeFromDrawPile_kept (s s' : GameState) (playerId color : string) :
  playerId ∈ ids s →
  RewardSystem.takeFromDrawPile s playerId color = Some s' → kept s s'.
Proof.
  intros Hin. unfold RewardSystem.takeFromDrawPile.
  destruct (RewardSystem.removeFirstByColor color (drawPile (resourceDeck s)))
    as [[card rest]|] eqn:Hr; [|done].
  intros [= <-]. apply removeFirstByColor_spec in Hr as [Hperm _].
  split; [eapply steady_trans;
          [apply steady_set_resourceDeck|apply steady_addCardToHand]|].
  split; [done|]. rewrite cardsOf_addCardToHand by done.
  unfold cardsOf. simpl. rewrite Hperm. solve_Permutation.
Qed.

Lemma executeBuyWithDiscount_kept (s : GameState) (playerId color : string)
      (discount : Z) :
  cardsPriced s →
  settles (RewardSystem.executeBuyWithDiscount s playerId color discount)
          (kept s).
Proof.
  intros Hpriced. unfold RewardSystem.executeBuyWithDiscount.
  destruct (GameStateOps.getPlayer s playerId) as [player|] eqn:Hp;
    [|apply kept_refl].
  assert (Hin : playerId ∈ ids s) by (apply getPlayer_is_Some; eauto).
  destruct (stockPrices s !! color) as [price|] eqn:Hprice.
  - destruct (_ <? _)%Z; [apply kept_refl|].
    destruct (RewardSystem.takeFromDrawPile s playerId color) as [s1|] eqn:Ht;
      [|apply kept_refl].
    simpl. eapply kept_trans; [by eapply takeFromDrawPile_kept|].
    apply kept_adjustPlayerCash.
  - destruct (RewardSystem.removeFirstByColor _ _) as [[c rest]|] eqn:Hr;
      [|apply kept_refl].
    apply removeFirstByColor_spec in Hr as [Hperm Hcol].
    destruct (Hpriced c) as [x Hx].
    + unfold cardsOf. rewrite Hperm. rewrite !elem_of_app, elem_of_cons. auto.
    + congruence.
Qed.

Lemma executeSellBonus_kept (s : GameState) (playerId : string) (bonus : Z) :
  settles (RewardSystem.executeSellBonus s playerId bonus) (kept s).
Proof.
  unfold RewardSystem.executeSellBonus.
  destruct (GameStateOps.getPlayer s playerId); [|apply kept_refl]. simpl.
  split; [by apply steady_updatePlayer|]. split; [done|].
  apply cardsOf_set_players_same. by rewrite handsOf_update_same.
Qed.

Lemma executeGainLowestStock_kept (env : Env) (s : GameState)
      (playerId : string) :
  playerId ∈ ids s →
  settles (RewardSystem.executeGainLowestStock env s playerId) (kept s).
Proof.
  intros Hin. unfold RewardSystem.executeGainLowestStock.
  destruct (_ !! _) as [color|]; [|apply kept_refl].
  destruct (RewardSystem.takeFromDrawPile s playerId color) as [s1|] eqn:Ht;
    [|apply kept_refl].
  simpl. by eapply takeFromDrawPile_kept.
Qed.

Lemma executeReward_kept (sps : StockPriceSystem) (env : Env) (s : GameState)
      (playerId : string) (reward : RewardParsed) (choices : option Choices)
      (ran : Outcome) :
  playerId ∈ ids s → NoDup (card_id <$> cardsOf s) → cardsPriced s →
  rearrangeWithoutRepeats reward choices →
  RewardSystem.executeReward sps env s playerId reward choices = Some ran →
  settles ran (kept s).
Proof.
  intros Hin Hnd Hpriced Hre. unfold RewardSystem.executeReward.
  destruct (_ && _); [done|]. intros [= <-].
  destruct (rw_type reward) eqn:Hty;
    try (destruct choices as [ch|]; [|apply kept_refl]).
  - apply executeGainCash_kept.
  - apply executeStealCash_kept.
  - apply executeAdjustStock_kept.
  - apply executeLookAtHand_kept.
  - apply executePeekAndPlace_kept.
  - apply executeSwapWithDeck_kept.
  - apply executeRearrangeTop5_kept; [|done]. by apply Hre.
  - by apply executeTakeAndGiveCard_kept.
  - by apply executeBuyWithDiscount_kept.
  - apply executeSellBonus_kept.
  - by apply executeGainLowestStock_kept.
  - apply kept_refl.
Qed.

(** ** GoalResolutionManager *)

Lemma validateGoalReveal_Valid (s : GameState) (playerId goalCardId : string) :
  ValidationSystem.validateGoalReveal s playerId goalCardId = Valid →
  currentPhase s = Some GOAL_RESOLUTION
  ∧ ∃ player gr card,
      GameStateOps.getPlayer s playerId = Some player
      ∧ goalResolution (phaseState s) = Some gr
      ∧ turnOrder s !! gr_currentPlayerIndex gr = Some playerId
      ∧ GoalResolutionManager.findGoal goalCardId (p_goalCards player)
        = Some card
      ∧ g_revealed card = false.
Proof.
  unfold ValidationSystem.validateGoalReveal.
  case_bool_decide as Hph; simpl; [|done].
  destruct (GameStateOps.getPlayer s playerId) as [player|]; [|done].
  destruct (goalResolution (phaseState s)) as [gr|]; [|done].
  case_bool_decide as Hturn; simpl; [|done].
  fold (GoalResolutionManager.findGoal goalCardId (p_goalCards player)).
  destruct (GoalResolutionManager.findGoal _ _) as [card|] eqn:Hfind; [|done].
  destruct (g_revealed card) eqn:Hrev; [done|].
  intros _. split; [done|]. exists player, gr, card. done.
Qed.

Lemma findGoal_id (goalCardId : string) (gs : list GoalCard) (g : GoalCard) :
  GoalResolutionManager.findGoal goalCardId gs = Some g → g_id g = goalCardId.
Proof.
  intros [_ H]%find_some. by apply String.eqb_eq.
Qed.

Lemma findGoal_markRevealed (goalCardId : string) (gs : list GoalCard)
      (g : GoalCard) :
  GoalResolutionManager.findGoal goalCardId gs = Some g →
  GoalResolutionManager.findGoal
    goalCardId (GoalResolutionManager.markRevealed goalCardId gs)
  = Some (g_set_revealed true g).
Proof.
  unfold GoalResolutionManager.findGoal.
  induction gs as [|x gs IH]; [done|]. simpl.
  destruct (String.eqb (g_id x) goalCardId) eqn:Hx; simpl.
  - intros [= ->]. by rewrite Hx.
  - by rewrite Hx.
Qed.

Lemma applyStockChange_prices (sps : StockPriceSystem) (s : GameState)
      (g : GoalCard) :
  stockPrices (GoalResolutionManager.applyStockChange sps s g)
  = StockPrice.applyChanges sps (stockPrices s) (g_stockChangeParsed g).
Proof.
  unfold GoalResolutionManager.applyStockChange.
  by destruct (g_stockChangeParsed g).
Qed.

Lemma applyStockChange_others (sps : StockPriceSystem) (s : GameState)
      (g : GoalCard) :
  let s' := GoalResolutionManager.applyStockChange sps s g in
  players s' = players s ∧ phaseState s' = phaseState s
  ∧ resourceDeck s' = resourceDeck s ∧ currentPhase s' = currentPhase s
  ∧ turnOrder s' = turnOrder s ∧ config s' = config s.
Proof.
  unfold GoalResolutionManager.applyStockChange.
  by destruct (g_stockChangeParsed g).
Qed.

(** The reveal, step by step. *)
Lemma revealGoal_unfold (sps : StockPriceSystem) (env : Env) (s : GameState)
        (playerId goalCardId : string) :
  ValidationSystem.validateGoalReveal s playerId goalCardId = Valid →
  ∃ player card s3,
    GameStateOps.getPlayer s playerId = Some player
    ∧ GoalResolutionManager.findGoal goalCardId (p_goalCards player) = Some card
    ∧ g_revealed card = false
    ∧ let goalCard := g_set_revealed true card in
      let goalMet := GoalParser.checkGoal goalCard (p_hand player) in
      let reward := g_rewardParsed card in
      revealProcessed sps s playerId goalCard goalMet s3
      ∧ (∀ parsed, g_goalParsed card = Some parsed → wellFormedGoal parsed →
           (goalMet = true ↔ goalSatisfied parsed (p_hand player)))
      ∧ GoalResolutionManager.revealGoal sps env s playerId goalCardId
        = (if goalMet
           then GoalResolutionManager.initiateRewardExecution
                  sps env s3 playerId goalCard
           else GoalResolutionManager.advanceToNextPlayer s3)
      ∧ (goalMet = false →
         ∃ s4 gr3 gr4,
           GoalResolutionManager.revealGoal sps env s playerId goalCardId
           = Done s4
           ∧ goalResolution (phaseState s3) = Some gr3
           ∧ goalResolution (phaseState s4) = Some gr4
           ∧ gr_currentPlayerIndex gr4 = S (gr_currentPlayerIndex gr3)
           ∧ revealedGoals gr4 = revealedGoals gr3
           ∧ pendingRewardExecution gr4 = pendingRewardExecution gr3
           ∧ players s4 = players s3 ∧ stockPrices s4 = stockPrices s3
           ∧ resourceDeck s4 = resourceDeck s3)
      ∧ (goalMet = true →
         if rw_requiresTarget reward || rw_requiresChoice reward then
           ∃ s4 gr4,
             GoalResolutionManager.revealGoal sps env s playerId goalCardId
             = Done s4
             ∧ goalResolution (phaseState s4) = Some gr4
             ∧ pendingRewardExecution gr4
               = Some {| pd_playerId := playerId;
                         pd_rewardType := rw_type reward;
                         pd_goalCard := goalCard |}
             ∧ players s4 = players s3 ∧ stockPrices s4 = stockPrices s3
         else
           ∃ ran,
             RewardSystem.executeReward sps env s3 playerId reward None
             = Some ran
             ∧ GoalResolutionManager.revealGoal sps env s playerId goalCardId
               = (let* s4 := ran in
                  GoalResolutionManager.completeRewardExecution s4 playerId))
    ∧ steady s s3 ∧ cardsOf s3 = cardsOf s.
Proof.
  intros (Hph & player & gr & card & Hp & Hgr & Hturn & Hfind & Hrev)
         %validateGoalReveal_Valid.
  set (goalCard := g_set_revealed true card).
  set (mark := λ p, p_set_goalCards
                      (GoalResolutionManager.markRevealed
                         goalCardId (p_goalCards p)) p).
  set (s1 := set_players (GameStateOps.updatePlayer mark playerId (players s)) s).
  set (s2 := GoalResolutionManager.applyStockChange sps s1 goalCard).
  set (goalMet := GoalParser.checkGoal goalCard (p_hand player)).
  set (gr3 := {| gr_currentPlayerIndex := gr_currentPlayerIndex gr;
                 revealedGoals :=
                   revealedGoals gr ++ [{| rg_playerId := playerId;
                                           rg_goalCard := goalCard;
                                           rg_goalMet := goalMet;
                                           rg_rewardExecuted := false |}];
                 pendingRewardExecution := pendingRewardExecution gr |}).
  set (s3 := set_goalResolution (Some gr3) s2).
  pose proof (applyStockChange_others sps s1 goalCard)
    as (Hps2 & Hphs2 & Hdeck2 & _).
  fold s2 in Hps2, Hphs2, Hdeck2.
  assert (Hgr2 : goalResolution (phaseState s2) = Some gr).
  { by rewrite Hphs2. }
  assert (Hmark : idPreserving mark) by done.
  assert (Hreveal :
    GoalResolutionManager.revealGoal sps env s playerId goalCardId
    = (if goalMet
       then GoalResolutionManager.initiateRewardExecution
              sps env s3 playerId goalCard
       else GoalResolutionManager.advanceToNextPlayer s3)).
  { unfold GoalResolutionManager.revealGoal. rewrite Hp, Hfind.
    fold goalCard mark s1 s2. rewrite Hgr2. done. }
  exists player, card, s3. split; [done|]. split; [done|]. split; [done|].
  cbv zeta. fold goalCard goalMet.
  assert (Hsteady : steady s s3).
  { eapply steady_trans; [by apply (steady_updatePlayer mark playerId s)|].
    fold s1. eapply (steady_trans _ s2).
    - unfold s2, GoalResolutionManager.applyStockChange.
      destruct (g_stockChangeParsed goalCard) eqn:Hch; [apply steady_refl|].
      rewrite <- Hch. apply steady_set_stockPrices, applyChanges_dom.
    - by repeat split. }
  assert (Hcards : cardsOf s3 = cardsOf s).
  { unfold cardsOf, handsCards, s3. simpl. rewrite Hps2, Hdeck2. unfold s1.
    simpl. by rewrite handsOf_update_same. }
  refine (conj _ (conj _ (conj Hreveal (conj _ (conj _ (conj Hsteady Hcards)))))).
  - (* the processed state *)
    split.
    { exists player, (mark player). split; [done|]. split.
      - unfold GameStateOps.getPlayer, s3. simpl. rewrite Hps2. unfold s1.
        simpl. rewrite find_updatePlayer_eq by done.
        fold (GameStateOps.getPlayer s playerId). by rewrite Hp.
      - assert (g_id goalCard = goalCardId) as ->.
        { by apply findGoal_id in Hfind. }
        split; [by apply findGoal_markRevealed|]. done. }
    split; [exact (applyStockChange_prices sps s1 goalCard)|].
    split; [exists gr, gr3; done|].
    split; [done|].
    unfold ids. simpl. rewrite Hps2. unfold s1. simpl.
    by apply updatePlayer_ids.
  - intros parsed Hparsed Hwf. by apply checkGoal_spec.
  - intros Hmet. rewrite Hreveal, Hmet.
    unfold GoalResolutionManager.advanceToNextPlayer. simpl.
    eexists _, gr3, _. split; [reflexivity|]. done.
  - intros Hmet. rewrite Hreveal, Hmet.
    unfold GoalResolutionManager.initiateRewardExecution.
    unfold RewardSystem.executeReward.
    change (g_rewardParsed goalCard) with (g_rewardParsed card).
    destruct (rw_requiresTarget (g_rewardParsed card)
              || rw_requiresChoice (g_rewardParsed card)); simpl.
    + eexists _, _. split; [reflexivity|]. done.
    + eexists. split; reflexivity.
Qed.

(** C7: a reveal that passed validation marks the card revealed, applies
    its deltas to the market at once, and checks the owner's hand against
    the requirement (zero cards of the forbidden colour for a "none of"
    goal, otherwise at least the required number of every colour named);
    if the requirement is met the reward is started: a reward that needs
    the player's input is recorded as pending for that player, any other
    reward runs at once and is then completed; if the requirement is not
    met the turn goes to the next player and nothing else changes.  The
    market after the reveal, colour by colour: a priced colour that the
    card names has moved by its delta and is then raised to the floor or
    lowered to the ceiling where it lies beyond; every other colour is
    where it was. *)
Theorem goal_reveal (sps : StockPriceSystem) (env : Env) (s : GameState)
        (playerId goalCardId : string) :
  ValidationSystem.validateGoalReveal s playerId goalCardId = Valid →
  ∃ player card s3,
    GameStateOps.getPlayer s playerId = Some player
    ∧ GoalResolutionManager.findGoal goalCardId (p_goalCards player) = Some card
    ∧ g_revealed card = false
    ∧ let goalCard := g_set_revealed true card in
      let goalMet := GoalParser.checkGoal goalCard (p_hand player) in
      let reward := g_rewardParsed card in
      revealProcessed sps s playerId goalCard goalMet s3
      ∧ (NoDup (g_stockChangeParsed card).*1 →
         Forall plainKey (g_stockChangeParsed card).*1 →
         (∀ color delta old,
             (color, delta) ∈ g_stockChangeParsed card →
             stockPrices s !! color = Some old →
             stockPrices s3 !! color
             = Some (if (old + delta <? minPrice sps)%Z then minPrice sps
                     else match maxPrice sps with
                          | Some mx => Z.min mx (old + delta)
                          | None => (old + delta)%Z
                          end))
         ∧ (∀ color, color ∉ (g_stockChangeParsed card).*1 →
              stockPrices s3 !! color = stockPrices s !! color)
         ∧ dom (stockPrices s3) = dom (stockPrices s))
      ∧ (∀ parsed, g_goalParsed card = Some parsed → wellFormedGoal parsed →
           (goalMet = true ↔ goalSatisfied parsed (p_hand player)))
      ∧ GoalResolutionManager.revealGoal sps env s playerId goalCardId
        = (if goalMet
           then GoalResolutionManager.initiateRewardExecution
                  sps env s3 playerId goalCard
           else GoalResolutionManager.advanceToNextPlayer s3)
      ∧ (goalMet = false →
         ∃ s4 gr3 gr4,
           GoalResolutionManager.revealGoal sps env s playerId goalCardId
           = Done s4
           ∧ goalResolution (phaseState s3) = Some gr3
           ∧ goalResolution (phaseState s4) = Some gr4
           ∧ gr_currentPlayerIndex gr4 = S (gr_currentPlayerIndex gr3)
           ∧ revealedGoals gr4 = revealedGoals gr3
           ∧ pendingRewardExecution gr4 = pendingRewardExecution gr3
           ∧ players s4 = players s3 ∧ stockPrices s4 = stockPrices s3
           ∧ resourceDeck s4 = resourceDeck s3)
      ∧ (goalMet = true →
         if rw_requiresTarget reward || rw_requiresChoice reward then
           ∃ s4 gr4,
             GoalResolutionManager.revealGoal sps env s playerId goalCardId
             = Done s4
             ∧ goalResolution (phaseState s4) = Some gr4
             ∧ pendingRewardExecution gr4
               = Some {| pd_playerId := playerId;
                         pd_rewardType := rw_type reward;
                         pd_goalCard := goalCard |}
             ∧ players s4 = players s3 ∧ stockPrices s4 = stockPrices s3
         else
           ∃ ran,
             RewardSystem.executeReward sps env s3 playerId reward None
             = Some ran
             ∧ GoalResolutionManager.revealGoal sps env s playerId goalCardId
               = (let* s4 := ran in
                  GoalResolutionManager.completeRewardExecution s4 playerId)).
Proof.
  intros Hv.
  destruct (revealGoal_unfold sps env s playerId goalCardId Hv)
    as (player & card & s3 & Hp & Hc & Hr & H).
  cbv zeta in H. destruct H as (D1 & D2 & D3 & D4 & D5 & _).
  exists player, card, s3. cbv zeta.
  split; [done|]. split; [done|]. split; [done|]. split; [done|].
  split; [|auto 10].
  destruct D1 as (_ & Hprices & _). simpl in Hprices.
  intros Hnd _. rewrite Hprices. split; [|split].
  - intros color delta old Hin Hold.
    rewrite (applyChanges_moved sps _ _ color delta old Hnd Hin Hold).
    by rewrite constrainPrice_cases.
  - intros color Hnot. by apply applyChanges_skipped.
  - apply applyChanges_dom.
Qed.

(** The scenario of C7: A holds exactly two Blue cards and reveals the
    goal with effect Blue +2 and requirement "2 Blue".  Blue goes from 4
    to 6 and no other price moves, the goal is on record as met, and its
    reward (gain $1, which needs no input) runs at once. *)
Lemma goal_reveal_witness :
  let sps := StockPrice.create DEFAULT_CONFIG in
  let s := Example.goalState in
  ValidationSystem.validateGoalReveal s "A" "g0" = Valid
  ∧ countColor "Blue" (Example.handOf s "A") = 2
  ∧ stockPrices s !! "Blue" = Some 4%Z
  ∧ ∃ player card s3,
      GameStateOps.getPlayer s "A" = Some player
      ∧ GoalResolutionManager.findGoal "g0" (p_goalCards player) = Some card
      ∧ g_stockChangeParsed card = [("Blue", 2%Z)]
      ∧ stockPrices s3 !! "Blue" = Some 6%Z
      ∧ (∀ color, color ≠ "Blue" →
           stockPrices s3 !! color = stockPrices s !! color)
      ∧ revealProcessed sps s "A" (g_set_revealed true card) true s3
      ∧ ∃ ran,
          RewardSystem.executeReward sps Example.env s3 "A"
                                     (g_rewardParsed card) None = Some ran
          ∧ GoalResolutionManager.revealGoal sps Example.env s "A" "g0"
            = (let* s4 := ran in
               GoalResolutionManager.completeRewardExecution s4 "A").
Proof.
  intros sps s.
  assert (Hv : ValidationSystem.validateGoalReveal s "A" "g0" = Valid)
    by (vm_compute; reflexivity).
  split; [exact Hv|]. split; [evaluate|]. split; [evaluate|].
  destruct (goal_reveal sps Example.env s "A" "g0" Hv)
    as (player & card & s3 & Hp & Hc & _ & Hproc & Hprices & Hgoal & _ & _
        & Hmet).
  pose proof Hp as Hplayer. vm_compute in Hplayer.
  injection Hplayer as <-.
  assert (Hcard : card = Example.goal "g0" [("Blue", 2%Z)] [("Blue", 2)]).
  { vm_compute in Hc. by injection Hc as <-. }
  subst card.
  destruct Hprices as (Hmoved & Hrest & _).
  { apply (bool_decide_unpack _). by vm_compute. }
  { apply (bool_decide_unpack _). by vm_compute. }
  assert (Htrue : GoalParser.checkGoal
                    (g_set_revealed true
                       (Example.goal "g0" [("Blue", 2%Z)] [("Blue", 2)]))
                    (Example.handOf s "A") = true).
  { apply (Hgoal _ eq_refl).
    - apply (bool_decide_unpack _). by vm_compute.
    - apply (bool_decide_unpack _). by vm_compute. }
  eexists _, _, s3. split; [exact Hp|]. split; [exact Hc|].
  split; [reflexivity|]. split.
  { apply (Hmoved "Blue" 2%Z 4%Z); [by left|by vm_compute]. }
  split.
  { intros color Hne. apply Hrest. intros Hin. apply Hne.
    apply (proj1 (list_elem_of_singleton color "Blue")). exact Hin. }
  split; [by rewrite <- Htrue|].
  by apply Hmet.
Defined.

(** The same scenario run through the engine: A holds exactly two Blue cards and
    reveals the goal with effect Blue +2 and requirement "2 Blue".  Blue
    goes from 4 to 6, the goal is on record as met, and its reward (gain
    $1) has run: A's cash goes from 5 to 6 and the turn passes on. *)
Lemma goal_reveal_scenario :
  let s := Example.goalState in
  Example.atGoalResolution = Some s
  ∧ countColor "Blue" (Example.handOf s "A") = 2
  ∧ stockPrices s !! "Blue" = Some 4%Z
  ∧ Example.cashOf s "A" = 5%Z
  ∧ ∃ s', GameEngine.executeAction Example.env s (REVEAL_GOAL "A" "g0")
          = Ran (Done s')
      ∧ stockPrices s' !! "Blue" = Some 6%Z
      ∧ (revealedGoals <$> goalResolution (phaseState s'))
        = Some [{| rg_playerId := "A";
                   rg_goalCard := g_set_revealed true
                                    (Example.goal "g0" [("Blue", 2%Z)]
                                                  [("Blue", 2)]);
                   rg_goalMet := true; rg_rewardExecuted := true |}]
      ∧ Example.cashOf s' "A" = 6%Z
      ∧ (gr_currentPlayerIndex <$> goalResolution (phaseState s')) = Some 1.
Proof.
  intros s. subst s.
  split; [evaluate|]. split; [evaluate|]. split; [evaluate|].
  split; [evaluate|].
  destruct (GameEngine.executeAction Example.env Example.goalState
              (REVEAL_GOAL "A" "g0")) as [e|[s'|s'|]] eqn:H;
    vm_compute in H; try discriminate H.
  exists s'. split; [reflexivity|]. injection H as <-.
  split; [evaluate|]. split; [evaluate|]. split; evaluate.
Qed.

(** ** The invariant: general facts *)

Lemma allCards_unfold (s : GameState) :
  allCards s = cardsOf s ++ pendingAuction s.
Proof. done. Qed.

Lemma Inv_cardsOf_NoDup (mid : bool) (deck0 : list Card) (s : GameState) :
  wellFormedDeck deck0 → Inv mid deck0 s → NoDup (card_id <$> cardsOf s).
Proof.
  intros [Hnd _] HI. pose proof (inv_cards _ _ _ HI) as Hperm.
  rewrite <- Hperm, allCards_unfold, fmap_app in Hnd.
  by apply NoDup_app in Hnd as [? _].
Qed.

Lemma Inv_colors (mid : bool) (deck0 : list Card) (s : GameState) (c : Card) :
  wellFormedDeck deck0 → Inv mid deck0 s → c ∈ allCards s →
  card_color c ∈ COLORS.
Proof.
  intros [_ Hcol] HI Hin. rewrite (inv_cards _ _ _ HI) in Hin.
  by apply (proj1 (Forall_forall _ _) Hcol).
Qed.

Lemma Inv_cardsPriced (mid : bool) (deck0 : list Card) (s : GameState) :
  wellFormedDeck deck0 → Inv mid deck0 s → cardsPriced s.
Proof.
  intros Hwf HI c Hin. apply (inv_prices _ _ _ HI).
  eapply Inv_colors; [done..|]. rewrite allCards_unfold, elem_of_app. auto.
Qed.

Lemma COLORS_nonempty (color : string) : color ∈ COLORS → color ≠ EmptyString.
Proof.
  unfold COLORS. rewrite !elem_of_cons, elem_of_nil. naive_solver.
Qed.

Lemma Inv_phase_auction (mid : bool) (deck0 : list Card) (s : GameState) :
  Inv mid deck0 s → currentPhase s ≠ Some AUCTION →
  auction (phaseState s) = None.
Proof.
  intros HI Hph. pose proof (inv_auction _ _ _ HI) as Ha.
  unfold auctionInv in Ha. destruct (auction (phaseState s)); [|done].
  by destruct Ha as [? _].
Qed.

Lemma Inv_phase_trading (mid : bool) (deck0 : list Card) (s : GameState) :
  Inv mid deck0 s → currentPhase s ≠ Some TRADING →
  trading (phaseState s) = None.
Proof.
  intros HI Hph. pose proof (inv_trading _ _ _ HI) as Ht.
  unfold tradingInv in Ht. destruct (trading (phaseState s)); [|done].
  by destruct Ht as [? _].
Qed.

Lemma Inv_mid_weaken (deck0 : list Card) (s : GameState) :
  Inv false deck0 s → Inv true deck0 s.
Proof.
  intros [H1 H2 H3 H4 H5 H6 H7]. split; try done.
  unfold auctionInv in *. destruct (auction (phaseState s)); [|done].
  destruct H5 as (? & ? & ? & [?|[? _]]); auto 10.
Qed.

Lemma Inv_no_auction (mid mid' : bool) (deck0 : list Card) (s : GameState) :
  Inv mid deck0 s → auction (phaseState s) = None → Inv mid' deck0 s.
Proof.
  intros [H1 H2 H3 H4 H5 H6 H7] Ha. split; try done.
  unfold auctionInv. by rewrite Ha.
Qed.

Lemma pendingAuction_same (s s' : GameState) :
  auction (phaseState s') = auction (phaseState s) →
  pendingAuction s' = pendingAuction s.
Proof. unfold pendingAuction. by intros ->. Qed.

(** An invariant state stays one under a run of the helpers that keeps
    the cards, when no trade is open. *)
Lemma Inv_steady (mid : bool) (deck0 : list Card) (s s' : GameState) :
  Inv mid deck0 s → steady s s' → cardsOf s' ≡ₚ cardsOf s →
  trading (phaseState s) = None → goalInv s' → Inv mid deck0 s'.
Proof.
  intros [H1 H2 H3 H4 H5 H6 H7] (Ha & Ht & Hp & Hi & Hc & Hpr) Hcards Htr Hg.
  split; auto.
  - by rewrite Hi.
  - rewrite allCards_unfold, Hcards, (pendingAuction_same s s') by done. done.
  - unfold auctionInv, auctionFresh in *. rewrite Ha, Hp, Hi. done.
  - unfold tradingInv. by rewrite Ht, Htr.
Qed.

Lemma Inv_kept (mid : bool) (deck0 : list Card) (s s' : GameState) :
  Inv mid deck0 s → kept s s' → trading (phaseState s) = None →
  Inv mid deck0 s'.
Proof.
  intros HI (Hst & Hph & Hcards) Htr. eapply Inv_steady; try done.
  pose proof (inv_goal _ _ _ HI) as Hg. unfold goalInv in *.
  rewrite Hph. by destruct Hst as (_ & _ & _ & -> & _).
Qed.

(** The sell state and the history are not part of the invariant. *)
Lemma Inv_set_sell (mid : bool) (deck0 : list Card) (s : GameState)
      (x : option SellState) :
  Inv mid deck0 s → Inv mid deck0 (set_sell x s).
Proof. intros [H1 H2 H3 H4 H5 H6 H7]. by split. Qed.

Lemma Inv_recordAction (mid : bool) (deck0 : list Card) (s : GameState)
      (a : Action) :
  Inv mid deck0 s → Inv mid deck0 (GameStateOps.recordAction s a).
Proof. intros [H1 H2 H3 H4 H5 H6 H7]. by split. Qed.

Lemma Inv_set_goalResolution (mid : bool) (deck0 : list Card) (s : GameState)
      (g : GoalResolutionState) :
  Inv mid deck0 s →
  (∀ pd, pendingRewardExecution g = Some pd → pd_playerId pd ∈ ids s) →
  Inv mid deck0 (set_goalResolution (Some g) s).
Proof. intros [H1 H2 H3 H4 H5 H6 H7] Hg. by split. Qed.

(** ** Goal resolution keeps the invariant *)

Lemma advanceToNextPlayer_inv (mid : bool) (deck0 : list Card) (s : GameState) :
  Inv mid deck0 s →
  settles (GoalResolutionManager.advanceToNextPlayer s) (Inv mid deck0).
Proof.
  intros HI. unfold GoalResolutionManager.advanceToNextPlayer.
  pose proof (inv_goal _ _ _ HI) as Hg. unfold goalInv in Hg.
  destruct (goalResolution (phaseState s)) as [gr|]; [|done]. simpl.
  by apply Inv_set_goalResolution.
Qed.

Lemma completeRewardExecution_inv (mid : bool) (deck0 : list Card)
      (s : GameState) (playerId : string) :
  Inv mid deck0 s →
  settles (GoalResolutionManager.completeRewardExecution s playerId)
          (Inv mid deck0).
Proof.
  intros HI. unfold GoalResolutionManager.completeRewardExecution.
  destruct (goalResolution (phaseState s)) as [gr|]; [|done].
  apply advanceToNextPlayer_inv. by apply Inv_set_goalResolution.
Qed.

Lemma settles_bind (o : Outcome) (k : GameState → Outcome)
      (Q R : GameState → Prop) :
  settles o Q → (∀ s, Q s → R s) → (∀ s, Q s → settles (k s) R) →
  settles (let* s := o in k s) R.
Proof. destruct o; simpl; auto. Qed.

Lemma settles_mono (o : Outcome) (Q R : GameState → Prop) :
  settles o Q → (∀ s, Q s → R s) → settles o R.
Proof. destruct o; simpl; auto. Qed.

(** A reward that ran keeps the invariant. *)
Lemma reward_ran_inv (sps : StockPriceSystem) (env : Env) (mid : bool)
      (deck0 : list Card) (s : GameState) (playerId : string)
      (reward : RewardParsed) (choices : option Choices) (ran : Outcome) :
  wellFormedDeck deck0 → Inv mid deck0 s →
  currentPhase s = Some GOAL_RESOLUTION → playerId ∈ ids s →
  rearrangeWithoutRepeats reward choices →
  RewardSystem.executeReward sps env s playerId reward choices = Some ran →
  settles ran (Inv mid deck0).
Proof.
  intros Hwf HI Hph Hin Hre Hran.
  eapply settles_mono.
  - eapply executeReward_kept; [done| | |done|done].
    + by eapply Inv_cardsOf_NoDup.
    + by eapply Inv_cardsPriced.
  - intros s' Hk. eapply Inv_kept; [done..|].
    eapply Inv_phase_trading; [done|]. by rewrite Hph.
Qed.

Lemma initiateRewardExecution_inv (sps : StockPriceSystem) (env : Env)
      (mid : bool) (deck0 : list Card) (s : GameState) (playerId : string)
      (goalCard : GoalCard) :
  wellFormedDeck deck0 → Inv mid deck0 s →
  currentPhase s = Some GOAL_RESOLUTION → playerId ∈ ids s →
  settles (GoalResolutionManager.initiateRewardExecution
             sps env s playerId goalCard) (Inv mid deck0).
Proof.
  intros Hwf HI Hph Hin.
  unfold GoalResolutionManager.initiateRewardExecution.
  destruct (RewardSystem.executeReward _ _ _ _ _ _) as [ran|] eqn:Hran.
  - eapply settles_bind.
    + eapply reward_ran_inv; [done..| |done]. intros _ ch [=].
    + done.
    + intros s1 HI1. by apply completeRewardExecution_inv.
  - destruct (goalResolution (phaseState s)) as [gr|]; [|done]. simpl.
    apply Inv_set_goalResolution; [done|]. by intros pd [= <-].
Qed.

Lemma revealGoal_inv (sps : StockPriceSystem) (env : Env) (mid : bool)
      (deck0 : list Card) (s : GameState) (playerId goalCardId : string) :
  wellFormedDeck deck0 → Inv mid deck0 s →
  ValidationSystem.validateGoalReveal s playerId goalCardId = Valid →
  settles (GoalResolutionManager.revealGoal sps env s playerId goalCardId)
          (Inv mid deck0).
Proof.
  intros Hwf HI Hv.
  pose proof Hv as (Hph & _)%validateGoalReveal_Valid.
  destruct (revealGoal_unfold sps env s playerId goalCardId Hv)
    as (player & card & s3 & Hp & Hc & Hr & H).
  cbv zeta in H.
  destruct H as (Hproc & _ & Heq & _ & _ & Hst & Hcards).
  destruct Hproc as (_ & _ & (gr & gr3 & Hgr & Hgr3 & _ & _ & Hpend) & _ & Hids).
  assert (Hin : playerId ∈ ids s3).
  { rewrite Hids. apply getPlayer_is_Some. eauto. }
  assert (HI3 : Inv mid deck0 s3).
  { eapply Inv_steady; [done|done|by rewrite Hcards| |].
    - eapply Inv_phase_trading; [done|]. by rewrite Hph.
    - pose proof (inv_goal _ _ _ HI) as Hg. unfold goalInv in *.
      rewrite Hgr3, Hpend, Hids. by rewrite Hgr in Hg. }
  assert (Hph3 : currentPhase s3 = Some GOAL_RESOLUTION).
  { destruct Hst as (_ & _ & -> & _). done. }
  rewrite Heq. destruct (GoalParser.checkGoal _ _).
  - by apply initiateRewardExecution_inv.
  - by apply advanceToNextPlayer_inv.
Qed.

Lemma validateRewardExecution_Valid (s : GameState) (playerId : string) :
  ValidationSystem.validateRewardExecution s playerId = Valid →
  currentPhase s = Some GOAL_RESOLUTION
  ∧ ∃ gr pd, goalResolution (phaseState s) = Some gr
             ∧ pendingRewardExecution gr = Some pd
             ∧ pd_playerId pd = playerId.
Proof.
  unfold ValidationSystem.validateRewardExecution.
  case_bool_decide as Hph; simpl; [|done].
  destruct (goalResolution (phaseState s)) as [gr|]; [|done].
  destruct (pendingRewardExecution gr) as [pd|] eqn:Hpd; [|done].
  destruct (String.eqb_spec (pd_playerId pd) playerId); [|done].
  intros _. eauto 10.
Qed.

Lemma executeReward_inv (sps : StockPriceSystem) (env : Env) (mid : bool)
      (deck0 : list Card) (s : GameState) (playerId : string)
      (choices : option Choices) :
  wellFormedDeck deck0 → Inv mid deck0 s →
  ValidationSystem.validateRewardExecution s playerId = Valid →
  tidy s (EXECUTE_REWARD playerId choices) →
  settles (GoalResolutionManager.executeReward sps env s playerId choices)
          (Inv mid deck0).
Proof.
  intros Hwf HI (Hph & gr & pd & Hgr & Hpd & Hid)%validateRewardExecution_Valid
         Htidy.
  unfold GoalResolutionManager.executeReward. rewrite Hgr, Hpd.
  assert (Hin : playerId ∈ ids s).
  { pose proof (inv_goal _ _ _ HI) as Hg. unfold goalInv in Hg.
    rewrite Hgr in Hg. rewrite <- Hid. by apply Hg. }
  destruct (RewardSystem.executeReward _ _ _ _ _ _) as [ran|] eqn:Hran;
    [|done].
  eapply settles_bind.
  - eapply reward_ran_inv; [done..| |done].
    intros Hty ch ->. destruct (decide (NoDup (ch_newOrder ch))); [done|].
    exfalso. apply Htidy. exists playerId, ch, gr, pd. done.
  - done.
  - intros s1 HI1. by apply completeRewardExecution_inv.
Qed.

(** ** The sell phase keeps the invariant *)

Lemma sellCards_kept (cardIds : list string) (s : GameState)
      (playerId : string) (bonus : Z) (earnings : option Z) :
  (∀ c, c ∈ cardsOf s → card_color c ≠ EmptyString) →
  kept s (SellManager.sellCards s playerId bonus cardIds earnings).1.
Proof.
  revert s earnings. induction cardIds as [|cardId rest IH];
    intros s earnings Hcol; [apply kept_refl|].
  cbn [SellManager.sellCards].
  pose proof (steady_removeCardFromHand s playerId cardId) as Hst.
  destruct (GameStateOps.removeCardFromHand s playerId cardId) as [[card|] s1]
    eqn:Hr; cbn [snd] in Hst.
  2:{ apply removeCardFromHand_None in Hr as ->. by apply IH. }
  pose proof Hr as (h' & Hs1 & _)%removeCardFromHand_Some.
  apply cardsOf_removeCardFromHand in Hr as (Hperm & _ & _).
  destruct (String.eqb_spec (card_color card) EmptyString) as [Hempty|Hne].
  { exfalso. apply (Hcol card); [|done]. rewrite Hperm. by left. }
  set (s2 := set_resourceDeck _ s1).
  assert (Hk2 : kept s s2).
  { split; [eapply steady_trans; [done|apply steady_set_resourceDeck]|].
    split; [by subst s1|].
    rewrite Hperm. unfold cardsOf, DeckManager.discard. simpl.
    solve_Permutation. }
  eapply kept_trans; [done|]. apply IH.
  intros c Hc. apply Hcol. destruct Hk2 as (_ & _ & <-). done.
Qed.

Lemma sellFor_kept (s : GameState) (entry : string * Selection) :
  (∀ c, c ∈ cardsOf s → card_color c ≠ EmptyString) →
  kept s (SellManager.sellFor s entry).
Proof.
  intros Hcol. destruct entry as [playerId selection].
  unfold SellManager.sellFor.
  destruct (GameStateOps.getPlayer s playerId) as [player|];
    [|apply kept_refl].
  pose proof (sellCards_kept (cardsToSell selection) s playerId
                             (p_sellBonus player) (Some 0%Z) Hcol) as Hk.
  destruct (SellManager.sellCards _ _ _ _ _) as [s1 earnings]. cbn [fst] in Hk.
  set (s2 := match earnings with
             | Some e => if (0 <? e)%Z
                         then GameStateOps.adjustPlayerCash s1 playerId e
                         else s1
             | None => s1
             end).
  assert (Hk2 : kept s1 s2).
  { unfold s2. destruct earnings as [e|]; [|apply kept_refl].
    destruct (0 <? e)%Z; [apply kept_adjustPlayerCash|apply kept_refl]. }
  destruct (0 <? p_sellBonus player)%Z.
  - eapply kept_trans; [done|]. eapply kept_trans; [done|].
    split; [by apply steady_updatePlayer|]. split; [done|].
    apply cardsOf_set_players_same. by rewrite handsOf_update_same.
  - by eapply kept_trans.
Qed.

Lemma executeSells_kept (s : GameState) (sl : SellState) :
  (∀ c, c ∈ cardsOf s → card_color c ≠ EmptyString) →
  kept s (SellManager.executeSells s sl).
Proof.
  unfold SellManager.executeSells. generalize (playerSelections sl) as l.
  intros l. revert s. induction l as [|e l IH]; intros s Hcol;
    [apply kept_refl|].
  simpl. pose proof (sellFor_kept s e Hcol) as Hk.
  eapply kept_trans; [done|]. apply IH.
  intros c Hc. apply Hcol. destruct Hk as (_ & _ & <-). done.
Qed.

Lemma commitSell_inv (mid : bool) (deck0 : list Card) (s : GameState)
      (playerId : string) :
  wellFormedDeck deck0 → Inv mid deck0 s → currentPhase s = Some SELL →
  settles (SellManager.commitSell s playerId) (Inv mid deck0).
Proof.
  intros Hwf HI Hph. unfold SellManager.commitSell.
  destruct (sell (phaseState s)) as [sl|]; [|done].
  destruct (lookupSelection _ _) as [sel|]; [|done].
  destruct (forallb _ _); simpl; [|by apply Inv_set_sell].
  set (sl' := {| playerSelections := _; allCommitted := true |}).
  apply (Inv_kept mid deck0 (set_sell (Some sl') s)).
  - by apply Inv_set_sell.
  - apply executeSells_kept. intros c Hc. apply COLORS_nonempty.
    eapply (Inv_colors mid deck0 s); [done..|].
    rewrite allCards_unfold, elem_of_app. by left.
  - simpl. eapply Inv_phase_trading; [done|]. by rewrite Hph.
Qed.

Lemma selectCardsToSell_inv (mid : bool) (deck0 : list Card) (s : GameState)
      (playerId : string) (cardIds : option (list string)) :
  Inv mid deck0 s →
  settles (SellManager.selectCardsToSell s playerId cardIds) (Inv mid deck0).
Proof.
  intros HI. unfold SellManager.selectCardsToSell.
  destruct (sell (phaseState s)) as [sl|]; [|done].
  destruct (lookupSelection _ _) as [sel|]; [|done].
  simpl. by apply Inv_set_sell.
Qed.

(** ** The auction keeps the invariant *)

Lemma newSet_foldl_subseteq (l acc : list string) :
  foldl (λ acc x, if bool_decide (x ∈ acc) then acc else acc ++ [x]) acc l
  ⊆ acc ++ l.
Proof.
  revert acc. induction l as [|x l IH]; intros acc; simpl.
  - by rewrite app_nil_r.
  - case_bool_decide.
    + etrans; [apply IH|]. set_solver.
    + etrans; [apply IH|]. set_solver.
Qed.

Lemma newSet_subseteq (l : list string) : newSet l ⊆ l.
Proof. apply (newSet_foldl_subseteq l []). Qed.

Lemma newSet_foldl_NoDup (l acc : list string) :
  NoDup (acc ++ l) →
  foldl (λ acc x, if bool_decide (x ∈ acc) then acc else acc ++ [x]) acc l
  = acc ++ l.
Proof.
  revert acc. induction l as [|x l IH]; intros acc Hnd; simpl.
  - by rewrite app_nil_r.
  - apply NoDup_app in Hnd as Hnd'. destruct Hnd' as (_ & Hdis & _).
    case_bool_decide as Hin.
    + exfalso. apply (Hdis x Hin). by left.
    + rewrite IH; rewrite <- app_assoc; done.
Qed.

Lemma newSet_NoDup (l : list string) : NoDup l → newSet l = l.
Proof. intros Hnd. by apply (newSet_foldl_NoDup l []). Qed.

Lemma delete_length (x : string) (set : list string) :
  NoDup set → x ∈ set → S (length (delete_ x set)) = length set.
Proof.
  unfold delete_. induction set as [|y set IH]; intros Hnd Hin.
  - by apply elem_of_nil in Hin.
  - apply NoDup_cons in Hnd as [Hy Hnd]. simpl.
    destruct (String.eqb_spec y x) as [->|Hne]; simpl.
    + f_equal. clear IH Hin Hnd. induction set as [|z set IH]; [done|].
      simpl. apply not_elem_of_cons in Hy as [Hz Hy].
      destruct (String.eqb_spec z x) as [->|_]; [done|]. simpl.
      f_equal. by apply IH.
    + f_equal. apply IH; [done|]. apply elem_of_cons in Hin as [->|]; done.
Qed.

(** Rebuilding the invariant after a change that left the players' ids,
    the phase and the slots of the other phases alone. *)
Lemma Inv_rebuild (mid0 mid : bool) (deck0 : list Card) (s s' : GameState) :
  Inv mid0 deck0 s →
  ids s' = ids s →
  (cashNonNegative s → cashNonNegative s') →
  (pricedColors s → pricedColors s') →
  tradingInv s' →
  goalResolution (phaseState s') = goalResolution (phaseState s) →
  allCards s' ≡ₚ deck0 → auctionInv mid s' → Inv mid deck0 s'.
Proof.
  intros [H1 H2 H3 H4 H5 H6 H7] Hi Hc Hp Ht Hg Hcards Ha. split; auto.
  - by rewrite Hi.
  - unfold goalInv in *. by rewrite Hg, Hi.
Qed.

Lemma tradingInv_None (s : GameState) :
  trading (phaseState s) = None → tradingInv s.
Proof. unfold tradingInv. by intros ->. Qed.

Lemma moveToNextCard_auctionInv (s : GameState) (a : AuctionState) :
  currentPhase s = Some AUCTION → activeBidders a ⊆ ids s →
  (∀ w, currentHighBidder a = Some w → w ∈ ids s) →
  auctionInv true (AuctionManager.moveToNextCard s a).
Proof.
  intros Hph Hact Hhigh. unfold auctionInv, AuctionManager.moveToNextCard.
  destruct (Nat.ltb_spec (S (currentCardIndex a)) (length (cardsToAuction a)));
    simpl.
  - split; [done|]. split; [apply newSet_subseteq|]. split; [done|].
    left. by split.
  - split; [done|]. split; [done|]. split; [done|]. right. split; [lia|].
    by left.
Qed.

Lemma moveToNextCard_frame (s : GameState) (a : AuctionState) :
  let s' := AuctionManager.moveToNextCard s a in
  players s' = players s
  ∧ stockPrices s' = stockPrices s
  ∧ resourceDeck s' = resourceDeck s
  ∧ trading (phaseState s') = trading (phaseState s)
  ∧ goalResolution (phaseState s') = goalResolution (phaseState s)
  ∧ pendingAuction s'
    = drop (S (currentCardIndex a)) (cardsToAuction a).
Proof.
  unfold AuctionManager.moveToNextCard, pendingAuction.
  by destruct (_ <? _).
Qed.

Lemma moveToNextCard_inv (mid0 : bool) (deck0 : list Card)
      (s s2 : GameState) (a : AuctionState) :
  Inv mid0 deck0 s → currentPhase s = Some AUCTION →
  steady s s2 → phaseState s2 = phaseState s →
  activeBidders a ⊆ ids s →
  (∀ w, currentHighBidder a = Some w → w ∈ ids s) →
  cardsOf s2 ++ drop (S (currentCardIndex a)) (cardsToAuction a) ≡ₚ deck0 →
  Inv true deck0 (AuctionManager.moveToNextCard s2 a).
Proof.
  intros HI Hph (_ & _ & Hph2 & Hi & Hc & Hp) Hps Hact Hhigh Hcards.
  pose proof (moveToNextCard_frame s2 a) as Hf. cbv zeta in Hf.
  destruct Hf as (F1 & F2 & F3 & F4 & F5 & F6).
  apply (Inv_rebuild mid0 true deck0 s).
  - done.
  - unfold ids. by rewrite F1.
  - intros H. unfold cashNonNegative. rewrite F1. by apply Hc.
  - intros H. unfold pricedColors. rewrite F2. by apply Hp.
  - apply tradingInv_None. rewrite F4, Hps.
    eapply Inv_phase_trading; [done|]. by rewrite Hph.
  - by rewrite F5, Hps.
  - rewrite allCards_unfold, F6. unfold cardsOf, handsCards.
    rewrite F1, F3. done.
  - apply moveToNextCard_auctionInv; [by rewrite Hph2| by rewrite Hi..].
Qed.

Lemma winnerOf_elem_of (s : GameState) (a : AuctionState) (w : string) :
  activeBidders a ⊆ ids s →
  (∀ w, currentHighBidder a = Some w → w ∈ ids s) →
  AuctionManager.winnerOf a = Some w → w ∈ ids s.
Proof.
  intros Hact Hhigh. unfold AuctionManager.winnerOf.
  assert (Hhead : head (activeBidders a) = Some w → w ∈ ids s).
  { intros Hw. apply Hact. destruct (activeBidders a); [done|].
    injection Hw as ->. by left. }
  destruct (currentHighBidder a) as [h|]; [|done].
  destruct (String.eqb h EmptyString); [done|]. intros [= <-]. by apply Hhigh.
Qed.

Lemma winnerOf_is_Some (a : AuctionState) :
  activeBidders a ≠ [] → is_Some (AuctionManager.winnerOf a).
Proof.
  intros Hne. unfold AuctionManager.winnerOf.
  assert (is_Some (head (activeBidders a))).
  { destruct (activeBidders a); [done|]. by eexists. }
  destruct (currentHighBidder a) as [h|]; [|done].
  by destruct (String.eqb h EmptyString).
Qed.

(** Closing the auction of the current card, from a state whose auction
    state is [a]: the winner pays and takes the card. *)
Lemma completeCurrentCardAuction_inv (mid0 : bool) (deck0 : list Card)
      (s : GameState) (a : AuctionState) :
  Inv mid0 deck0 s → auction (phaseState s) = Some a → auctionOpen a →
  activeBidders a ≠ [] →
  ∃ s', AuctionManager.completeCurrentCardAuction s a = Done s'
        ∧ Inv true deck0 s'.
Proof.
  intros HI Ha [Hidx Hcard] Hne.
  pose proof (inv_auction _ _ _ HI) as Hai. unfold auctionInv in Hai.
  rewrite Ha in Hai. destruct Hai as (Hph & Hact & Hhigh & _).
  destruct (winnerOf_is_Some a Hne) as [w Hw].
  pose proof (winnerOf_elem_of s a w Hact Hhigh Hw) as Hin.
  unfold AuctionManager.completeCurrentCardAuction. rewrite Hw.
  destruct (proj2 (getPlayer_is_Some s w) Hin) as [p ->].
  destruct (lookup_lt_is_Some_2 _ _ Hidx) as [card Hc].
  rewrite Hcard, Hc. eexists. split; [done|].
  apply (moveToNextCard_inv mid0 deck0 s); try done.
  - eapply steady_trans; [apply steady_adjustPlayerCash|].
    apply steady_addCardToHand.
  - rewrite cardsOf_addCardToHand.
    2:{ pose proof (steady_adjustPlayerCash s w (- currentBid a)) as Hst.
        apply steady_phases in Hst as (_ & _ & _ & ->). done. }
    rewrite cardsOf_adjustPlayerCash.
    rewrite <- (inv_cards _ _ _ HI), allCards_unfold. unfold pendingAuction.
    rewrite Ha, (drop_S _ _ _ Hc). solve_Permutation.
Qed.

Lemma Inv_set_auction (mid0 mid : bool) (deck0 : list Card) (s : GameState)
      (a a' : AuctionState) :
  Inv mid0 deck0 s → auction (phaseState s) = Some a →
  cardsToAuction a' = cardsToAuction a →
  currentCardIndex a' = currentCardIndex a →
  currentCard a' = currentCard a →
  activeBidders a' ⊆ ids s →
  (∀ w, currentHighBidder a' = Some w → w ∈ ids s) →
  (auctionOpen a ∨ mid = true) →
  Inv mid deck0 (set_auction (Some a') s).
Proof.
  intros HI Ha E1 E2 E3 Hact Hhigh Hopen.
  pose proof (inv_auction _ _ _ HI) as Hai. unfold auctionInv in Hai.
  rewrite Ha in Hai. destruct Hai as (Hph & _ & _ & Hshape).
  apply (Inv_rebuild mid0 mid deck0 s); try done.
  - apply tradingInv_None. simpl.
    eapply Inv_phase_trading; [done|]. by rewrite Hph.
  - rewrite <- (inv_cards _ _ _ HI), !allCards_unfold. unfold pendingAuction.
    simpl. by rewrite Ha, E1, E2.
  - unfold auctionInv. simpl. split; [done|]. split; [done|]. split; [done|].
    unfold auctionOpen in *. rewrite E1, E2, E3.
    destruct Hopen as [?|Hmid]; [by left|]. subst mid.
    destruct Hshape as [?|[? _]]; [by left|]. right. split; [done|]. by left.
Qed.

Lemma placeBid_inv (mid0 : bool) (deck0 : list Card) (s : GameState)
      (playerId : string) (amount : Z) :
  Inv mid0 deck0 s →
  ValidationSystem.validateBid s playerId amount = Valid →
  ∃ s', AuctionManager.placeBid s playerId amount = Done s'
        ∧ Inv true deck0 s'.
Proof.
  intros HI (Hph & player & a & Hp & Ha & Hin & _)%validateBid_Valid.
  destruct (placeBid_spec s playerId amount a Ha)
    as (a' & -> & E1 & E2 & E3 & _ & E5 & E6).
  eexists. split; [done|].
  pose proof (inv_auction _ _ _ HI) as Hai. unfold auctionInv in Hai.
  rewrite Ha in Hai. destruct Hai as (_ & Hact & _ & _).
  apply (Inv_set_auction mid0 true deck0 s a a'); try done.
  - by rewrite E6.
  - rewrite E5. intros w [= <-]. apply getPlayer_is_Some. eauto.
  - by right.
Qed.

Lemma pass_inv (deck0 : list Card) (s : GameState) (playerId : string) :
  Inv false deck0 s →
  ValidationSystem.validatePass s playerId = Valid →
  ∃ s', AuctionManager.pass s playerId = Done s' ∧ Inv true deck0 s'.
Proof.
  intros HI (Hph & a0 & Ha & Hin)%validatePass_Valid.
  pose proof (inv_auction _ _ _ HI) as Hai. unfold auctionInv in Hai.
  rewrite Ha in Hai. destruct Hai as (_ & Hact & Hhigh & Hshape).
  unfold AuctionManager.pass. rewrite Ha.
  set (a := a_set_activeBidders _ a0).
  set (s1 := set_auction (Some a) s).
  assert (Hsub : activeBidders a ⊆ ids s).
  { simpl. etrans; [apply delete_subseteq|done]. }
  assert (HI1 : Inv true deck0 s1).
  { apply (Inv_set_auction false true deck0 s a0 a); try done. by right. }
  assert (Ha1 : auction (phaseState s1) = Some a) by done.
  destruct Hshape as [Hopen|[Hdone [[=]|[Hfresh1 Hfresh2]]]].
  - (* a card is on auction *)
    assert (Hopen' : auctionOpen a) by done.
    destruct (Nat.eqb_spec (length (activeBidders a)) 1) as [H1|H1].
    { apply (completeCurrentCardAuction_inv true); try done.
      intros Hnil. by rewrite Hnil in H1. }
    destruct (Nat.eqb_spec (length (activeBidders a)) 0) as [H0|H0].
    { destruct Hopen as [Hidx Hcard].
      destruct (lookup_lt_is_Some_2 _ _ Hidx) as [card Hc].
      change (currentCard a) with (currentCard a0). rewrite Hcard, Hc.
      eexists. split; [done|].
      apply (moveToNextCard_inv true deck0 s1);
        [done|done|apply steady_set_resourceDeck|done|done| |].
      - intros w. simpl. apply Hhigh.
      - rewrite <- (inv_cards _ _ _ HI), allCards_unfold.
        unfold pendingAuction, cardsOf. rewrite Ha. simpl.
        rewrite (drop_S _ _ _ Hc). solve_Permutation. }
    pose proof (advanceToNextActiveBidder_fields s1 a) as Hf. cbv zeta in Hf.
    set (a' := AuctionManager.advanceToNextActiveBidder s1 a) in *.
    destruct Hf as (F1 & F2 & F3 & F4 & F5 & F6 & F7).
    assert (HI2 : Inv true deck0 (set_auction (Some a') s1)).
    { apply (Inv_set_auction true true deck0 s1 a a'); try done.
      - by rewrite F6.
      - rewrite F5. intros w. simpl. apply Hhigh.
      - by right. }
    destruct (_ && _); [|by eexists].
    apply (completeCurrentCardAuction_inv true); try done.
    + unfold auctionOpen. by rewrite F1, F2, F3.
    + rewrite F6. intros Hnil. by rewrite Hnil in H0.
  - (* the queue was empty from the start of the phase *)
    assert (Hlen : S (length (activeBidders a)) = length (ids s)).
    { simpl. rewrite Hfresh2 in Hin |- *.
      apply delete_length; [apply (inv_ids _ _ _ HI)|done]. }
    pose proof (proj2 (inv_ids _ _ _ HI)) as H3.
    destruct (Nat.eqb_spec (length (activeBidders a)) 1) as [H1|H1]; [lia|].
    destruct (Nat.eqb_spec (length (activeBidders a)) 0) as [H0|H0]; [lia|].
    pose proof (advanceToNextActiveBidder_fields s1 a) as Hf. cbv zeta in Hf.
    set (a' := AuctionManager.advanceToNextActiveBidder s1 a) in *.
    destruct Hf as (F1 & F2 & F3 & F4 & F5 & F6 & F7).
    assert (HI2 : Inv true deck0 (set_auction (Some a') s1)).
    { apply (Inv_set_auction true true deck0 s1 a a'); try done.
      - by rewrite F6.
      - rewrite F5. intros w. simpl. apply Hhigh.
      - by right. }
    rewrite F7. simpl. rewrite Hfresh1.
    rewrite bool_decide_eq_false_2 by done. simpl. by eexists.
Qed.

(** ** Trades *)

Lemma getPlayer_update (f : Player → Player) (playerId : string)
      (s : GameState) :
  idPreserving f →
  GameStateOps.getPlayer
    (set_players (GameStateOps.updatePlayer f playerId (players s)) s) playerId
  = f <$> GameStateOps.getPlayer s playerId.
Proof. intros Hf. by apply find_updatePlayer_eq. Qed.

Lemma getPlayer_update_ne (f : Player → Player) (playerId other : string)
      (s : GameState) :
  idPreserving f → playerId ≠ other →
  GameStateOps.getPlayer
    (set_players (GameStateOps.updatePlayer f playerId (players s)) s) other
  = GameStateOps.getPlayer s other.
Proof. intros Hf Hne. by apply find_updatePlayer_ne. Qed.

Lemma cardValue_app (prices : gmap string Z) (l1 l2 : list Card) :
  GameStateOps.cardValue prices (l1 ++ l2)
  = (GameStateOps.cardValue prices l1 + GameStateOps.cardValue prices l2)%Z.
Proof.
  induction l1 as [|c l1 IH]; [done|]. simpl. fold (GameStateOps.cardValue).
  unfold GameStateOps.cardValue in *. simpl. rewrite IH.
  destruct (prices !! card_color c); [|done].
  destruct (String.eqb _ _); lia.
Qed.

Lemma cardValue_Permutation (prices : gmap string Z) (l1 l2 : list Card) :
  l1 ≡ₚ l2 →
  GameStateOps.cardValue prices l1 = GameStateOps.cardValue prices l2.
Proof.
  unfold GameStateOps.cardValue.
  induction 1 as [|c l1 l2 _ IH|c1 c2 l|l1 l2 l3 _ IH1 _ IH2]; simpl.
  - done.
  - by rewrite IH.
  - destruct (prices !! card_color c1), (prices !! card_color c2);
      repeat destruct (String.eqb _ _); lia.
  - by rewrite IH1.
Qed.

Lemma playersOnly_refl (s : GameState) : playersOnly s s.
Proof. unfold playersOnly. by destruct s. Qed.

Lemma playersOnly_trans (s1 s2 s3 : GameState) :
  playersOnly s1 s2 → playersOnly s2 s3 → playersOnly s1 s3.
Proof. unfold playersOnly. intros H12 H23. rewrite H23, H12. done. Qed.

Lemma playersOnly_update (f : Player → Player) (playerId : string)
      (s : GameState) :
  playersOnly s (set_players (GameStateOps.updatePlayer f playerId (players s))
                             s).
Proof. done. Qed.

Lemma playersOnly_fields (s s' : GameState) :
  playersOnly s s' →
  stockPrices s' = stockPrices s ∧ phaseState s' = phaseState s
  ∧ resourceDeck s' = resourceDeck s ∧ currentPhase s' = currentPhase s.
Proof. unfold playersOnly. intros ->. done. Qed.

Section Exchange.

Variables O A : string.

Lemma exchanged_refl (s : GameState) :
  is_Some (GameStateOps.getPlayer s O) →
  is_Some (GameStateOps.getPlayer s A) →
  exchanged O A [] [] 0 s s.
Proof.
  intros [pO HO] [pA HA]. split; [apply playersOnly_refl|]. split; [done|].
  exists pO, pA, pO, pA. rewrite !app_nil_r. repeat split; try done; lia.
Qed.

Lemma exchanged_trans (g1 t1 g2 t2 : list Card) (p1 p2 : Z)
      (s s1 s2 : GameState) :
  exchanged O A g1 t1 p1 s s1 → exchanged O A g2 t2 p2 s1 s2 →
  exchanged O A (g1 ++ g2) (t1 ++ t2) (p1 + p2) s s2.
Proof.
  intros (F1 & N1 & pO & pA & pO1 & pA1 & E1 & E2 & E3 & E4 & C1 & C2
          & H1 & H2)
         (F2 & N2 & qO & qA & pO2 & pA2 & G1 & G2 & G3 & G4 & D1 & D2
          & K1 & K2).
  rewrite E3 in G1. rewrite E4 in G2. injection G1 as <-. injection G2 as <-.
  split; [by eapply playersOnly_trans|]. split.
  { intros other H H'. by rewrite N2, N1. }
  exists pO, pA, pO2, pA2. repeat split; try done; try lia.
  - rewrite (assoc_L (++)), H1, <- !(assoc_L (++)), K1. done.
  - rewrite (assoc_L (++)), H2, <- !(assoc_L (++)), K2. done.
Qed.

Lemma exchanged_exist (g t : list Card) (p : Z) (s s' : GameState) :
  exchanged O A g t p s s' →
  is_Some (GameStateOps.getPlayer s' O)
  ∧ is_Some (GameStateOps.getPlayer s' A).
Proof. intros (_ & _ & ? & ? & ? & ? & _ & _ & -> & -> & _). eauto. Qed.

Lemma exchanged_wealth (g t : list Card) (p : Z) (s s' : GameState) :
  exchanged O A g t p s s' → pairWealth s' O A = pairWealth s O A.
Proof.
  intros (F & _ & pO & pA & pO' & pA' & E1 & E2 & E3 & E4 & C1 & C2
          & H1 & H2).
  apply playersOnly_fields in F as (Hpr & _).
  unfold pairWealth, GameStateOps.calculatePlayerWealth.
  rewrite E1, E2, E3, E4, Hpr, C1, C2.
  apply (cardValue_Permutation (stockPrices s)) in H1, H2.
  rewrite !cardValue_app in H1, H2. lia.
Qed.

End Exchange.

Lemma exchanged_sym (O A : string) (g t : list Card) (p : Z)
      (s s' : GameState) :
  exchanged O A g t p s s' → exchanged A O t g (- p) s s'.
Proof.
  intros (F & N & pO & pA & pO' & pA' & E1 & E2 & E3 & E4 & C1 & C2 & H1 & H2).
  split; [done|]. split; [intros other ??; by apply N|].
  exists pA, pO, pA', pO'. repeat split; try done; lia.
Qed.

Lemma removeCardFromHand_player (s s1 : GameState) (playerId cardId : string)
      (c : Card) :
  GameStateOps.removeCardFromHand s playerId cardId = (Some c, s1) →
  ∃ p h', GameStateOps.getPlayer s playerId = Some p
          ∧ p_hand p ≡ₚ c :: h'
          ∧ s1 = set_players
                   (GameStateOps.updatePlayer (p_set_hand h') playerId
                                              (players s)) s.
Proof.
  unfold GameStateOps.removeCardFromHand.
  destruct (GameStateOps.getPlayer s playerId) as [p|]; [|done].
  destruct (GameStateOps.removeFirstById cardId (p_hand p)) as [[x r]|] eqn:Hr;
    [|done].
  intros [= <- <-]. apply removeFirstById_spec in Hr as [Hperm _]. eauto.
Qed.

Lemma removeCardsByColor_player (s : GameState) (playerId color : string)
      (k : nat) (p : Player) :
  GameStateOps.getPlayer s playerId = Some p →
  ∃ rest,
    p_hand p ≡ₚ (GameStateOps.removeCardsByColor s playerId color k).1 ++ rest
    ∧ (GameStateOps.removeCardsByColor s playerId color k).2
      = set_players (GameStateOps.updatePlayer (p_set_hand rest) playerId
                                               (players s)) s.
Proof.
  intros Hp. unfold GameStateOps.removeCardsByColor. rewrite Hp.
  pose proof (takeByColor_spec color k (p_hand p)) as Hspec.
  destruct (GameStateOps.takeByColor color k (p_hand p)) as [removed rest].
  eauto.
Qed.

(** The cards [cards] arrive, one by one, in the hand of [to]. *)
Lemma foldl_addCardToHand (to : string) (cards : list Card) (s : GameState)
      (p : Player) :
  GameStateOps.getPlayer s to = Some p →
  let s' := foldl (λ st card, GameStateOps.addCardToHand st to card) s cards in
  steady s s' ∧ cardsOf s' ≡ₚ cards ++ cardsOf s ∧ playersOnly s s'
  ∧ (∃ p', GameStateOps.getPlayer s' to = Some p'
           ∧ p_cash p' = p_cash p ∧ p_hand p' = p_hand p ++ cards)
  ∧ ∀ other, to ≠ other →
             GameStateOps.getPlayer s' other = GameStateOps.getPlayer s other.
Proof.
  revert s p. induction cards as [|c cards IH]; intros s p Hp; simpl.
  { split; [apply steady_refl|]. split; [done|].
    split; [apply playersOnly_refl|]. split; [|done].
    exists p. by rewrite app_nil_r. }
  set (s1 := GameStateOps.addCardToHand s to c).
  assert (Hp1 : GameStateOps.getPlayer s1 to
                = Some (p_set_hand (p_hand p ++ [c]) p)).
  { unfold s1, GameStateOps.addCardToHand.
    rewrite getPlayer_update by done. by rewrite Hp. }
  destruct (IH s1 _ Hp1) as (Hst & Hcards & Hpo & (p' & Hp' & Hc & Hh) & Hne).
  split; [eapply steady_trans; [apply steady_addCardToHand|done]|].
  split.
  { rewrite Hcards. unfold s1. rewrite cardsOf_addCardToHand.
    - solve_Permutation.
    - apply getPlayer_is_Some. eauto. }
  split; [eapply playersOnly_trans; [|done]; apply playersOnly_update|].
  split.
  - exists p'. split; [done|]. split; [done|].
    rewrite Hh. simpl. by rewrite <- app_assoc.
  - intros other Hother. rewrite Hne by done.
    by apply getPlayer_update_ne.
Qed.

Section Transfers.

Variables from to : string.
Hypothesis Hne : from ≠ to.

(** One card leaves the hand of [from] for the hand of [to]. *)
Lemma give_one (s s1 : GameState) (cardId : string) (c : Card) :
  is_Some (GameStateOps.getPlayer s to) →
  GameStateOps.removeCardFromHand s from cardId = (Some c, s1) →
  let s2 := GameStateOps.addCardToHand s1 to c in
  exchanged from to [c] [] 0 s s2 ∧ kept s s2.
Proof.
  intros [pt Hpt] Hr. cbv zeta.
  pose proof (steady_removeCardFromHand s from cardId) as Hst.
  rewrite Hr in Hst. cbn [snd] in Hst.
  pose proof (cardsOf_removeCardFromHand _ _ _ _ _ Hr) as (Hcards & _ & _).
  apply removeCardFromHand_player in Hr as (pf & h' & Hpf & Hh & ->).
  set (s1 := set_players _ s) in *.
  assert (Hpt1 : GameStateOps.getPlayer s1 to = Some pt).
  { unfold s1. by rewrite getPlayer_update_ne. }
  assert (Hpf1 : GameStateOps.getPlayer s1 from = Some (p_set_hand h' pf)).
  { unfold s1. rewrite getPlayer_update by done. by rewrite Hpf. }
  split.
  - split; [eapply playersOnly_trans; apply playersOnly_update|]. split.
    { intros other H1 H2. unfold GameStateOps.addCardToHand.
      rewrite getPlayer_update_ne by done. unfold s1.
      by rewrite getPlayer_update_ne. }
    exists pf, pt, (p_set_hand h' pf), (p_set_hand (p_hand pt ++ [c]) pt).
    unfold GameStateOps.addCardToHand.
    rewrite getPlayer_update_ne, getPlayer_update, Hpt1 by done.
    repeat split; try done; simpl; try lia.
    + by rewrite app_nil_r.
  - split; [eapply steady_trans; [done|apply steady_addCardToHand]|].
    split; [done|]. rewrite cardsOf_addCardToHand, Hcards; [done|].
    apply getPlayer_is_Some. eauto.
Qed.

(** First loop of [executeTrade]. *)
Lemma transferOffered_exchanged (cardIds : list string) (s : GameState) :
  is_Some (GameStateOps.getPlayer s from) →
  is_Some (GameStateOps.getPlayer s to) →
  let s' := TradingManager.transferOffered s from to cardIds in
  (∃ give, exchanged from to give [] 0 s s') ∧ kept s s'.
Proof.
  revert s. induction cardIds as [|cardId rest IH]; intros s Hf Ht; simpl.
  { split; [|apply kept_refl]. exists []. by apply exchanged_refl. }
  destruct (GameStateOps.removeCardFromHand s from cardId) as [[c|] s1]
    eqn:Hr.
  - destruct (give_one s s1 cardId c Ht Hr) as [Hex Hk].
    destruct (exchanged_exist _ _ _ _ _ _ _ Hex) as [Hf2 Ht2].
    destruct (IH _ Hf2 Ht2) as [[give Hex'] Hk'].
    split; [|by eapply kept_trans].
    exists ([c] ++ give).
    apply (exchanged_trans from to [c] [] give [] 0 0 _ _ _ Hex Hex').
  - apply removeCardFromHand_None in Hr as ->. by apply IH.
Qed.

(** One requirement of the second loop. *)
Lemma give_color (s : GameState) (color : string) (k : nat) :
  is_Some (GameStateOps.getPlayer s from) →
  is_Some (GameStateOps.getPlayer s to) →
  let r := GameStateOps.removeCardsByColor s from color k in
  let s2 := foldl (λ st card, GameStateOps.addCardToHand st to card)
                  r.2 r.1 in
  exchanged from to r.1 [] 0 s s2 ∧ kept s s2.
Proof.
  intros [pf Hpf] [pt Hpt]. cbv zeta.
  pose proof (steady_removeCardsByColor s from color k) as Hst.
  pose proof (cardsOf_removeCardsByColor s from color k) as Hcards.
  destruct (removeCardsByColor_player s from color k pf Hpf)
    as (rest & Hh & Hs1).
  destruct (GameStateOps.removeCardsByColor s from color k)
    as [removed s1]. cbn [fst snd] in *. subst s1.
  set (s1 := set_players _ s) in *.
  assert (Hpt1 : GameStateOps.getPlayer s1 to = Some pt).
  { unfold s1. by rewrite getPlayer_update_ne. }
  assert (Hpf1 : GameStateOps.getPlayer s1 from = Some (p_set_hand rest pf)).
  { unfold s1. rewrite getPlayer_update by done. by rewrite Hpf. }
  destruct (foldl_addCardToHand to removed s1 pt Hpt1)
    as (Hst2 & Hcards2 & Hpo & (pt' & Hpt' & Hc & Hhand) & Hothers).
  split.
  - split; [eapply playersOnly_trans; [apply playersOnly_update|done]|].
    split.
    { intros other H1 H2. rewrite Hothers by done. unfold s1.
      by rewrite getPlayer_update_ne. }
    exists pf, pt, (p_set_hand rest pf), pt'.
    rewrite Hothers, Hpf1 by done.
    repeat split; try done; simpl; try lia.
    + by rewrite app_nil_r.
    + rewrite Hhand. done.
  - split; [by eapply steady_trans|]. split.
    + apply playersOnly_fields in Hpo as (_ & -> & _). done.
    + by rewrite Hcards2, Hcards.
Qed.

(** Second loop of [executeTrade]. *)
Lemma transferRequested_exchanged (reqs : list (string * nat))
      (s : GameState) :
  is_Some (GameStateOps.getPlayer s from) →
  is_Some (GameStateOps.getPlayer s to) →
  let s' := TradingManager.transferRequested s from to reqs in
  (∃ give, exchanged from to give [] 0 s s') ∧ kept s s'.
Proof.
  revert s. induction reqs as [|[color k] rest IH]; intros s Hf Ht; simpl.
  { split; [|apply kept_refl]. exists []. by apply exchanged_refl. }
  destruct (give_color s color k Hf Ht) as [Hex Hk].
  destruct (GameStateOps.removeCardsByColor s from color k) as [cards s1].
  cbn [fst snd] in *.
  destruct (exchanged_exist _ _ _ _ _ _ _ Hex) as [Hf2 Ht2].
  destruct (IH _ Hf2 Ht2) as [[give Hex'] Hk'].
  split; [|by eapply kept_trans].
  exists (cards ++ give).
  apply (exchanged_trans from to cards [] give [] 0 0 _ _ _ Hex Hex').
Qed.

(** A cash leg that the payer can afford. *)
Lemma cashLeg_exchanged (s : GameState) (amount : Z) (pf pt : Player) :
  GameStateOps.getPlayer s from = Some pf →
  GameStateOps.getPlayer s to = Some pt →
  (amount ≤ p_cash pf)%Z → (0 ≤ p_cash pf)%Z → (0 ≤ p_cash pt)%Z →
  ∃ s', TradingManager.cashLeg s from to amount = Done s'
        ∧ exchanged from to [] [] (Z.max 0 amount) s s' ∧ kept s s'.
Proof.
  intros Hpf Hpt Hle Hf0 Ht0. unfold TradingManager.cashLeg.
  destruct (Z.ltb_spec 0 amount) as [Hpos|Hneg].
  2:{ eexists. split; [done|]. split; [|apply kept_refl].
      replace (Z.max 0 amount) with 0%Z by lia.
      apply exchanged_refl; eauto. }
  set (s1 := GameStateOps.adjustPlayerCash s from (- amount)).
  set (s2 := GameStateOps.adjustPlayerCash s1 to amount).
  assert (Hpf1 : GameStateOps.getPlayer s1 from
                 = Some (GameStateOps.adjustCash (- amount) pf)).
  { unfold s1. by rewrite adjustPlayerCash_getPlayer, Hpf. }
  assert (Hpt1 : GameStateOps.getPlayer s1 to = Some pt).
  { unfold s1. by rewrite adjustPlayerCash_getPlayer_ne. }
  assert (Hpf2 : GameStateOps.getPlayer s2 from
                 = Some (GameStateOps.adjustCash (- amount) pf)).
  { unfold s2. rewrite adjustPlayerCash_getPlayer_ne; done. }
  assert (Hpt2 : GameStateOps.getPlayer s2 to
                 = Some (GameStateOps.adjustCash amount pt)).
  { unfold s2. by rewrite adjustPlayerCash_getPlayer, Hpt1. }
  rewrite Hpf2, Hpt2. eexists. split; [done|]. split.
  - split; [eapply playersOnly_trans; apply playersOnly_update|]. split.
    { intros other H1 H2. unfold s2, s1.
      by rewrite !adjustPlayerCash_getPlayer_ne. }
    exists pf, pt, (GameStateOps.adjustCash (- amount) pf),
           (GameStateOps.adjustCash amount pt).
    rewrite !adjustCash_cash, !app_nil_r.
    repeat split; try done; lia.
  - eapply kept_trans; apply kept_adjustPlayerCash.
Qed.

End Transfers.

(** [executeTrade] between an existing proposer who holds the offered
    cash and an existing acceptor who holds the requested cash: it
    returns, and what left one party reached the other. *)
Lemma executeTrade_spec (s : GameState) (offer : Offer) (A : string)
      (pO pA : Player) :
  let O := offeringPlayer offer in
  O ≠ A →
  GameStateOps.getPlayer s O = Some pO →
  GameStateOps.getPlayer s A = Some pA →
  (0 ≤ p_cash pO)%Z → (0 ≤ p_cash pA)%Z →
  (of_cash (offering offer) ≤ p_cash pO)%Z →
  (rq_cash (requesting offer) ≤ p_cash pA)%Z →
  ∃ s', TradingManager.executeTrade s offer A = Done s'
        ∧ (∃ give take pay, exchanged O A give take pay s s')
        ∧ kept s s'.
Proof.
  intros O HOA HO HA HO0 HA0 Hoff Hreq.
  assert (HAO : A ≠ O) by done.
  unfold TradingManager.executeTrade. fold O.
  destruct (transferOffered_exchanged O A HOA (of_cards (offering offer)) s)
    as [[give X1] K1]; [eauto..|].
  set (s1 := TradingManager.transferOffered _ _ _ _) in *.
  destruct (exchanged_exist _ _ _ _ _ _ _ X1) as [HO1 HA1].
  destruct (transferRequested_exchanged A O HAO (rq_cards (requesting offer))
                                        s1 HA1 HO1) as [[take X2] K2].
  set (s2 := TradingManager.transferRequested _ _ _ _) in *.
  apply exchanged_sym in X2.
  pose proof (exchanged_trans O A _ _ _ _ _ _ _ _ _ X1 X2) as X12.
  destruct (X12) as (F & N & qO & qA & pO2 & pA2 & E1 & E2 & E3 & E4 & C1 & C2
                     & H1 & H2).
  rewrite HO in E1. rewrite HA in E2. injection E1 as <-. injection E2 as <-.
  destruct (cashLeg_exchanged O A HOA s2 (of_cash (offering offer)) pO2 pA2)
    as (s3 & -> & X3 & K3); [done|done|lia..|].
  simpl.
  destruct (X3) as (F3 & N3 & qO & qA & pO3 & pA3 & E1 & E2 & E5 & E6 & C3 & C4
                    & H3 & H4).
  rewrite E3 in E1. rewrite E4 in E2. injection E1 as <-. injection E2 as <-.
  destruct (cashLeg_exchanged A O HAO s3 (rq_cash (requesting offer)) pA3 pO3)
    as (s4 & -> & X4 & K4); [done|done|lia..|].
  apply exchanged_sym in X4.
  eexists. split; [done|]. split.
  - pose proof (exchanged_trans O A _ _ _ _ _ _ _ _ _ X12 X3) as X123.
    pose proof (exchanged_trans O A _ _ _ _ _ _ _ _ _ X123 X4) as X.
    eauto.
  - eapply kept_trans; [done|]. eapply kept_trans; [done|].
    by eapply kept_trans.
Qed.

Lemma validateTradeAcceptance_Valid (s : GameState) (playerId id : string) :
  ValidationSystem.validateTradeAcceptance s playerId id = Valid →
  currentPhase s = Some TRADING
  ∧ ∃ player t offer,
      GameStateOps.getPlayer s playerId = Some player
      ∧ trading (phaseState s) = Some t
      ∧ findOffer (activeOffers t) id = Some offer
      ∧ o_status offer = ACTIVE
      ∧ offeringPlayer offer ≠ playerId
      ∧ (rq_cash (requesting offer) = 0
         ∨ rq_cash (requesting offer) ≤ p_cash player)%Z.
Proof.
  unfold ValidationSystem.validateTradeAcceptance.
  case_bool_decide as Hph; simpl; [|done].
  destruct (GameStateOps.getPlayer s playerId) as [player|]; [|done].
  destruct (trading (phaseState s)) as [t|]; [|done].
  destruct (findOffer (activeOffers t) id) as [offer|] eqn:Hfind; [|done].
  case_bool_decide as Hact; simpl; [|done].
  destruct (String.eqb_spec (offeringPlayer offer) playerId); [done|].
  destruct (Z.eqb_spec (rq_cash (requesting offer)) 0); simpl.
  - destruct (existsb _ _); [done|]. intros _. split; [done|].
    exists player, t, offer. auto 10.
  - destruct (Z.ltb_spec (p_cash player) (rq_cash (requesting offer)));
      [done|].
    destruct (existsb _ _); [done|]. intros _. split; [done|].
    exists player, t, offer. auto 10.
Qed.

Lemma findOffer_Some (offers : list Offer) (id : string) (offer : Offer) :
  findOffer offers id = Some offer → offer ∈ offers.
Proof. intros [Hin _]%find_some. by apply list_elem_of_In. Qed.

Lemma markOffer_covered (st : OfferStatus) (id : string) (s : GameState)
      (offers : list Offer) :
  st ≠ ACTIVE → Forall (offerCovered s) offers →
  Forall (offerCovered s) (TradingManager.markOffer st id offers).
Proof.
  intros Hst. induction 1 as [|o offers Ho Hrest IH]; simpl; [done|].
  destruct (String.eqb (offerId o) id); constructor; try done.
  intros Hact. by destruct Hst.
Qed.

Lemma getPlayer_cash_nonneg (s : GameState) (playerId : string) (p : Player) :
  cashNonNegative s → GameStateOps.getPlayer s playerId = Some p →
  (0 ≤ p_cash p)%Z.
Proof.
  intros Hcash [Hin _]%find_player_Some.
  by apply (proj1 (Forall_forall _ _) Hcash).
Qed.

Lemma autoCancelInvalidOffers_Done (s : GameState) (playerId : string)
      (t : TradingState) (player : Player) :
  trading (phaseState s) = Some t →
  GameStateOps.getPlayer s playerId = Some player →
  TradingManager.autoCancelInvalidOffers s playerId
  = Done (set_trading
            (Some {| activeOffers :=
                       (λ offer,
                          if TradingManager.isOwnActive playerId offer
                             && negb (TradingManager.stillCovered player offer)
                          then o_set_status CANCELLED offer else offer)
                         <$> activeOffers t;
                     timeRemaining := timeRemaining t |}) s).
Proof.
  intros Ht Hp. unfold TradingManager.autoCancelInvalidOffers,
                  TradingManager.set_offers.
  by rewrite Ht, Hp.
Qed.

Lemma cancelUncovered_active (playerId : string) (player : Player)
      (o : Offer) :
  o_status (if TradingManager.isOwnActive playerId o
               && negb (TradingManager.stillCovered player o)
            then o_set_status CANCELLED o else o) = ACTIVE →
  (if TradingManager.isOwnActive playerId o
      && negb (TradingManager.stillCovered player o)
   then o_set_status CANCELLED o else o) = o
  ∧ o_status o = ACTIVE
  ∧ (offeringPlayer o = playerId →
     (of_cash (offering o) ≤ p_cash player)%Z).
Proof.
  destruct (_ && _) eqn:Hc; [done|]. intros Hact. split; [done|].
  split; [done|]. intros Heq.
  unfold TradingManager.isOwnActive, TradingManager.stillCovered in Hc.
  rewrite bool_decide_eq_true_2, Heq, String.eqb_refl in Hc by done.
  simpl in Hc. apply negb_false_iff, andb_true_iff in Hc as [_ Hc]. lia.
Qed.

(** An accepted trade, from a state in which no cash is negative and the
    active offers are covered: the call returns; the two parties together
    are worth what they were worth; the offers that stay active are
    covered; the cards are where they were or with the other party. *)
Lemma acceptTrade_spec (s : GameState) (playerId id : string) :
  tradeSafe s →
  ValidationSystem.validateTradeAcceptance s playerId id = Valid →
  ∃ t offer s',
    trading (phaseState s) = Some t
    ∧ findOffer (activeOffers t) id = Some offer
    ∧ TradingManager.acceptTrade s playerId id = Done s'
    ∧ pairWealth s' (offeringPlayer offer) playerId
      = pairWealth s (offeringPlayer offer) playerId
    ∧ tradeSafe s'
    ∧ besidesOffers s s'
    ∧ is_Some (trading (phaseState s'))
    ∧ stockPrices s' = stockPrices s.
Proof.
  intros [Hcash Htr]
         (Hph & pA & t & offer & HA & Ht & Hfind & Hact & HOA & Hrq)
           %validateTradeAcceptance_Valid.
  exists t, offer.
  unfold tradingInv in Htr. rewrite Ht in Htr. destruct Htr as [_ Hcov].
  pose proof (findOffer_Some _ _ _ Hfind) as Hin.
  destruct (proj1 (Forall_forall _ _) Hcov offer Hin Hact)
    as (pO & HO & Hoff).
  pose proof (getPlayer_cash_nonneg s _ pO Hcash HO) as HO0.
  pose proof (getPlayer_cash_nonneg s _ pA Hcash HA) as HA0.
  unfold TradingManager.acceptTrade. rewrite Ht, Hfind.
  rewrite bool_decide_eq_true_2 by done. cbn [negb].
  unfold TradingManager.set_offers at 1. rewrite Ht.
  set (l1 := TradingManager.markOffer ACCEPTED id (activeOffers t)).
  set (s1 := set_trading _ s).
  destruct (executeTrade_spec s1 offer playerId pO pA)
    as (s2 & -> & (give & take & pay & X) & K); try done; [lia|].
  cbn [bindO].
  destruct (X) as (F & N & qO & qA & pO2 & pA2 & E1 & E2 & E3 & E4 & C1 & C2
                   & H1 & H2).
  destruct K as (Hst & Hps & Hcards).
  assert (Ht2 : trading (phaseState s2)
                = Some {| activeOffers := l1;
                          timeRemaining := timeRemaining t |})
    by (by rewrite Hps).
  rewrite (autoCancelInvalidOffers_Done s2 _ _ pO2 Ht2 E3). cbn [bindO].
  set (s3 := set_trading _ s2).
  rewrite (autoCancelInvalidOffers_Done s3 playerId _ pA2 eq_refl E4).
  eexists. split; [done|]. split; [done|]. split; [done|].
  pose proof Hst as (Sa & St & Sp & Si & Sc & Spr).
  split; [|split].
  - apply (exchanged_wealth _ _ _ _ _ s1 s2 X).
  - split; [by apply Sc|]. unfold tradingInv. simpl.
    split; [by rewrite Sp|].
    rewrite <- list_fmap_compose. apply Forall_fmap.
    assert (Hcov1 : Forall (offerCovered s) l1)
      by (by apply markOffer_covered).
    eapply Forall_impl; [exact Hcov1|].
    intros o Ho. unfold compose. intros Hact2.
    apply cancelUncovered_active in Hact2 as (HeqA & Hact1 & HcA).
    rewrite HeqA in *. clear HeqA.
    apply cancelUncovered_active in Hact1 as (HeqO & Hact0 & HcO).
    rewrite HeqO in *. clear HeqO.
    destruct (Ho Hact0) as (p & Hp & Hle).
    destruct (decide (offeringPlayer o = offeringPlayer offer)) as [HeqO|HneO].
    { exists pO2. rewrite HeqO. split; [done|]. by apply HcO. }
    destruct (decide (offeringPlayer o = playerId)) as [HeqA|HneA].
    { exists pA2. rewrite HeqA. split; [done|]. by apply HcA. }
    exists p. split; [|done].
    change (GameStateOps.getPlayer s2 (offeringPlayer o) = Some p).
    rewrite N by done. done.
  - split; [|split; [simpl; eauto|]].
    + unfold besidesOffers. simpl. rewrite Hps. done.
    + simpl. by apply playersOnly_fields in F as [-> _].
Qed.

Lemma besidesOffers_refl (s : GameState) : besidesOffers s s.
Proof. by repeat split. Qed.

Lemma besidesOffers_set_trading (x : option TradingState) (s : GameState) :
  besidesOffers s (set_trading x s).
Proof. by repeat split. Qed.

Lemma Inv_tradeSafe (mid : bool) (deck0 : list Card) (s : GameState) :
  Inv mid deck0 s → tradeSafe s.
Proof. intros HI. split; [apply (inv_cash _ _ _ HI)|apply (inv_trading _ _ _ HI)]. Qed.

Lemma Inv_besidesOffers (mid : bool) (deck0 : list Card) (s s' : GameState) :
  Inv mid deck0 s → besidesOffers s s' → tradeSafe s' → Inv mid deck0 s'.
Proof.
  intros HI (Hi & Hph & Ha & Hg & Hpr & Hcards) [Hcash Htr].
  apply (Inv_rebuild mid mid deck0 s); try done.
  - rewrite allCards_unfold, Hcards, (pendingAuction_same s s') by done.
    apply (inv_cards _ _ _ HI).
  - pose proof (inv_auction _ _ _ HI) as Hai.
    unfold auctionInv, auctionFresh in *. by rewrite Ha, Hph, Hi.
Qed.

Lemma validateTradeProposal_Valid (s : GameState) (playerId : string)
      (offering : option Offering) (requesting : option Requesting) :
  ValidationSystem.validateTradeProposal s playerId offering requesting
  = Valid →
  currentPhase s = Some TRADING
  ∧ ∃ player off req,
      GameStateOps.getPlayer s playerId = Some player
      ∧ offering = Some off ∧ requesting = Some req
      ∧ (of_cash off = 0 ∨ of_cash off ≤ p_cash player)%Z.
Proof.
  unfold ValidationSystem.validateTradeProposal.
  case_bool_decide as Hph; simpl; [|done].
  destruct (GameStateOps.getPlayer s playerId) as [player|]; [|done].
  destruct offering as [off|]; [|done].
  destruct (_ && _); [done|]. destruct requesting as [req|]; [|done].
  destruct (_ && _); [done|]. destruct (negb (forallb _ _)); [done|].
  destruct (Z.eqb_spec (of_cash off) 0); simpl.
  - intros _. split; [done|]. exists player, off, req. auto.
  - destruct (Z.ltb_spec (p_cash player) (of_cash off)); [done|].
    intros _. split; [done|]. exists player, off, req. auto.
Qed.

Lemma proposeTrade_spec (uuid : string) (s : GameState) (playerId : string)
      (offering : option Offering) (requesting : option Requesting) :
  tradeSafe s →
  ValidationSystem.validateTradeProposal s playerId offering requesting
  = Valid →
  settles (TradingManager.proposeTrade uuid s playerId offering requesting)
          (λ s', tradeSafe s' ∧ besidesOffers s s' ∧ players s' = players s).
Proof.
  intros [Hcash Htr]
         (Hph & player & off & req & Hp & -> & -> & Hoff)
           %validateTradeProposal_Valid.
  unfold TradingManager.proposeTrade.
  destruct (trading (phaseState s)) as [t|] eqn:Ht; simpl.
  2:{ split; [|split; [apply besidesOffers_refl|done]].
      split; [done|]. unfold tradingInv. by rewrite Ht. }
  split; [|split; [apply besidesOffers_set_trading|done]].
  split; [done|]. unfold tradingInv in *. simpl. rewrite Ht in Htr.
  destruct Htr as [_ Hcov]. split; [done|].
  apply Forall_app. split; [done|]. constructor; [|done].
  intros _. exists player. split; [done|]. simpl.
  pose proof (getPlayer_cash_nonneg s _ _ Hcash Hp). lia.
Qed.

Lemma cancelTrade_spec (s : GameState) (id : string) :
  tradeSafe s →
  settles (TradingManager.cancelTrade s id)
          (λ s', tradeSafe s' ∧ besidesOffers s s' ∧ players s' = players s).
Proof.
  intros [Hcash Htr]. unfold TradingManager.cancelTrade.
  assert (Hsame : tradeSafe s ∧ besidesOffers s s ∧ players s = players s).
  { split; [by split|]. split; [apply besidesOffers_refl|done]. }
  destruct (trading (phaseState s)) as [t|] eqn:Ht; [|done].
  destruct (findOffer (activeOffers t) id) as [offer|]; [|done].
  case_bool_decide; [|done]. simpl.
  unfold TradingManager.set_offers. rewrite Ht.
  split; [|split; [apply besidesOffers_set_trading|done]].
  split; [done|]. unfold tradingInv in *. simpl. rewrite Ht in Htr.
  destruct Htr as [? Hcov]. split; [done|]. by apply markOffer_covered.
Qed.

(** The three trading actions keep the invariant. *)
Lemma trading_inv (mid : bool) (deck0 : list Card) (s : GameState)
      (o : Outcome) :
  Inv mid deck0 s →
  settles o (λ s', tradeSafe s' ∧ besidesOffers s s' ∧ players s' = players s)
  → settles o (Inv mid deck0).
Proof.
  intros HI Ho. eapply settles_mono; [exact Ho|].
  intros s' (Hsafe & Hframe & _). by eapply Inv_besidesOffers.
Qed.

Lemma acceptTrade_inv (mid : bool) (deck0 : list Card) (s : GameState)
      (playerId id : string) :
  Inv mid deck0 s →
  ValidationSystem.validateTradeAcceptance s playerId id = Valid →
  ∃ s', TradingManager.acceptTrade s playerId id = Done s'
        ∧ Inv mid deck0 s'.
Proof.
  intros HI Hv.
  destruct (acceptTrade_spec s playerId id (Inv_tradeSafe _ _ _ HI) Hv)
    as (t & offer & s' & _ & _ & -> & _ & Hsafe & Hframe & _ & _).
  exists s'. split; [done|]. by eapply Inv_besidesOffers.
Qed.

(** ** Changes of phase keep the invariant *)

Lemma Inv_outside_auction (deck0 : list Card) (s : GameState) :
  Inv true deck0 s → currentPhase s ≠ Some AUCTION → Inv false deck0 s.
Proof.
  intros HI Hph. eapply Inv_no_auction; [done|].
  by eapply Inv_phase_auction.
Qed.

Lemma Inv_any_mid (mid : bool) (deck0 : list Card) (s : GameState) :
  Inv false deck0 s → Inv mid deck0 s.
Proof. destruct mid; [apply Inv_mid_weaken|done]. Qed.

(** Leaving a phase: its slot is emptied.  The auction slot may only be
    emptied when its queue is exhausted, or cards would be lost. *)
Lemma cleanupPhase_inv (deck0 : list Card) (s : GameState) :
  Inv true deck0 s →
  (∀ a, auction (phaseState s) = Some a →
        length (cardsToAuction a) ≤ currentCardIndex a) →
  let s1 := TurnSystem.cleanupPhase s (currentPhase s) in
  Inv false deck0 s1
  ∧ auction (phaseState s1) = None ∧ trading (phaseState s1) = None.
Proof.
  intros HI Hdone. cbv zeta.
  assert (Hpend : pendingAuction s = []).
  { unfold pendingAuction. destruct (auction (phaseState s)) as [a|] eqn:Ha;
      [|done].
    apply drop_ge. by apply Hdone. }
  destruct (currentPhase s) as [[]|] eqn:Hph; simpl.
  - split; [|split; [done|]].
    + apply (Inv_rebuild true false deck0 s); try done.
      * apply tradingInv_None. simpl.
        eapply Inv_phase_trading; [done|]. by rewrite Hph.
      * rewrite <- (inv_cards _ _ _ HI), !allCards_unfold, Hpend. done.
    + eapply Inv_phase_trading; [done|]. by rewrite Hph.
  - assert (Ha : auction (phaseState s) = None).
    { eapply Inv_phase_auction; [done|]. by rewrite Hph. }
    split; [|split; [done|done]].
    apply (Inv_rebuild true false deck0 s); try done.
    + apply (inv_cards _ _ _ HI).
    + unfold auctionInv. simpl. by rewrite Ha.
  - assert (Hno : currentPhase s ≠ Some AUCTION) by (by rewrite Hph).
    split; [by apply Inv_outside_auction|].
    split; [by eapply Inv_phase_auction|].
    eapply Inv_phase_trading; [done|]. by rewrite Hph.
  - assert (Hno : currentPhase s ≠ Some AUCTION) by (by rewrite Hph).
    split; [apply Inv_set_sell; by apply Inv_outside_auction|].
    split; [by eapply (Inv_phase_auction true deck0 s)|].
    eapply (Inv_phase_trading true deck0 s); [done|]. by rewrite Hph.
  - assert (Hno : currentPhase s ≠ Some AUCTION) by (by rewrite Hph).
    split; [by apply Inv_outside_auction|].
    split; [by eapply Inv_phase_auction|].
    eapply Inv_phase_trading; [done|]. by rewrite Hph.
Qed.

Lemma initializeAuction_inv (deck0 : list Card) (s : GameState) :
  Inv false deck0 s → currentPhase s = Some AUCTION →
  auction (phaseState s) = None → trading (phaseState s) = None →
  Inv false deck0 (AuctionManager.initializeAuction s).
Proof.
  intros HI Hph Ha Ht. unfold AuctionManager.initializeAuction.
  destruct (DeckManager.draw (resourceDeck s) (length (players s) + 2))
    as [cards deck] eqn:Hdraw.
  unfold DeckManager.draw in Hdraw. injection Hdraw as <- <-.
  set (count := if _ <? _ then _ else _).
  apply (Inv_rebuild false false deck0 s); try done.
  - by apply tradingInv_None.
  - rewrite <- (inv_cards _ _ _ HI), !allCards_unfold.
    unfold pendingAuction, cardsOf, handsCards. rewrite Ha. simpl.
    rewrite drop_0, app_nil_r.
    rewrite <- (take_drop count (drawPile (resourceDeck s))) at 3.
    solve_Permutation.
  - unfold auctionInv. simpl. split; [done|].
    pose proof (proj1 (inv_ids _ _ _ HI)) as Hnd.
    fold (ids s). split; [apply newSet_subseteq|]. split; [done|].
    destruct (take count (drawPile (resourceDeck s))) as [|c rest] eqn:Hcards.
    + right. split; [done|]. right. split; [done|]. simpl.
      by apply newSet_NoDup.
    + left. split; simpl; [lia|done].
Qed.

Lemma transitionToPhase_inv (deck0 : list Card) (s : GameState)
      (phase : Phase) :
  Inv true deck0 s →
  (∀ a, auction (phaseState s) = Some a →
        length (cardsToAuction a) ≤ currentCardIndex a) →
  Inv false deck0 (TurnSystem.transitionToPhase s phase).
Proof.
  intros HI Hdone. unfold TurnSystem.transitionToPhase.
  destruct (cleanupPhase_inv deck0 s HI Hdone) as (HI1 & Ha1 & Ht1).
  set (s1 := TurnSystem.cleanupPhase s (currentPhase s)) in *.
  set (s2 := set_currentPhase (Some phase) s1).
  assert (HI2 : Inv false deck0 s2).
  { apply (Inv_rebuild false false deck0 s1); try done.
    - by apply tradingInv_None.
    - apply (inv_cards _ _ _ HI1).
    - unfold auctionInv. simpl. by rewrite Ha1. }
  destruct phase; simpl.
  - by apply initializeAuction_inv.
  - apply (Inv_rebuild false false deck0 s2); try done.
    + apply (inv_cards _ _ _ HI2).
    + apply (inv_auction _ _ _ HI2).
  - by apply Inv_set_goalResolution.
  - by apply Inv_set_sell.
Qed.

Lemma Inv_advanceRound (mid : bool) (deck0 : list Card) (s : GameState) :
  Inv mid deck0 s → Inv mid deck0 (GameStateOps.advanceRound s).
Proof. intros [H1 H2 H3 H4 H5 H6 H7]. by split. Qed.

Lemma advancePhase_inv (deck0 : list Card) (s : GameState) :
  Inv true deck0 s →
  (∀ a, auction (phaseState s) = Some a →
        length (cardsToAuction a) ≤ currentCardIndex a) →
  Inv false deck0 (TurnSystem.advancePhase s).
Proof.
  intros HI Hdone. unfold TurnSystem.advancePhase.
  destruct (TurnSystem.getNextPhase (currentPhase s)) as [next|] eqn:Hnext.
  { by apply transitionToPhase_inv. }
  unfold TurnSystem.completeRound.
  destruct (_ <? _).
  - apply transitionToPhase_inv; [by apply Inv_advanceRound|done].
  - assert (Hno : currentPhase s ≠ Some AUCTION).
    { intros Hph. by rewrite Hph in Hnext. }
    apply (Inv_outside_auction deck0) in HI; [|done].
    destruct HI as [H1 H2 H3 H4 H5 H6 H7]. by split.
Qed.

Lemma manuallyEndPhase_inv (mid : bool) (deck0 : list Card) (s : GameState) :
  Inv mid deck0 s → Inv mid deck0 (TurnSystem.manuallyEndPhase s).
Proof.
  intros HI. unfold TurnSystem.manuallyEndPhase.
  case_bool_decide as Hph; [|done].
  assert (Ha : auction (phaseState s) = None).
  { eapply Inv_phase_auction; [done|]. by rewrite Hph. }
  apply Inv_any_mid, advancePhase_inv.
  - by eapply Inv_no_auction.
  - intros a. by rewrite Ha.
Qed.

(** The check for the end of the phase that follows every action. *)
Lemma phaseCheck_inv (deck0 : list Card) (s1 : GameState) :
  Inv true deck0 s1 →
  settles (match TurnSystem.canAdvancePhase s1 with
           | None => Threw s1
           | Some true => Done (TurnSystem.advancePhase s1)
           | Some false => Done s1
           end) (Inv false deck0).
Proof.
  intros HI. unfold TurnSystem.canAdvancePhase.
  destruct (currentPhase s1) as [[]|] eqn:Hph.
  - unfold AuctionManager.isAuctionComplete.
    destruct (auction (phaseState s1)) as [a|] eqn:Ha; simpl.
    2:{ by eapply Inv_no_auction. }
    destruct (Nat.leb_spec (length (cardsToAuction a)) (currentCardIndex a));
      simpl.
    + apply advancePhase_inv; [done|]. intros a'. rewrite Ha. by intros [= <-].
    + destruct HI as [H1 H2 H3 H4 H5 H6 H7]. split; try done.
      unfold auctionInv in *. rewrite Ha in *.
      destruct H5 as (? & ? & ? & [?|[? _]]); [auto|lia].
  - assert (Hno : currentPhase s1 ≠ Some AUCTION) by (by rewrite Hph).
    pose proof (Inv_outside_auction deck0 s1 HI Hno) as HI'.
    destruct (trading (phaseState s1)) as [t|]; simpl; [|done].
    destruct (TradingManager.isTimeExpired t); simpl; [|done].
    apply advancePhase_inv; [done|]. intros a.
    by rewrite (Inv_phase_auction true deck0 s1).
  - assert (Hno : currentPhase s1 ≠ Some AUCTION) by (by rewrite Hph).
    pose proof (Inv_outside_auction deck0 s1 HI Hno) as HI'.
    destruct (GoalResolutionManager.isGoalResolutionComplete s1); simpl;
      [|done].
    apply advancePhase_inv; [done|]. intros a.
    by rewrite (Inv_phase_auction true deck0 s1).
  - assert (Hno : currentPhase s1 ≠ Some AUCTION) by (by rewrite Hph).
    pose proof (Inv_outside_auction deck0 s1 HI Hno) as HI'.
    destruct (SellManager.areAllCommitted s1); simpl; [|done].
    apply advancePhase_inv; [done|]. intros a.
    by rewrite (Inv_phase_auction true deck0 s1).
  - simpl. apply Inv_outside_auction; [done|]. by rewrite Hph.
Qed.

(** ** Every action keeps the invariant *)

Lemma validateSellCommit_Valid (s : GameState) (playerId : string) :
  ValidationSystem.validateSellCommit s playerId = Valid →
  currentPhase s = Some SELL.
Proof.
  unfold ValidationSystem.validateSellCommit.
  by case_bool_decide.
Qed.

Lemma lands_settles (o : Outcome) (deck0 : list Card) :
  settles o (Inv false deck0) → lands o (Inv true deck0) (Inv false deck0).
Proof. destruct o; simpl; auto using Inv_mid_weaken. Qed.

Lemma dispatchAction_inv (env : Env) (deck0 : list Card) (s : GameState)
      (a : Action) :
  wellFormedDeck deck0 → Inv false deck0 s →
  ValidationSystem.validateAction s a = Valid → tidy s a →
  lands (GameEngine.dispatchAction env s a) (Inv true deck0) (Inv false deck0).
Proof.
  intros Hwf HI Hv Htidy. destruct a as [playerId amount|playerId|playerId offer request|playerId id|playerId id|playerId|playerId goalCardId|playerId choices|playerId cardIds|playerId];
    simpl in Hv |- *.
  - destruct (placeBid_inv false deck0 s playerId amount HI Hv)
      as (s' & -> & HI'). done.
  - destruct (pass_inv deck0 s playerId HI Hv) as (s' & -> & HI'). done.
  - apply lands_settles. eapply trading_inv; [done|].
    apply proposeTrade_spec; [by eapply Inv_tradeSafe|done].
  - destruct (acceptTrade_inv false deck0 s playerId id HI Hv)
      as (s' & -> & HI'). by apply Inv_mid_weaken.
  - apply lands_settles. eapply trading_inv; [done|].
    apply cancelTrade_spec. by eapply Inv_tradeSafe.
  - by apply Inv_mid_weaken, manuallyEndPhase_inv.
  - apply lands_settles. by apply revealGoal_inv.
  - apply lands_settles. by apply executeReward_inv.
  - apply lands_settles. by apply selectCardsToSell_inv.
  - apply lands_settles. apply commitSell_inv; [done..|].
    by apply validateSellCommit_Valid in Hv.
Qed.

Lemma executeAction_inv (env : Env) (deck0 : list Card) (s : GameState)
      (a : Action) (o : Outcome) :
  wellFormedDeck deck0 → Inv false deck0 s → tidy s a →
  GameEngine.executeAction env s a = Ran o → settles o (Inv false deck0).
Proof.
  intros Hwf HI Htidy [Hv ->]%executeAction_Ran.
  pose proof (dispatchAction_inv env deck0 (GameStateOps.recordAction s a) a
                                 Hwf (Inv_recordAction _ _ _ a HI) Hv Htidy)
    as Hd.
  destruct (GameEngine.dispatchAction _ _ _) as [s1|s1|]; simpl in *;
    [|done|done].
  by apply phaseCheck_inv.
Qed.

Lemma reachable_inv (deck0 : list Card) (s0 s : GameState) :
  wellFormedDeck deck0 → Inv false deck0 s0 → reachableWith tidy s0 s →
  Inv false deck0 s.
Proof.
  intros Hwf HI Hreach. induction Hreach as [s|s1 s2 s3 Hstep _ IH]; [done|].
  apply IH. destruct Hstep as (env & a & Htidy & [Hrun|Hrun]);
    by apply (executeAction_inv env deck0 s1 a _ Hwf HI Htidy Hrun).
Qed.

(** ** Setup establishes the invariant *)

Lemma dealResources_spec (n : nat) (ps : list Player) (deck : Deck) :
  let r := GameEngine.dealResources n ps deck in
  p_id <$> r.1 = p_id <$> ps
  ∧ p_cash <$> r.1 = p_cash <$> ps
  ∧ handsOf r.1 ++ drawPile r.2 ≡ₚ handsOf ps ++ drawPile deck
  ∧ discardPile r.2 = discardPile deck.
Proof.
  revert deck. induction ps as [|p ps IH]; intros deck; [done|].
  cbn [GameEngine.dealResources].
  destruct (DeckManager.draw deck n) as [cards deck1] eqn:Hdraw.
  specialize (IH deck1). cbv zeta in IH.
  destruct (GameEngine.dealResources n ps deck1) as [rest' deck2].
  cbn [fst snd] in *. destruct IH as (I1 & I2 & I3 & I4).
  unfold DeckManager.draw in Hdraw. injection Hdraw as <- <-.
  set (count := if _ <? _ then _ else _) in *. cbn [drawPile discardPile] in *.
  rewrite !fmap_cons, !handsOf_cons, I1, I2, I4. simpl.
  repeat split; try done.
  rewrite <- !app_assoc, I3.
  rewrite <- (take_drop count (drawPile deck)) at 3. solve_Permutation.
Qed.

Lemma steady_set_goalDeck (g : list GoalCard) (s : GameState) :
  steady s (set_goalDeck g s).
Proof. by repeat split. Qed.

Lemma kept_addGoalCard (s : GameState) (playerId : string) (g : GoalCard) :
  kept s (GameStateOps.addGoalCard s playerId g).
Proof.
  split; [by apply steady_updatePlayer|]. split; [done|].
  apply cardsOf_set_players_same. by rewrite handsOf_update_same.
Qed.

Lemma dealGoalsTo_kept (n : nat) (playerId : string) (s : GameState) :
  kept s (GameEngine.dealGoalsTo n playerId s).
Proof.
  revert s. induction n as [|n IH]; intros s; simpl; [apply kept_refl|].
  destruct (goalDeck_undealt s) as [|g rest]; [apply IH|].
  eapply kept_trans; [|apply IH].
  eapply kept_trans; [|apply kept_addGoalCard].
  split; [apply steady_set_goalDeck|done].
Qed.

Lemma dealAllGoals_kept (playerIds : list string) (s : GameState) :
  kept s (foldl (λ st playerId,
                   GameEngine.dealGoalsTo (startingGoalCards (config st))
                                          playerId st) s playerIds).
Proof.
  revert s. induction playerIds as [|x l IH]; intros s; simpl;
    [apply kept_refl|].
  eapply kept_trans; [apply dealGoalsTo_kept|apply IH].
Qed.

Lemma initial_prices (v : Z) (colors : list string) (m : gmap string Z)
      (color : string) :
  color ∈ colors →
  is_Some (foldl (λ prices color, <[color := v]> prices) m colors !! color).
Proof.
  revert m. induction colors as [|c colors IH]; intros m Hin.
  { by apply elem_of_nil in Hin. }
  simpl. destruct (decide (color ∈ colors)) as [Hin'|Hnot]; [by apply IH|].
  apply elem_of_cons in Hin as [->|]; [|done].
  clear IH. assert (Hm : is_Some (<[c := v]> m !! c))
    by (rewrite lookup_insert_eq; eauto).
  revert Hm. generalize (<[c := v]> m). clear Hnot.
  induction colors as [|c' colors IH]; intros m' Hm'; [done|]. simpl.
  apply IH. rewrite lookup_insert_is_Some. destruct (decide (c' = c)); auto.
Qed.

Lemma fmap_imap_ignore {A B C : Type} (h : B → C) (f : A → C)
      (g : nat → A → B) (l : list A) :
  (∀ i x, h (g i x) = f x) → h <$> imap g l = f <$> l.
Proof.
  revert g. induction l as [|x l IH]; intros g Hg; [done|].
  cbn [imap]. rewrite !fmap_cons. rewrite Hg. f_equal. apply IH.
  intros i y. apply Hg.
Qed.

Lemma initial_players (cfg : Config) (infos : list PlayerInfo) :
  let ps := players (GameEngine.createInitialState cfg infos) in
  p_id <$> ps = pi_id <$> infos
  ∧ p_cash <$> ps = (λ _, startingCash cfg) <$> infos
  ∧ handsOf ps = [].
Proof.
  simpl. unfold handsOf.
  rewrite (fmap_imap_ignore p_id pi_id) by done.
  rewrite (fmap_imap_ignore p_cash (λ _, startingCash cfg)) by done.
  rewrite (fmap_imap_ignore p_hand (λ _, [])) by done.
  split; [done|]. split; [done|].
  induction infos as [|i infos IH]; [done|]. by rewrite fmap_cons.
Qed.

Lemma setup_inv (deck0 : list Card) (s0 : GameState) :
  setupState deck0 s0 → wellFormedDeck deck0 ∧ Inv false deck0 s0.
Proof.
  intros (cfg & infos & goals & s & Hwf & Hnd & Hcash & Hinit & Hstart).
  split; [done|].
  unfold GameEngine.initialize in Hinit.
  destruct (Nat.ltb_spec (length infos) 3) as [|Hlen]; [done|].
  injection Hinit as <-.
  unfold GameEngine.start in Hstart.
  destruct (status _); [|discriminate Hstart..].
  apply (inj Some) in Hstart. subst s0.
  apply transitionToPhase_inv.
  2:{ intros a Ha. exfalso. revert Ha.
      unfold GameEngine.dealInitialCards.
      destruct (GameEngine.dealResources _ _ _) as [ps deck].
      pose proof (dealAllGoals_kept
                    (p_id <$> ps)
                    (set_resourceDeck deck
                       (set_players ps
                          (set_goalDeck goals
                             (set_resourceDeck
                                {| drawPile := deck0; discardPile := [] |}
                                (GameEngine.createInitialState cfg infos))))))
        as (_ & Hps & _).
      simpl in *. rewrite Hps. done. }
  set (base := set_goalDeck goals _).
  unfold GameEngine.dealInitialCards.
  pose proof (dealResources_spec (startingResourceCards (config base))
                                 (players base) (resourceDeck base)) as Hdeal.
  cbv zeta in Hdeal.
  destruct (GameEngine.dealResources _ _ _) as [ps deck]. cbn [fst snd] in *.
  destruct Hdeal as (D1 & D2 & D3 & D4).
  destruct (initial_players cfg infos) as (P1 & P2 & P3).
  set (s1 := set_resourceDeck deck (set_players ps base)).
  assert (HI1 : Inv true deck0 s1).
  { split.
    - unfold ids. simpl. rewrite D1. unfold base. simpl.
      change (imap _ infos)
        with (players (GameEngine.createInitialState cfg infos)).
      rewrite P1. split; [done|]. by rewrite length_fmap.
    - unfold cashNonNegative. simpl.
      change (Forall ((λ c, (0 ≤ c)%Z) ∘ p_cash) ps).
      apply Forall_fmap. rewrite D2.
      unfold base. simpl.
      change (imap _ infos)
        with (players (GameEngine.createInitialState cfg infos)).
      rewrite P2. apply Forall_fmap, Forall_forall. done.
    - rewrite allCards_unfold. unfold pendingAuction, cardsOf, handsCards.
      simpl. rewrite app_nil_r, D4. unfold base. simpl.
      rewrite app_nil_r, D3. unfold base. simpl.
      change (imap _ infos)
        with (players (GameEngine.createInitialState cfg infos)).
      by rewrite P3.
    - intros color Hin.
      exact (initial_prices (startingStockPrice cfg) COLORS ∅ color Hin).
    - done.
    - done.
    - done. }
  set (s2 := foldl _ s1 _).
  assert (Hk : kept s1 s2) by apply dealAllGoals_kept.
  assert (HI2 : Inv true deck0 s2) by (by eapply Inv_kept).
  destruct HI2 as [H1 H2 H3 H4 H5 H6 H7]. by split.
Qed.

(** ** Card conservation *)

Lemma countColor_Permutation (color : string) (l1 l2 : list Card) :
  l1 ≡ₚ l2 → countColor color l1 = countColor color l2.
Proof.
  unfold countColor.
  induction 1 as [|c l1 l2 _ IH|c1 c2 l|l1 l2 l3 _ IH1 _ IH2]; simpl.
  - done.
  - destruct (String.eqb _ _); simpl; by rewrite IH.
  - by destruct (String.eqb (card_color c1) color),
               (String.eqb (card_color c2) color).
  - by rewrite IH1.
Qed.

Lemma example_setup : setupState Example.deck Example.auctionState.
Proof.
  exists DEFAULT_CONFIG, Example.infos, Example.goals,
    (default Example.notStarted
             (GameEngine.initialize DEFAULT_CONFIG Example.infos Example.deck
                                    Example.goals)).
  split; [apply (bool_decide_unpack _); evaluate|].
  split; [apply (bool_decide_unpack _); evaluate|].
  split; [done|]. split; evaluate.
Qed.

(** C1, as stated, fails in the middle of the auction phase.  Right after
    setup the first auction is open: the five cards drawn for it are in
    no hand and in neither pile, so that hands, draw pile and discard
    pile hold 19 of the 24 cards, and 4 of the 6 Yellow ones. *)
Lemma card_conservation_counterexample :
  setupState Example.deck Example.auctionState
  ∧ reachableWith anyAction Example.auctionState Example.auctionState
  ∧ currentPhase Example.auctionState = Some AUCTION
  ∧ length (cardsOf Example.auctionState) = 19
  ∧ length Example.deck = 24
  ∧ countColor "Yellow" (cardsOf Example.auctionState) = 4
  ∧ countColor "Yellow" Example.deck = 6
  ∧ (Example.card "r6" "Yellow" ∈ Example.deck)
  ∧ (Example.card "r6" "Yellow" ∉ cardsOf Example.auctionState)
  ∧ pendingAuction Example.auctionState
    = [ Example.card "r6" "Yellow"; Example.card "r7" "Purple";
        Example.card "r8" "Blue"; Example.card "r9" "Orange";
        Example.card "r10" "Yellow" ].
Proof.
  split; [apply example_setup|]. split; [apply rtc_refl|].
  split; [evaluate|]. split; [evaluate|]. split; [evaluate|].
  split; [evaluate|]. split; [evaluate|].
  split; [apply (bool_decide_unpack _); evaluate|].
  split; [apply (bool_decide_unpack _); evaluate|]. evaluate.
Qed.

(** C1 (amended): in every state reachable from setup by validated
    actions (none of which hands the rearrange-top reward an order with a
    repeated id), the resource cards of the hands, the draw pile, the
    discard pile and the cards still waiting in the auction queue are,
    taken together, the starting deck: every card of the deck is in
    exactly one of these four places, the per-colour totals are those of
    the deck, and outside the auction phase the first three places hold
    them all. *)
Theorem card_conservation (deck0 : list Card) (s0 s : GameState) :
  setupState deck0 s0 → reachableWith tidy s0 s →
  handsCards s ++ drawPile (resourceDeck s) ++ discardPile (resourceDeck s)
    ++ pendingAuction s ≡ₚ deck0
  ∧ NoDup (card_id <$> allCards s)
  ∧ (∀ color, countColor color (allCards s) = countColor color deck0)
  ∧ (currentPhase s ≠ Some AUCTION → cardsOf s ≡ₚ deck0).
Proof.
  intros [Hwf HI0]%setup_inv Hreach.
  pose proof (reachable_inv deck0 s0 s Hwf HI0 Hreach) as HI.
  pose proof (inv_cards _ _ _ HI) as Hcards.
  split; [|split; [|split]].
  - rewrite <- Hcards. unfold allCards, cardsOf. by rewrite <- !app_assoc.
  - rewrite Hcards. apply Hwf.
  - intros color. by apply countColor_Permutation.
  - intros Hph. rewrite <- Hcards, allCards_unfold. unfold pendingAuction.
    rewrite (Inv_phase_auction false deck0 s HI Hph). by rewrite app_nil_r.
Qed.

Lemma card_conservation_witness :
  let s := Example.bidPassState in
  handsCards s ++ drawPile (resourceDeck s) ++ discardPile (resourceDeck s)
    ++ pendingAuction s ≡ₚ Example.deck
  ∧ NoDup (card_id <$> allCards s)
  ∧ (∀ color, countColor color (allCards s) = countColor color Example.deck)
  ∧ (currentPhase s ≠ Some AUCTION → cardsOf s ≡ₚ Example.deck).
Proof.
  apply (card_conservation Example.deck Example.auctionState
                           Example.bidPassState).
  - exists DEFAULT_CONFIG, Example.infos, Example.goals,
      (default Example.notStarted
               (GameEngine.initialize DEFAULT_CONFIG Example.infos Example.deck
                                      Example.goals)).
    split; [apply (bool_decide_unpack _); vm_compute; reflexivity|].
    split; [apply (bool_decide_unpack _); vm_compute; reflexivity|].
    split; [done|]. split; vm_compute; reflexivity.
  - apply (rtc_l _ _ (default Example.notStarted
                        (runActions Example.env Example.auctionState
                                    [PLACE_BID "A" 2]))).
    { exists Example.env, (PLACE_BID "A" 2).
      split; [intros (? & ? & ? & ? & [=] & _)|].
      left. vm_compute. reflexivity. }
    apply rtc_once.
    exists Example.env, (PASS "B").
    split; [intros (? & ? & ? & ? & [=] & _)|].
    left. vm_compute. reflexivity.
Defined.

(** ** What every action keeps, in any state *)

Lemma steady_calm (s s' : GameState) : steady s s' → calm s s'.
Proof. intros (_ & ? & ? & ? & ? & _). by repeat split. Qed.

Lemma calm_refl (s : GameState) : calm s s.
Proof. by repeat split. Qed.

Lemma calm_trans (s1 s2 s3 : GameState) : calm s1 s2 → calm s2 s3 → calm s1 s3.
Proof.
  intros (A1 & A2 & A3 & A4) (B1 & B2 & B3 & B4).
  split; [by rewrite B1|]. split; [by rewrite B2|]. split; [by rewrite B3|].
  auto.
Qed.

Lemma after_mono (o : Outcome) (Q R : GameState → Prop) :
  after o Q → (∀ s, Q s → R s) → after o R.
Proof. destruct o; simpl; auto. Qed.

Lemma settles_after (o : Outcome) (Q : GameState → Prop) :
  settles o Q → after o Q.
Proof. by destruct o. Qed.

Lemma after_bind (o : Outcome) (k : GameState → Outcome)
      (Q R : GameState → Prop) :
  after o Q → (∀ s, Q s → R s) → (∀ s, Q s → after (k s) R) →
  after (let* s := o in k s) R.
Proof. destruct o; simpl; auto. Qed.

Lemma kept_steady (s s' : GameState) : kept s s' → steady s s'.
Proof. by intros [? _]. Qed.

Lemma steady_set_goalResolution (g : option GoalResolutionState)
      (s : GameState) :
  steady s (set_goalResolution g s).
Proof. by repeat split. Qed.

Lemma steady_set_sell (x : option SellState) (s : GameState) :
  steady s (set_sell x s).
Proof. by repeat split. Qed.

Lemma takeFromDrawPile_steady (s s' : GameState) (playerId color : string) :
  RewardSystem.takeFromDrawPile s playerId color = Some s' → steady s s'.
Proof.
  unfold RewardSystem.takeFromDrawPile.
  destruct (RewardSystem.removeFirstByColor _ _) as [[card rest]|]; [|done].
  intros [= <-].
  eapply steady_trans; [apply steady_set_resourceDeck|].
  apply steady_addCardToHand.
Qed.

Lemma executeTakeAndGiveCard_steady (env : Env) (s : GameState)
      (playerId : string) (ch : Choices) :
  after (RewardSystem.executeTakeAndGiveCard env s playerId ch) (steady s).
Proof.
  unfold RewardSystem.executeTakeAndGiveCard.
  destruct (GameStateOps.getPlayer s (ch_targetPlayerId ch)) as [target|];
    [|apply steady_refl].
  destruct (p_hand target !! _) as [taken|]; [|apply steady_refl].
  set (s1 := (GameStateOps.removeCardFromHand _ _ _).2).
  set (s2 := GameStateOps.addCardToHand s1 playerId taken).
  assert (H2 : steady s s2).
  { eapply steady_trans; [apply steady_removeCardFromHand|].
    apply steady_addCardToHand. }
  pose proof (steady_removeCardFromHand s2 playerId (ch_cardIdToGive ch))
    as H3.
  destruct (GameStateOps.removeCardFromHand s2 playerId (ch_cardIdToGive ch))
    as [[give|] s3]; simpl in *.
  - eapply steady_trans; [done|]. eapply steady_trans; [done|].
    apply steady_addCardToHand.
  - by eapply steady_trans.
Qed.

Lemma executeBuyWithDiscount_steady (s : GameState) (playerId color : string)
      (discount : Z) :
  after (RewardSystem.executeBuyWithDiscount s playerId color discount)
        (steady s).
Proof.
  unfold RewardSystem.executeBuyWithDiscount.
  destruct (GameStateOps.getPlayer s playerId) as [player|];
    [|apply steady_refl].
  destruct (stockPrices s !! color) as [price|].
  2:{ destruct (RewardSystem.removeFirstByColor _ _); [done|].
      apply steady_refl. }
  destruct (_ <? _)%Z; [apply steady_refl|].
  destruct (RewardSystem.takeFromDrawPile s playerId color) as [s1|] eqn:Ht;
    [|apply steady_refl].
  simpl. eapply steady_trans; [by eapply takeFromDrawPile_steady|].
  apply steady_adjustPlayerCash.
Qed.

Lemma executeGainLowestStock_steady (env : Env) (s : GameState)
      (playerId : string) :
  after (RewardSystem.executeGainLowestStock env s playerId) (steady s).
Proof.
  unfold RewardSystem.executeGainLowestStock.
  destruct (_ !! _) as [color|]; [|apply steady_refl].
  destruct (RewardSystem.takeFromDrawPile s playerId color) as [s1|] eqn:Ht;
    [|apply steady_refl].
  simpl. by eapply takeFromDrawPile_steady.
Qed.

Lemma reward_steady (sps : StockPriceSystem) (env : Env) (s : GameState)
      (playerId : string) (reward : RewardParsed) (choices : option Choices)
      (ran : Outcome) :
  RewardSystem.executeReward sps env s playerId reward choices = Some ran →
  after ran (steady s).
Proof.
  unfold RewardSystem.executeReward. destruct (_ && _); [done|].
  intros [= <-].
  assert (Hk : ∀ o, settles o (kept s) → after o (steady s)).
  { intros o Ho. eapply after_mono; [by apply settles_after|].
    intros s'. apply kept_steady. }
  destruct (rw_type reward); try (destruct choices as [ch|]);
    try apply steady_refl.
  - apply Hk, executeGainCash_kept.
  - apply Hk, executeGainCash_kept.
  - apply Hk, executeStealCash_kept.
  - apply Hk, executeAdjustStock_kept.
  - apply Hk, executeLookAtHand_kept.
  - apply Hk, executePeekAndPlace_kept.
  - apply Hk, executeSwapWithDeck_kept.
  - apply steady_set_resourceDeck.
  - apply executeTakeAndGiveCard_steady.
  - apply executeBuyWithDiscount_steady.
  - apply Hk, executeSellBonus_kept.
  - apply Hk, executeSellBonus_kept.
  - apply executeGainLowestStock_steady.
  - apply executeGainLowestStock_steady.
Qed.

Lemma advanceToNextPlayer_steady (s : GameState) :
  after (GoalResolutionManager.advanceToNextPlayer s) (steady s).
Proof.
  unfold GoalResolutionManager.advanceToNextPlayer.
  destruct (goalResolution (phaseState s)); simpl;
    [apply steady_set_goalResolution|apply steady_refl].
Qed.

Lemma completeRewardExecution_steady (s : GameState) (playerId : string) :
  after (GoalResolutionManager.completeRewardExecution s playerId) (steady s).
Proof.
  unfold GoalResolutionManager.completeRewardExecution.
  destruct (goalResolution (phaseState s)) as [gr|]; [|apply steady_refl].
  eapply after_mono; [apply advanceToNextPlayer_steady|].
  intros s' Hs'. eapply steady_trans; [|done].
  apply steady_set_goalResolution.
Qed.

Lemma reward_then_complete_steady (s : GameState) (playerId : string)
      (ran : Outcome) :
  after ran (steady s) →
  after (let* s1 := ran in
         GoalResolutionManager.completeRewardExecution s1 playerId) (steady s).
Proof.
  intros Hran. eapply after_bind; [exact Hran|done|].
  intros s1 H1. eapply after_mono; [apply completeRewardExecution_steady|].
  intros s' Hs'. by eapply steady_trans.
Qed.

Lemma initiateRewardExecution_steady (sps : StockPriceSystem) (env : Env)
      (s : GameState) (playerId : string) (goalCard : GoalCard) :
  after (GoalResolutionManager.initiateRewardExecution
           sps env s playerId goalCard) (steady s).
Proof.
  unfold GoalResolutionManager.initiateRewardExecution.
  destruct (RewardSystem.executeReward _ _ _ _ _ _) as [ran|] eqn:Hran.
  - apply reward_then_complete_steady. by eapply reward_steady.
  - destruct (goalResolution (phaseState s)); simpl;
      [apply steady_set_goalResolution|apply steady_refl].
Qed.

Lemma revealGoal_steady (sps : StockPriceSystem) (env : Env) (s : GameState)
      (playerId goalCardId : string) :
  ValidationSystem.validateGoalReveal s playerId goalCardId = Valid →
  after (GoalResolutionManager.revealGoal sps env s playerId goalCardId)
        (steady s).
Proof.
  intros Hv.
  destruct (revealGoal_unfold sps env s playerId goalCardId Hv)
    as (player & card & s3 & Hp & Hc & Hr & H).
  cbv zeta in H. destruct H as (_ & _ & Heq & _ & _ & Hst & _).
  rewrite Heq. destruct (GoalParser.checkGoal _ _).
  - eapply after_mono; [apply initiateRewardExecution_steady|].
    intros s' Hs'. by eapply steady_trans.
  - eapply after_mono; [apply advanceToNextPlayer_steady|].
    intros s' Hs'. by eapply steady_trans.
Qed.

Lemma executeReward_steady (sps : StockPriceSystem) (env : Env)
      (s : GameState) (playerId : string) (choices : option Choices) :
  after (GoalResolutionManager.executeReward sps env s playerId choices)
        (steady s).
Proof.
  unfold GoalResolutionManager.executeReward.
  destruct (goalResolution (phaseState s)) as [gr|]; [|apply steady_refl].
  destruct (pendingRewardExecution gr) as [pd|]; [|apply steady_refl].
  destruct (RewardSystem.executeReward _ _ _ _ _ _) as [ran|] eqn:Hran;
    [|apply steady_refl].
  apply reward_then_complete_steady. by eapply reward_steady.
Qed.

Lemma sellCards_steady (cardIds : list string) (s : GameState)
      (playerId : string) (bonus : Z) (earnings : option Z) :
  steady s (SellManager.sellCards s playerId bonus cardIds earnings).1.
Proof.
  revert s earnings. induction cardIds as [|cardId rest IH];
    intros s earnings; [apply steady_refl|].
  cbn [SellManager.sellCards].
  pose proof (steady_removeCardFromHand s playerId cardId) as Hst.
  destruct (GameStateOps.removeCardFromHand s playerId cardId) as [[card|] s1];
    cbn [snd] in Hst.
  - destruct (String.eqb _ _).
    + eapply steady_trans; [done|apply IH].
    + eapply steady_trans; [done|].
      eapply steady_trans; [apply steady_set_resourceDeck|apply IH].
  - eapply steady_trans; [done|apply IH].
Qed.

Lemma sellFor_steady (s : GameState) (entry : string * Selection) :
  steady s (SellManager.sellFor s entry).
Proof.
  destruct entry as [playerId selection]. unfold SellManager.sellFor.
  destruct (GameStateOps.getPlayer s playerId) as [player|];
    [|apply steady_refl].
  pose proof (sellCards_steady (cardsToSell selection) s playerId
                               (p_sellBonus player) (Some 0%Z)) as H1.
  destruct (SellManager.sellCards _ _ _ _ _) as [s1 earnings]. cbn [fst] in H1.
  set (s2 := match earnings with
             | Some e => if (0 <? e)%Z
                         then GameStateOps.adjustPlayerCash s1 playerId e
                         else s1
             | None => s1
             end).
  assert (H2 : steady s1 s2).
  { unfold s2. destruct earnings as [e|]; [|apply steady_refl].
    destruct (0 <? e)%Z; [apply steady_adjustPlayerCash|apply steady_refl]. }
  destruct (0 <? p_sellBonus player)%Z.
  - eapply steady_trans; [done|]. eapply steady_trans; [done|].
    by apply steady_updatePlayer.
  - by eapply steady_trans.
Qed.

Lemma executeSells_steady (s : GameState) (sl : SellState) :
  steady s (SellManager.executeSells s sl).
Proof.
  unfold SellManager.executeSells. generalize (playerSelections sl) as l.
  intros l. revert s. induction l as [|e l IH]; intros s; [apply steady_refl|].
  simpl. eapply steady_trans; [apply sellFor_steady|apply IH].
Qed.

Lemma commitSell_steady (s : GameState) (playerId : string) :
  after (SellManager.commitSell s playerId) (steady s).
Proof.
  unfold SellManager.commitSell.
  destruct (sell (phaseState s)) as [sl|]; [|apply steady_refl].
  destruct (lookupSelection _ _) as [sel|]; [|apply steady_refl].
  destruct (forallb _ _); simpl; [|apply steady_set_sell].
  eapply steady_trans; [|apply executeSells_steady]. apply steady_set_sell.
Qed.

Lemma selectCardsToSell_steady (s : GameState) (playerId : string)
      (cardIds : option (list string)) :
  after (SellManager.selectCardsToSell s playerId cardIds) (steady s).
Proof.
  unfold SellManager.selectCardsToSell.
  destruct (sell (phaseState s)) as [sl|]; [|apply steady_refl].
  destruct (lookupSelection _ _) as [sel|]; [apply steady_set_sell|].
  apply steady_refl.
Qed.

(** The auction. *)
Lemma calm_set_auction (x : option AuctionState) (s : GameState) :
  calm s (set_auction x s).
Proof. by repeat split. Qed.

Lemma moveToNextCard_calm (s : GameState) (a : AuctionState) :
  calm s (AuctionManager.moveToNextCard s a).
Proof.
  pose proof (moveToNextCard_frame s a) as Hf. cbv zeta in Hf.
  destruct Hf as (F1 & _ & _ & F4 & _).
  split; [unfold ids; by rewrite F1|].
  split; [apply moveToNextCard_phase|]. split; [done|].
  unfold cashNonNegative. by rewrite F1.
Qed.

Lemma completeCurrentCardAuction_calm (s : GameState) (a : AuctionState) :
  after (AuctionManager.completeCurrentCardAuction s a) (calm s).
Proof.
  unfold AuctionManager.completeCurrentCardAuction.
  destruct (AuctionManager.winnerOf a) as [w|]; [|apply calm_refl].
  destruct (GameStateOps.getPlayer s w); [|apply calm_refl].
  destruct (currentCard a) as [card|]; [|done]. simpl.
  eapply calm_trans; [|apply moveToNextCard_calm].
  apply steady_calm. eapply steady_trans; [apply steady_adjustPlayerCash|].
  apply steady_addCardToHand.
Qed.

Lemma placeBid_calm (s : GameState) (playerId : string) (amount : Z) :
  after (AuctionManager.placeBid s playerId amount) (calm s).
Proof.
  unfold AuctionManager.placeBid.
  destruct (auction (phaseState s)); simpl;
    [apply calm_set_auction|apply calm_refl].
Qed.

Lemma pass_calm (s : GameState) (playerId : string) :
  after (AuctionManager.pass s playerId) (calm s).
Proof.
  unfold AuctionManager.pass.
  destruct (auction (phaseState s)) as [a0|]; [|apply calm_refl].
  set (a := a_set_activeBidders _ a0).
  assert (H1 : calm s (set_auction (Some a) s)) by apply calm_set_auction.
  assert (Hthen : ∀ s1 a1, calm s s1 →
            after (AuctionManager.completeCurrentCardAuction s1 a1) (calm s)).
  { intros s1 a1 Hs1.
    eapply after_mono; [apply completeCurrentCardAuction_calm|].
    intros s' Hs'. by eapply calm_trans. }
  destruct (_ =? 1); [by apply Hthen|].
  destruct (_ =? 0).
  { destruct (currentCard a) as [card|]; [|done]. simpl.
    eapply calm_trans; [exact H1|].
    eapply calm_trans; [|apply moveToNextCard_calm].
    apply steady_calm, steady_set_resourceDeck. }
  set (a' := AuctionManager.advanceToNextActiveBidder _ a).
  assert (H2 : calm s (set_auction (Some a') (set_auction (Some a) s)))
    by (by repeat split).
  destruct (_ && _); [by apply Hthen|done].
Qed.

(** ** Cash stays non-negative, and offers stay covered *)

Lemma cashSafe_refl (s : GameState) : cashSafe s s.
Proof. by split. Qed.

Lemma cashSafe_trans (s1 s2 s3 : GameState) :
  cashSafe s1 s2 → cashSafe s2 s3 → cashSafe s1 s3.
Proof. intros [A1 A2] [B1 B2]. split; [by rewrite B1|auto]. Qed.

Lemma calm_cashSafe (s s' : GameState) : calm s s' → cashSafe s s'.
Proof. by intros (? & _ & _ & ?). Qed.

Lemma steady_cashSafe (s s' : GameState) : steady s s' → cashSafe s s'.
Proof. intros H. by apply calm_cashSafe, steady_calm. Qed.

Lemma players_cashSafe (s s' : GameState) :
  players s' = players s → cashSafe s s'.
Proof. intros H. unfold cashSafe, ids, cashNonNegative. by rewrite H. Qed.

Lemma initializePhase_players (s : GameState) (phase : Phase) :
  players (TurnSystem.initializePhase s phase) = players s
  ∧ stockPrices (TurnSystem.initializePhase s phase) = stockPrices s.
Proof.
  by destruct phase.
Qed.

Lemma transitionToPhase_players (s : GameState) (phase : Phase) :
  players (TurnSystem.transitionToPhase s phase) = players s
  ∧ stockPrices (TurnSystem.transitionToPhase s phase) = stockPrices s.
Proof.
  unfold TurnSystem.transitionToPhase.
  destruct (initializePhase_players
              (set_currentPhase (Some phase)
                 (TurnSystem.cleanupPhase s (currentPhase s))) phase)
    as [-> ->].
  by destruct (currentPhase s) as [[]|].
Qed.

Lemma advancePhase_players (s : GameState) :
  players (TurnSystem.advancePhase s) = players s
  ∧ stockPrices (TurnSystem.advancePhase s) = stockPrices s.
Proof.
  unfold TurnSystem.advancePhase, TurnSystem.completeRound.
  destruct (TurnSystem.getNextPhase _); [apply transitionToPhase_players|].
  destruct (_ <? _); [|done].
  destruct (transitionToPhase_players (GameStateOps.advanceRound s) AUCTION)
    as [-> ->]. done.
Qed.

Lemma manuallyEndPhase_players (s : GameState) :
  players (TurnSystem.manuallyEndPhase s) = players s
  ∧ stockPrices (TurnSystem.manuallyEndPhase s) = stockPrices s.
Proof.
  unfold TurnSystem.manuallyEndPhase.
  case_bool_decide; [apply advancePhase_players|done].
Qed.

Lemma phaseCheck_players (s1 : GameState) :
  after (match TurnSystem.canAdvancePhase s1 with
         | None => Threw s1
         | Some true => Done (TurnSystem.advancePhase s1)
         | Some false => Done s1
         end)
        (λ s', players s' = players s1 ∧ stockPrices s' = stockPrices s1).
Proof.
  destruct (TurnSystem.canAdvancePhase s1) as [[]|]; simpl; try done.
  apply advancePhase_players.
Qed.

Lemma transferOffered_steady (cardIds : list string) (s : GameState)
      (from to : string) :
  steady s (TradingManager.transferOffered s from to cardIds).
Proof.
  revert s. induction cardIds as [|cardId rest IH]; intros s;
    [apply steady_refl|].
  simpl. pose proof (steady_removeCardFromHand s from cardId) as H1.
  destruct (GameStateOps.removeCardFromHand s from cardId) as [[c|] s1];
    cbn [snd] in H1.
  - eapply steady_trans; [done|].
    eapply steady_trans; [apply steady_addCardToHand|apply IH].
  - eapply steady_trans; [done|apply IH].
Qed.

Lemma foldl_addCardToHand_steady (to : string) (cards : list Card)
      (s : GameState) :
  steady s (foldl (λ st card, GameStateOps.addCardToHand st to card) s cards).
Proof.
  revert s. induction cards as [|c cards IH]; intros s; [apply steady_refl|].
  simpl. eapply steady_trans; [apply steady_addCardToHand|apply IH].
Qed.

Lemma transferRequested_steady (reqs : list (string * nat)) (s : GameState)
      (from to : string) :
  steady s (TradingManager.transferRequested s from to reqs).
Proof.
  revert s. induction reqs as [|[color k] rest IH]; intros s;
    [apply steady_refl|].
  simpl. pose proof (steady_removeCardsByColor s from color k) as H1.
  destruct (GameStateOps.removeCardsByColor s from color k) as [cards s1].
  cbn [snd] in H1. eapply steady_trans; [done|].
  eapply steady_trans; [apply foldl_addCardToHand_steady|apply IH].
Qed.

Lemma cashLeg_steady (s : GameState) (from to : string) (amount : Z) :
  after (TradingManager.cashLeg s from to amount) (steady s).
Proof.
  unfold TradingManager.cashLeg. destruct (0 <? amount)%Z; [|apply steady_refl].
  set (s2 := GameStateOps.adjustPlayerCash
               (GameStateOps.adjustPlayerCash s from (- amount)) to amount).
  assert (steady s s2)
    by (eapply steady_trans; apply steady_adjustPlayerCash).
  by destruct (GameStateOps.getPlayer s2 from), (GameStateOps.getPlayer s2 to).
Qed.

Lemma executeTrade_steady (s : GameState) (offer : Offer) (A : string) :
  after (TradingManager.executeTrade s offer A) (steady s).
Proof.
  unfold TradingManager.executeTrade.
  set (s2 := TradingManager.transferRequested _ _ _ _).
  assert (H2 : steady s s2).
  { eapply steady_trans; [apply transferOffered_steady|].
    apply transferRequested_steady. }
  eapply after_bind.
  - eapply after_mono; [apply cashLeg_steady|].
    intros s3 H3. exact (steady_trans _ _ _ H2 H3).
  - done.
  - intros s3 H3. eapply after_mono; [apply cashLeg_steady|].
    intros s4 H4. by eapply steady_trans.
Qed.

Lemma set_offers_players (offers : list Offer) (s : GameState) :
  players (TradingManager.set_offers offers s) = players s.
Proof. unfold TradingManager.set_offers. by destruct (trading _). Qed.

Lemma autoCancelInvalidOffers_players (s : GameState) (playerId : string) :
  after (TradingManager.autoCancelInvalidOffers s playerId)
        (λ s', players s' = players s).
Proof.
  unfold TradingManager.autoCancelInvalidOffers.
  destruct (trading (phaseState s)) as [t|] eqn:Ht; [|done].
  destruct (GameStateOps.getPlayer s playerId).
  - simpl. apply set_offers_players.
  - by destruct (existsb _ _).
Qed.

Lemma acceptTrade_cashSafe (s : GameState) (playerId id : string) :
  after (TradingManager.acceptTrade s playerId id) (cashSafe s).
Proof.
  unfold TradingManager.acceptTrade.
  destruct (trading (phaseState s)) as [t|]; [|apply cashSafe_refl].
  destruct (findOffer _ _) as [offer|]; [|apply cashSafe_refl].
  destruct (negb _); [apply cashSafe_refl|].
  set (s1 := TradingManager.set_offers _ s).
  assert (H1 : cashSafe s s1)
    by (apply players_cashSafe, set_offers_players).
  eapply after_bind.
  - eapply after_mono; [apply executeTrade_steady|].
    intros s2 H2. exact (cashSafe_trans _ _ _ H1 (steady_cashSafe _ _ H2)).
  - done.
  - intros s2 H2. eapply after_bind.
    + eapply after_mono; [apply autoCancelInvalidOffers_players|].
      intros s3 H3. exact (cashSafe_trans _ _ _ H2 (players_cashSafe _ _ H3)).
    + done.
    + intros s3 H3.
      eapply after_mono; [apply autoCancelInvalidOffers_players|].
      intros s4 H4. exact (cashSafe_trans _ _ _ H3 (players_cashSafe _ _ H4)).
Qed.

Lemma proposeTrade_players (uuid : string) (s : GameState) (playerId : string)
      (offering : option Offering) (requesting : option Requesting) :
  after (TradingManager.proposeTrade uuid s playerId offering requesting)
        (λ s', players s' = players s).
Proof.
  unfold TradingManager.proposeTrade.
  by destruct (trading _), offering, requesting.
Qed.

Lemma cancelTrade_players (s : GameState) (id : string) :
  after (TradingManager.cancelTrade s id) (λ s', players s' = players s).
Proof.
  unfold TradingManager.cancelTrade.
  destruct (trading _) as [t|] eqn:Ht; [|done].
  destruct (findOffer _ _); [|done]. case_bool_decide; [|done].
  simpl. apply set_offers_players.
Qed.

(** Every dispatch keeps the players and leaves no cash negative. *)
Lemma dispatchAction_cashSafe (env : Env) (s : GameState) (a : Action) :
  ValidationSystem.validateAction s a = Valid →
  after (GameEngine.dispatchAction env s a) (cashSafe s).
Proof.
  intros Hv.
  destruct a as [playerId amount|playerId|playerId offer request|playerId id|playerId id|playerId|playerId goalCardId|playerId choices|playerId cardIds|playerId];
    simpl in Hv |- *.
  - eapply after_mono; [apply placeBid_calm|apply calm_cashSafe].
  - eapply after_mono; [apply pass_calm|apply calm_cashSafe].
  - eapply after_mono; [apply proposeTrade_players|apply players_cashSafe].
  - apply acceptTrade_cashSafe.
  - eapply after_mono; [apply cancelTrade_players|apply players_cashSafe].
  - apply players_cashSafe, manuallyEndPhase_players.
  - eapply after_mono; [by apply revealGoal_steady|apply steady_cashSafe].
  - eapply after_mono; [apply executeReward_steady|apply steady_cashSafe].
  - eapply after_mono; [apply selectCardsToSell_steady|apply steady_cashSafe].
  - eapply after_mono; [apply commitSell_steady|apply steady_cashSafe].
Qed.

Lemma executeAction_cashSafe (env : Env) (s : GameState) (a : Action)
      (o : Outcome) :
  GameEngine.executeAction env s a = Ran o → after o (cashSafe s).
Proof.
  intros [Hv ->]%executeAction_Ran.
  eapply after_bind.
  - apply (dispatchAction_cashSafe env (GameStateOps.recordAction s a) a Hv).
  - done.
  - intros s1 H1. eapply after_mono; [apply phaseCheck_players|].
    intros s' [Hs' _]. apply (cashSafe_trans _ s1); [done|].
    by apply players_cashSafe.
Qed.

Lemma tradeSafe_outside_trading (s : GameState) :
  tradeSafe s → currentPhase s ≠ Some TRADING →
  trading (phaseState s) = None.
Proof.
  intros [_ Htr] Hph. unfold tradingInv in Htr.
  destruct (trading (phaseState s)); [|done]. by destruct Htr.
Qed.

Lemma tradeSafe_calm (s s' : GameState) :
  tradeSafe s → currentPhase s ≠ Some TRADING → calm s s' → tradeSafe s'.
Proof.
  intros Hsafe Hph (_ & _ & Ht & Hc). split; [apply Hc, Hsafe|].
  apply tradingInv_None. rewrite Ht. by apply tradeSafe_outside_trading.
Qed.

Lemma transitionToPhase_tradeSafe (s : GameState) (phase : Phase) :
  tradeSafe s → tradeSafe (TurnSystem.transitionToPhase s phase).
Proof.
  intros Hsafe. split.
  { unfold cashNonNegative.
    rewrite (proj1 (transitionToPhase_players s phase)). apply Hsafe. }
  unfold TurnSystem.transitionToPhase.
  set (s1 := TurnSystem.cleanupPhase s (currentPhase s)).
  assert (H1 : trading (phaseState s1) = None).
  { destruct (decide (currentPhase s = Some TRADING)) as [Hph|Hph].
    - unfold s1. by rewrite Hph.
    - pose proof (tradeSafe_outside_trading s Hsafe Hph) as Hnone.
      unfold s1. by destruct (currentPhase s) as [[]|]. }
  destruct phase; simpl.
  - apply tradingInv_None. done.
  - unfold tradingInv. simpl. done.
  - by apply tradingInv_None.
  - by apply tradingInv_None.
Qed.

Lemma advancePhase_tradeSafe (s : GameState) :
  tradeSafe s → tradeSafe (TurnSystem.advancePhase s).
Proof.
  intros Hsafe. unfold TurnSystem.advancePhase, TurnSystem.completeRound.
  destruct (TurnSystem.getNextPhase _);
    [by apply transitionToPhase_tradeSafe|].
  destruct (_ <? _); [|done].
  by apply transitionToPhase_tradeSafe.
Qed.

Lemma validateSellSelection_Valid (s : GameState) (playerId : string)
      (cardIds : option (list string)) :
  ValidationSystem.validateSellSelection s playerId cardIds = Valid →
  currentPhase s = Some SELL.
Proof.
  unfold ValidationSystem.validateSellSelection. by case_bool_decide.
Qed.

Lemma dispatchAction_tradeSafe (env : Env) (s : GameState) (a : Action) :
  tradeSafe s → ValidationSystem.validateAction s a = Valid →
  after (GameEngine.dispatchAction env s a) tradeSafe.
Proof.
  intros Hsafe Hv.
  assert (Hcalm : ∀ o ph, currentPhase s = Some ph → ph ≠ TRADING →
                          after o (calm s) → after o tradeSafe).
  { intros o ph Hph Hne Ho. eapply after_mono; [exact Ho|].
    intros s'. apply tradeSafe_calm; [done|]. rewrite Hph. congruence. }
  destruct a as [playerId amount|playerId|playerId offer request|playerId id|playerId id|playerId|playerId goalCardId|playerId choices|playerId cardIds|playerId];
    simpl in Hv |- *.
  - apply validateBid_Valid in Hv as [Hph _].
    apply (Hcalm _ AUCTION); [done..|]. apply placeBid_calm.
  - apply validatePass_Valid in Hv as [Hph _].
    apply (Hcalm _ AUCTION); [done..|]. apply pass_calm.
  - eapply after_mono;
      [apply settles_after, proposeTrade_spec; done|].
    by intros s' [? _].
  - destruct (acceptTrade_spec s playerId id Hsafe Hv)
      as (t & offer & s' & _ & _ & -> & _ & Hsafe' & _ & _ & _). done.
  - eapply after_mono; [apply settles_after, cancelTrade_spec; done|].
    by intros s' [? _].
  - unfold TurnSystem.manuallyEndPhase.
    case_bool_decide; [by apply advancePhase_tradeSafe|done].
  - pose proof Hv as [Hph _]%validateGoalReveal_Valid.
    apply (Hcalm _ GOAL_RESOLUTION); [done..|].
    eapply after_mono; [by apply revealGoal_steady|apply steady_calm].
  - pose proof Hv as [Hph _]%validateRewardExecution_Valid.
    apply (Hcalm _ GOAL_RESOLUTION); [done..|].
    eapply after_mono; [apply executeReward_steady|apply steady_calm].
  - pose proof Hv as Hph%validateSellSelection_Valid.
    apply (Hcalm _ SELL); [done..|].
    eapply after_mono; [apply selectCardsToSell_steady|apply steady_calm].
  - pose proof Hv as Hph%validateSellCommit_Valid.
    apply (Hcalm _ SELL); [done..|].
    eapply after_mono; [apply commitSell_steady|apply steady_calm].
Qed.

Lemma executeAction_tradeSafe (env : Env) (s : GameState) (a : Action)
      (o : Outcome) :
  tradeSafe s → GameEngine.executeAction env s a = Ran o → after o tradeSafe.
Proof.
  intros Hsafe [Hv ->]%executeAction_Ran.
  eapply after_bind.
  - by apply (dispatchAction_tradeSafe env (GameStateOps.recordAction s a) a).
  - done.
  - intros s1 H1. destruct (TurnSystem.canAdvancePhase s1) as [[]|]; simpl;
      [by apply advancePhase_tradeSafe|done..].
Qed.

Lemma reachable_tradeSafe (ok : GameState → Action → Prop)
      (s0 s : GameState) :
  tradeSafe s0 → reachableWith ok s0 s → tradeSafe s.
Proof.
  intros Hsafe Hreach.
  induction Hreach as [s|s1 s2 s3 Hstep _ IH]; [done|].
  apply IH. destruct Hstep as (env & a & _ & [Hrun|Hrun]);
    by apply (executeAction_tradeSafe env s1 a _ Hsafe Hrun).
Qed.

Lemma runActions_reachable (env : Env) (actions : list Action)
      (s s' : GameState) :
  runActions env s actions = Some s' → reachableWith anyAction s s'.
Proof.
  revert s. induction actions as [|a actions IH]; intros s; simpl.
  - intros [= <-]. apply rtc_refl.
  - destruct (GameEngine.executeAction env s a) as [e|[s1|s1|]] eqn:Hrun;
      try done.
    intros Hrest. eapply rtc_l; [|by apply IH].
    exists env, a. split; [done|]. by left.
Qed.

(** ** Trade value conservation *)

Lemma pairWealth_same (s s' : GameState) (O A : string) :
  players s' = players s → stockPrices s' = stockPrices s →
  pairWealth s' O A = pairWealth s O A.
Proof.
  intros Hp Hpr.
  unfold pairWealth, GameStateOps.calculatePlayerWealth, GameStateOps.getPlayer.
  by rewrite Hp, Hpr.
Qed.

Lemma setup_tradeSafe (deck0 : list Card) (s0 : GameState) :
  setupState deck0 s0 → tradeSafe s0.
Proof. intros [_ HI]%setup_inv. by eapply Inv_tradeSafe. Qed.

(** C4: in every state reachable from setup by validated actions, an
    accept-trade action that passes validation runs to the end, and the
    cash plus the value of the hand at the market prices, summed over the
    proposer of the offer and the acceptor, is after the action what it
    was before; the prices are the same.  (Amounts of cash are integers,
    as in the data model of the specification.) *)
Theorem trade_value_conservation (deck0 : list Card) (s0 s : GameState)
        (env : Env) (playerId id : string) :
  setupState deck0 s0 → reachableWith anyAction s0 s →
  ValidationSystem.validateAction s (ACCEPT_TRADE playerId id) = Valid →
  ∃ t offer s',
    trading (phaseState s) = Some t
    ∧ findOffer (activeOffers t) id = Some offer
    ∧ GameEngine.executeAction env s (ACCEPT_TRADE playerId id)
      = Ran (Done s')
    ∧ stockPrices s' = stockPrices s
    ∧ pairWealth s' (offeringPlayer offer) playerId
      = pairWealth s (offeringPlayer offer) playerId.
Proof.
  intros Hsetup Hreach Hv.
  pose proof (reachable_tradeSafe anyAction s0 s (setup_tradeSafe _ _ Hsetup)
                                  Hreach) as Hsafe.
  pose (a := ACCEPT_TRADE playerId id).
  destruct (acceptTrade_spec (GameStateOps.recordAction s a) playerId id
                             Hsafe Hv)
    as (t & offer & s1 & Ht & Hfind & Hrun & Hw & _ & Hframe & [t1 Ht1]
        & Hprices).
  exists t, offer.
  unfold GameEngine.executeAction. rewrite Hv.
  change (GameEngine.dispatchAction
            env (GameStateOps.recordAction s (ACCEPT_TRADE playerId id))
            (ACCEPT_TRADE playerId id))
    with (TradingManager.acceptTrade (GameStateOps.recordAction s a)
                                     playerId id).
  rewrite Hrun. cbn [bindO].
  destruct Hframe as (_ & Hph & _ & _ & _ & _).
  apply validateTradeAcceptance_Valid in Hv as [Hphase _].
  unfold TurnSystem.canAdvancePhase.
  replace (currentPhase s1) with (Some TRADING)
    by (rewrite Hph; symmetry; exact Hphase).
  rewrite Ht1. cbn [fmap option_fmap option_map].
  destruct (TradingManager.isTimeExpired t1).
  - eexists. split; [done|]. split; [done|]. split; [done|].
    destruct (advancePhase_players s1) as [Hp Hpr]. split.
    + by rewrite Hpr.
    + rewrite (pairWealth_same s1 _ _ _ Hp Hpr). exact Hw.
  - exists s1. split; [done|]. split; [done|]. split; [done|].
    split; [done|]. exact Hw.
Qed.

Lemma trade_value_conservation_witness :
  ∃ t offer s',
    trading (phaseState Example.offerState) = Some t
    ∧ findOffer (activeOffers t) "offer-1" = Some offer
    ∧ GameEngine.executeAction Example.env Example.offerState
                               (ACCEPT_TRADE "A" "offer-1")
      = Ran (Done s')
    ∧ stockPrices s' = stockPrices Example.offerState
    ∧ pairWealth s' (offeringPlayer offer) "A"
      = pairWealth Example.offerState (offeringPlayer offer) "A".
Proof.
  apply (trade_value_conservation Example.deck Example.auctionState
                                  Example.offerState Example.env "A"
                                  "offer-1").
  - exists DEFAULT_CONFIG, Example.infos, Example.goals,
      (default Example.notStarted
               (GameEngine.initialize DEFAULT_CONFIG Example.infos Example.deck
                                      Example.goals)).
    split; [apply (bool_decide_unpack _); vm_compute; reflexivity|].
    split; [apply (bool_decide_unpack _); vm_compute; reflexivity|].
    split; [done|]. split; vm_compute; reflexivity.
  - apply (runActions_reachable
             Example.env
             (Example.firstAuction
                ++ [PROPOSE_TRADE "C"
                      (Some {| of_cards := ["r6"]; of_cash := 1 |})
                      (Some {| rq_cards := [("Blue", 1)]; rq_cash := 2 |})])).
    vm_compute. reflexivity.
  - vm_compute. reflexivity.
Defined.

(** The trade of the example: C gives the Yellow card r6 and $1, A gives
    the Blue card r0 and $2; together they are worth $46 before and
    after. *)
Lemma trade_example :
  ∃ s', GameEngine.executeAction Example.env Example.offerState
                                 (ACCEPT_TRADE "A" "offer-1") = Ran (Done s')
        ∧ Example.cashOf Example.offerState "A" = 5%Z
        ∧ Example.cashOf Example.offerState "C" = 5%Z
        ∧ Example.cashOf s' "A" = 4%Z ∧ Example.cashOf s' "C" = 6%Z
        ∧ card_id <$> Example.handOf s' "A" = ["r1"; "r8"; "r6"]
        ∧ card_id <$> Example.handOf s' "C"
          = ["r4"; "r5"; "r7"; "r9"; "r10"; "r0"]
        ∧ pairWealth Example.offerState "C" "A" = 46%Z
        ∧ pairWealth s' "C" "A" = 46%Z.
Proof.
  destruct (GameEngine.executeAction Example.env Example.offerState
                                     (ACCEPT_TRADE "A" "offer-1"))
    as [e|[s'|s'|]] eqn:H; vm_compute in H; try discriminate H.
  exists s'. split; [reflexivity|]. injection H as <-.
  repeat split; evaluate.
Qed.

(** ** The auction of a card terminates *)





(** ** Cash is clamped at zero *)

Lemma after_cashSafe (o : Outcome) (s : GameState) :
  cashNonNegative s → after o (cashSafe s) → after o cashNonNegative.
Proof.
  intros Hc Ho. eapply after_mono; [exact Ho|]. intros s' [_ H]. by apply H.
Qed.

(** C10: the cash of a player after [adjustPlayerCash] is the larger of 0
    and the cash before plus the amount, so that a debit larger than the
    balance leaves exactly 0, and the other players are as before; no
    cash is negative after the payment of an auction, after a trade, after
    the steal-cash reward or the discounted purchase, or after any action
    that the engine runs, if none was before; and none is in any state
    reachable from setup. *)
Theorem cash_never_negative :
  (∀ s playerId amount p,
     GameStateOps.getPlayer s playerId = Some p →
     ∃ p', GameStateOps.getPlayer
             (GameStateOps.adjustPlayerCash s playerId amount) playerId
           = Some p'
           ∧ p_cash p' = Z.max 0 (p_cash p + amount)
           ∧ ((p_cash p + amount ≤ 0)%Z → p_cash p' = 0%Z))
  ∧ (∀ s playerId amount other,
       playerId ≠ other →
       GameStateOps.getPlayer
         (GameStateOps.adjustPlayerCash s playerId amount) other
       = GameStateOps.getPlayer s other)
  ∧ (∀ s playerId amount,
       cashNonNegative s →
       cashNonNegative (GameStateOps.adjustPlayerCash s playerId amount))
  ∧ (∀ s a, cashNonNegative s →
            after (AuctionManager.completeCurrentCardAuction s a)
                  cashNonNegative)
  ∧ (∀ s offer acceptor,
       cashNonNegative s →
       after (TradingManager.executeTrade s offer acceptor) cashNonNegative)
  ∧ (∀ s playerId target amount,
       cashNonNegative s →
       after (RewardSystem.executeStealCash s playerId target amount)
             cashNonNegative)
  ∧ (∀ s playerId color discount,
       cashNonNegative s →
       after (RewardSystem.executeBuyWithDiscount s playerId color discount)
             cashNonNegative)
  ∧ (∀ env s a o,
       cashNonNegative s → GameEngine.executeAction env s a = Ran o →
       after o cashNonNegative)
  ∧ (∀ deck0 s0 s,
       setupState deck0 s0 → reachableWith anyAction s0 s →
       cashNonNegative s).
Proof.
  split.
  { intros s playerId amount p Hp.
    exists (GameStateOps.adjustCash amount p).
    rewrite adjustPlayerCash_getPlayer, Hp, adjustCash_cash.
    split; [done|]. split; [done|]. lia. }
  split; [intros; by apply adjustPlayerCash_getPlayer_ne|].
  split; [intros; by apply adjustPlayerCash_nonneg|].
  split.
  { intros s a Hc. apply (after_cashSafe _ s Hc).
    eapply after_mono; [apply completeCurrentCardAuction_calm|].
    apply calm_cashSafe. }
  split.
  { intros s offer acceptor Hc. apply (after_cashSafe _ s Hc).
    eapply after_mono; [apply executeTrade_steady|apply steady_cashSafe]. }
  split.
  { intros s playerId target amount Hc. apply (after_cashSafe _ s Hc).
    eapply after_mono; [apply settles_after, executeStealCash_kept|].
    intros s' Hk. by apply steady_cashSafe, kept_steady. }
  split.
  { intros s playerId color discount Hc. apply (after_cashSafe _ s Hc).
    eapply after_mono; [apply executeBuyWithDiscount_steady|].
    apply steady_cashSafe. }
  split.
  { intros env s a o Hc Hrun. apply (after_cashSafe _ s Hc).
    by eapply executeAction_cashSafe. }
  intros deck0 s0 s Hsetup Hreach.
  apply (reachable_tradeSafe anyAction s0 s); [|done].
  by eapply setup_tradeSafe.
Qed.

(** The clamp at work: a debit of $7 on a balance of $5 leaves $0. *)
Lemma cash_never_negative_witness :
  (∃ p', GameStateOps.getPlayer
           (GameStateOps.adjustPlayerCash Example.auctionState "A" (-7)) "A"
         = Some p'
         ∧ p_cash p' = Z.max 0 (5 + -7)
         ∧ ((5 + -7 ≤ 0)%Z → p_cash p' = 0%Z))
  ∧ cashNonNegative Example.offerState.
Proof.
  split.
  - apply (proj1 cash_never_negative Example.auctionState "A" (-7)%Z
                 (default {| p_id := "A"; p_name := "Ann"; p_cash := 5;
                             p_hand := []; p_goalCards := [];
                             p_isActive := true; p_turnOrder := 0;
                             p_sellBonus := 0 |}
                          (GameStateOps.getPlayer Example.auctionState "A"))).
    vm_compute. reflexivity.
  - apply (proj2 (proj2 (proj2 (proj2 (proj2 (proj2 (proj2 (proj2
             cash_never_negative)))))))
             Example.deck Example.auctionState Example.offerState).
    + exists DEFAULT_CONFIG, Example.infos, Example.goals,
        (default Example.notStarted
                 (GameEngine.initialize DEFAULT_CONFIG Example.infos
                                        Example.deck Example.goals)).
      split; [apply (bool_decide_unpack _); vm_compute; reflexivity|].
      split; [apply (bool_decide_unpack _); vm_compute; reflexivity|].
      split; [done|]. split; vm_compute; reflexivity.
    + apply (runActions_reachable
               Example.env
               (Example.firstAuction
                  ++ [PROPOSE_TRADE "C"
                        (Some {| of_cards := ["r6"]; of_cash := 1 |})
                        (Some {| rq_cards := [("Blue", 1)];
                                 rq_cash := 2 |})])).
      vm_compute. reflexivity.
Defined.

(** * Further properties of the code *)

(** ** DeckManager: the draw pile as a stack *)

Lemma draw_take_drop (deck : Deck) (count : nat) :
  DeckManager.draw deck count
  = (take count (drawPile deck),
     {| drawPile := drop count (drawPile deck);
        discardPile := discardPile deck |}).
Proof.
  unfold DeckManager.draw.
  destruct (Nat.ltb_spec (length (drawPile deck)) count) as [Hlt|Hle]; [|done].
  rewrite !firstn_all, !drop_all.
  by rewrite take_ge, drop_ge by lia.
Qed.

(** Drawing [m] cards and then [n] is drawing [m + n] at once, also when
    the pile runs out on the way; what is drawn is the top of the pile, as
    many cards as asked for or as are left, and the discard pile is not
    touched. *)
Theorem draw_composes (deck : Deck) (m n : nat) :
  let first := DeckManager.draw deck m in
  let second := DeckManager.draw first.2 n in
  DeckManager.draw deck (m + n) = (first.1 ++ second.1, second.2)
  ∧ length first.1 = m `min` length (drawPile deck)
  ∧ first.1 ++ drawPile first.2 = drawPile deck
  ∧ discardPile first.2 = discardPile deck.
Proof.
  cbv zeta. rewrite !draw_take_drop. cbn [fst snd drawPile discardPile].
  rewrite take_take_drop, drop_drop, length_take, take_drop. done.
Qed.

(** The top of the pile: a card placed on top is the card drawn next, and
    the deck is then as before; swapping a hand card with the top card and
    swapping back restores deck and card; on an empty draw pile the swap
    fails; [peekTop] shows what [draw] would take. *)
Theorem deck_top_round_trips (deck : Deck) (card : Card) :
  DeckManager.draw (DeckManager.placeOnTop deck card) 1 = ([card], deck)
  ∧ (drawPile deck = [] →
     DeckManager.swapWithTop deck card = inl DeckEmpty)
  ∧ (∀ top deck', DeckManager.swapWithTop deck card = inr (top, deck') →
       DeckManager.peekTop deck 1 = [top]
       ∧ DeckManager.peekTop deck' 1 = [card]
       ∧ length (drawPile deck') = length (drawPile deck)
       ∧ DeckManager.swapWithTop deck' top = inr (card, deck))
  ∧ (∀ n, DeckManager.peekTop deck n = (DeckManager.draw deck n).1).
Proof.
  destruct deck as [pile discards].
  split; [by rewrite draw_take_drop|].
  split; [simpl; by intros ->|].
  split.
  - unfold DeckManager.swapWithTop, DeckManager.peekTop. simpl.
    intros top deck'. destruct pile as [|c rest]; [done|].
    intros [= <- <-]. done.
  - intros n. by rewrite draw_take_drop.
Qed.

(** ** DeckManager.shuffle *)

Lemma swap_Permutation (i j : nat) (cards : list Card) :
  DeckManager.swap i j cards ≡ₚ cards.
Proof.
  unfold DeckManager.swap.
  destruct (cards !! i) as [x|] eqn:Hi; [|done].
  destruct (cards !! j) as [y|] eqn:Hj; [|done].
  by apply Permutation_insert_swap.
Qed.

Lemma shuffleFrom_Permutation (random : nat → nat) (call i : nat)
      (cards : list Card) :
  DeckManager.shuffleFrom random call i cards ≡ₚ cards.
Proof.
  revert call cards. induction i as [|i IH]; intros call cards; [done|].
  cbn [DeckManager.shuffleFrom]. rewrite IH. apply swap_Permutation.
Qed.

Lemma swap_above (i j k : nat) (cards : list Card) :
  i < k → j < k → drop k (DeckManager.swap i j cards) = drop k cards.
Proof.
  intros Hi Hj. unfold DeckManager.swap.
  destruct (cards !! i) as [x|]; [|done].
  destruct (cards !! j) as [y|]; [|done].
  by rewrite !drop_insert_lt by lia.
Qed.

(** [shuffle(cards)], called without a seed, rearranges: whatever values
    in [0, 1) [Math.random] returns, the result holds the same cards, each
    as often as before.  A pile of at most one card is returned as it is,
    without a call of [Math.random]; and the loop never looks above the
    index it has reached.  (Nothing is said of [shuffle(cards, seed)].) *)
Theorem shuffle_permutes (random : nat → nat) (cards : list Card) :
  DeckManager.shuffle random cards ≡ₚ cards
  ∧ length (DeckManager.shuffle random cards) = length cards
  ∧ (length cards ≤ 1 → DeckManager.shuffle random cards = cards)
  ∧ (∀ call i, drop (S i) (DeckManager.shuffleFrom random call i cards)
                 = drop (S i) cards).
Proof.
  assert (Hperm : DeckManager.shuffle random cards ≡ₚ cards)
    by apply shuffleFrom_Permutation.
  split; [done|]. split; [by rewrite Hperm|]. split.
  - intros Hlen. unfold DeckManager.shuffle.
    by replace (length cards - 1) with 0 by lia.
  - clear Hperm. intros call i. revert call cards.
    induction i as [|i IH]; intros call cards; [done|].
    cbn [DeckManager.shuffleFrom].
    assert (Hj : random call `mod` (S i + 1) < S (S i))
      by (pose proof (Nat.mod_upper_bound (random call) (S i + 1)); lia).
    rewrite <- (swap_above (S i) (random call `mod` (S i + 1)) (S (S i)) cards)
      by lia.
    set (swapped := DeckManager.swap _ _ cards).
    replace (S (S i)) with (S i + 1) by lia.
    rewrite <- !drop_drop. by rewrite IH.
Qed.

(** [reshuffleDiscardPile] loses and adds no card: the draw pile keeps its
    cards on top, in order, the cards of the discard pile follow them in
    some order, and the discard pile is empty. *)
Theorem reshuffleDiscardPile_conserves (random : nat → nat) (deck : Deck) :
  let deck' := DeckManager.reshuffleDiscardPile random deck in
  discardPile deck' = []
  ∧ take (length (drawPile deck)) (drawPile deck') = drawPile deck
  ∧ drop (length (drawPile deck)) (drawPile deck') ≡ₚ discardPile deck
  ∧ drawPile deck' ++ discardPile deck'
    ≡ₚ drawPile deck ++ discardPile deck.
Proof.
  cbv zeta. unfold DeckManager.reshuffleDiscardPile. simpl.
  rewrite take_app_length, drop_app_length, app_nil_r.
  pose proof (shuffleFrom_Permutation
                random 0 (length (discardPile deck) - 1) (discardPile deck))
    as Hperm.
  fold (DeckManager.shuffle random (discardPile deck)) in Hperm.
  split; [done|]. split; [done|]. split; [done|]. by rewrite Hperm.
Qed.

(** ** StockPriceSystem and StockChangeParser *)

Lemma constrainPrice_id (sps : StockPriceSystem) (p : Z) :
  withinBounds sps p → StockPrice.constrainPrice sps p = p.
Proof.
  intros [Hmin Hmax]. unfold StockPrice.constrainPrice.
  destruct (Z.ltb_spec p (minPrice sps)); [lia|].
  destruct (maxPrice sps) as [mx|]; [|done].
  specialize (Hmax mx eq_refl). destruct (Z.ltb_spec mx p); [lia|done].
Qed.

(** With a ceiling that is not below the floor, [constrainPrice] is the
    nearest price within the bounds: it is [max(min, min(ceiling, p))],
    leaves a price within the bounds alone, gives the same when applied
    twice, and keeps the order of prices. *)
Theorem constrainPrice_clamps (sps : StockPriceSystem) (p q : Z) :
  boundsConsistent sps →
  StockPrice.constrainPrice sps p
  = Z.max (minPrice sps)
          (match maxPrice sps with Some mx => Z.min mx p | None => p end)
  ∧ (withinBounds sps p → StockPrice.constrainPrice sps p = p)
  ∧ StockPrice.constrainPrice sps (StockPrice.constrainPrice sps p)
    = StockPrice.constrainPrice sps p
  ∧ ((p ≤ q)%Z →
     (StockPrice.constrainPrice sps p ≤ StockPrice.constrainPrice sps q)%Z).
Proof.
  intros Hc. split; [|split; [apply constrainPrice_id|split]].
  - unfold StockPrice.constrainPrice.
    destruct (maxPrice sps) as [mx|] eqn:Hmx.
    + specialize (Hc mx Hmx).
      destruct (Z.ltb_spec p (minPrice sps)), (Z.ltb_spec mx p); lia.
    + destruct (Z.ltb_spec p (minPrice sps)); lia.
  - apply constrainPrice_id. by apply constrainPrice_within.
  - unfold StockPrice.constrainPrice.
    destruct (maxPrice sps) as [mx|] eqn:Hmx.
    + specialize (Hc mx Hmx).
      destruct (Z.ltb_spec p (minPrice sps)), (Z.ltb_spec q (minPrice sps)),
        (Z.ltb_spec mx p), (Z.ltb_spec mx q); lia.
    + destruct (Z.ltb_spec p (minPrice sps)), (Z.ltb_spec q (minPrice sps));
        lia.
Qed.

Lemma constrainPrice_clamps_witness :
  let sps := {| minPrice := 0; maxPrice := Some 10%Z; initialPrice := 4 |} in
  StockPrice.constrainPrice sps 12 = 10%Z
  ∧ StockPrice.constrainPrice sps (StockPrice.constrainPrice sps 12)
    = StockPrice.constrainPrice sps 12.
Proof.
  intros sps. split; [reflexivity|].
  refine (proj1 (proj2 (proj2 (constrainPrice_clamps sps 12 15 _)))).
  intros mx [= <-]. simpl. lia.
Defined.

Lemma clamp_constrainPrice (sps : StockPriceSystem) (p : Z) :
  boundsConsistent sps →
  StockChangeParser.clamp (minPrice sps) (maxPrice sps) p
  = StockPrice.constrainPrice sps p.
Proof.
  intros Hc. unfold StockChangeParser.clamp, StockPrice.constrainPrice.
  destruct (maxPrice sps) as [mx|] eqn:Hmx; [|done].
  specialize (Hc mx Hmx).
  destruct (Z.ltb_spec p (minPrice sps)), (Z.ltb_spec mx p),
    (Z.ltb_spec mx (minPrice sps)); lia.
Qed.

(** The two implementations of [applyChanges] clamp alike exactly when the
    ceiling is not below the floor; then they return the same prices for
    all inputs.  With a ceiling below the floor the parser's version ends
    at the ceiling where the system's version ends at the floor. *)
Theorem applyChanges_agree (sps : StockPriceSystem) :
  ((∀ p, StockChangeParser.clamp (minPrice sps) (maxPrice sps) p
         = StockPrice.constrainPrice sps p)
   ↔ boundsConsistent sps)
  ∧ (boundsConsistent sps → ∀ prices changes,
       StockChangeParser.applyChanges prices changes
                                      (minPrice sps) (maxPrice sps)
       = StockPrice.applyChanges sps prices changes)
  ∧ (∀ mx p, maxPrice sps = Some mx → (mx < minPrice sps)%Z →
       (p < minPrice sps)%Z →
       StockChangeParser.clamp (minPrice sps) (maxPrice sps) p = mx
       ∧ StockPrice.constrainPrice sps p = minPrice sps).
Proof.
  assert (Hbelow : ∀ mx p, maxPrice sps = Some mx → (mx < minPrice sps)%Z →
            (p < minPrice sps)%Z →
            StockChangeParser.clamp (minPrice sps) (maxPrice sps) p = mx
            ∧ StockPrice.constrainPrice sps p = minPrice sps).
  { intros mx p Hmx Hlt Hp.
    unfold StockChangeParser.clamp, StockPrice.constrainPrice. rewrite Hmx.
    destruct (Z.ltb_spec p (minPrice sps)); [|lia].
    destruct (Z.ltb_spec mx (minPrice sps)); [done|lia]. }
  split; [split|split; [|done]].
  - intros Heq mx Hmx.
    destruct (Z.le_gt_cases (minPrice sps) mx) as [|Hlt]; [done|].
    destruct (Hbelow mx (minPrice sps - 1)%Z Hmx) as [H1 H2]; [lia..|].
    rewrite Heq in H1. lia.
  - intros Hc p. by apply clamp_constrainPrice.
  - intros Hc prices changes.
    unfold StockChangeParser.applyChanges, StockPrice.applyChanges.
    revert prices. induction changes as [|[color change] changes IH];
      intros prices; [done|].
    simpl. rewrite IH. f_equal. unfold StockPrice.applyChange.
    destruct (prices !! color); [|done].
    by rewrite clamp_constrainPrice.
Qed.

(** *** accumulateChanges *)

Lemma totalChange_nil (color : string) : totalChange color [] = 0%Z.
Proof. done. Qed.

Lemma totalChange_app (color : string) (a b : list (list (string * Z))) :
  totalChange color (a ++ b)
  = (totalChange color a + totalChange color b)%Z.
Proof.
  unfold totalChange. rewrite concat_app, filter_app, fmap_app, foldr_app.
  generalize ((filter (λ e : string * Z, e.1 = color) (concat a)).*2).
  intros l. induction l as [|x l IH]; simpl; lia.
Qed.

Lemma tally_lookup (changeSet : list (string * Z))
      (accumulated : gmap string Z) (color : string) :
  tally accumulated changeSet !! color
  = (λ v, (v + totalChange color [changeSet])%Z) <$> accumulated !! color.
Proof.
  revert accumulated.
  induction changeSet as [|[c d] changeSet IH]; intros accumulated.
  - unfold totalChange. simpl.
    destruct (accumulated !! color); simpl; [f_equal; lia|done].
  - unfold tally. simpl. fold (tally).
    change (foldl _ ?a changeSet) with (tally a changeSet).
    rewrite IH. unfold totalChange. simpl. rewrite !app_nil_r.
    rewrite filter_cons. simpl.
    destruct (decide (c = color)) as [->|Hne].
    + destruct (accumulated !! color) as [v|] eqn:Hl.
      * rewrite lookup_insert_eq, fmap_cons. simpl. f_equal.
        set (rest := foldr _ _ _). lia.
      * rewrite Hl. done.
    + destruct (accumulated !! c).
      * by rewrite lookup_insert_ne.
      * done.
Qed.

Lemma accumulate_lookup (changeSets : list (list (string * Z)))
      (accumulated : gmap string Z) (color : string) :
  foldl tally accumulated changeSets !! color
  = (λ v, (v + totalChange color changeSets)%Z) <$> accumulated !! color.
Proof.
  revert accumulated.
  induction changeSets as [|set changeSets IH]; intros accumulated.
  - rewrite totalChange_nil. simpl.
    destruct (accumulated !! color); simpl; [f_equal; lia|done].
  - simpl. rewrite IH, tally_lookup.
    change (set :: changeSets) with ([set] ++ changeSets).
    rewrite totalChange_app.
    destruct (accumulated !! color); simpl; [f_equal; lia|done].
Qed.

Lemma zeroes_lookup (color : string) :
  foldl (λ acc c, <[c := 0%Z]> acc) (∅ : gmap string Z) COLORS !! color
  = if bool_decide (color ∈ COLORS) then Some 0%Z else None.
Proof.
  unfold COLORS. simpl.
  destruct (decide (color = "Purple")) as [->|?]; [by vm_compute|].
  destruct (decide (color = "Yellow")) as [->|?]; [by vm_compute|].
  destruct (decide (color = "Orange")) as [->|?]; [by vm_compute|].
  destruct (decide (color = "Blue")) as [->|?]; [by vm_compute|].
  rewrite !lookup_insert_ne, lookup_empty by done. rewrite bool_decide_eq_false_2; [done|].
  rewrite !elem_of_cons, elem_of_nil. naive_solver.
Qed.

Lemma foldl_agree {A B : Type} (f g : A → B → A) (l : list B) (a : A) :
  (∀ a b, f a b = g a b) → foldl f a l = foldl g a l.
Proof.
  intros H. revert a. induction l as [|b l IH]; intros a; [done|].
  simpl. by rewrite H, IH.
Qed.

Lemma parser_accumulate_eq (changeSets : list (list (string * Z))) :
  StockChangeParser.accumulate changeSets
  = StockPrice.accumulateChanges changeSets.
Proof.
  unfold StockChangeParser.accumulate, StockPrice.accumulateChanges.
  cbv zeta. apply foldl_agree.
  intros acc set. apply foldl_agree.
  by intros acc' [c d].
Qed.

(** [accumulateChanges] adds up, colour by colour, the changes of all the
    change sets, for change sets with plain keys: a colour of the game
    gets the sum of its entries (0 when no set names it), any other plain
    key gets no entry.  The parser's [accumulate] gives the same sums. *)
Theorem accumulateChanges_sums (changeSets : list (list (string * Z)))
        (color : string) :
  Forall (Forall (λ entry : string * Z, plainKey entry.1)) changeSets →
  plainKey color →
  StockPrice.accumulateChanges changeSets !! color
  = (if bool_decide (color ∈ COLORS)
     then Some (totalChange color changeSets) else None)
  ∧ StockChangeParser.accumulate changeSets !! color
    = (if bool_decide (color ∈ COLORS)
       then Some (totalChange color changeSets) else None)
  ∧ (∀ more,
       Forall (Forall (λ entry : string * Z, plainKey entry.1)) more →
       color ∈ COLORS →
       StockPrice.accumulateChanges (changeSets ++ more) !! color
       = Some (totalChange color changeSets + totalChange color more)%Z).
Proof.
  intros _ _.
  assert (Hl : ∀ sets, StockPrice.accumulateChanges sets !! color
                = if bool_decide (color ∈ COLORS)
                  then Some (totalChange color sets) else None).
  { intros sets. unfold StockPrice.accumulateChanges.
    change (foldl _ ?a sets) with (foldl tally a sets).
    rewrite accumulate_lookup, zeroes_lookup.
    case_bool_decide; simpl; [f_equal; lia|done]. }
  split; [apply Hl|]. split; [by rewrite parser_accumulate_eq|].
  intros more _ Hin. rewrite Hl, bool_decide_eq_true_2 by done.
  by rewrite totalChange_app.
Qed.

Lemma accumulateChanges_sums_witness :
  let changeSets := [[("Blue", 2%Z); ("Orange", (-1)%Z)]; [("Blue", 1%Z)];
                     [("Red", 5%Z)]] in
  StockPrice.accumulateChanges changeSets !! "Blue" = Some 3%Z
  ∧ StockChangeParser.accumulate changeSets !! "Blue" = Some 3%Z
  ∧ StockPrice.accumulateChanges changeSets !! "Red" = None.
Proof.
  intros changeSets.
  assert (Hplain : Forall (Forall (λ entry : string * Z, plainKey entry.1))
                          changeSets).
  { apply (bool_decide_unpack _). by vm_compute. }
  destruct (accumulateChanges_sums changeSets "Blue" Hplain)
    as (Hblue & Hparser & _).
  { apply (bool_decide_unpack _). by vm_compute. }
  destruct (accumulateChanges_sums changeSets "Red" Hplain) as (Hred & _).
  { apply (bool_decide_unpack _). by vm_compute. }
  split; [exact Hblue|]. split; [exact Hparser|]. exact Hred.
Defined.

(** *** getDiff *)

Lemma applyChanges_cons (sps : StockPriceSystem) (prices : gmap string Z)
      (e : string * Z) (changes : list (string * Z)) :
  StockPrice.applyChanges sps prices (e :: changes)
  = StockPrice.applyChanges sps (StockPrice.applyChange sps prices e) changes.
Proof. done. Qed.

Lemma diffOver_spec (sps : StockPriceSystem) (old new : gmap string Z)
      (colors : list string) :
  NoDup colors →
  (∀ c, c ∈ colors → is_Some (old !! c)) →
  (∀ c, c ∈ colors → ∃ n, new !! c = Some n ∧ withinBounds sps n) →
  ∃ diff, StockPrice.diffOver colors old new = Some diff
    ∧ (∀ color change,
         (color, change) ∈ diff
         ↔ (color ∈ colors) ∧ change ≠ 0%Z
           ∧ ∃ o n, old !! color = Some o ∧ new !! color = Some n
                    ∧ change = (n - o)%Z)
    ∧ (∀ prices c,
         (∀ c', c' ∈ colors → prices !! c' = old !! c') →
         StockPrice.applyChanges sps prices diff !! c
         = if bool_decide (c ∈ colors) then new !! c else prices !! c).
Proof.
  induction colors as [|color colors IH]; intros Hnd Hold Hnew.
  - exists []. split; [done|]. split.
    + intros c ch. rewrite !elem_of_nil. naive_solver.
    + intros prices c _. by rewrite bool_decide_eq_false_2 by apply not_elem_of_nil.
  - apply NoDup_cons in Hnd as [Hnotin Hnd].
    destruct IH as (diff & Hd & Hentries & Happly); [done|..].
    { intros c Hc. apply Hold. by right. }
    { intros c Hc. apply Hnew. by right. }
    destruct (Hold color) as [o Ho]; [by left|].
    destruct (Hnew color) as (n & Hn & Hw); [by left|].
    cbn [StockPrice.diffOver]. rewrite Hn, Ho, Hd. simpl.
    eexists. split; [done|].
    destruct (Z.eqb_spec (n - o) 0) as [Hz|Hnz].
    + split.
      * intros c ch. rewrite Hentries, elem_of_cons. split; [naive_solver|].
        intros ([->|Hc] & Hch & o' & n' & Ho' & Hn' & ->); [|naive_solver].
        rewrite Ho in Ho'. rewrite Hn in Hn'. simplify_eq; lia.
      * intros prices c Hp. rewrite Happly.
        2:{ intros c' Hc'. apply Hp. by right. }
        destruct (decide (c = color)) as [->|Hne].
        -- rewrite bool_decide_eq_false_2 by done.
           rewrite bool_decide_eq_true_2 by by left.
           rewrite Hp by by left. rewrite Ho, Hn. f_equal. lia.
        -- replace (bool_decide (c ∈ color :: colors))
             with (bool_decide (c ∈ colors)); [done|].
           apply bool_decide_ext. rewrite elem_of_cons. naive_solver.
    + split.
      * intros c ch. rewrite elem_of_cons, Hentries, elem_of_cons. split.
        -- intros [[= -> ->]|H]; [|naive_solver].
           split; [by left|]. split; [done|]. by exists o, n.
        -- intros ([->|Hc] & Hch & o' & n' & Ho' & Hn' & ->); [|naive_solver].
           rewrite Ho in Ho'. rewrite Hn in Hn'. simplify_eq; by left.
      * intros prices c Hp. rewrite applyChanges_cons, Happly.
        2:{ intros c' Hc'. rewrite applyChange_lookup.
            rewrite bool_decide_eq_false_2 by (by intros ->).
            apply Hp. by right. }
        rewrite applyChange_lookup.
        destruct (decide (c = color)) as [->|Hne].
        -- rewrite bool_decide_eq_false_2 by done.
           rewrite !bool_decide_eq_true_2 by (done || by left).
           rewrite Hp by by left. rewrite Ho, Hn. simpl. f_equal.
           replace (o + (n - o))%Z with n by lia. by apply constrainPrice_id.
        -- rewrite (bool_decide_eq_false_2 (color = c)) by done.
           replace (bool_decide (c ∈ color :: colors))
             with (bool_decide (c ∈ colors)); [done|].
           apply bool_decide_ext. rewrite elem_of_cons. naive_solver.
Qed.

(** [getDiff] and [applyChanges] are inverse to each other: when both price
    objects price every colour of the game, agree on any other key, and the
    new prices of the colours lie within the bounds, the diff exists,
    applying it to the old prices gives the new prices, and its entries
    are exactly the colours whose price differs, with the difference. *)
Theorem getDiff_round_trip (sps : StockPriceSystem) (old new : gmap string Z) :
  pricedOnColors old →
  pricedOnColors new →
  (∀ color p, color ∈ COLORS → new !! color = Some p → withinBounds sps p) →
  (∀ color, color ∉ COLORS → new !! color = old !! color) →
  ∃ diff, StockPrice.getDiff old new = Some diff
    ∧ StockPrice.applyChanges sps old diff = new
    ∧ (∀ color change,
         (color, change) ∈ diff
         ↔ (color ∈ COLORS) ∧ change ≠ 0%Z
           ∧ ∃ o n, old !! color = Some o ∧ new !! color = Some n
                    ∧ change = (n - o)%Z).
Proof.
  intros Hold Hnew Hw Hother.
  destruct (diffOver_spec sps old new COLORS) as (diff & Hd & Hentries & Happly).
  { unfold COLORS. apply (bool_decide_unpack _). by vm_compute. }
  { done. }
  { intros c Hc. destruct (Hnew c Hc) as [n Hn]. exists n. eauto. }
  exists diff. split; [done|]. split; [|done].
  apply map_eq. intros c. rewrite Happly by done.
  case_bool_decide as Hc; [done|]. by rewrite Hother.
Qed.

Lemma getDiff_round_trip_witness :
  let sps := {| minPrice := 0; maxPrice := Some 10%Z; initialPrice := 4 |} in
  let old := StockPrice.createInitialPrices sps in
  let new := StockPrice.applyChanges sps old [("Blue", 3%Z); ("Purple", (-9)%Z)] in
  ∃ diff, StockPrice.getDiff old new = Some diff
          ∧ StockPrice.applyChanges sps old diff = new.
Proof.
  intros sps old new.
  destruct (getDiff_round_trip sps old new) as (diff & Hd & Ha & _).
  - intros c Hc. unfold COLORS in Hc. rewrite !elem_of_cons, elem_of_nil in Hc.
    destruct Hc as [->|[->|[->|[->|[]]]]]; vm_compute; eauto.
  - intros c Hc. unfold COLORS in Hc. rewrite !elem_of_cons, elem_of_nil in Hc.
    destruct Hc as [->|[->|[->|[->|[]]]]]; vm_compute; eauto.
  - intros c p Hc. unfold COLORS in Hc. rewrite !elem_of_cons, elem_of_nil in Hc.
    destruct Hc as [->|[->|[->|[->|[]]]]]; vm_compute; intros [= <-];
      (split; [discriminate|intros mx [= <-]; discriminate]).
  - intros c Hc. unfold COLORS in Hc. rewrite !elem_of_cons, elem_of_nil in Hc.
    unfold new, old, StockPrice.createInitialPrices, COLORS.
    cbn [foldl StockPrice.applyChanges].
    rewrite !applyChange_lookup.
    rewrite !bool_decide_eq_false_2 by naive_solver. done.
  - by exists diff.
Defined.

(** *** Lowest and highest prices *)

Section Extreme.

Variable pick : Z → Z → Z.
Variable before : Z → Z → Prop.
Hypothesis before_refl : ∀ a, before a a.
Hypothesis before_antisym : ∀ a b, before a b → before b a → a = b.
Hypothesis before_trans : ∀ a b c, before a b → before b c → before a c.
Hypothesis pick_l : ∀ a b, before (pick a b) a.
Hypothesis pick_r : ∀ a b, before (pick a b) b.
Hypothesis pick_one : ∀ a b, pick a b = a ∨ pick a b = b.

Lemma extreme_fold (v : Z) (rest : list (string * Z)) :
  let m := foldr (λ kv acc, pick kv.2 acc) v rest in
  before m v
  ∧ (∀ kv, kv ∈ rest → before m kv.2)
  ∧ (m = v ∨ ∃ kv, kv ∈ rest ∧ m = kv.2).
Proof.
  induction rest as [|kv rest (IHv & IHrest & IHin)]; simpl.
  - split; [done|]. split; [|by left]. by intros kv ?%elem_of_nil.
  - split; [eapply before_trans; [apply pick_r|done]|]. split.
    + intros kv' [->|Hin]%elem_of_cons; [done|].
      eapply before_trans; [apply pick_r|]. by apply IHrest.
    + destruct (pick_one kv.2 (foldr (λ kv acc, pick kv.2 acc) v rest))
        as [->| ->].
      * right. exists kv. split; [by left|done].
      * destruct IHin as [?|(kv' & ? & ?)]; [by left|].
        right. exists kv'. split; [by right|done].
Qed.

Lemma extreme_colors (prices : gmap string Z) (color : string) :
  let colors :=
    match map_to_list prices with
    | [] => []
    | (_, v) :: rest =>
        let m := foldr (λ kv acc, pick kv.2 acc) v rest in
        List.filter (λ c, bool_decide (prices !! c = Some m))
                    (map_to_list prices).*1
    end in
  ((color ∈ colors)
   ↔ ∃ v, prices !! color = Some v
          ∧ ∀ c' v', prices !! c' = Some v' → before v v')
  ∧ NoDup colors
  ∧ (prices ≠ ∅ → colors ≠ []).
Proof.
  cbv zeta. destruct (map_to_list prices) as [|[k v] rest] eqn:Hlist.
  { apply map_to_list_empty_iff in Hlist as ->. split; [|split; [|done]].
    - split; [by intros ?%elem_of_nil|]. by intros (v & ?%lookup_empty_Some & _).
    - constructor. }
  pose proof (extreme_fold v rest) as (Hv & Hrest & Hin). cbv zeta in *.
  set (m := foldr (λ kv acc, pick kv.2 acc) v rest) in *.
  assert (Hall : ∀ c' v', prices !! c' = Some v' → before m v').
  { intros c' v' Hl. apply elem_of_map_to_list in Hl. rewrite Hlist in Hl.
    apply elem_of_cons in Hl as [[= -> ->]|Hl]; [done|]. by apply (Hrest (c', v')). }
  assert (Hreached : ∃ c, prices !! c = Some m).
  { destruct Hin as [->|([c' v'] & Hkv & ->)].
    - exists k. apply elem_of_map_to_list. rewrite Hlist. by left.
    - exists c'. apply elem_of_map_to_list. rewrite Hlist. by right. }
  assert (Hkeys : ((k, v) :: rest).*1 = (map_to_list prices).*1)
    by by rewrite Hlist.
  rewrite Hkeys.
  assert (Hmem : ∀ c, (c ∈ List.filter
                           (λ c, bool_decide (prices !! c = Some m))
                           (map_to_list prices).*1)
                      ↔ prices !! c = Some m).
  { intros c. rewrite list_elem_of_In, filter_In, <- list_elem_of_In.
    rewrite bool_decide_eq_true. split; [by intros [_ ?]|].
    intros Hl. split; [|done].
    apply list_elem_of_fmap. exists (c, m). split; [done|].
    by apply elem_of_map_to_list. }
  split; [|split].
  - rewrite Hmem. split.
    + intros Hl. exists m. split; [done|]. apply Hall.
    + intros (v' & Hl & Hbest). destruct Hreached as [c Hc].
      enough (v' = m) by by subst.
      pose proof (Hbest c m Hc). pose proof (Hall color v' Hl).
      by apply before_antisym.
  - apply NoDup_ListNoDup, List.NoDup_filter, NoDup_ListNoDup.
    apply NoDup_fst_map_to_list.
  - intros _ Hnil. destruct Hreached as [c Hc]. apply Hmem in Hc.
    rewrite Hnil in Hc. by apply elem_of_nil in Hc.
Qed.

End Extreme.

(** The lowest-priced colours are exactly the priced colours that no other
    price undercuts, the highest-priced ones those that no other price
    exceeds; ties give several colours, each once; and for a price object
    with at least one entry neither list is empty. *)
Theorem extreme_price_colors (prices : gmap string Z) (color : string) :
  ((color ∈ StockPrice.getLowestPriceColors prices)
   ↔ ∃ v, prices !! color = Some v
          ∧ ∀ c' v', prices !! c' = Some v' → (v ≤ v')%Z)
  ∧ ((color ∈ StockPrice.getHighestPriceColors prices)
     ↔ ∃ v, prices !! color = Some v
            ∧ ∀ c' v', prices !! c' = Some v' → (v' ≤ v)%Z)
  ∧ NoDup (StockPrice.getLowestPriceColors prices)
  ∧ NoDup (StockPrice.getHighestPriceColors prices)
  ∧ (prices ≠ ∅ →
     StockPrice.getLowestPriceColors prices ≠ []
     ∧ StockPrice.getHighestPriceColors prices ≠ []).
Proof.
  pose proof (extreme_colors Z.min Z.le ltac:(lia) ltac:(lia) ltac:(lia)
                             ltac:(lia) ltac:(lia) ltac:(lia) prices color)
    as (Hlow & Hlow_nd & Hlow_ne).
  pose proof (extreme_colors Z.max (λ a b, (b ≤ a)%Z)
                             ltac:(simpl; lia) ltac:(simpl; lia)
                             ltac:(simpl; lia) ltac:(simpl; lia)
                             ltac:(simpl; lia) ltac:(simpl; lia) prices color)
    as (Hhigh & Hhigh_nd & Hhigh_ne).
  split; [exact Hlow|]. split; [exact Hhigh|].
  split; [exact Hlow_nd|]. split; [exact Hhigh_nd|].
  intros Hne. split; [by apply Hlow_ne|by apply Hhigh_ne].
Qed.

(** *** The value of cards *)

Lemma cardValue_reprice (prices : gmap string Z) (cards : list Card)
      (color : string) (old new : Z) :
  color ≠ EmptyString →
  prices !! color = Some old →
  GameStateOps.cardValue (<[color := new]> prices) cards
  = (GameStateOps.cardValue prices cards
     + (new - old) * Z.of_nat (countColor color cards))%Z.
Proof.
  intros Hne Hold. unfold countColor.
  induction cards as [|c cards IH]; [simpl; lia|].
  change (GameStateOps.cardValue ?p (c :: cards))
    with (match p !! card_color c with
          | Some v => if String.eqb (card_color c) EmptyString
                      then GameStateOps.cardValue p cards
                      else (v + GameStateOps.cardValue p cards)%Z
          | None => GameStateOps.cardValue p cards
          end).
  rewrite IH. cbn [List.filter].
  destruct (String.eqb_spec (card_color c) color) as [->|Hc].
  - rewrite lookup_insert_eq, Hold.
    destruct (String.eqb_spec color EmptyString); [done|].
    cbn [length]. lia.
  - rewrite lookup_insert_ne by done.
    destruct (prices !! card_color c); [|done].
    destruct (String.eqb (card_color c) EmptyString); lia.
Qed.

(** The value of cards is a sum over the cards, for cards with plain
    colours: it is additive over joined lists and does not depend on their
    order; a card whose colour has no price counts nothing; and changing
    the price of one colour changes the value by the difference times the
    number of cards of that colour. *)
Theorem calculateCardValue_sums (prices : gmap string Z)
        (cards more : list Card) (color : string) (old new : Z) :
  Forall (λ c, plainKey (card_color c)) cards →
  Forall (λ c, plainKey (card_color c)) more →
  StockPrice.calculateCardValue (cards ++ more) prices
  = (StockPrice.calculateCardValue cards prices
     + StockPrice.calculateCardValue more prices)%Z
  ∧ (cards ≡ₚ more →
     StockPrice.calculateCardValue cards prices
     = StockPrice.calculateCardValue more prices)
  ∧ (Forall (λ c, prices !! card_color c = None) cards →
     StockPrice.calculateCardValue cards prices = 0%Z)
  ∧ (color ≠ EmptyString → prices !! color = Some old →
     StockPrice.calculateCardValue cards (<[color := new]> prices)
     = (StockPrice.calculateCardValue cards prices
        + (new - old) * Z.of_nat (countColor color cards))%Z).
Proof.
  intros _ _. unfold StockPrice.calculateCardValue.
  split; [apply cardValue_app|]. split; [apply cardValue_Permutation|].
  split; [|apply cardValue_reprice].
  induction 1 as [|c l Hc _ IH]; [done|].
  unfold GameStateOps.cardValue in *. simpl. by rewrite Hc.
Qed.

Lemma calculateCardValue_sums_witness :
  let prices := <["Blue" := 6%Z]> (<["Orange" := 3%Z]> (∅ : gmap string Z)) in
  let cards := [Example.card "r0" "Blue"; Example.card "r1" "Orange"] in
  let more := [Example.card "r2" "Blue"; Example.card "r3" "Red"] in
  StockPrice.calculateCardValue (cards ++ more) prices = 15%Z
  ∧ StockPrice.calculateCardValue cards (<["Blue" := 8%Z]> prices) = 11%Z.
Proof.
  intros prices cards more.
  assert (Hcards : Forall (λ c, plainKey (card_color c)) cards).
  { apply (bool_decide_unpack _). by vm_compute. }
  assert (Hmore : Forall (λ c, plainKey (card_color c)) more).
  { apply (bool_decide_unpack _). by vm_compute. }
  destruct (calculateCardValue_sums prices cards more "Blue" 6 8 Hcards Hmore)
    as (Hsum & _ & _ & Hprice).
  split.
  - rewrite Hsum. by vm_compute.
  - rewrite Hprice; [by vm_compute|done|by vm_compute].
Defined.

(** ** GameState: the helpers on hands and cash *)

Lemma removeFirstById_first (cardId : string) (before after : list Card)
      (c : Card) :
  card_id c = cardId → cardId ∉ card_id <$> before →
  GameStateOps.removeFirstById cardId (before ++ c :: after)
  = Some (c, before ++ after).
Proof.
  intros Hc. induction before as [|x before IH]; intros Hnot; simpl.
  - by rewrite (proj2 (String.eqb_eq _ _) Hc).
  - rewrite fmap_cons, not_elem_of_cons in Hnot. destruct Hnot as [Hx Hnot].
    rewrite (proj2 (String.eqb_neq (card_id x) cardId)) by congruence.
    by rewrite IH.
Qed.

Lemma updatePlayer_twice (f g : Player → Player) (playerId : string)
      (ps : list Player) :
  idPreserving f →
  GameStateOps.updatePlayer g playerId (GameStateOps.updatePlayer f playerId ps)
  = GameStateOps.updatePlayer (g ∘ f) playerId ps.
Proof.
  intros Hf. induction ps as [|p ps IH]; [done|]. simpl.
  destruct (String.eqb (p_id p) playerId) eqn:Heq; simpl.
  - by rewrite Hf, Heq.
  - by rewrite Heq, IH.
Qed.

Lemma updatePlayer_fixed (f : Player → Player) (playerId : string)
      (ps : list Player) (p : Player) :
  List.find (λ p, String.eqb (p_id p) playerId) ps = Some p →
  f p = p → GameStateOps.updatePlayer f playerId ps = ps.
Proof.
  intros Hfind Hp. induction ps as [|q ps IH]; [done|]. simpl in *.
  destruct (String.eqb (p_id q) playerId).
  - injection Hfind as ->. by rewrite Hp.
  - by rewrite IH.
Qed.

Lemma updatePlayer_ext (f g : Player → Player) (playerId : string)
      (ps : list Player) (p : Player) :
  List.find (λ p, String.eqb (p_id p) playerId) ps = Some p →
  f p = g p →
  GameStateOps.updatePlayer f playerId ps
  = GameStateOps.updatePlayer g playerId ps.
Proof.
  intros Hfind Hp. induction ps as [|q ps IH]; [done|]. simpl in *.
  destruct (String.eqb (p_id q) playerId).
  - injection Hfind as ->. by rewrite Hp.
  - by rewrite IH.
Qed.

Lemma set_players_same (s : GameState) : set_players (players s) s = s.
Proof. by destruct s. Qed.

Lemma p_set_hand_same (p : Player) : p_set_hand (p_hand p) p = p.
Proof. by destruct p. Qed.

(** [removeCardFromHand] takes the first card of the hand that carries the
    id and leaves the rest of the hand in order; for an unknown player or
    an id that is not in the hand it returns nothing and changes
    nothing.  No other player is touched. *)
Theorem removeCardFromHand_first (s : GameState) (playerId cardId : string) :
  (GameStateOps.getPlayer s playerId = None →
   GameStateOps.removeCardFromHand s playerId cardId = (None, s))
  ∧ (∀ p, GameStateOps.getPlayer s playerId = Some p →
          cardId ∉ card_id <$> p_hand p →
          GameStateOps.removeCardFromHand s playerId cardId = (None, s))
  ∧ (∀ p before c after,
       GameStateOps.getPlayer s playerId = Some p →
       p_hand p = before ++ c :: after →
       card_id c = cardId →
       cardId ∉ card_id <$> before →
       ∃ s', GameStateOps.removeCardFromHand s playerId cardId = (Some c, s')
             ∧ GameStateOps.getPlayer s' playerId
               = Some (p_set_hand (before ++ after) p)
             ∧ (∀ other, other ≠ playerId →
                  GameStateOps.getPlayer s' other
                  = GameStateOps.getPlayer s other)
             ∧ ids s' = ids s).
Proof.
  unfold GameStateOps.removeCardFromHand. split; [by intros ->|]. split.
  - intros p -> Hnot. by apply removeFirstById_None in Hnot as ->.
  - intros p before c after Hp Hhand Hc Hnot. rewrite Hp, Hhand.
    rewrite removeFirstById_first by done.
    eexists. split; [done|]. split; [|split].
    + unfold GameStateOps.getPlayer in *. simpl.
      rewrite find_updatePlayer_eq by auto with players. by rewrite Hp.
    + intros other Hne. unfold GameStateOps.getPlayer. simpl.
      by rewrite find_updatePlayer_ne by auto with players.
    + unfold ids. simpl. apply updatePlayer_ids. auto with players.
Qed.

(** A card pushed on a hand that holds no card with its id comes back, and
    the state is as before. *)
Theorem addCard_removeCard_round_trip (s : GameState) (playerId : string)
        (card : Card) (p : Player) :
  GameStateOps.getPlayer s playerId = Some p →
  card_id card ∉ card_id <$> p_hand p →
  GameStateOps.removeCardFromHand
    (GameStateOps.addCardToHand s playerId card) playerId (card_id card)
  = (Some card, s).
Proof.
  intros Hp Hnot. unfold GameStateOps.removeCardFromHand.
  assert (Hadded : GameStateOps.getPlayer
                     (GameStateOps.addCardToHand s playerId card) playerId
                   = Some (p_set_hand (p_hand p ++ [card]) p)).
  { unfold GameStateOps.getPlayer in *. simpl.
    rewrite find_updatePlayer_eq by auto with players. by rewrite Hp. }
  rewrite Hadded. cbn [p_hand p_set_hand].
  rewrite removeFirstById_first by done. rewrite app_nil_r.
  f_equal. unfold GameStateOps.addCardToHand. simpl.
  rewrite updatePlayer_twice by auto with players.
  rewrite (updatePlayer_fixed _ playerId (players s) p Hp).
  - by destruct s.
  - by destruct p.
Qed.

Lemma addCard_removeCard_round_trip_witness :
  GameStateOps.removeCardFromHand
    (GameStateOps.addCardToHand Example.auctionState "A"
                                (Example.card "new" "Blue")) "A" "new"
  = (Some (Example.card "new" "Blue"), Example.auctionState).
Proof.
  eapply (addCard_removeCard_round_trip Example.auctionState "A"
                                        (Example.card "new" "Blue")).
  - vm_compute. reflexivity.
  - apply (bool_decide_unpack _). vm_compute. reflexivity.
Defined.

Lemma takeByColor_filter (color : string) (k : nat) (h : list Card) :
  let isColor := λ c, String.eqb (card_color c) color in
  let '(removed, rest) := GameStateOps.takeByColor color k h in
  removed = take k (List.filter isColor h)
  ∧ List.filter isColor rest = drop k (List.filter isColor h)
  ∧ List.filter (λ c, negb (isColor c)) rest
    = List.filter (λ c, negb (isColor c)) h.
Proof.
  cbv zeta. revert k. induction h as [|c h IH]; intros k.
  - simpl. by rewrite take_nil, drop_nil.
  - destruct k as [|k].
    + simpl. by rewrite drop_0.
    + cbn [GameStateOps.takeByColor List.filter].
      destruct (String.eqb (card_color c) color) eqn:Hc.
      * specialize (IH k).
        destruct (GameStateOps.takeByColor color k h) as [removed rest].
        destruct IH as (-> & IH2 & IH3). simpl. by rewrite IH2, IH3.
      * specialize (IH (S k)).
        destruct (GameStateOps.takeByColor color (S k) h) as [removed rest].
        destruct IH as (-> & IH2 & IH3). simpl. by rewrite Hc, IH2, IH3.
Qed.

(** [removeCardsByColor] takes the first [count] cards of the colour, or
    all of them when the hand has fewer, in hand order; the other cards
    of the hand keep their order; an unknown player gives no card and no
    change. *)
Theorem removeCardsByColor_takes (s : GameState) (playerId color : string)
        (count : nat) :
  let isColor := λ c, String.eqb (card_color c) color in
  (GameStateOps.getPlayer s playerId = None →
   GameStateOps.removeCardsByColor s playerId color count = ([], s))
  ∧ (∀ p, GameStateOps.getPlayer s playerId = Some p →
       ∃ rest,
         GameStateOps.removeCardsByColor s playerId color count
         = (take count (List.filter isColor (p_hand p)),
            set_players (GameStateOps.updatePlayer (p_set_hand rest) playerId
                                                   (players s)) s)
         ∧ GameStateOps.getPlayer
             (GameStateOps.removeCardsByColor s playerId color count).2
             playerId = Some (p_set_hand rest p)
         ∧ length (take count (List.filter isColor (p_hand p)))
           = count `min` countColor color (p_hand p)
         ∧ List.filter isColor rest
           = drop count (List.filter isColor (p_hand p))
         ∧ List.filter (λ c, negb (isColor c)) rest
           = List.filter (λ c, negb (isColor c)) (p_hand p)
         ∧ p_hand p ≡ₚ take count (List.filter isColor (p_hand p)) ++ rest).
Proof.
  cbv zeta. unfold GameStateOps.removeCardsByColor.
  split; [by intros ->|]. intros p Hp. rewrite Hp.
  pose proof (takeByColor_filter color count (p_hand p)) as Hf.
  pose proof (takeByColor_spec color count (p_hand p)) as Hperm.
  cbv zeta in Hf.
  destruct (GameStateOps.takeByColor color count (p_hand p))
    as [removed rest].
  destruct Hf as (-> & Hin & Hout). exists rest.
  split; [done|]. split.
  - unfold GameStateOps.getPlayer in *. simpl.
    rewrite find_updatePlayer_eq by auto with players. by rewrite Hp.
  - split; [by rewrite length_take|]. done.
Qed.

(** [adjustPlayerCash] adds the amount and stops at 0: the new balance is
    [max(0, cash + amount)].  An unknown player changes nothing, no other
    player is touched, and two adjustments add up as long as the first
    does not hit the floor. *)
Theorem adjustPlayerCash_floor (s : GameState) (playerId : string)
        (amount : Z) :
  (GameStateOps.getPlayer s playerId = None →
   GameStateOps.adjustPlayerCash s playerId amount = s)
  ∧ (∀ p, GameStateOps.getPlayer s playerId = Some p →
       GameStateOps.getPlayer (GameStateOps.adjustPlayerCash s playerId amount)
                              playerId
       = Some (p_set_cash (Z.max 0 (p_cash p + amount)) p))
  ∧ (∀ other, other ≠ playerId →
       GameStateOps.getPlayer (GameStateOps.adjustPlayerCash s playerId amount)
                              other
       = GameStateOps.getPlayer s other)
  ∧ (∀ p more, GameStateOps.getPlayer s playerId = Some p →
       (0 ≤ p_cash p + amount)%Z →
       GameStateOps.adjustPlayerCash
         (GameStateOps.adjustPlayerCash s playerId amount) playerId more
       = GameStateOps.adjustPlayerCash s playerId (amount + more)).
Proof.
  split; [|split; [|split]].
  - intros Hnone. unfold GameStateOps.adjustPlayerCash.
    unfold GameStateOps.getPlayer in Hnone.
    rewrite updatePlayer_absent by done. apply set_players_same.
  - intros p Hp. rewrite adjustPlayerCash_getPlayer, Hp. simpl. f_equal.
    unfold GameStateOps.adjustCash.
    by destruct (Z.ltb_spec (p_cash p + amount) 0); f_equal; lia.
  - intros other Hne. by apply adjustPlayerCash_getPlayer_ne.
  - intros p more Hp Hfloor.
    unfold GameStateOps.adjustPlayerCash, set_players. simpl.
    rewrite updatePlayer_twice by auto with players.
    f_equal. apply (updatePlayer_ext _ _ playerId (players s) p Hp).
    unfold GameStateOps.adjustCash. simpl.
    destruct (Z.ltb_spec (p_cash p + amount) 0); [lia|].
    by rewrite Z.add_assoc.
Qed.

(** ** GameState.getFinalScores *)









(** ** GameEngine: the initial deal *)








Section Dealt.

Context {A B : Type}.
Variable put : Player → list A → Player.




End Dealt.





(** ** GameEngine.getAvailableActions *)

Lemma validateTradeCancellation_phase (s : GameState)
      (playerId offerId : string) :
  ValidationSystem.validateTradeCancellation s playerId offerId = Valid →
  currentPhase s = Some TRADING.
Proof.
  unfold ValidationSystem.validateTradeCancellation. by case_bool_decide.
Qed.



(** ** EventEmitter *)

Lemma handlersOf_on (em : Emitter) (e e' : string) (h : Handler) :
  handlersOf (EventEmitter.on e h em) e'
  = if decide (e' = e) then handlersOf em e ++ [h] else handlersOf em e'.
Proof.
  unfold handlersOf, EventEmitter.on. simpl. case_decide as He.
  - subst. by rewrite lookup_insert_eq.
  - by rewrite lookup_insert_ne.
Qed.

Lemma handlersOf_off (em : Emitter) (e e' : string) (h : Handler) :
  handlersOf (EventEmitter.off e h em) e'
  = if decide (e' = e) then EventEmitter.removeFirst h (handlersOf em e)
    else handlersOf em e'.
Proof.
  unfold handlersOf, EventEmitter.off.
  destruct (listeners em !! e) as [handlers|] eqn:Hl; simpl.
  - case_decide as He.
    + subst. by rewrite lookup_insert_eq.
    + by rewrite lookup_insert_ne.
  - case_decide as He; [|done]. subst. by rewrite Hl.
Qed.

Lemma listenerCount_handlersOf (em : Emitter) (e : string) :
  EventEmitter.listenerCount e em = length (handlersOf em e).
Proof.
  unfold EventEmitter.listenerCount, handlersOf.
  by destruct (listeners em !! e).
Qed.

Lemma removeFirst_middle (h : Handler) (before after : list Handler) :
  h ∉ before →
  EventEmitter.removeFirst h (before ++ h :: after) = before ++ after.
Proof.
  induction before as [|x before IH]; simpl.
  - intros _. by rewrite decide_True.
  - rewrite not_elem_of_cons. intros [Hne Hnot].
    rewrite decide_False by done. by rewrite IH.
Qed.

Lemma removeFirst_absent (h : Handler) (handlers : list Handler) :
  h ∉ handlers → EventEmitter.removeFirst h handlers = handlers.
Proof.
  induction handlers as [|x handlers IH]; [done|]. simpl.
  rewrite not_elem_of_cons. intros [Hne Hnot].
  rewrite decide_False by done. by rewrite IH.
Qed.

Lemma removeFirst_length (h : Handler) (handlers : list Handler) :
  h ∈ handlers →
  S (length (EventEmitter.removeFirst h handlers)) = length handlers.
Proof.
  induction handlers as [|x handlers IH]; [by intros ?%elem_of_nil|].
  simpl. destruct (decide (x = h)) as [->|Hne]; [done|].
  intros [?|Hin]%elem_of_cons; [congruence|]. simpl. by rewrite IH.
Qed.

(** Subscribing adds one listener at the end of the list of its event
    type and touches no other type; unsubscribing removes the first
    occurrence of the handler and nothing when the handler is not
    subscribed, so that subscribing a new handler and unsubscribing it
    restores the list.  A subscription made with [once] is not removed by
    unsubscribing the function that was given to [once].
    [removeAllListeners] with a type removes the listeners of that type
    only, and all listeners when the type is the empty string or
    absent. *)
Theorem subscribe_unsubscribe (em : Emitter) (e : string) (h : Handler) :
  EventEmitter.listenerCount e (EventEmitter.on e h em)
  = S (EventEmitter.listenerCount e em)
  ∧ (∀ e', e' ≠ e →
       handlersOf (EventEmitter.on e h em) e' = handlersOf em e'
       ∧ handlersOf (EventEmitter.off e h em) e' = handlersOf em e')
  ∧ (h ∉ handlersOf em e →
     handlersOf (EventEmitter.off e h (EventEmitter.on e h em)) e
     = handlersOf em e
     ∧ handlersOf (EventEmitter.off e h em) e = handlersOf em e)
  ∧ (∀ before after,
       handlersOf em e = before ++ h :: after → h ∉ before →
       handlersOf (EventEmitter.off e h em) e = before ++ after)
  ∧ (∀ f, handlersOf (EventEmitter.off e (User f) (EventEmitter.once e f em))
                     e
          = EventEmitter.removeFirst (User f) (handlersOf em e)
            ++ [OnceHandler (closures em) e f])
  ∧ (∀ e', handlersOf (EventEmitter.removeAllListeners None em) e' = []
           ∧ handlersOf (EventEmitter.removeAllListeners (Some EmptyString) em)
                        e' = [])
  ∧ (e ≠ EmptyString → ∀ e',
       handlersOf (EventEmitter.removeAllListeners (Some e) em) e'
       = if decide (e' = e) then [] else handlersOf em e').
Proof.
  split; [|split; [|split; [|split; [|split; [|split]]]]].
  - rewrite !listenerCount_handlersOf, handlersOf_on, decide_True by done.
    rewrite length_app. simpl. lia.
  - intros e' Hne.
    by rewrite handlersOf_on, handlersOf_off, !decide_False by done.
  - intros Hnot. rewrite !handlersOf_off, handlersOf_on, !decide_True by done.
    split; [|by apply removeFirst_absent].
    rewrite (removeFirst_middle h (handlersOf em e) []) by done.
    by rewrite app_nil_r.
  - intros before after Hl Hnot.
    rewrite handlersOf_off, decide_True, Hl by done.
    by apply removeFirst_middle.
  - intros f. unfold EventEmitter.once.
    rewrite handlersOf_off, decide_True by done.
    rewrite handlersOf_on, decide_True by done. simpl.
    change (handlersOf {| listeners := listeners em;
                          closures := S (closures em);
                          calls := calls em |} e) with (handlersOf em e).
    induction (handlersOf em e) as [|x l IH]; simpl.
    + done.
    + destruct (decide (x = User f)); [done|]. by rewrite IH.
  - intros e'. unfold handlersOf. simpl. by rewrite !lookup_empty.
  - intros Hne e'. unfold EventEmitter.removeAllListeners.
    rewrite (proj2 (String.eqb_neq e EmptyString)) by done.
    unfold handlersOf. simpl. case_decide as He.
    + subst. by rewrite lookup_delete_eq.
    + by rewrite lookup_delete_ne.
Qed.

(** *** emit *)

Lemma afterCalls_nil (em : Emitter) : afterCalls em [] = em.
Proof. unfold afterCalls. rewrite app_nil_r. by destruct em. Qed.

Lemma afterCalls_app (em : Emitter) (cs1 cs2 : list Call) :
  afterCalls (afterCalls em cs1) cs2 = afterCalls em (cs1 ++ cs2).
Proof. unfold afterCalls. simpl. by rewrite app_assoc. Qed.

Lemma lookup_head_drop {A : Type} (l : list A) (k : nat) :
  l !! k = head (drop k l).
Proof. revert l. induction k as [|k IH]; intros [|x l]; simpl; auto. Qed.

Lemma drop_S_tail {A : Type} (l : list A) (k : nat) :
  drop (S k) l = drop 1 (drop k l).
Proof. by rewrite drop_drop, Nat.add_1_r. Qed.

(** A stretch of the loop over handlers that are functions of
    subscribers: each one is called, in order, and the listeners stay as
    they are. *)
Lemma forEachFrom_users (throws : nat → bool) (e : string)
      (data : gmap string string) (n k : nat) (fs : list nat) (em : Emitter) :
  take n (drop k (handlersOf em e)) = User <$> fs →
  EventEmitter.forEachFrom throws e data k n em
  = afterCalls em (callsOf data fs).
Proof.
  revert k fs em. induction n as [|n IH]; intros k fs em Hfs.
  - simpl in *. destruct fs; [|done]. by rewrite afterCalls_nil.
  - cbn [EventEmitter.forEachFrom]. fold (handlersOf em e).
    rewrite lookup_head_drop.
    pose proof (drop_S_tail (handlersOf em e) k) as Htail.
    destruct (drop k (handlersOf em e)) as [|h t].
    + destruct fs; [|done]. simpl. apply (IH (S k) []).
      rewrite Htail. simpl. by rewrite take_nil.
    + destruct fs as [|f fs]; [done|]. simpl in Hfs, Htail.
      injection Hfs as -> Hfs. rewrite drop_0 in Htail. simpl.
      rewrite (IH (S k) fs (EventEmitter.record f data em)).
      * unfold callsOf. simpl.
        change (EventEmitter.record f data em)
          with (afterCalls em [{| c_handler := f; c_data := data |}]).
        by rewrite afterCalls_app.
      * change (handlersOf (EventEmitter.record f data em) e)
          with (handlersOf em e). by rewrite Htail.
Qed.

Lemma forEachFrom_add (throws : nat → bool) (e : string)
      (data : gmap string string) (n1 n2 k : nat) (em : Emitter) :
  EventEmitter.forEachFrom throws e data k (n1 + n2) em
  = EventEmitter.forEachFrom throws e data (k + n1) n2
      (EventEmitter.forEachFrom throws e data k n1 em).
Proof.
  revert k em. induction n1 as [|n1 IH]; intros k em.
  - simpl. by rewrite Nat.add_0_r.
  - cbn [Nat.add EventEmitter.forEachFrom]. rewrite IH.
    by replace (S k + n1) with (k + S n1) by lia.
Qed.

Lemma forEach_users (throws : nat → bool) (e : string)
      (data : gmap string string) (fs : list nat) (em : Emitter) :
  handlersOf em e = User <$> fs →
  EventEmitter.forEach throws e data em = afterCalls em (callsOf data fs).
Proof.
  intros Hfs. unfold EventEmitter.forEach.
  destruct (listeners em !! e) as [handlers|] eqn:Hl.
  - apply forEachFrom_users. rewrite drop_0.
    unfold handlersOf in *. rewrite Hl in *. simpl in *.
    by rewrite firstn_all.
  - unfold handlersOf in Hfs. rewrite Hl in Hfs. simpl in Hfs.
    destruct fs; [|done]. by rewrite afterCalls_nil.
Qed.

(** When all listeners of the event type and of ['*'] are functions of
    subscribers, [emit] calls the listeners of the type in the order of
    subscription with the data, then the listeners of ['*'] with the data
    and the type; a listener that throws does not keep the later ones
    from being called; and the listeners are as before. *)
Theorem emit_calls_in_order (throws : nat → bool) (e : string)
        (data : gmap string string) (fs gs : list nat) (em : Emitter) :
  handlersOf em e = User <$> fs →
  handlersOf em "*" = User <$> gs →
  EventEmitter.emit throws e data em
  = afterCalls em (callsOf data fs ++ callsOf (wildcardData e data) gs).
Proof.
  intros Hfs Hgs. unfold EventEmitter.emit.
  rewrite (forEach_users throws e data fs em Hfs).
  rewrite (forEach_users throws "*" _ gs); [|done].
  by rewrite afterCalls_app.
Qed.

Lemma emit_calls_in_order_witness :
  let em := EventEmitter.on "*" (User 3)
              (EventEmitter.on "BID_PLACED" (User 2)
                 (EventEmitter.on "BID_PLACED" (User 1)
                                  EventEmitter.create)) in
  c_handler <$> calls (EventEmitter.emit (λ f, bool_decide (f = 1))
                                         "BID_PLACED" ∅ em)
  = [1; 2; 3].
Proof.
  intros em.
  rewrite (emit_calls_in_order _ "BID_PLACED" ∅ [1; 2] [3] em).
  - reflexivity.
  - vm_compute. reflexivity.
  - vm_compute. reflexivity.
Defined.

Lemma users_not_once (fs : list nat) (k : nat) (e : string) (f : nat) :
  OnceHandler k e f ∉ User <$> fs.
Proof. intros (g & [=] & _)%list_elem_of_fmap. Qed.

Lemma drop_past_users {A : Type} (l1 l2 : list A) (n : nat) :
  n = length l1 → drop (S n) (l1 ++ l2) = drop 1 l2.
Proof.
  intros ->. rewrite drop_S_tail. by rewrite drop_app_length.
Qed.

(** A listener subscribed with [once] is called with the event and then
    removed, so that a later event does not reach it; but the listener
    that follows it in the list is not called for this event, because the
    loop goes on by index over the shortened list.  When the function
    given to [once] throws, the listener is not removed, and the
    listeners after it are all called.  Here the other listeners of the
    type and those of ['*'] are functions of subscribers. *)
Theorem once_fires_and_leaves (throws : nat → bool) (e : string)
        (data : gmap string string) (before after gs : list nat)
        (k f : nat) (em : Emitter) :
  e ≠ "*" →
  handlersOf em e
  = (User <$> before) ++ OnceHandler k e f :: (User <$> after) →
  handlersOf em "*" = User <$> gs →
  (throws f = false →
   handlersOf (EventEmitter.emit throws e data em) e
   = User <$> before ++ after
   ∧ calls (EventEmitter.emit throws e data em)
     = calls em ++ callsOf data (before ++ f :: tail after)
                ++ callsOf (wildcardData e data) gs
   ∧ (∀ e', e' ≠ e →
        handlersOf (EventEmitter.emit throws e data em) e'
        = handlersOf em e'))
  ∧ (throws f = true →
     EventEmitter.emit throws e data em
     = afterCalls em (callsOf data (before ++ f :: after)
                      ++ callsOf (wildcardData e data) gs)).
Proof.
  intros He Hl Hgs.
  set (O := OnceHandler k e f) in *.
  set (B := User <$> before) in *. set (A := User <$> after) in *.
  assert (HlenB : length B = length before) by apply length_fmap.
  assert (HlenA : length A = length after) by apply length_fmap.
  assert (Hsome : listeners em !! e = Some (B ++ O :: A)).
  { unfold handlersOf in Hl.
    destruct (listeners em !! e) as [l|]; simpl in Hl; [by subst|].
    by destruct B. }
  set (em1 := afterCalls em (callsOf data before)).
  assert (Hl1 : handlersOf em1 e = B ++ O :: A) by done.
  assert (Hfor : EventEmitter.forEach throws e data em
                 = EventEmitter.forEachFrom throws e data (S (length B))
                     (length A) (EventEmitter.invoke throws O data em1)).
  { unfold EventEmitter.forEach. rewrite Hsome.
    rewrite length_app. cbn [length]. rewrite forEachFrom_add.
    rewrite (forEachFrom_users throws e data (length B) 0 before em).
    2:{ rewrite drop_0, Hl. by rewrite take_app_length. }
    fold em1. cbn [EventEmitter.forEachFrom Nat.add]. fold (handlersOf em1 e).
    by rewrite Hl1, list_lookup_middle. }
  unfold EventEmitter.emit. rewrite Hfor. clear Hfor.
  assert (Hinv : EventEmitter.invoke throws O data em1
                 = if throws f then EventEmitter.record f data em1
                   else EventEmitter.off e O (EventEmitter.record f data em1))
    by done.
  rewrite Hinv. clear Hinv.
  split; intros Hthrows; rewrite Hthrows.
  - set (em2 := EventEmitter.off e O (EventEmitter.record f data em1)).
    assert (Hl2 : ∀ e', handlersOf em2 e'
                        = if decide (e' = e) then B ++ A
                          else handlersOf em e').
    { intros e'. unfold em2. rewrite handlersOf_off.
      change (handlersOf (EventEmitter.record f data em1) ?x)
        with (handlersOf em x).
      case_decide; [|done]. rewrite Hl.
      apply removeFirst_middle, users_not_once. }
    assert (Hcalls2 : calls em2 = calls em ++ callsOf data (before ++ [f])).
    { unfold em2, EventEmitter.off. simpl. fold (handlersOf em e).
      change (listeners em !! e) with (listeners em !! e).
      rewrite Hsome. simpl. unfold callsOf.
      by rewrite fmap_app, app_assoc. }
    rewrite (forEachFrom_users throws e data (length A) (S (length B))
                               (tail after) em2).
    2:{ rewrite Hl2, decide_True by done.
        rewrite drop_past_users by done.
        rewrite take_ge by (rewrite length_drop; lia).
        unfold A. by destruct after. }
    rewrite (forEach_users throws "*" _ gs).
    2:{ change (handlersOf (afterCalls em2 ?c) ?x) with (handlersOf em2 x).
        rewrite Hl2, decide_False by done. done. }
    change (handlersOf (afterCalls (afterCalls em2 ?c) ?d) ?x)
      with (handlersOf em2 x).
    split; [|split].
    + rewrite Hl2, decide_True by done. unfold B, A. by rewrite fmap_app.
    + simpl. rewrite Hcalls2. unfold callsOf.
      rewrite !fmap_app. simpl. rewrite <- !app_assoc. done.
    + intros e' Hne. by rewrite Hl2, decide_False.
  - set (em2 := EventEmitter.record f data em1).
    rewrite (forEachFrom_users throws e data (length A) (S (length B))
                               after em2).
    2:{ change (handlersOf em2 e) with (handlersOf em e). rewrite Hl.
        rewrite drop_past_users by done. simpl. rewrite drop_0.
        by rewrite take_ge by lia. }
    rewrite (forEach_users throws "*" _ gs); [|done].
    unfold em2, em1, afterCalls, EventEmitter.record. simpl. f_equal.
    unfold callsOf. rewrite !fmap_app. simpl. rewrite <- !app_assoc. done.
Qed.

Lemma once_fires_and_leaves_witness :
  let em := EventEmitter.on "PHASE_CHANGED" (User 2)
              (EventEmitter.once "PHASE_CHANGED" 1 EventEmitter.create) in
  c_handler <$> calls (EventEmitter.emit (λ _, false) "PHASE_CHANGED" ∅ em)
  = [1]
  ∧ handlersOf (EventEmitter.emit (λ _, false) "PHASE_CHANGED" ∅ em)
               "PHASE_CHANGED" = [User 2].
Proof.
  intros em.
  destruct (once_fires_and_leaves (λ _, false) "PHASE_CHANGED" ∅
                                  [] [2] [] 0 1 em) as [Hquiet _].
  - done.
  - vm_compute. reflexivity.
  - vm_compute. reflexivity.
  - destruct (Hquiet eq_refl) as (Hl & Hc & _). rewrite Hl, Hc. done.
Defined.

(** ** ResourceCard and CardLoader *)

Lemma cardsOfColor_spec (uuid : nat → string) (k : nat) (color : string)
      (count : nat) :
  card_id <$> CardLoader.cardsOfColor uuid k color count
  = uuid <$> seq k count
  ∧ card_color <$> CardLoader.cardsOfColor uuid k color count
    = replicate count color.
Proof.
  revert k. induction count as [|count IH]; intros k; [done|].
  cbn [CardLoader.cardsOfColor seq replicate]. rewrite !fmap_cons.
  destruct (IH (S k)) as [-> ->]. done.
Qed.

Lemma standardFrom_spec (uuid : nat → string) (k : nat)
      (colors : list string) (cardsPerColor : nat) :
  card_id <$> CardLoader.standardFrom uuid k colors cardsPerColor
  = uuid <$> seq k (length colors * cardsPerColor)
  ∧ card_color <$> CardLoader.standardFrom uuid k colors cardsPerColor
    = colors ≫= replicate cardsPerColor.
Proof.
  revert k. induction colors as [|color colors IH]; intros k; [done|].
  cbn [CardLoader.standardFrom length Nat.mul]. rewrite !fmap_app.
  destruct (cardsOfColor_spec uuid k color cardsPerColor) as [-> ->].
  destruct (IH (k + cardsPerColor)) as [-> ->].
  by rewrite seq_app, fmap_app.
Qed.

Lemma countColor_colors (color : string) (cards : list Card) :
  countColor color cards
  = length (filter (λ c, c = color) (card_color <$> cards)).
Proof.
  unfold countColor. induction cards as [|c cards IH]; [done|].
  rewrite fmap_cons, filter_cons. simpl.
  destruct (String.eqb_spec (card_color c) color) as [Heq|Hne].
  - rewrite decide_True by done. simpl. by rewrite IH.
  - by rewrite decide_False.
Qed.

Lemma filter_replicate (color c : string) (n : nat) :
  filter (λ x, x = color) (replicate n c)
  = if decide (c = color) then replicate n c else [].
Proof.
  induction n as [|n IH]; simpl; [by case_decide|].
  rewrite filter_cons, IH. by case_decide.
Qed.

Lemma standard_deck_fields (uuid : nat → string) (cardsPerColor : nat) :
  let deck := CardLoader.createStandardResourceDeck uuid cardsPerColor in
  card_id <$> deck = uuid <$> seq 0 (4 * cardsPerColor)
  ∧ card_color <$> deck = COLORS ≫= replicate cardsPerColor
  ∧ Forall (λ c, card_color c ∈ COLORS) deck.
Proof.
  cbv zeta. unfold CardLoader.createStandardResourceDeck.
  destruct (standardFrom_spec uuid 0 COLORS cardsPerColor) as [Hids Hcolors].
  split; [done|]. split; [done|].
  change (Forall ((λ c, c ∈ COLORS) ∘ card_color)
                 (CardLoader.standardFrom uuid 0 COLORS cardsPerColor)).
  apply Forall_fmap. rewrite Hcolors. apply Forall_forall.
  intros c (color & Hc & Hcolor)%list_elem_of_bind.
  apply elem_of_replicate_inv in Hc as ->. done.
Qed.

(** The standard deck holds [cardsPerColor] cards of each colour of the
    game, colour by colour in the order of [COLORS], each one as the
    constructor makes it, with the ids that the successive calls of
    [uuid()] give.  When these ids differ from each other the deck is a
    well-formed starting deck of the engine. *)
Theorem standard_deck (uuid : nat → string) (cardsPerColor : nat) :
  let deck := CardLoader.createStandardResourceDeck uuid cardsPerColor in
  length deck = 4 * cardsPerColor
  ∧ card_id <$> deck = uuid <$> seq 0 (4 * cardsPerColor)
  ∧ card_color <$> deck = COLORS ≫= replicate cardsPerColor
  ∧ (∀ color, color ∈ COLORS → countColor color deck = cardsPerColor)
  ∧ Forall (λ c, ResourceCard.create (card_id c) (card_color c) None
                 = Some c) deck
  ∧ (NoDup (uuid <$> seq 0 (4 * cardsPerColor)) → wellFormedDeck deck).
Proof.
  cbv zeta.
  destruct (standard_deck_fields uuid cardsPerColor) as (Hids & Hcolors & Hin).
  set (deck := CardLoader.createStandardResourceDeck uuid cardsPerColor) in *.
  split; [|split; [done|split; [done|split; [|split]]]].
  - by rewrite <- (length_fmap card_id), Hids, length_fmap, length_seq.
  - intros color Hcolor. rewrite countColor_colors, Hcolors.
    unfold COLORS in *. simpl. rewrite app_nil_r, !filter_app.
    rewrite !filter_replicate, !length_app.
    rewrite !elem_of_cons, elem_of_nil in Hcolor.
    destruct Hcolor as [->|[->|[->|[->|[]]]]];
      repeat (case_decide; try done); rewrite ?length_replicate; simpl; lia.
  - eapply Forall_impl; [exact Hin|]. intros [id color] Hc. simpl in *.
    unfold ResourceCard.create. by rewrite bool_decide_eq_true_2.
  - intros Hnd. split; [by rewrite Hids|done].
Qed.

Lemma loadFrom_valid (uuid : nat → string) (k : nat) (colors : list string) :
  Forall (λ c, c ∈ COLORS) colors →
  CardLoader.loadFrom uuid k (Some <$> colors)
  = Some (zip_with (λ id color, {| card_id := id; card_color := color |})
                   (uuid <$> seq k (length colors)) colors).
Proof.
  intros Hvalid. revert k.
  induction Hvalid as [|c colors Hc _ IH]; intros k; [done|].
  cbn [fmap list_fmap CardLoader.loadFrom ResourceCard.fromMinimalJSON].
  assert (Hne : c ≠ EmptyString).
  { intros ->. unfold COLORS in Hc.
    rewrite !elem_of_cons, elem_of_nil in Hc. naive_solver. }
  rewrite (proj2 (String.eqb_neq c EmptyString)) by done.
  unfold ResourceCard.create. rewrite bool_decide_eq_true_2 by done.
  change (list_fmap string (option string) Some colors)
    with (Some <$> colors).
  by rewrite IH.
Qed.

Lemma loadFrom_invalid (uuid : nat → string) (k : nat)
      (jsonData : list (option string)) (cards : list Card) :
  CardLoader.loadFrom uuid k jsonData = Some cards →
  Forall (λ data, ∃ c, data = Some c ∧ c ∈ COLORS) jsonData
  ∧ length cards = length jsonData.
Proof.
  revert k cards. induction jsonData as [|data jsonData IH];
    intros k cards; simpl.
  - by intros [= <-].
  - destruct data as [c|]; simpl; [|done].
    destruct (String.eqb c EmptyString); [done|].
    unfold ResourceCard.create. case_bool_decide as Hc; [|done].
    destruct (CardLoader.loadFrom uuid (S k) jsonData) as [rest|] eqn:Hrest;
      [|done].
    intros [= <-]. destruct (IH (S k) rest Hrest) as [Hall Hlen].
    split; [constructor; eauto|]. simpl. by rewrite Hlen.
Qed.

(** A resource card survives [toJSON] and [fromJSON] when its colour is a
    colour of the game and its id is not empty; with an empty id the card
    that comes back has a fresh id, and with any other colour the
    constructor throws.  [loadResourceCards] loads all entries or
    none: it returns cards exactly when every entry has a colour of the
    game, one card for each entry; and loading the colours of a standard
    deck gives the standard deck again. *)
Theorem cards_json_round_trip (uuid : string) (card : Card) :
  (card_color card ∈ COLORS → card_id card ≠ EmptyString →
   ResourceCard.fromJSON uuid (ResourceCard.toJSON card) = Some card)
  ∧ (card_color card ∈ COLORS → card_id card = EmptyString →
     ResourceCard.fromJSON uuid (ResourceCard.toJSON card)
     = Some {| card_id := uuid; card_color := card_color card |})
  ∧ (card_color card ∉ COLORS →
     ResourceCard.fromJSON uuid (ResourceCard.toJSON card) = None)
  ∧ (∀ uuids jsonData,
       is_Some (CardLoader.loadResourceCards uuids jsonData)
       ↔ Forall (λ data, ∃ c, data = Some c ∧ c ∈ COLORS) jsonData)
  ∧ (∀ uuids jsonData cards,
       CardLoader.loadResourceCards uuids jsonData = Some cards →
       Some <$> (card_color <$> cards) = jsonData
       ∧ card_id <$> cards = uuids <$> seq 0 (length jsonData))
  ∧ (∀ uuids cardsPerColor,
       CardLoader.loadResourceCards uuids
         (Some <$> (j_color <$> CardLoader.toJSON
                      (CardLoader.createStandardResourceDeck
                         uuids cardsPerColor)))
       = Some (CardLoader.createStandardResourceDeck uuids cardsPerColor)).
Proof.
  assert (Hvalid : ∀ uuids jsonData,
             Forall (λ data, ∃ c, data = Some c ∧ c ∈ COLORS) jsonData →
             ∃ colors, jsonData = Some <$> colors
                       ∧ Forall (λ c, c ∈ COLORS) colors
                       ∧ CardLoader.loadResourceCards uuids jsonData
                         = Some (zip_with
                                   (λ id color, {| card_id := id;
                                                   card_color := color |})
                                   (uuids <$> seq 0 (length colors)) colors)).
  { intros uuids jsonData Hall.
    assert (∃ colors, jsonData = Some <$> colors
                      ∧ Forall (λ c, c ∈ COLORS) colors)
      as (colors & -> & Hcolors).
    { induction Hall as [|data jsonData (c & -> & Hc) _ (colors & -> & IH)].
      - by exists [].
      - exists (c :: colors). split; [done|by constructor]. }
    exists colors. split; [done|]. split; [done|].
    by apply loadFrom_valid. }
  assert (Hzip : ∀ (ids colors : list string), length ids = length colors →
             card_color <$> zip_with (λ id color, {| card_id := id;
                                                     card_color := color |})
                                     ids colors = colors
             ∧ card_id <$> zip_with (λ id color, {| card_id := id;
                                                    card_color := color |})
                                    ids colors = ids).
  { intros ids. induction ids as [|id ids IH]; intros [|c colors] Hlen;
      try done.
    cbn [zip_with]. rewrite !fmap_cons. simpl.
    destruct (IH colors) as [-> ->]; [by injection Hlen|done]. }
  unfold ResourceCard.fromJSON, ResourceCard.toJSON, ResourceCard.create.
  simpl.
  split; [|split; [|split; [|split; [|split]]]].
  - intros Hc Hid. rewrite bool_decide_eq_true_2 by done.
    rewrite (proj2 (String.eqb_neq _ _) Hid). by destruct card.
  - intros Hc ->. by rewrite bool_decide_eq_true_2.
  - intros Hc. by rewrite bool_decide_eq_false_2.
  - intros uuids jsonData. split.
    + intros [cards Hload]. by apply loadFrom_invalid in Hload as [? _].
    + intros Hall. destruct (Hvalid uuids jsonData Hall) as (? & _ & _ & ->).
      eauto.
  - intros uuids jsonData cards Hload.
    pose proof Hload as [Hall _]%loadFrom_invalid.
    destruct (Hvalid uuids jsonData Hall) as (colors & -> & _ & Heq).
    rewrite Hload in Heq. injection Heq as ->.
    destruct (Hzip (uuids <$> seq 0 (length colors)) colors) as [-> ->].
    + by rewrite length_fmap, length_seq.
    + by rewrite length_fmap.
  - intros uuids n.
    destruct (standard_deck_fields uuids n) as (Hids & Hcolors & Hin).
    set (deck := CardLoader.createStandardResourceDeck uuids n) in *.
    unfold CardLoader.toJSON.
    rewrite <- (list_fmap_compose ResourceCard.toJSON j_color).
    change (j_color ∘ ResourceCard.toJSON) with card_color.
    unfold CardLoader.loadResourceCards.
    rewrite loadFrom_valid by (by apply (Forall_fmap card_color)).
    f_equal. rewrite length_fmap.
    assert (Hlen : length deck = 4 * n).
    { by rewrite <- (length_fmap card_id), Hids, length_fmap, length_seq. }
    rewrite Hlen, <- Hids. clear.
    induction deck as [|[id c] deck IH]; [done|].
    rewrite !fmap_cons. cbn [zip_with]. by rewrite IH.
Qed.

(** ** The auction of a card: who is out, and what the winner pays *)

Lemma delete_not_elem (x : string) (set : list string) : x ∉ delete_ x set.
Proof.
  unfold delete_. intros Hin. apply list_elem_of_In, filter_In in Hin as [_ H].
  by rewrite String.eqb_refl in H.
Qed.

(** One bid or pass that leaves the engine on the same card does not bring
    back a bidder, and takes out the player who passes. *)
Lemma auctionStep_out (s s' : GameState) (i : nat) (p : string)
      (a a' : AuctionState) :
  auctionStep s s' → onCard i s → onCard i s' →
  auction (phaseState s) = Some a → auction (phaseState s') = Some a' →
  p ∉ activeBidders a → p ∉ activeBidders a'.
Proof.
  intros (env & act & Hact & Hrun) [Hph (a0 & Ha0 & Hi)] Hon' Ha Ha' Hout.
  assert (a0 = a) as -> by congruence.
  assert (∃ o, GameEngine.executeAction env s act = Ran o
               ∧ (o = Done s' ∨ o = Threw s')) as (o & Hexec & Ho).
  { destruct Hrun as [H|H]; eauto. }
  apply executeAction_Ran in Hexec as [Hvalid ->].
  set (sr := GameStateOps.recordAction s act) in *.
  assert (Hphr : currentPhase sr = Some AUCTION) by done.
  assert (Har : auction (phaseState sr) = Some a) by done.
  destruct act as [playerId amount|playerId|playerId offer request|playerId id|playerId id|playerId|playerId goalCardId|playerId choices|playerId cardIds|playerId];
    try done; simpl in Hvalid;
    cbn [GameEngine.dispatchAction] in Ho.
  - destruct (placeBid_spec sr playerId amount a Har)
      as (a1 & Hpb & _ & _ & _ & _ & _ & Hacts).
    rewrite Hpb in Ho. simpl in Ho.
    set (s1 := set_auction (Some a1) sr) in *.
    assert (s' = s1) as ->.
    { eapply (advance_check_auction s1 s' i); [done| |done].
      destruct Ho as [->| ->]; auto. }
    simpl in Ha'. injection Ha' as <-. by rewrite Hacts.
  - apply validatePass_Valid in Hvalid as (_ & a0 & Ha0' & Hin).
    assert (a0 = a) as -> by congruence.
    pose proof (pass_spec sr playerId a Har Hin) as Hpass.
    assert (Hcase : ∀ s1, after (Done s1) (λ s1,
                currentPhase s1 = currentPhase sr
                ∧ ∃ a1, auction (phaseState s1) = Some a1
                   ∧ cardsToAuction a1 = cardsToAuction a
                   ∧ (currentCardIndex a1 = S (currentCardIndex a)
                      ∨ currentCardIndex a1 = currentCardIndex a
                        ∧ players s1 = players sr
                        ∧ currentBid a1 = currentBid a
                        ∧ activeBidders a1 = delete_ playerId (activeBidders a)))
              → s' = s1 → p ∉ activeBidders a').
    { intros s1 (_ & a1 & Ha1 & _ & Hcases) ->.
      assert (a1 = a') as -> by congruence.
      destruct Hon' as [_ (a'' & Ha'' & Hi'')].
      assert (a'' = a') as -> by congruence.
      destruct Hcases as [Hnext|(_ & _ & _ & ->)]; [lia|].
      intros Hin'. by apply Hout, (delete_subseteq playerId). }
    destruct (AuctionManager.pass sr playerId) as [s1|s1|]; simpl in *.
    + apply (Hcase s1 Hpass).
      destruct Hpass as (Hph1 & _).
      eapply (advance_check_auction s1 s' i); [congruence| |done].
      destruct Ho as [->| ->]; auto.
    + destruct Ho as [[=]|[= Heq]]. by apply (Hcase s1 Hpass).
    + destruct Ho as [[=]|[=]].
Qed.

(** A player who has passed on a card is out for the rest of the bidding
    for that card: as long as the engine stays on the card, every bid and
    every pass of that player is rejected. *)
Theorem passed_stays_out (env env' : Env) (i n : nat) (s s1 s' : GameState)
        (p : string) (amount : Z) :
  onCard i s →
  GameEngine.executeAction env s (PASS p) = Ran (Done s1) →
  auctionRun i n s1 s' →
  GameEngine.executeAction env' s' (PASS p)
  = Rejected "You have already passed"
  ∧ ∃ error, GameEngine.executeAction env' s' (PLACE_BID p amount)
             = Rejected error.
Proof.
  intros Hon Hpass Hrun.
  assert (Hout1 : ∀ a1, auction (phaseState s1) = Some a1 →
                        p ∉ activeBidders a1).
  { intros a1 Ha1.
    assert (Hon1 : onCard i s1) by (inversion Hrun; done).
    pose proof Hon as [Hph (a & Ha & Hi)].
    pose proof Hpass as [Hvalid Ho]%executeAction_Ran.
    simpl in Hvalid. apply validatePass_Valid in Hvalid as (_ & a0 & Ha0 & Hin).
    assert (a0 = a) as -> by congruence.
    set (sr := GameStateOps.recordAction s (PASS p)) in *.
    assert (Har : auction (phaseState sr) = Some a) by done.
    pose proof (pass_spec sr p a Har Hin) as Hspec.
    cbn [GameEngine.dispatchAction] in Ho.
    destruct (AuctionManager.pass sr p) as [s2|s2|]; simpl in *; [|done..].
    destruct Hspec as (Hph2 & a2 & Ha2 & _ & Hcases).
    assert (s1 = s2) as ->.
    { eapply (advance_check_auction s2 s1 i); [congruence| |done].
      left. by rewrite Ho. }
    assert (a2 = a1) as -> by congruence.
    destruct Hon1 as [_ (a'' & Ha'' & Hi'')].
    assert (a'' = a1) as -> by congruence.
    destruct Hcases as [Hnext|(_ & _ & _ & ->)]; [lia|].
    apply delete_not_elem. }
  assert (Hout : onCard i s' ∧ ∀ a', auction (phaseState s') = Some a' →
                                     p ∉ activeBidders a').
  { clear Hpass Hon. induction Hrun as [s1 Hon1|n s1 s2 s' Hon1 Hstep Hrun IH].
    - done.
    - apply IH. intros a2 Ha2.
      assert (Hon2 : onCard i s2) by (inversion Hrun; done).
      destruct Hon1 as [Hph1 (a1 & Ha1 & Hi1)].
      eapply (auctionStep_out s1 s2 i p a1 a2); try done.
      + split; eauto.
      + by apply Hout1. }
  destruct Hout as [[Hph (a' & Ha' & _)] Hout].
  specialize (Hout a' Ha').
  unfold GameEngine.executeAction. simpl.
  unfold ValidationSystem.validatePass, ValidationSystem.validateBid, has.
  rewrite Hph, Ha'. rewrite !bool_decide_eq_true_2 by done. simpl.
  rewrite bool_decide_eq_false_2 by done. simpl. split; [done|].
  destruct (GameStateOps.getPlayer s' p); eauto.
Qed.

Lemma passed_stays_out_witness :
  ∃ s1, GameEngine.executeAction Example.env Example.auctionState (PASS "A")
        = Ran (Done s1)
        ∧ GameEngine.executeAction Example.env s1 (PASS "A")
          = Rejected "You have already passed".
Proof.
  eexists. split; [vm_compute; reflexivity|].
  eapply (passed_stays_out Example.env Example.env 0 0 Example.auctionState
                           _ _ "A" 1).
  - split; [vm_compute; reflexivity|]. eexists. split; vm_compute; reflexivity.
  - vm_compute. reflexivity.
  - apply run_nil. split; [vm_compute; reflexivity|].
    eexists. split; vm_compute; reflexivity.
Defined.

(** *** The bid on the table is covered *)

Lemma seated_ids (s s' : GameState) : ids s' = ids s → seated s → seated s'.
Proof. unfold seated. by intros ->. Qed.

Lemma delete_NoDup (x : string) (set : list string) :
  NoDup set → NoDup (delete_ x set).
Proof.
  intros Hnd. unfold delete_.
  by apply NoDup_ListNoDup, List.NoDup_filter, NoDup_ListNoDup.
Qed.

Lemma moveToNextCard_sound (s : GameState) (a : AuctionState) :
  seated s → currentPhase s = Some AUCTION →
  auctionSound (AuctionManager.moveToNextCard s a)
  ∨ auctionDone (AuctionManager.moveToNextCard s a).
Proof.
  intros Hs Hph. unfold AuctionManager.moveToNextCard.
  destruct (Nat.ltb_spec (S (currentCardIndex a)) (length (cardsToAuction a))).
  - left. split; [done|]. simpl. split; [done|]. split; [by split|].
    fold (ids s). rewrite newSet_NoDup by apply Hs.
    split; [apply Hs|]. split; [done|]. destruct Hs as [_ Hlen]. lia.
  - right. split; [done|]. split; [done|].
    unfold AuctionManager.isAuctionComplete. simpl. apply Nat.leb_le. lia.
Qed.

Lemma completeCurrentCardAuction_sound (s : GameState) (a : AuctionState) :
  seated s → currentPhase s = Some AUCTION →
  activeBidders a ≠ [] → activeBidders a ⊆ ids s →
  (∀ w, currentHighBidder a = Some w → w ∈ ids s) →
  match AuctionManager.completeCurrentCardAuction s a with
  | Done s' => auctionSound s' ∨ auctionDone s'
  | Threw _ => False
  | OutOfModel => True
  end.
Proof.
  intros Hs Hph Hne Hact Hhigh.
  destruct (winnerOf_is_Some a Hne) as [w Hw].
  pose proof (winnerOf_elem_of s a w Hact Hhigh Hw) as Hin.
  unfold AuctionManager.completeCurrentCardAuction. rewrite Hw.
  destruct (proj2 (getPlayer_is_Some s w) Hin) as [p ->].
  destruct (currentCard a) as [card|]; [|done].
  assert (Hst : steady s (GameStateOps.addCardToHand
                            (GameStateOps.adjustPlayerCash s w (- currentBid a))
                            w card)).
  { eapply steady_trans; [apply steady_adjustPlayerCash|].
    apply steady_addCardToHand. }
  apply steady_phases in Hst as (_ & _ & Hph' & Hids).
  apply moveToNextCard_sound; [by apply (seated_ids s)|congruence].
Qed.

Lemma bidder_is_player (s : GameState) (a : AuctionState) :
  bidCovered s a → ∀ w, currentHighBidder a = Some w → w ∈ ids s.
Proof.
  intros [_ Hcov] w Hw. rewrite Hw in Hcov. destruct Hcov as (p & Hp & _).
  apply getPlayer_is_Some. eauto.
Qed.

Lemma pass_sound (s : GameState) (playerId : string) (a : AuctionState) :
  auctionSound s → auction (phaseState s) = Some a →
  playerId ∈ activeBidders a →
  match AuctionManager.pass s playerId with
  | Done s' => auctionSound s' ∨ auctionDone s'
  | Threw _ => False
  | OutOfModel => True
  end.
Proof.
  intros [Hs Ha'] Ha Hin. rewrite Ha in Ha'.
  destruct Ha' as (Hph & Hcov & Hnd & Hact & Hlen).
  pose proof (bidder_is_player s a Hcov) as Hhigh.
  unfold AuctionManager.pass. rewrite Ha.
  set (a1 := a_set_activeBidders _ a).
  set (s1 := set_auction (Some a1) s).
  assert (Hact1 : activeBidders a1 = delete_ playerId (activeBidders a))
    by done.
  assert (Hlen1 : S (length (activeBidders a1)) = length (activeBidders a))
    by (rewrite Hact1; by apply delete_length).
  assert (Hne1 : activeBidders a1 ≠ []).
  { intros Hnil. rewrite Hnil in Hlen1. simpl in Hlen1. lia. }
  assert (Hsub1 : activeBidders a1 ⊆ ids s1).
  { rewrite Hact1. etrans; [apply delete_subseteq|done]. }
  destruct (Nat.eqb_spec (length (activeBidders a1)) 1) as [Hone|Hmore].
  { by apply completeCurrentCardAuction_sound. }
  destruct (Nat.eqb_spec (length (activeBidders a1)) 0) as [Hzero|_].
  { lia. }
  pose proof (advanceToNextActiveBidder_fields s1 a1)
    as (_ & _ & _ & Hbid & Hbidder & Hact2 & _).
  set (a2 := AuctionManager.advanceToNextActiveBidder s1 a1) in *.
  set (s2 := set_auction (Some a2) s1).
  destruct (_ && _).
  - apply completeCurrentCardAuction_sound; try done.
    + by rewrite Hact2.
    + by rewrite Hact2.
    + intros w Hw. apply Hhigh. by rewrite <- Hw, Hbidder.
  - left. split; [done|]. simpl. split; [done|].
    split; [|rewrite Hact2, Hact1; split; [by apply delete_NoDup|];
             split; [etrans; [apply delete_subseteq|done]|
                     rewrite <- Hact1; lia]].
    unfold bidCovered in *. by rewrite Hbid, Hbidder.
Qed.

Lemma placeBid_sound (s : GameState) (playerId : string) (amount : Z) :
  auctionSound s →
  ValidationSystem.validateBid s playerId amount = Valid →
  after (AuctionManager.placeBid s playerId amount) auctionSound.
Proof.
  intros [Hs Ha'] (_ & player & a & Hp & Ha & _ & Hlt & Hle)%validateBid_Valid.
  rewrite Ha in Ha'. destruct Ha' as (Hph & [Hbid0 _] & Hnd & Hact & Hlen).
  destruct (placeBid_spec s playerId amount a Ha)
    as (a' & -> & _ & _ & _ & Hbid & Hbidder & Hacts).
  simpl. split; [done|]. simpl. split; [done|].
  rewrite Hacts. split; [|done].
  split; [lia|]. rewrite Hbidder, Hbid. exists player. split; [done|lia].
Qed.

Lemma auctionSound_frame (s s' : GameState) :
  auctionSound s → currentPhase s ≠ Some AUCTION →
  ids s' = ids s → auction (phaseState s') = auction (phaseState s) →
  auctionSound s'.
Proof.
  intros [Hs Ha] Hph Hids Hauction. split; [by apply (seated_ids s)|].
  rewrite Hauction. destruct (auction (phaseState s)); [|done].
  by destruct Ha.
Qed.

Lemma transitionToAuction_sound (s : GameState) :
  seated s → auctionSound (TurnSystem.transitionToPhase s AUCTION).
Proof.
  intros Hs. unfold TurnSystem.transitionToPhase.
  set (s1 := TurnSystem.cleanupPhase s (currentPhase s)).
  assert (Hids1 : ids s1 = ids s)
    by (unfold s1; by destruct (currentPhase s) as [[]|]).
  simpl. unfold AuctionManager.initializeAuction.
  destruct (DeckManager.draw _ _) as [cards deck].
  split; [by apply (seated_ids s)|].
  simpl. split; [done|]. split; [by split|].
  change (p_id <$> players s1) with (ids s1). rewrite Hids1.
  rewrite newSet_NoDup by apply Hs.
  split; [apply Hs|]. split; [|destruct Hs as [_ Hlen]; lia].
  change (ids (set_auction ?x (set_resourceDeck ?d
                                 (set_currentPhase ?ph s1))))
    with (ids s1). by rewrite Hids1.
Qed.

Lemma transitionToPhase_sound (s : GameState) (phase : Phase) :
  seated s →
  auction (phaseState s) = None ∨ currentPhase s = Some AUCTION →
  auctionSound (TurnSystem.transitionToPhase s phase).
Proof.
  intros Hs Hnone.
  destruct (decide (phase = AUCTION)) as [->|Hne];
    [by apply transitionToAuction_sound|].
  unfold TurnSystem.transitionToPhase.
  set (s1 := TurnSystem.cleanupPhase s (currentPhase s)).
  assert (Hids1 : ids s1 = ids s)
    by (unfold s1; by destruct (currentPhase s) as [[]|]).
  assert (Ha1 : auction (phaseState s1) = None).
  { unfold s1. destruct Hnone as [Hnone| ->]; [|done].
    by destruct (currentPhase s) as [[]|]. }
  destruct phase; [done|..]; simpl;
    (split; [by apply (seated_ids s)|]); simpl; by rewrite Ha1.
Qed.

Lemma advancePhase_sound (s : GameState) :
  auctionSound s ∨ auctionDone s → auctionSound (TurnSystem.advancePhase s).
Proof.
  intros Hmid.
  assert (Hs : seated s) by (destruct Hmid as [[? _]|[? _]]; done).
  assert (Hnone : auction (phaseState s) = None
                  ∨ currentPhase s = Some AUCTION).
  { destruct Hmid as [[_ Ha]|(_ & ? & _)]; [|by right].
    destruct (auction (phaseState s)); [right; apply Ha|by left]. }
  unfold TurnSystem.advancePhase, TurnSystem.completeRound.
  destruct (TurnSystem.getNextPhase (currentPhase s)) as [next|] eqn:Hnext.
  { by apply transitionToPhase_sound. }
  destruct (_ <? _).
  - apply transitionToPhase_sound; [done|]. exact Hnone.
  - destruct Hmid as [Hsound|(_ & Hph & _)]; [exact Hsound|].
    rewrite Hph in Hnext. done.
Qed.

Lemma auctionMid_after (o : Outcome) :
  after o auctionSound → auctionMid o.
Proof. destruct o; simpl; auto. Qed.

Lemma dispatchAction_sound (env : Env) (s : GameState) (a : Action) :
  tradeSafe s → auctionSound s →
  ValidationSystem.validateAction s a = Valid →
  auctionMid (GameEngine.dispatchAction env s a).
Proof.
  intros Hsafe Hsound Hv.
  assert (Hframe : ∀ o ph, currentPhase s = Some ph → ph ≠ AUCTION →
            after o (λ s', ids s' = ids s
                           ∧ auction (phaseState s')
                             = auction (phaseState s)) →
            auctionMid o).
  { intros o ph Hph Hne Ho. apply auctionMid_after.
    eapply after_mono; [exact Ho|]. intros s' [Hids Hauction].
    apply (auctionSound_frame s); [done| |done..]. rewrite Hph. congruence. }
  assert (Hsteady : ∀ o ph, currentPhase s = Some ph → ph ≠ AUCTION →
            after o (steady s) → auctionMid o).
  { intros o ph Hph Hne Ho. apply (Hframe o ph Hph Hne).
    eapply after_mono; [exact Ho|].
    intros s' (? & _ & _ & ?)%steady_phases. done. }
  assert (Hoffers : ∀ o ph, currentPhase s = Some ph → ph ≠ AUCTION →
            after o (besidesOffers s) → auctionMid o).
  { intros o ph Hph Hne Ho. apply (Hframe o ph Hph Hne).
    eapply after_mono; [exact Ho|]. intros s' Hb.
    unfold besidesOffers in Hb. by destruct Hb as (? & _ & ? & _). }
  destruct a as [playerId amount|playerId|playerId offer request|playerId id|playerId id|playerId|playerId goalCardId|playerId choices|playerId cardIds|playerId];
    simpl in Hv |- *.
  - apply auctionMid_after. by apply placeBid_sound.
  - apply validatePass_Valid in Hv as (_ & a & Ha & Hin).
    pose proof (pass_sound s playerId a Hsound Ha Hin) as Hpass.
    by destruct (AuctionManager.pass s playerId).
  - pose proof Hv as [Hph _]%validateTradeProposal_Valid.
    apply (Hoffers _ TRADING); [done..|].
    eapply after_mono; [apply settles_after, proposeTrade_spec; done|].
    by intros s' (_ & ? & _).
  - pose proof Hv as [Hph _]%validateTradeAcceptance_Valid.
    apply (Hoffers _ TRADING); [done..|].
    destruct (acceptTrade_spec s playerId id Hsafe Hv)
      as (t & offer & s' & _ & _ & -> & _ & _ & Hb & _). done.
  - pose proof Hv as Hph%validateTradeCancellation_phase.
    apply (Hoffers _ TRADING); [done..|].
    eapply after_mono; [apply settles_after, cancelTrade_spec; done|].
    by intros s' (_ & ? & _).
  - unfold TurnSystem.manuallyEndPhase.
    case_bool_decide; [|by left]. left. apply advancePhase_sound. by left.
  - pose proof Hv as [Hph _]%validateGoalReveal_Valid.
    apply (Hsteady _ GOAL_RESOLUTION); [done..|]. by apply revealGoal_steady.
  - pose proof Hv as [Hph _]%validateRewardExecution_Valid.
    apply (Hsteady _ GOAL_RESOLUTION); [done..|]. apply executeReward_steady.
  - pose proof Hv as Hph%validateSellSelection_Valid.
    apply (Hsteady _ SELL); [done..|]. apply selectCardsToSell_steady.
  - pose proof Hv as Hph%validateSellCommit_Valid.
    apply (Hsteady _ SELL); [done..|]. apply commitSell_steady.
Qed.

Lemma auctionSound_recordAction (s : GameState) (a : Action) :
  auctionSound s → auctionSound (GameStateOps.recordAction s a).
Proof. intros H. exact H. Qed.

Lemma executeAction_sound (env : Env) (s : GameState) (a : Action)
      (o : Outcome) :
  tradeSafe s → auctionSound s →
  GameEngine.executeAction env s a = Ran o → after o auctionSound.
Proof.
  intros Hsafe Hsound [Hv ->]%executeAction_Ran.
  pose proof (dispatchAction_sound env (GameStateOps.recordAction s a) a
                Hsafe Hsound Hv) as Hmid.
  destruct (GameEngine.dispatchAction env _ a) as [s1|s1|]; simpl in *;
    [|done..].
  destruct (TurnSystem.canAdvancePhase s1) as [[]|] eqn:Hcan; simpl.
  - by apply advancePhase_sound.
  - destruct Hmid as [?|(_ & Hph & Hdone)]; [done|].
    unfold TurnSystem.canAdvancePhase in Hcan. rewrite Hph in Hcan.
    congruence.
  - destruct Hmid as [?|(_ & Hph & Hdone)]; [done|].
    unfold TurnSystem.canAdvancePhase in Hcan. by rewrite Hph in Hcan.
Qed.

Lemma setup_sound (deck0 : list Card) (s0 : GameState) :
  setupState deck0 s0 → auctionSound s0.
Proof.
  intros Hsetup. pose proof Hsetup as [_ HI]%setup_inv.
  destruct Hsetup as (cfg & infos & goals & s & _ & _ & _ & _ & Hstart).
  unfold GameEngine.start in Hstart.
  destruct (status s); [|discriminate Hstart..].
  apply (inj Some) in Hstart. subst s0.
  apply transitionToAuction_sound.
  pose proof (inv_ids _ _ _ HI) as Hids. unfold ids in Hids.
  rewrite (proj1 (transitionToPhase_players _ _)) in Hids. exact Hids.
Qed.

Lemma reachable_sound (ok : GameState → Action → Prop) (s0 s : GameState) :
  tradeSafe s0 → auctionSound s0 → reachableWith ok s0 s →
  tradeSafe s ∧ auctionSound s.
Proof.
  intros Hsafe Hsound Hreach.
  induction Hreach as [s|s1 s2 s3 Hstep _ IH]; [done|].
  destruct Hstep as (env & a & _ & Hrun).
  apply IH.
  - destruct Hrun as [Hrun|Hrun];
      by apply (executeAction_tradeSafe env s1 a _ Hsafe Hrun).
  - destruct Hrun as [Hrun|Hrun];
      by apply (executeAction_sound env s1 a _ Hsafe Hsound Hrun).
Qed.

Lemma completeCurrentCardAuction_winner (s : GameState) (a : AuctionState)
      (w : string) (pw : Player) (card : Card) :
  AuctionManager.winnerOf a = Some w →
  GameStateOps.getPlayer s w = Some pw →
  currentCard a = Some card →
  ∃ s' a',
    AuctionManager.completeCurrentCardAuction s a = Done s'
    ∧ currentPhase s' = currentPhase s
    ∧ auction (phaseState s') = Some a'
    ∧ currentCardIndex a' = S (currentCardIndex a)
    ∧ players s'
      = players (GameStateOps.addCardToHand
                   (GameStateOps.adjustPlayerCash s w (- currentBid a))
                   w card).
Proof.
  intros Hw Hp Hcard. unfold AuctionManager.completeCurrentCardAuction.
  rewrite Hw, Hp, Hcard.
  set (s2 := GameStateOps.addCardToHand _ w card).
  destruct (moveToNextCard_index s2 a) as (a' & Ha' & Hi & _).
  exists (AuctionManager.moveToNextCard s2 a), a'.
  split; [done|]. split; [by rewrite moveToNextCard_phase|].
  split; [done|]. split; [done|].
  apply (moveToNextCard_frame s2 a).
Qed.

(** A pass while a high bidder stands: either the bidding for the card
    goes on and nobody's holdings change, or the card goes to the high
    bidder for the bid. *)
Lemma pass_outcome (s : GameState) (playerId : string) (a : AuctionState)
      (w : string) (pw : Player) (card : Card) :
  auctionSound s → auction (phaseState s) = Some a →
  playerId ∈ activeBidders a →
  currentHighBidder a = Some w → w ≠ EmptyString →
  GameStateOps.getPlayer s w = Some pw → currentCard a = Some card →
  ∃ s1 a1,
    AuctionManager.pass s playerId = Done s1
    ∧ currentPhase s1 = Some AUCTION
    ∧ auction (phaseState s1) = Some a1
    ∧ cardsToAuction a1 = cardsToAuction a
    ∧ (currentCardIndex a1 = currentCardIndex a ∧ players s1 = players s
       ∨ currentCardIndex a1 = S (currentCardIndex a)
         ∧ players s1
           = players (GameStateOps.addCardToHand
                        (GameStateOps.adjustPlayerCash s w (- currentBid a))
                        w card)).
Proof.
  intros [Hs Ha'] Ha Hin Hw Hne Hp Hcard. rewrite Ha in Ha'.
  destruct Ha' as (Hph & Hcov & Hnd & Hact & Hlen).
  pose proof (pass_spec s playerId a Ha Hin) as Hspec.
  unfold AuctionManager.pass in *. rewrite Ha in *.
  set (a1 := a_set_activeBidders _ a) in *.
  set (s1 := set_auction (Some a1) s) in *.
  assert (Hwin : ∀ x, currentHighBidder x = Some w →
                      AuctionManager.winnerOf x = Some w).
  { intros x Hx. unfold AuctionManager.winnerOf. rewrite Hx.
    by rewrite (proj2 (String.eqb_neq w EmptyString)). }
  assert (Hlen1 : S (length (activeBidders a1)) = length (activeBidders a))
    by (by apply delete_length).
  assert (Hdone : ∀ sx ax,
             players sx = players s → currentPhase sx = Some AUCTION →
             currentHighBidder ax = Some w → currentCard ax = Some card →
             currentBid ax = currentBid a →
             currentCardIndex ax = currentCardIndex a →
             after (AuctionManager.completeCurrentCardAuction sx ax) (λ s',
               currentPhase s' = currentPhase s
               ∧ ∃ a', auction (phaseState s') = Some a'
                  ∧ cardsToAuction a' = cardsToAuction a
                  ∧ (currentCardIndex a' = S (currentCardIndex a)
                     ∨ currentCardIndex a' = currentCardIndex a
                       ∧ players s' = players s
                       ∧ currentBid a' = currentBid a
                       ∧ activeBidders a'
                         = delete_ playerId (activeBidders a))) →
             ∃ s2 a2,
               AuctionManager.completeCurrentCardAuction sx ax = Done s2
               ∧ currentPhase s2 = Some AUCTION
               ∧ auction (phaseState s2) = Some a2
               ∧ cardsToAuction a2 = cardsToAuction a
               ∧ (currentCardIndex a2 = currentCardIndex a
                  ∧ players s2 = players s
                  ∨ currentCardIndex a2 = S (currentCardIndex a)
                    ∧ players s2
                      = players (GameStateOps.addCardToHand
                                   (GameStateOps.adjustPlayerCash
                                      s w (- currentBid a)) w card))).
  { intros sx ax Hps Hphx Hwx Hcx Hbx Hix Hafter.
    assert (Hpx : GameStateOps.getPlayer sx w = Some pw).
    { unfold GameStateOps.getPlayer in *. by rewrite Hps. }
    destruct (completeCurrentCardAuction_winner sx ax w pw card
                (Hwin ax Hwx) Hpx Hcx)
      as (s2 & a2 & Hrun & Hph2 & Ha2 & Hi2 & Hps2).
    rewrite Hrun in Hafter. simpl in Hafter.
    destruct Hafter as (_ & a2' & Ha2' & Hcards & _).
    assert (a2' = a2) as -> by congruence.
    exists s2, a2. split; [done|]. split; [congruence|]. split; [done|].
    split; [done|]. right. split; [congruence|].
    rewrite Hps2, Hbx. unfold GameStateOps.addCardToHand,
      GameStateOps.adjustPlayerCash. simpl. by rewrite Hps. }
  destruct (Nat.eqb_spec (length (activeBidders a1)) 1) as [Hone|Hmore].
  { by apply Hdone. }
  destruct (Nat.eqb_spec (length (activeBidders a1)) 0) as [Hzero|_].
  { lia. }
  pose proof (advanceToNextActiveBidder_fields s1 a1)
    as (Hcards & Hidx & Hcard2 & Hbid & Hbidder & Hact2 & _).
  set (a2 := AuctionManager.advanceToNextActiveBidder s1 a1) in *.
  set (s2 := set_auction (Some a2) s1) in *.
  destruct (_ && _).
  - apply Hdone;
      first [done|by rewrite Hbidder|by rewrite Hcard2|by rewrite Hidx
            |by rewrite Hbid].
  - exists s2, a2. split; [done|]. split; [done|]. split; [done|].
    split; [by rewrite Hcards|]. left. by rewrite Hidx.
Qed.

(** In every state reachable from setup, a pass while a high bidder
    stands on an open auction has one of two outcomes.  Either the engine
    stays on the card, and the players are as before.  Or the high bidder
    has won: that player's cash is lower by exactly the bid, which it
    covered, the card is the last card of that player's hand, and no
    other player has changed. *)
Theorem winner_pays_bid (deck0 : list Card) (s0 s s' : GameState)
        (env : Env) (playerId w : string) (a : AuctionState) (pw : Player)
        (card : Card) :
  setupState deck0 s0 → reachableWith anyAction s0 s →
  auction (phaseState s) = Some a →
  currentCardIndex a < length (cardsToAuction a) →
  currentCard a = Some card →
  currentHighBidder a = Some w → w ≠ EmptyString →
  GameStateOps.getPlayer s w = Some pw →
  GameEngine.executeAction env s (PASS playerId) = Ran (Done s') →
  (currentBid a ≤ p_cash pw)%Z
  ∧ (onCard (currentCardIndex a) s' → players s' = players s)
  ∧ (¬ onCard (currentCardIndex a) s' →
     GameStateOps.getPlayer s' w
     = Some (p_set_hand (p_hand pw ++ [card])
                        (p_set_cash (p_cash pw - currentBid a) pw))
     ∧ ∀ other, other ≠ w →
         GameStateOps.getPlayer s' other = GameStateOps.getPlayer s other).
Proof.
  intros Hsetup Hreach Ha Hopen Hcard Hw Hne Hp Hrun.
  destruct (reachable_sound anyAction s0 s) as [_ Hsound];
    [by eapply setup_tradeSafe|by eapply setup_sound|done|].
  assert (Hcov : (currentBid a ≤ p_cash pw)%Z).
  { destruct Hsound as [_ Hs]. rewrite Ha in Hs.
    destruct Hs as (_ & [_ Hc] & _). rewrite Hw in Hc.
    destruct Hc as (p & Hp' & Hle). congruence. }
  split; [done|].
  apply executeAction_Ran in Hrun as [Hvalid Ho]. simpl in Hvalid.
  apply validatePass_Valid in Hvalid as (_ & a0 & Ha0 & Hin).
  assert (a0 = a) as -> by congruence.
  set (sr := GameStateOps.recordAction s (PASS playerId)) in *.
  destruct (pass_outcome sr playerId a w pw card)
    as (s1 & a1 & Hpass & Hph1 & Ha1 & Hcards1 & Hcases); try done.
  cbn [GameEngine.dispatchAction] in Ho. rewrite Hpass in Ho. simpl in Ho.
  unfold TurnSystem.canAdvancePhase in Ho. rewrite Hph1 in Ho.
  unfold AuctionManager.isAuctionComplete in Ho. rewrite Ha1, Hcards1 in Ho.
  destruct Hcases as [[Hi Hps]|[Hi Hps]].
  - rewrite Hi in Ho.
    destruct (Nat.leb_spec (length (cardsToAuction a)) (currentCardIndex a));
      [lia|].
    injection Ho as Heq. subst s'. split; [done|]. intros Hnot. exfalso. apply Hnot.
    split; [done|]. eauto.
  - assert (Hps' : players s'
                   = players (GameStateOps.addCardToHand
                                (GameStateOps.adjustPlayerCash
                                   sr w (- currentBid a)) w card)).
    { destruct (_ <=? _); injection Ho as Heq; subst s'; [|done].
      by rewrite (proj1 (advancePhase_players s1)). }
    assert (Hoff : ¬ onCard (currentCardIndex a) s').
    { intros [Hph' (a' & Ha' & Hi')].
      destruct (_ <=? _); injection Ho as Heq; subst s'.
      - unfold TurnSystem.advancePhase in Hph'. rewrite Hph1 in Hph'.
        simpl in Hph'. unfold TurnSystem.transitionToPhase in Hph'.
        simpl in Hph'. done.
      - assert (a' = a1) as -> by congruence. lia. }
    split; [done|]. intros _.
    unfold GameStateOps.getPlayer in *. rewrite Hps'. simpl. split.
    + rewrite find_updatePlayer_eq by auto with players.
      rewrite find_updatePlayer_eq by auto with players.
      change (players sr) with (players s). rewrite Hp. simpl. f_equal.
      unfold GameStateOps.adjustCash. simpl.
      destruct (Z.ltb_spec (p_cash pw + - currentBid a) 0); [lia|].
      by rewrite Z.add_opp_r.
    + intros other Hother.
      rewrite find_updatePlayer_ne by auto with players.
      by rewrite find_updatePlayer_ne by auto with players.
Qed.

Lemma winner_pays_bid_witness :
  ∃ s' a pw,
    GameEngine.executeAction Example.env Example.bidPassState (PASS "C")
    = Ran (Done s')
    ∧ auction (phaseState Example.bidPassState) = Some a
    ∧ GameStateOps.getPlayer Example.bidPassState "A" = Some pw
    ∧ (currentBid a ≤ p_cash pw)%Z.
Proof.
  eexists _, _, _.
  split; [vm_compute; reflexivity|].
  split; [vm_compute; reflexivity|].
  split; [vm_compute; reflexivity|].
  refine (proj1 (winner_pays_bid Example.deck Example.auctionState
                   Example.bidPassState _ Example.env "C" "A" _ _
                   (Example.card "r6" "Yellow")
                   example_setup _ _ _ _ _ _ _ _)).
  - apply (runActions_reachable Example.env [PLACE_BID "A" 2; PASS "B"]).
    vm_compute. reflexivity.
  - vm_compute. reflexivity.
  - vm_compute. lia.
  - vm_compute. reflexivity.
  - vm_compute. reflexivity.
  - discriminate.
  - vm_compute. reflexivity.
  - vm_compute. reflexivity.
Defined.

(** ** RewardSystem: stealing cash *)

(** Stealing moves cash and makes none: with no negative balance in the
    game and an amount that is not negative, the thief takes from another
    player the amount or, if that is less, all the cash of that player;
    the thief has that much more, the target that much less and never
    less than nothing, and nobody else changes.  Stealing from oneself
    changes nothing. *)
Theorem steal_moves_cash (s : GameState) (thief target : string)
        (amount : Z) (pt pg : Player) :
  cashNonNegative s → (0 ≤ amount)%Z →
  GameStateOps.getPlayer s thief = Some pt →
  GameStateOps.getPlayer s target = Some pg →
  ∃ s', RewardSystem.executeStealCash s thief target amount = Done s'
    ∧ (thief ≠ target →
       GameStateOps.getPlayer s' thief
       = Some (p_set_cash (p_cash pt + Z.min amount (p_cash pg)) pt)
       ∧ GameStateOps.getPlayer s' target
         = Some (p_set_cash (p_cash pg - Z.min amount (p_cash pg)) pg)
       ∧ (0 ≤ p_cash pg - Z.min amount (p_cash pg))%Z)
    ∧ (thief = target → GameStateOps.getPlayer s' thief = Some (p_set_cash (p_cash pt) pt))
    ∧ (∀ other, other ≠ thief → other ≠ target →
         GameStateOps.getPlayer s' other = GameStateOps.getPlayer s other)
    ∧ ids s' = ids s.
Proof.
  intros Hcash Hamount Ht Hg.
  pose proof (getPlayer_cash_nonneg s _ _ Hcash Ht) as Ht0.
  pose proof (getPlayer_cash_nonneg s _ _ Hcash Hg) as Hg0.
  unfold RewardSystem.executeStealCash. rewrite Hg.
  set (take := Z.min amount (p_cash pg)).
  assert (Htake : (0 ≤ take ≤ p_cash pg)%Z) by (unfold take; lia).
  set (s1 := GameStateOps.adjustPlayerCash s target (- take)).
  set (s2 := GameStateOps.adjustPlayerCash s1 thief take).
  assert (Hadjust : ∀ p x, (0 ≤ p_cash p + x)%Z →
            GameStateOps.adjustCash x p = p_set_cash (p_cash p + x) p).
  { intros p x Hx. unfold GameStateOps.adjustCash.
    by destruct (Z.ltb_spec (p_cash p + x) 0); [lia|]. }
  assert (Hthief2 : GameStateOps.getPlayer s2 thief
                    = GameStateOps.adjustCash take
                        <$> GameStateOps.getPlayer s1 thief)
    by apply adjustPlayerCash_getPlayer.
  destruct (decide (thief = target)) as [->|Hne].
  - assert (pt = pg) as -> by congruence.
    assert (H1 : GameStateOps.getPlayer s1 target
                 = Some (p_set_cash (p_cash pg - take) pg)).
    { unfold s1. rewrite adjustPlayerCash_getPlayer, Hg. simpl.
      rewrite Hadjust by lia. by rewrite Z.add_opp_r. }
    rewrite H1 in Hthief2. simpl in Hthief2.
    rewrite Hadjust in Hthief2 by (simpl; lia). simpl in Hthief2.
    replace (p_cash pg - take + take)%Z with (p_cash pg) in Hthief2 by lia.
    rewrite Hthief2. eexists. split; [done|]. split; [done|].
    split; [done|]. split.
    + intros other Ho _. unfold s2, s1.
      by rewrite !adjustPlayerCash_getPlayer_ne.
    + unfold ids, s2, s1. simpl.
      by rewrite !updatePlayer_ids by auto with players.
  - assert (H1 : GameStateOps.getPlayer s1 thief = Some pt).
    { unfold s1. by rewrite adjustPlayerCash_getPlayer_ne. }
    rewrite H1 in Hthief2. simpl in Hthief2.
    rewrite Hadjust in Hthief2 by lia.
    rewrite Hthief2. eexists. split; [done|]. split; [|split; [done|split]].
    + intros _. split; [done|]. split; [|lia].
      unfold s2. rewrite adjustPlayerCash_getPlayer_ne by done.
      unfold s1. rewrite adjustPlayerCash_getPlayer, Hg. simpl.
      rewrite Hadjust by lia. by rewrite Z.add_opp_r.
    + intros other Ho1 Ho2. unfold s2, s1.
      by rewrite !adjustPlayerCash_getPlayer_ne.
    + unfold ids, s2, s1. simpl.
      by rewrite !updatePlayer_ids by auto with players.
Qed.

Lemma steal_moves_cash_witness :
  ∃ s', RewardSystem.executeStealCash Example.auctionState "A" "B" 7
        = Done s'
        ∧ Example.cashOf s' "A" = 10%Z ∧ Example.cashOf s' "B" = 0%Z.
Proof.
  assert (Hc : cashNonNegative Example.auctionState)
    by (apply (bool_decide_unpack _); vm_compute; reflexivity).
  destruct (GameStateOps.getPlayer Example.auctionState "A") as [pt|] eqn:Ht;
    [|by vm_compute in Ht].
  destruct (GameStateOps.getPlayer Example.auctionState "B") as [pg|] eqn:Hg;
    [|by vm_compute in Hg].
  destruct (steal_moves_cash Example.auctionState "A" "B" 7 pt pg Hc
                             ltac:(lia) Ht Hg) as (s' & Hrun & _).
  exists s'. split; [exact Hrun|].
  vm_compute in Hrun. injection Hrun as <-. vm_compute. done.
Defined.

(** ** TradingManager: an offer is settled once *)

Lemma findOffer_markOffer (st : OfferStatus) (id id' : string)
      (offers : list Offer) :
  findOffer (TradingManager.markOffer st id' offers) id
  = if decide (id = id') then o_set_status st <$> findOffer offers id
    else findOffer offers id.
Proof.
  unfold findOffer. induction offers as [|o offers IH]; simpl.
  - by case_decide.
  - destruct (String.eqb_spec (offerId o) id') as [Ho'|Ho']; simpl.
    + case_decide as Hid.
      * subst id'. by rewrite (proj2 (String.eqb_eq (offerId o) id) Ho').
      * by rewrite (proj2 (String.eqb_neq (offerId o) id)) by congruence.
    + destruct (String.eqb_spec (offerId o) id) as [Ho|Ho]; simpl.
      * rewrite decide_False by congruence. done.
      * done.
Qed.

Lemma findOffer_fmap (g : Offer → Offer) (id : string) (offers : list Offer) :
  (∀ o, offerId (g o) = offerId o) →
  findOffer (g <$> offers) id = g <$> findOffer offers id.
Proof.
  intros Hg. unfold findOffer. induction offers as [|o offers IH]; [done|].
  rewrite fmap_cons. simpl. rewrite Hg.
  by destruct (String.eqb (offerId o) id).
Qed.

Lemma findOffer_snoc (id : string) (offers : list Offer) (new : Offer) :
  offerId new ≠ id →
  findOffer (offers ++ [new]) id = findOffer offers id.
Proof.
  intros Hne. unfold findOffer. induction offers as [|o offers IH]; simpl.
  - by rewrite (proj2 (String.eqb_neq _ _) Hne).
  - by destruct (String.eqb (offerId o) id).
Qed.

Lemma settledIn_markOffer (st : OfferStatus) (id id' : string)
      (offers : list Offer) :
  st ≠ ACTIVE → settledIn id offers →
  settledIn id (TradingManager.markOffer st id' offers).
Proof.
  intros Hst. unfold settledIn. rewrite findOffer_markOffer.
  case_decide; [|done]. by destruct (findOffer offers id).
Qed.

Lemma settledIn_marked (st : OfferStatus) (id : string) (offers : list Offer) :
  st ≠ ACTIVE → settledIn id (TradingManager.markOffer st id offers).
Proof.
  intros Hst. unfold settledIn.
  rewrite findOffer_markOffer, decide_True by done.
  by destruct (findOffer offers id).
Qed.

Lemma settledIn_cancelSome (id : string) (test : Offer → bool)
      (offers : list Offer) :
  settledIn id offers →
  settledIn id ((λ offer, if test offer then o_set_status CANCELLED offer
                          else offer) <$> offers).
Proof.
  unfold settledIn. rewrite findOffer_fmap.
  - destruct (findOffer offers id) as [o|]; [|done]. simpl.
    by destruct (test o).
  - intros o. by destruct (test o).
Qed.

Lemma offerSettled_set_offers (id : string) (offers : list Offer)
      (s : GameState) :
  settledIn id offers → offerSettled id s →
  offerSettled id (TradingManager.set_offers offers s).
Proof.
  intros Hoffers Hs. unfold TradingManager.set_offers, offerSettled in *.
  destruct (trading (phaseState s)) as [t|] eqn:Ht; simpl; [done|].
  by rewrite Ht.
Qed.

Lemma offerSettled_same (id : string) (s s' : GameState) :
  trading (phaseState s') = trading (phaseState s) →
  offerSettled id s → offerSettled id s'.
Proof. unfold offerSettled. by intros ->. Qed.

Lemma autoCancel_settled (id : string) (s : GameState) (playerId : string) :
  offerSettled id s →
  after (TradingManager.autoCancelInvalidOffers s playerId) (offerSettled id).
Proof.
  intros Hs. unfold TradingManager.autoCancelInvalidOffers.
  destruct (trading (phaseState s)) as [t|] eqn:Ht; [|done].
  destruct (GameStateOps.getPlayer s playerId) as [player|].
  - simpl. apply offerSettled_set_offers; [|done].
    apply settledIn_cancelSome. unfold offerSettled in Hs. by rewrite Ht in Hs.
  - by destruct (existsb _ _).
Qed.

Lemma acceptTrade_tail_settled (id : string) (s1 : GameState) (offer : Offer)
      (playerId : string) :
  offerSettled id s1 →
  after (let* s2 := TradingManager.executeTrade s1 offer playerId in
         let* s3 := TradingManager.autoCancelInvalidOffers
                      s2 (offeringPlayer offer) in
         TradingManager.autoCancelInvalidOffers s3 playerId)
        (offerSettled id).
Proof.
  intros H1.
  eapply (after_bind _ _ (offerSettled id)); [|done|].
  - eapply after_mono; [apply executeTrade_steady|].
    intros s2 (_ & Ht & _)%steady_phases. by apply (offerSettled_same id s1).
  - intros s2 H2. eapply (after_bind _ _ (offerSettled id)); [|done|].
    + by apply autoCancel_settled.
    + intros s3 H3. by apply autoCancel_settled.
Qed.

Lemma acceptTrade_settled (id : string) (s : GameState)
      (playerId id' : string) :
  offerSettled id s →
  after (TradingManager.acceptTrade s playerId id') (offerSettled id).
Proof.
  intros Hs. unfold TradingManager.acceptTrade.
  destruct (trading (phaseState s)) as [t|] eqn:Ht; [|done].
  destruct (findOffer (activeOffers t) id') as [offer|]; [|done].
  destruct (negb _); [done|].
  apply acceptTrade_tail_settled.
  apply offerSettled_set_offers; [|done].
  apply settledIn_markOffer; [done|].
  unfold offerSettled in Hs. by rewrite Ht in Hs.
Qed.

Lemma acceptTrade_settles (id : string) (s : GameState) (playerId : string) :
  after (TradingManager.acceptTrade s playerId id)
        (λ s', trading (phaseState s) ≠ None → offerSettled id s').
Proof.
  unfold TradingManager.acceptTrade.
  destruct (trading (phaseState s)) as [t|] eqn:Ht; [|simpl; congruence].
  destruct (findOffer (activeOffers t) id) as [offer|] eqn:Hfind.
  2:{ simpl. intros _. unfold offerSettled, settledIn. by rewrite Ht, Hfind. }
  case_bool_decide as Hact; simpl.
  2:{ intros _. unfold offerSettled, settledIn. by rewrite Ht, Hfind. }
  eapply after_mono; [|by intros s' H _; exact H].
  apply acceptTrade_tail_settled.
  unfold TradingManager.set_offers, offerSettled. rewrite Ht. simpl.
  by apply settledIn_marked.
Qed.

Lemma cancelTrade_settled (id : string) (s : GameState) (id' : string) :
  offerSettled id s →
  after (TradingManager.cancelTrade s id') (offerSettled id).
Proof.
  intros Hs. unfold TradingManager.cancelTrade.
  destruct (trading (phaseState s)) as [t|] eqn:Ht; [|done].
  destruct (findOffer (activeOffers t) id'); [|done].
  case_bool_decide; [|done]. simpl.
  apply offerSettled_set_offers; [|done].
  apply settledIn_markOffer; [done|].
  unfold offerSettled in Hs. by rewrite Ht in Hs.
Qed.

Lemma cancelTrade_settles (id : string) (s : GameState) :
  after (TradingManager.cancelTrade s id)
        (λ s', trading (phaseState s) ≠ None → offerSettled id s').
Proof.
  unfold TradingManager.cancelTrade.
  destruct (trading (phaseState s)) as [t|] eqn:Ht; [|simpl; congruence].
  destruct (findOffer (activeOffers t) id) as [offer|] eqn:Hfind.
  2:{ simpl. intros _. unfold offerSettled, settledIn. by rewrite Ht, Hfind. }
  case_bool_decide as Hact; simpl; intros _.
  - unfold TradingManager.set_offers, offerSettled. rewrite Ht. simpl.
    by apply settledIn_marked.
  - unfold offerSettled, settledIn. by rewrite Ht, Hfind.
Qed.

Lemma proposeTrade_settled (id uuid : string) (s : GameState)
      (playerId : string) (offering : option Offering)
      (requesting : option Requesting) :
  uuid ≠ id → offerSettled id s →
  after (TradingManager.proposeTrade uuid s playerId offering requesting)
        (offerSettled id).
Proof.
  intros Hne Hs. unfold TradingManager.proposeTrade.
  destruct (trading (phaseState s)) as [t|] eqn:Ht; [|done].
  destruct offering as [off|]; [|done].
  destruct requesting as [req|]; [|done]. simpl.
  unfold offerSettled, settledIn in *. simpl. rewrite Ht in Hs.
  by rewrite findOffer_snoc.
Qed.

Lemma transitionToPhase_settled (id : string) (s : GameState) (phase : Phase) :
  offerSettled id s → offerSettled id (TurnSystem.transitionToPhase s phase).
Proof.
  intros Hs. unfold TurnSystem.transitionToPhase.
  set (s1 := TurnSystem.cleanupPhase s (currentPhase s)).
  assert (H1 : offerSettled id s1).
  { unfold s1. destruct (currentPhase s) as [[]|]; try done. }
  destruct phase; simpl; done.
Qed.

Lemma advancePhase_settled (id : string) (s : GameState) :
  offerSettled id s → offerSettled id (TurnSystem.advancePhase s).
Proof.
  intros Hs. unfold TurnSystem.advancePhase, TurnSystem.completeRound.
  destruct (TurnSystem.getNextPhase _);
    [by apply transitionToPhase_settled|].
  destruct (_ <? _); [|done]. by apply transitionToPhase_settled.
Qed.

Lemma dispatchAction_settled (id : string) (env : Env) (s : GameState)
      (a : Action) :
  env_uuid env ≠ id → offerSettled id s →
  ValidationSystem.validateAction s a = Valid →
  after (GameEngine.dispatchAction env s a) (offerSettled id).
Proof.
  intros Hne Hs Hv.
  assert (Hsame : ∀ o, after o (λ s', trading (phaseState s')
                                      = trading (phaseState s)) →
                       after o (offerSettled id)).
  { intros o Ho. eapply after_mono; [exact Ho|].
    intros s' Ht. by apply (offerSettled_same id s). }
  assert (Hsteady : ∀ o, after o (steady s) → after o (offerSettled id)).
  { intros o Ho. apply Hsame. eapply after_mono; [exact Ho|].
    by intros s' (_ & ? & _)%steady_phases. }
  assert (Hcalm : ∀ o, after o (calm s) → after o (offerSettled id)).
  { intros o Ho. apply Hsame. eapply after_mono; [exact Ho|].
    intros s' Hc. unfold calm in Hc. by destruct Hc as (_ & _ & ? & _). }
  destruct a as [playerId amount|playerId|playerId offer request|playerId id'|playerId id'|playerId|playerId goalCardId|playerId choices|playerId cardIds|playerId];
    simpl in Hv |- *.
  - apply Hcalm, placeBid_calm.
  - apply Hcalm, pass_calm.
  - by apply proposeTrade_settled.
  - by apply acceptTrade_settled.
  - by apply cancelTrade_settled.
  - unfold TurnSystem.manuallyEndPhase.
    case_bool_decide; [by apply advancePhase_settled|done].
  - by apply Hsteady, revealGoal_steady.
  - apply Hsteady, executeReward_steady.
  - apply Hsteady, selectCardsToSell_steady.
  - apply Hsteady, commitSell_steady.
Qed.

Lemma phaseCheck_settled (id : string) (s1 : GameState) :
  offerSettled id s1 →
  after (match TurnSystem.canAdvancePhase s1 with
         | None => Threw s1
         | Some true => Done (TurnSystem.advancePhase s1)
         | Some false => Done s1
         end) (offerSettled id).
Proof.
  intros H1. destruct (TurnSystem.canAdvancePhase s1) as [[]|]; simpl;
    [by apply advancePhase_settled|done..].
Qed.

Lemma stepAvoiding_settled (id : string) (s s' : GameState) :
  offerSettled id s → stepAvoiding id s s' → offerSettled id s'.
Proof.
  intros Hs (env & a & Hne & Hrun).
  assert (∃ o, GameEngine.executeAction env s a = Ran o
               ∧ (o = Done s' ∨ o = Threw s')) as (o & Hexec & Ho)
    by (destruct Hrun; eauto).
  apply executeAction_Ran in Hexec as [Hv ->].
  assert (Hafter : after (let* s1 := GameEngine.dispatchAction
                                       env (GameStateOps.recordAction s a) a in
                          match TurnSystem.canAdvancePhase s1 with
                          | None => Threw s1
                          | Some true => Done (TurnSystem.advancePhase s1)
                          | Some false => Done s1
                          end) (offerSettled id)).
  { eapply (after_bind _ _ (offerSettled id)); [|done|].
    - by apply dispatchAction_settled.
    - intros s1 H1. by apply phaseCheck_settled. }
  destruct Ho as [Ho|Ho]; rewrite Ho in Hafter; exact Hafter.
Qed.

Lemma settled_rejected (id : string) (env : Env) (s : GameState)
      (playerId : string) :
  offerSettled id s →
  (∃ e, GameEngine.executeAction env s (ACCEPT_TRADE playerId id)
        = Rejected e)
  ∧ (∃ e, GameEngine.executeAction env s (CANCEL_TRADE playerId id)
          = Rejected e).
Proof.
  intros Hs. unfold GameEngine.executeAction. simpl.
  unfold ValidationSystem.validateTradeAcceptance,
    ValidationSystem.validateTradeCancellation.
  unfold offerSettled, settledIn in Hs.
  destruct (negb (bool_decide (currentPhase s = Some TRADING))); [eauto|].
  destruct (trading (phaseState s)) as [t|].
  2:{ destruct (GameStateOps.getPlayer s playerId); eauto. }
  destruct (findOffer (activeOffers t) id) as [offer|].
  2:{ destruct (GameStateOps.getPlayer s playerId); eauto. }
  rewrite (bool_decide_eq_false_2 (o_status offer = ACTIVE)) by done. simpl.
  split.
  - destruct (GameStateOps.getPlayer s playerId); eauto.
  - destruct (negb (String.eqb (offeringPlayer offer) playerId)); eauto.
Qed.

(** An offer is settled once: after an accept-trade or a cancel-trade
    action on an offer has run, every later attempt to accept or to cancel
    the offer with that id is rejected, by whomever and after whatever
    other actions, as long as [uuid()] does not hand out the id again. *)
Theorem offer_settled_once (env env' : Env) (s s' s'' : GameState)
        (playerId anyone id : string) :
  GameEngine.executeAction env s (ACCEPT_TRADE playerId id) = Ran (Done s')
  ∨ GameEngine.executeAction env s (CANCEL_TRADE playerId id)
    = Ran (Done s') →
  rtc (stepAvoiding id) s' s'' →
  (∃ e, GameEngine.executeAction env' s'' (ACCEPT_TRADE anyone id)
        = Rejected e)
  ∧ (∃ e, GameEngine.executeAction env' s'' (CANCEL_TRADE anyone id)
          = Rejected e).
Proof.
  intros Hrun Hlater. apply settled_rejected.
  assert (Hs' : offerSettled id s').
  { assert (∃ a, (a = ACCEPT_TRADE playerId id ∨ a = CANCEL_TRADE playerId id)
                 ∧ GameEngine.executeAction env s a = Ran (Done s'))
      as (a & Ha & Hexec) by (destruct Hrun; eauto).
    apply executeAction_Ran in Hexec as [Hv Ho].
    set (sr := GameStateOps.recordAction s a) in *.
    assert (Htr : trading (phaseState sr) ≠ None).
    { change (trading (phaseState sr)) with (trading (phaseState s)).
      destruct Ha as [-> | ->]; simpl in Hv.
      - apply validateTradeAcceptance_Valid in Hv
          as (_ & ? & t & ? & _ & -> & _). done.
      - unfold ValidationSystem.validateTradeCancellation in Hv.
        destruct (negb _); [done|]. by destruct (trading (phaseState s)). }
    assert (Hmid : after (GameEngine.dispatchAction env sr a)
                         (offerSettled id)).
    { destruct Ha as [-> | ->]; simpl.
      - eapply after_mono; [apply acceptTrade_settles|]. auto.
      - eapply after_mono; [apply cancelTrade_settles|]. auto. }
    assert (Hafter : after (Done s') (offerSettled id)).
    { rewrite Ho. eapply (after_bind _ _ (offerSettled id)); [done|done|].
      intros s1 H1. by apply phaseCheck_settled. }
    exact Hafter. }
  clear Hrun. induction Hlater as [s1|s1 s2 s3 Hstep _ IH]; [done|].
  apply IH. by apply (stepAvoiding_settled id s1).
Qed.

Lemma offer_settled_once_witness :
  ∃ e, GameEngine.executeAction Example.env cancelledState
                                (ACCEPT_TRADE "A" "offer-1") = Rejected e.
Proof.
  assert (Hrun : GameEngine.executeAction Example.env Example.offerState
                                          (CANCEL_TRADE "C" "offer-1")
                 = Ran (Done cancelledState))
    by (vm_compute; reflexivity).
  exact (proj1 (offer_settled_once Example.env Example.env Example.offerState
                  cancelledState cancelledState "C" "A" "offer-1"
                  (or_intror Hrun) (rtc_refl _ _))).
Defined.

(** ** SellManager: the payout *)

Lemma filter_agree {A : Type} (P Q : A → Prop) `{!∀ x, Decision (P x)}
      `{!∀ x, Decision (Q x)} (l : list A) :
  (∀ x, x ∈ l → P x ↔ Q x) → filter P l = filter Q l.
Proof.
  induction l as [|x l IH]; [done|]. intros Hl.
  rewrite !filter_cons.
  rewrite IH by (intros y Hy; apply Hl; by right).
  pose proof (Hl x (list_elem_of_here x l)) as Hx.
  destruct (decide (P x)), (decide (Q x)); naive_solver.
Qed.

Lemma filter_all {A : Type} (P : A → Prop) `{!∀ x, Decision (P x)}
      (l : list A) :
  (∀ x, x ∈ l → P x) → filter P l = l.
Proof.
  induction l as [|x l IH]; [done|]. intros Hl. rewrite filter_cons.
  rewrite decide_True by (apply Hl; by left).
  f_equal. apply IH. intros y Hy. apply Hl. by right.
Qed.

Lemma filter_none {A : Type} (P : A → Prop) `{!∀ x, Decision (P x)}
      (l : list A) :
  (∀ x, x ∈ l → ¬ P x) → filter P l = [].
Proof.
  induction l as [|x l IH]; [done|]. intros Hl. rewrite filter_cons.
  rewrite decide_False by (apply Hl; by left).
  apply IH. intros y Hy. apply Hl. by right.
Qed.

(** With distinct ids in the hand, the card removed is the only one with
    the id. *)
Lemma removeFirstById_filter (cardId : string) (h h' : list Card) (c : Card) :
  NoDup (card_id <$> h) →
  GameStateOps.removeFirstById cardId h = Some (c, h') →
  h' = filter (λ x, card_id x ≠ cardId) h.
Proof.
  revert h'. induction h as [|x h IH]; intros h'; [done|].
  rewrite fmap_cons, NoDup_cons. intros [Hx Hnd]. simpl.
  rewrite filter_cons.
  destruct (String.eqb_spec (card_id x) cardId) as [Heq|Hne].
  - intros [= <- <-]. rewrite decide_False by (intros Hn; by apply Hn).
    symmetry. apply filter_all. intros y Hy Hy'. apply Hx.
    rewrite Heq, <- Hy'. by apply list_elem_of_fmap_2.
  - destruct (GameStateOps.removeFirstById cardId h) as [[y r]|] eqn:Hr;
      [|done].
    intros [= <- <-]. rewrite decide_True by done. f_equal. by apply IH.
Qed.

(** A state with another discard pile and an update of one player. *)
Lemma sold_state_eq (s : GameState) (f g : Player → Player)
      (playerId : string) (sold1 sold2 : list Card) :
  idPreserving f →
  let s1 := set_resourceDeck
              (DeckManager.discard (resourceDeck s) sold1)
              (set_players (GameStateOps.updatePlayer f playerId (players s))
                           s) in
  set_resourceDeck
    (DeckManager.discard (resourceDeck s1) sold2)
    (set_players (GameStateOps.updatePlayer g playerId (players s1)) s1)
  = set_resourceDeck
      (DeckManager.discard (resourceDeck s) (sold1 ++ sold2))
      (set_players (GameStateOps.updatePlayer (g ∘ f) playerId (players s))
                   s).
Proof.
  intros Hf. simpl. rewrite updatePlayer_twice by done.
  unfold DeckManager.discard. simpl. by rewrite (assoc app).
Qed.

Lemma sellCards_spec (cardIds : list string) :
  ∀ (s : GameState) (playerId : string) (bonus e0 : Z) (p : Player),
    GameStateOps.getPlayer s playerId = Some p →
    NoDup (card_id <$> p_hand p) →
    Forall (sellable (stockPrices s)) (p_hand p) →
    ∃ sold,
      sold ≡ₚ soldOf cardIds p
      ∧ SellManager.sellCards s playerId bonus cardIds (Some e0)
        = (set_resourceDeck
             (DeckManager.discard (resourceDeck s) sold)
             (set_players
                (GameStateOps.updatePlayer
                   (p_set_hand (filter (λ c, card_id c ∉ cardIds) (p_hand p)))
                   playerId (players s)) s),
           Some (e0 + GameStateOps.cardValue (stockPrices s) sold
                 + Z.of_nat (length sold) * Z.max 0 bonus)%Z).
Proof.
  induction cardIds as [|cardId cardIds IH];
    intros s playerId bonus e0 p Hp Hnd Hgood.
  - exists []. split.
    + unfold soldOf. rewrite filter_none; [done|].
      intros c _. apply not_elem_of_nil.
    + simpl. f_equal; [|f_equal; unfold GameStateOps.cardValue; simpl; lia].
      rewrite filter_all by (intros c _; apply not_elem_of_nil).
      rewrite (updatePlayer_fixed _ _ _ p Hp (p_set_hand_same p)).
      unfold DeckManager.discard. rewrite app_nil_r.
      by destruct s as [? ? ? ? ? ? [? ?] ? ? ? ? ? ? ?].
  - simpl. unfold GameStateOps.removeCardFromHand. rewrite Hp.
    destruct (GameStateOps.removeFirstById cardId (p_hand p))
      as [[c h']|] eqn:Hrem.
    + pose proof (removeFirstById_filter _ _ _ _ Hnd Hrem) as Hh'.
      destruct (removeFirstById_spec _ _ _ _ Hrem) as [Hperm Hid].
      assert (Hc : sellable (stockPrices s) c).
      { apply (proj1 (Forall_forall _ _) Hgood).
        rewrite Hperm. by left. }
      destruct Hc as [Hcol [v Hv]].
      rewrite (proj2 (String.eqb_neq _ _) Hcol).
      set (s2 := set_resourceDeck _ _).
      assert (Hnd' : NoDup (card_id <$> (c :: h'))) by by rewrite <- Hperm.
      rewrite fmap_cons in Hnd'. apply NoDup_cons in Hnd' as [Hnotin Hnd'].
      assert (Hp2 : GameStateOps.getPlayer s2 playerId
                    = Some (p_set_hand h' p)).
      { unfold s2.
        change (GameStateOps.getPlayer
                  (set_players
                     (GameStateOps.updatePlayer (p_set_hand h') playerId
                                                (players s)) s) playerId
                = Some (p_set_hand h' p)).
        rewrite getPlayer_update by done. by rewrite Hp. }
      assert (Hgood' : Forall (sellable (stockPrices s)) h').
      { rewrite Hperm in Hgood. by apply Forall_cons in Hgood as [_ ?]. }
      simpl. rewrite Hv.
      assert (Hsale : SellManager.addEarnings
                        (Some e0)
                        (if (0 <? bonus)%Z
                         then (λ p0 : Z, (p0 + bonus)%Z) <$> Some v
                         else Some v)
                      = Some (e0 + v + Z.max 0 bonus)%Z).
      { destruct (Z.ltb_spec 0 bonus); simpl; f_equal; lia. }
      unfold SellManager.addEarnings in Hsale. rewrite Hsale.
      destruct (IH s2 playerId bonus (e0 + v + Z.max 0 bonus)%Z
                   (p_set_hand h' p) Hp2 Hnd' Hgood')
        as (sold & Hsold & ->).
      exists (c :: sold). split.
      * unfold soldOf in *. simpl in Hsold. rewrite Hsold.
        rewrite (filter_Permutation _ _ _ Hperm), filter_cons.
        rewrite decide_True by (rewrite Hid; by left).
        constructor. apply reflexive_eq, filter_agree.
        intros x Hx. rewrite elem_of_cons.
        assert (card_id x ≠ cardId).
        { intros Heq. apply Hnotin. rewrite Hid, <- Heq.
          by apply list_elem_of_fmap_2. }
        naive_solver.
      * f_equal.
        -- unfold s2.
           rewrite (sold_state_eq s (p_set_hand h') _ playerId [c] sold)
             by done.
           rewrite (updatePlayer_ext
                      (p_set_hand
                         (filter (λ c0, card_id c0 ∉ cardIds)
                                 (p_hand (p_set_hand h' p)))
                       ∘ p_set_hand h')
                      (p_set_hand
                         (filter (λ c0, card_id c0 ∉ cardId :: cardIds)
                                 (p_hand p)))
                      playerId (players s) p Hp); [done|].
           unfold p_set_hand. simpl. f_equal.
           rewrite Hh', list_filter_filter.
           apply filter_agree. intros x _. rewrite not_elem_of_cons.
           naive_solver.
        -- f_equal. simpl.
           change (stockPrices s2) with (stockPrices s).
           unfold GameStateOps.cardValue. simpl.
           rewrite Hv, (proj2 (String.eqb_neq _ _) Hcol). lia.
    + apply (proj1 (removeFirstById_None _ _)) in Hrem.
      destruct (IH s playerId bonus e0 p Hp Hnd Hgood)
        as (sold & Hsold & ->).
      exists sold. split.
      * rewrite Hsold. unfold soldOf. apply reflexive_eq, filter_agree.
        intros x Hx. rewrite elem_of_cons.
        assert (card_id x ≠ cardId).
        { intros Heq. apply Hrem. rewrite <- Heq.
          by apply list_elem_of_fmap_2. }
        naive_solver.
      * f_equal. f_equal. f_equal.
        apply (updatePlayer_ext _ _ _ _ p Hp). f_equal.
        apply filter_agree. intros x Hx. rewrite not_elem_of_cons.
        assert (card_id x ≠ cardId).
        { intros Heq. apply Hrem. rewrite <- Heq.
          by apply list_elem_of_fmap_2. }
        naive_solver.
Qed.

Lemma update_over (s : GameState) (d : Deck) (f g : Player → Player)
      (playerId : string) :
  idPreserving f →
  let s1 := set_resourceDeck
              d (set_players (GameStateOps.updatePlayer f playerId (players s))
                             s) in
  set_players (GameStateOps.updatePlayer g playerId (players s1)) s1
  = set_resourceDeck
      d (set_players (GameStateOps.updatePlayer (g ∘ f) playerId (players s))
                     s).
Proof. intros Hf. simpl. by rewrite updatePlayer_twice. Qed.

(** One turn of the loop of [executeSells], for a player of the game. *)
Lemma sellFor_spec (s : GameState) (playerId : string) (sel : Selection)
      (p : Player) :
  GameStateOps.getPlayer s playerId = Some p →
  NoDup (card_id <$> p_hand p) →
  Forall (sellable (stockPrices s)) (p_hand p) →
  ∃ sold f,
    sold ≡ₚ soldOf (cardsToSell sel) p
    ∧ idPreserving f
    ∧ f p = paid (stockPrices s) (cardsToSell sel) p
    ∧ SellManager.sellFor s (playerId, sel)
      = set_resourceDeck
          (DeckManager.discard (resourceDeck s) sold)
          (set_players (GameStateOps.updatePlayer f playerId (players s)) s).
Proof.
  intros Hp Hnd Hgood. unfold SellManager.sellFor. rewrite Hp.
  destruct (sellCards_spec (cardsToSell sel) s playerId (p_sellBonus p) 0 p
                           Hp Hnd Hgood) as (sold & Hsold & ->).
  assert (He : (0 + GameStateOps.cardValue (stockPrices s) sold
                + Z.of_nat (length sold) * Z.max 0 (p_sellBonus p))%Z
               = earningsOf (stockPrices s) (cardsToSell sel) p).
  { unfold earningsOf.
    by rewrite (cardValue_Permutation _ _ _ Hsold),
         (Permutation_length Hsold). }
  rewrite He. set (e := earningsOf _ _ _).
  set (h := filter _ _).
  exists sold,
    (λ q, p_set_sellBonus
            (Z.min 0 (p_sellBonus p))
            (p_set_cash (if (0 <? e)%Z then Z.max 0 (p_cash p + e)
                         else p_cash p)
                        (p_set_hand h q))).
  split; [done|]. split; [done|]. split; [done|].
  assert (Hcash : GameStateOps.adjustCash e (p_set_hand h p)
                  = p_set_cash (Z.max 0 (p_cash p + e)) (p_set_hand h p)).
  { unfold GameStateOps.adjustCash. simpl.
    destruct (Z.ltb_spec (p_cash p + e) 0); f_equal; lia. }
  destruct (Z.ltb_spec 0 e) as [Hpos|Hle];
    destruct (Z.ltb_spec 0 (p_sellBonus p)) as [Hb|Hb].
  - unfold GameStateOps.adjustPlayerCash.
    rewrite update_over by done. rewrite update_over by done.
    f_equal. f_equal. apply (updatePlayer_ext _ _ _ _ p Hp). simpl.
    rewrite Hcash. rewrite Z.min_l by lia. done.
  - unfold GameStateOps.adjustPlayerCash.
    rewrite update_over by done.
    f_equal. f_equal. apply (updatePlayer_ext _ _ _ _ p Hp). simpl.
    rewrite Hcash. rewrite Z.min_r by lia.
    by destruct p.
  - rewrite update_over by done.
    f_equal. f_equal. apply (updatePlayer_ext _ _ _ _ p Hp). simpl.
    rewrite Z.min_l by lia. by destruct p.
  - f_equal. f_equal. apply (updatePlayer_ext _ _ _ _ p Hp).
    rewrite Z.min_r by lia. by destruct p.
Qed.

Lemma hand_in_hands (s : GameState) (playerId : string) (p : Player) :
  GameStateOps.getPlayer s playerId = Some p →
  ∃ others, handsCards s ≡ₚ p_hand p ++ others.
Proof.
  intros Hp.
  destruct (handsOf_update id playerId (players s) p Hp) as (others & H & _).
  by exists others.
Qed.

Lemma lookupSelection_cons (k : string) (sel : Selection)
      (sels : list (string * Selection)) (playerId : string) :
  lookupSelection ((k, sel) :: sels) playerId
  = if String.eqb k playerId then Some sel
    else lookupSelection sels playerId.
Proof. unfold lookupSelection. simpl. by destruct (String.eqb k playerId). Qed.

Lemma lookupSelection_absent (sels : list (string * Selection))
      (playerId : string) :
  playerId ∉ sels.*1 → lookupSelection sels playerId = None.
Proof.
  induction sels as [|[k sel] sels IH]; [done|].
  rewrite fmap_cons, not_elem_of_cons, lookupSelection_cons. simpl.
  intros [Hne Hnot].
  rewrite (proj2 (String.eqb_neq k playerId)) by congruence. by apply IH.
Qed.

Lemma executeSells_fold (sels : list (string * Selection)) :
  ∀ s : GameState,
    NoDup sels.*1 →
    NoDup (card_id <$> handsCards s) →
    Forall (sellable (stockPrices s)) (handsCards s) →
    let s' := foldl SellManager.sellFor s sels in
    (∀ playerId p,
        GameStateOps.getPlayer s playerId = Some p →
        GameStateOps.getPlayer s' playerId
        = Some match lookupSelection sels playerId with
               | Some sel => paid (stockPrices s) (cardsToSell sel) p
               | None => p
               end)
    ∧ (∃ sold,
          discardPile (resourceDeck s') = discardPile (resourceDeck s) ++ sold
          ∧ handsCards s ≡ₚ handsCards s' ++ sold)
    ∧ drawPile (resourceDeck s') = drawPile (resourceDeck s)
    ∧ stockPrices s' = stockPrices s
    ∧ ids s' = ids s.
Proof.
  induction sels as [|[k sel] sels IH]; intros s Hkeys Hnd Hgood.
  - simpl. split; [done|]. split; [|done].
    exists []. by rewrite !app_nil_r.
  - rewrite fmap_cons in Hkeys. apply NoDup_cons in Hkeys as [Hk Hkeys].
    simpl in Hk. cbn [foldl].
    destruct (GameStateOps.getPlayer s k) as [pk|] eqn:Hpk.
    2:{ assert (Hs1 : SellManager.sellFor s (k, sel) = s)
          by (unfold SellManager.sellFor; by rewrite Hpk).
        rewrite Hs1.
        destruct (IH s Hkeys Hnd Hgood) as (Hplayers & Hrest).
        split; [|done]. intros playerId p Hp.
        rewrite lookupSelection_cons.
        rewrite (proj2 (String.eqb_neq k playerId)) by congruence.
        by apply Hplayers. }
    destruct (hand_in_hands s k pk Hpk) as (others & Hothers).
    assert (Hnd_pk : NoDup (card_id <$> p_hand pk)).
    { rewrite Hothers, fmap_app in Hnd. by apply NoDup_app in Hnd as [? _]. }
    assert (Hgood_pk : Forall (sellable (stockPrices s)) (p_hand pk)).
    { rewrite Hothers in Hgood. by apply Forall_app in Hgood as [? _]. }
    destruct (sellFor_spec s k sel pk Hpk Hnd_pk Hgood_pk)
      as (sold1 & f & Hsold1 & Hf & Hfpk & Hs1).
    set (s1 := SellManager.sellFor s (k, sel)) in *.
    assert (Hprices : stockPrices s1 = stockPrices s) by by rewrite Hs1.
    assert (Hdraw : drawPile (resourceDeck s1) = drawPile (resourceDeck s))
      by by rewrite Hs1.
    assert (Hdiscard : discardPile (resourceDeck s1)
                       = discardPile (resourceDeck s) ++ sold1)
      by by rewrite Hs1.
    assert (Hids : ids s1 = ids s).
    { rewrite Hs1. unfold ids. simpl. by apply updatePlayer_ids. }
    assert (Hhands : handsCards s ≡ₚ handsCards s1 ++ sold1).
    { destruct (handsOf_update f k (players s) pk Hpk)
        as (rest & Hbefore & Hafter).
      unfold handsCards. rewrite Hs1. simpl. rewrite Hbefore, Hafter.
      rewrite Hfpk, Hsold1. unfold paid, soldOf. simpl.
      rewrite <- (filter_app_complement (λ c, card_id c ∈ cardsToSell sel)
                                        (p_hand pk)) at 1.
      rewrite <- !(assoc app).
      rewrite (comm app (filter (λ c, card_id c ∈ cardsToSell sel) _)).
      by rewrite <- !(assoc app). }
    assert (Hown : GameStateOps.getPlayer s1 k
                   = Some (paid (stockPrices s) (cardsToSell sel) pk)).
    { rewrite Hs1. unfold GameStateOps.getPlayer. simpl.
      rewrite find_updatePlayer_eq by done.
      unfold GameStateOps.getPlayer in Hpk. by rewrite Hpk, <- Hfpk. }
    assert (Hother : ∀ playerId, k ≠ playerId →
                       GameStateOps.getPlayer s1 playerId
                       = GameStateOps.getPlayer s playerId).
    { intros playerId Hne. rewrite Hs1. unfold GameStateOps.getPlayer. simpl.
      by rewrite find_updatePlayer_ne. }
    assert (Hnd1 : NoDup (card_id <$> handsCards s1)).
    { rewrite Hhands, fmap_app in Hnd. by apply NoDup_app in Hnd as [? _]. }
    assert (Hgood1 : Forall (sellable (stockPrices s1)) (handsCards s1)).
    { rewrite Hprices. rewrite Hhands in Hgood.
      by apply Forall_app in Hgood as [? _]. }
    destruct (IH s1 Hkeys Hnd1 Hgood1)
      as (Hplayers & (sold & Hpile & Hcards) & Hdraw' & Hprices' & Hids').
    split; [|split; [|split; [|split]]].
    + intros playerId p Hp. rewrite lookupSelection_cons.
      destruct (String.eqb_spec k playerId) as [<-|Hne].
      * rewrite (Hplayers k _ Hown).
        rewrite (lookupSelection_absent sels k Hk). congruence.
      * rewrite <- Hother in Hp by done.
        rewrite (Hplayers playerId p Hp). by rewrite Hprices.
    + exists (sold1 ++ sold). split.
      * by rewrite Hpile, Hdiscard, (assoc app).
      * rewrite Hhands, Hcards. rewrite <- !(assoc app).
        by rewrite (comm app sold1).
    + by rewrite Hdraw'.
    + by rewrite Hprices'.
    + by rewrite Hids'.
Qed.

(** executeSells pays every player for the cards of the own hand that the
    player's selection names: the player loses these cards, gains their
    prices and, for each of them, a positive sell bonus, which is then used
    up.  An id named twice or naming no card of the hand counts nothing.
    The cards sold are what the discard pile gains; players without a
    selection, the draw pile and the prices stay as they are.  This holds
    when the cards in the hands have distinct ids and priced colours. *)
Theorem executeSells_pays (s : GameState) (sl : SellState) :
  NoDup (playerSelections sl).*1 →
  NoDup (card_id <$> handsCards s) →
  Forall (sellable (stockPrices s)) (handsCards s) →
  let s' := SellManager.executeSells s sl in
  (∀ playerId p,
      GameStateOps.getPlayer s playerId = Some p →
      GameStateOps.getPlayer s' playerId
      = Some match lookupSelection (playerSelections sl) playerId with
             | Some sel => paid (stockPrices s) (cardsToSell sel) p
             | None => p
             end)
  ∧ (∃ sold,
        discardPile (resourceDeck s') = discardPile (resourceDeck s) ++ sold
        ∧ handsCards s ≡ₚ handsCards s' ++ sold)
  ∧ drawPile (resourceDeck s') = drawPile (resourceDeck s)
  ∧ stockPrices s' = stockPrices s
  ∧ ids s' = ids s.
Proof. apply executeSells_fold. Qed.

Lemma executeSells_pays_witness :
  let s' := SellManager.executeSells Example.sellState sellOrder in
  (∀ playerId p,
      GameStateOps.getPlayer Example.sellState playerId = Some p →
      GameStateOps.getPlayer s' playerId
      = Some match lookupSelection (playerSelections sellOrder) playerId with
             | Some sel =>
                 paid (stockPrices Example.sellState) (cardsToSell sel) p
             | None => p
             end)
  ∧ (∃ sold,
        discardPile (resourceDeck s')
        = discardPile (resourceDeck Example.sellState) ++ sold
        ∧ handsCards Example.sellState ≡ₚ handsCards s' ++ sold)
  ∧ drawPile (resourceDeck s') = drawPile (resourceDeck Example.sellState)
  ∧ stockPrices s' = stockPrices Example.sellState
  ∧ ids s' = ids Example.sellState.
Proof.
  apply (executeSells_pays Example.sellState sellOrder).
  - apply (bool_decide_unpack _). by vm_compute.
  - apply (bool_decide_unpack _). by vm_compute.
  - unfold sellable. apply (bool_decide_unpack _). by vm_compute.
Defined.

(** ** What the engine functions leave alone

    [proj] is any view of the state that does not look at the fields the
    functions below write to; they leave such a view as it is. *)

Section Blind.

Context {A : Type} (proj : GameState → A).

Hypothesis blind_players : ∀ ps s, proj (set_players ps s) = proj s.
Hypothesis blind_stockPrices : ∀ pr s, proj (set_stockPrices pr s) = proj s.
Hypothesis blind_resourceDeck : ∀ d s, proj (set_resourceDeck d s) = proj s.
Hypothesis blind_auction : ∀ a s, proj (set_auction a s) = proj s.
Hypothesis blind_trading : ∀ t s, proj (set_trading t s) = proj s.
Hypothesis blind_goalResolution :
  ∀ g s, proj (set_goalResolution g s) = proj s.
Hypothesis blind_sell : ∀ x s, proj (set_sell x s) = proj s.
Hypothesis blind_dealerIndex : ∀ d s, proj (set_dealerIndex d s) = proj s.
Hypothesis blind_currentPhase :
  ∀ ph s, proj (set_currentPhase ph s) = proj s.
Hypothesis blind_goalDeck : ∀ gd s, proj (set_goalDeck gd s) = proj s.

Ltac blind :=
  repeat first
    [ progress rewrite ?blind_players, ?blind_stockPrices,
        ?blind_resourceDeck, ?blind_auction, ?blind_trading,
        ?blind_goalResolution, ?blind_dealerIndex
    | done
    | case_match
    | progress simpl ].

Lemma after_same_bind (o : Outcome) (k : GameState → Outcome)
      (s : GameState) :
  after o (λ s', proj s' = proj s) →
  (∀ s1, after (k s1) (λ s', proj s' = proj s1)) →
  after (let* s1 := o in k s1) (λ s', proj s' = proj s).
Proof.
  intros Ho Hk. destruct o as [s1|s1|]; simpl in *; [|done|done].
  rewrite <- Ho. apply Hk.
Qed.

Lemma adjustPlayerCash_blind (s : GameState) (playerId : string)
      (amount : Z) :
  proj (GameStateOps.adjustPlayerCash s playerId amount) = proj s.
Proof. unfold GameStateOps.adjustPlayerCash. blind. Qed.

Lemma addCardToHand_blind (s : GameState) (playerId : string) (card : Card) :
  proj (GameStateOps.addCardToHand s playerId card) = proj s.
Proof. unfold GameStateOps.addCardToHand. blind. Qed.

Lemma removeCardFromHand_blind (s : GameState) (playerId cardId : string) :
  proj (GameStateOps.removeCardFromHand s playerId cardId).2 = proj s.
Proof. unfold GameStateOps.removeCardFromHand. blind. Qed.

Lemma removeCardsByColor_blind (s : GameState) (playerId color : string)
      (count : nat) :
  proj (GameStateOps.removeCardsByColor s playerId color count).2 = proj s.
Proof. unfold GameStateOps.removeCardsByColor. blind. Qed.

(** *** AuctionManager *)

Lemma initializeAuction_blind (s : GameState) :
  proj (AuctionManager.initializeAuction s) = proj s.
Proof. unfold AuctionManager.initializeAuction. blind. Qed.

Lemma placeBid_blind (s : GameState) (playerId : string) (amount : Z) :
  after (AuctionManager.placeBid s playerId amount)
        (λ s', proj s' = proj s).
Proof. unfold AuctionManager.placeBid. blind. Qed.

Lemma moveToNextCard_blind (s : GameState) (a : AuctionState) :
  proj (AuctionManager.moveToNextCard s a) = proj s.
Proof. unfold AuctionManager.moveToNextCard. blind. Qed.

Lemma completeCurrentCardAuction_blind (s : GameState) (a : AuctionState) :
  after (AuctionManager.completeCurrentCardAuction s a)
        (λ s', proj s' = proj s).
Proof.
  unfold AuctionManager.completeCurrentCardAuction.
  repeat case_match; simpl; try done.
  by rewrite moveToNextCard_blind, addCardToHand_blind,
       adjustPlayerCash_blind.
Qed.

Lemma pass_blind (s : GameState) (playerId : string) :
  after (AuctionManager.pass s playerId) (λ s', proj s' = proj s).
Proof.
  unfold AuctionManager.pass.
  destruct (auction (phaseState s)) as [a0|]; [|done].
  set (a := a_set_activeBidders _ _).
  destruct (length (activeBidders a) =? 1).
  { rewrite <- (blind_auction (Some a) s).
    apply completeCurrentCardAuction_blind. }
  destruct (length (activeBidders a) =? 0).
  { destruct (currentCard a); [|done]. simpl.
    by rewrite moveToNextCard_blind, blind_resourceDeck, blind_auction. }
  destruct (_ && _).
  - rewrite <- (blind_auction (Some a) s).
    rewrite <- (blind_auction
                  (Some (AuctionManager.advanceToNextActiveBidder
                           (set_auction (Some a) s) a))
                  (set_auction (Some a) s)).
    apply completeCurrentCardAuction_blind.
  - simpl. by rewrite !blind_auction.
Qed.

(** *** TradingManager *)

Lemma set_offers_blind (offers : list Offer) (s : GameState) :
  proj (TradingManager.set_offers offers s) = proj s.
Proof. unfold TradingManager.set_offers. blind. Qed.

Lemma proposeTrade_blind (uuid : string) (s : GameState) (playerId : string)
      (offering : option Offering) (requesting : option Requesting) :
  after (TradingManager.proposeTrade uuid s playerId offering requesting)
        (λ s', proj s' = proj s).
Proof. unfold TradingManager.proposeTrade. blind. Qed.

Lemma transferOffered_blind (cardIds : list string) :
  ∀ (s : GameState) (from to : string),
    proj (TradingManager.transferOffered s from to cardIds) = proj s.
Proof.
  induction cardIds as [|cardId cardIds IH]; intros s from to; [done|].
  simpl. pose proof (removeCardFromHand_blind s from cardId) as Hrem.
  destruct (GameStateOps.removeCardFromHand s from cardId) as [[card|] s1];
    simpl in Hrem; rewrite IH; [|done].
  by rewrite addCardToHand_blind.
Qed.

Lemma addCards_blind (cards : list Card) :
  ∀ (s : GameState) (to : string),
    proj (foldl (λ st card, GameStateOps.addCardToHand st to card) s cards)
    = proj s.
Proof.
  induction cards as [|c cards IH]; intros s to; [done|].
  simpl. by rewrite IH, addCardToHand_blind.
Qed.

Lemma transferRequested_blind (reqs : list (string * nat)) :
  ∀ (s : GameState) (from to : string),
    proj (TradingManager.transferRequested s from to reqs) = proj s.
Proof.
  induction reqs as [|[color count] reqs IH]; intros s from to; [done|].
  simpl. pose proof (removeCardsByColor_blind s from color count) as Hrem.
  destruct (GameStateOps.removeCardsByColor s from color count)
    as [cards s1].
  simpl in Hrem. by rewrite IH, addCards_blind.
Qed.

Lemma cashLeg_blind (s : GameState) (from to : string) (amount : Z) :
  after (TradingManager.cashLeg s from to amount) (λ s', proj s' = proj s).
Proof.
  unfold TradingManager.cashLeg.
  repeat case_match; simpl; try done;
    by rewrite !adjustPlayerCash_blind.
Qed.

Lemma executeTrade_blind (s : GameState) (offer : Offer)
      (acceptingPlayer : string) :
  after (TradingManager.executeTrade s offer acceptingPlayer)
        (λ s', proj s' = proj s).
Proof.
  unfold TradingManager.executeTrade.
  apply after_same_bind; [|intros s1; apply cashLeg_blind].
  rewrite <- (transferOffered_blind (of_cards (offering offer)) s
                (offeringPlayer offer) acceptingPlayer).
  rewrite <- (transferRequested_blind
                (rq_cards (requesting offer))
                (TradingManager.transferOffered _ _ _ _)
                acceptingPlayer (offeringPlayer offer)).
  apply cashLeg_blind.
Qed.

Lemma cancelTrade_blind (s : GameState) (id : string) :
  after (TradingManager.cancelTrade s id) (λ s', proj s' = proj s).
Proof.
  unfold TradingManager.cancelTrade.
  repeat case_match; simpl; try done. by rewrite set_offers_blind.
Qed.

Lemma autoCancelInvalidOffers_blind (s : GameState) (playerId : string) :
  after (TradingManager.autoCancelInvalidOffers s playerId)
        (λ s', proj s' = proj s).
Proof.
  unfold TradingManager.autoCancelInvalidOffers.
  repeat case_match; simpl; try done. by rewrite set_offers_blind.
Qed.

Lemma acceptTrade_blind (s : GameState) (playerId id : string) :
  after (TradingManager.acceptTrade s playerId id) (λ s', proj s' = proj s).
Proof.
  unfold TradingManager.acceptTrade.
  destruct (trading (phaseState s)) as [t|]; [|done].
  destruct (findOffer (activeOffers t) id) as [offer|]; [|done].
  destruct (negb _); [done|].
  apply after_same_bind.
  - rewrite <- (set_offers_blind
                  (TradingManager.markOffer ACCEPTED id (activeOffers t)) s).
    apply executeTrade_blind.
  - intros s1. apply after_same_bind.
    + apply autoCancelInvalidOffers_blind.
    + intros s2. apply autoCancelInvalidOffers_blind.
Qed.

(** *** RewardSystem *)

Lemma takeFromDrawPile_blind (s s1 : GameState) (playerId color : string) :
  RewardSystem.takeFromDrawPile s playerId color = Some s1 →
  proj s1 = proj s.
Proof.
  unfold RewardSystem.takeFromDrawPile.
  destruct (RewardSystem.removeFirstByColor _ _) as [[card rest]|]; [|done].
  intros [= <-]. by rewrite addCardToHand_blind, blind_resourceDeck.
Qed.

Lemma RewardSystem_executeReward_blind (sps : StockPriceSystem) (env : Env)
      (s : GameState) (playerId : string) (rewardParsed : RewardParsed)
      (choices : option Choices) (ran : Outcome) :
  RewardSystem.executeReward sps env s playerId rewardParsed choices
  = Some ran →
  after ran (λ s', proj s' = proj s).
Proof.
  unfold RewardSystem.executeReward.
  destruct (_ && _); [done|]. intros [= <-].
  destruct (rw_type rewardParsed); destruct choices as [ch|]; try done.
  all: try (unfold RewardSystem.executeGainCash;
            destruct (GameStateOps.getPlayer _ _); simpl;
            by rewrite adjustPlayerCash_blind).
  all: try (unfold RewardSystem.executeSellBonus;
            destruct (GameStateOps.getPlayer _ _); simpl; [|done];
            by rewrite blind_players).
  all: try (unfold RewardSystem.executeGainLowestStock;
            destruct (_ !! _); [|done];
            destruct (RewardSystem.takeFromDrawPile _ _ _) eqn:Htake;
            [|done]; simpl; by apply takeFromDrawPile_blind in Htake).
  - unfold RewardSystem.executeStealCash.
    repeat case_match; simpl; try done;
      by rewrite !adjustPlayerCash_blind.
  - unfold RewardSystem.executeAdjustStock. simpl.
    by rewrite blind_stockPrices.
  - unfold RewardSystem.executeLookAtHand. by repeat case_match.
  - unfold RewardSystem.executePeekAndPlace.
    repeat case_match; simpl; try done; by rewrite blind_resourceDeck.
  - unfold RewardSystem.executeSwapWithDeck.
    pose proof (removeCardFromHand_blind s playerId (ch_cardId ch)) as Hrem.
    destruct (GameStateOps.removeCardFromHand s playerId (ch_cardId ch))
      as [[card|] s1]; simpl in Hrem; [|done].
    destruct (DeckManager.swapWithTop _ _) as [?|[topCard deck]]; simpl.
    + by rewrite addCardToHand_blind.
    + by rewrite addCardToHand_blind, blind_resourceDeck.
  - unfold RewardSystem.executeRearrangeTop5. simpl.
    by rewrite blind_resourceDeck.
  - unfold RewardSystem.executeTakeAndGiveCard.
    destruct (GameStateOps.getPlayer s _) as [target|]; [|done].
    destruct (_ !! _) as [takenCard|]; [|done].
    set (s1 := (GameStateOps.removeCardFromHand s _ _).2).
    set (s2 := GameStateOps.addCardToHand s1 playerId takenCard).
    assert (H2 : proj s2 = proj s).
    { unfold s2, s1.
      by rewrite addCardToHand_blind, removeCardFromHand_blind. }
    pose proof (removeCardFromHand_blind s2 playerId (ch_cardIdToGive ch))
      as Hrem.
    destruct (GameStateOps.removeCardFromHand s2 playerId _)
      as [[cardToGive|] s3]; simpl in *.
    + by rewrite addCardToHand_blind, Hrem.
    + by rewrite Hrem.
  - unfold RewardSystem.executeBuyWithDiscount.
    destruct (GameStateOps.getPlayer s playerId) as [player|]; [|done].
    destruct (stockPrices s !! ch_color ch) as [price|].
    + destruct (_ <? _)%Z; [done|].
      destruct (RewardSystem.takeFromDrawPile _ _ _) eqn:Htake; [|done].
      simpl. rewrite adjustPlayerCash_blind.
      by apply takeFromDrawPile_blind in Htake.
    + by destruct (RewardSystem.removeFirstByColor _ _).
Qed.

(** *** GoalResolutionManager *)

Lemma advanceToNextPlayer_blind (s : GameState) :
  after (GoalResolutionManager.advanceToNextPlayer s)
        (λ s', proj s' = proj s).
Proof. unfold GoalResolutionManager.advanceToNextPlayer. blind. Qed.

Lemma completeRewardExecution_blind (s : GameState) (playerId : string) :
  after (GoalResolutionManager.completeRewardExecution s playerId)
        (λ s', proj s' = proj s).
Proof.
  unfold GoalResolutionManager.completeRewardExecution.
  destruct (goalResolution (phaseState s)) as [gr|]; [|done].
  rewrite <- (blind_goalResolution
                (Some {| gr_currentPlayerIndex := gr_currentPlayerIndex gr;
                         revealedGoals :=
                           GoalResolutionManager.markExecuted
                             playerId (revealedGoals gr);
                         pendingRewardExecution := None |}) s).
  apply advanceToNextPlayer_blind.
Qed.

Lemma initiateRewardExecution_blind (sps : StockPriceSystem) (env : Env)
      (s : GameState) (playerId : string) (goalCard : GoalCard) :
  after (GoalResolutionManager.initiateRewardExecution sps env s playerId
                                                       goalCard)
        (λ s', proj s' = proj s).
Proof.
  unfold GoalResolutionManager.initiateRewardExecution.
  destruct (RewardSystem.executeReward _ _ _ _ _ _) as [ran|] eqn:Hran.
  - apply after_same_bind.
    + by apply RewardSystem_executeReward_blind in Hran.
    + intros s1. apply completeRewardExecution_blind.
  - destruct (goalResolution (phaseState s)); [|done]. simpl.
    by rewrite blind_goalResolution.
Qed.

Lemma applyStockChange_blind (sps : StockPriceSystem) (s : GameState)
      (goalCard : GoalCard) :
  proj (GoalResolutionManager.applyStockChange sps s goalCard) = proj s.
Proof. unfold GoalResolutionManager.applyStockChange. blind. Qed.

Lemma revealGoal_blind (sps : StockPriceSystem) (env : Env) (s : GameState)
      (playerId goalCardId : string) :
  after (GoalResolutionManager.revealGoal sps env s playerId goalCardId)
        (λ s', proj s' = proj s).
Proof.
  unfold GoalResolutionManager.revealGoal.
  destruct (GameStateOps.getPlayer s playerId) as [player|]; [|done].
  destruct (GoalResolutionManager.findGoal _ _) as [card|]; [|done].
  set (s2 := GoalResolutionManager.applyStockChange _ _ _).
  assert (H2 : proj s2 = proj s).
  { unfold s2. by rewrite applyStockChange_blind, blind_players. }
  destruct (goalResolution (phaseState s2)) as [gr|]; [|done].
  set (s3 := set_goalResolution _ s2).
  assert (H3 : proj s3 = proj s)
    by (unfold s3; by rewrite blind_goalResolution).
  rewrite <- H3.
  destruct (GoalParser.checkGoal _ _).
  - apply initiateRewardExecution_blind.
  - apply advanceToNextPlayer_blind.
Qed.

Lemma GoalResolutionManager_executeReward_blind (sps : StockPriceSystem)
      (env : Env) (s : GameState) (playerId : string)
      (choices : option Choices) :
  after (GoalResolutionManager.executeReward sps env s playerId choices)
        (λ s', proj s' = proj s).
Proof.
  unfold GoalResolutionManager.executeReward.
  destruct (goalResolution (phaseState s)) as [gr|]; [|done].
  destruct (pendingRewardExecution gr) as [pending|]; [|done].
  destruct (RewardSystem.executeReward _ _ _ _ _ _) as [ran|] eqn:Hran;
    [|done].
  apply after_same_bind.
  - by apply RewardSystem_executeReward_blind in Hran.
  - intros s1. apply completeRewardExecution_blind.
Qed.

(** *** SellManager *)

Lemma sellCards_blind (cardIds : list string) :
  ∀ (s : GameState) (playerId : string) (sellBonus : Z)
    (earnings : option Z),
    proj (SellManager.sellCards s playerId sellBonus cardIds earnings).1
    = proj s.
Proof.
  induction cardIds as [|cardId cardIds IH];
    intros s playerId sellBonus earnings; [done|].
  simpl. pose proof (removeCardFromHand_blind s playerId cardId) as Hrem.
  destruct (GameStateOps.removeCardFromHand s playerId cardId)
    as [[card|] s1]; simpl in Hrem.
  - destruct (String.eqb _ _); rewrite IH; by rewrite ?blind_resourceDeck.
  - by rewrite IH.
Qed.

Lemma sellFor_blind (s : GameState) (entry : string * Selection) :
  proj (SellManager.sellFor s entry) = proj s.
Proof.
  destruct entry as [playerId selection]. unfold SellManager.sellFor.
  destruct (GameStateOps.getPlayer s playerId) as [player|]; [|done].
  pose proof (sellCards_blind (cardsToSell selection) s playerId
                              (p_sellBonus player) (Some 0%Z)) as Hsell.
  destruct (SellManager.sellCards _ _ _ _ _) as [s1 earnings].
  simpl in Hsell.
  repeat case_match; rewrite ?blind_players, ?adjustPlayerCash_blind; done.
Qed.

Lemma executeSells_blind (s : GameState) (sl : SellState) :
  proj (SellManager.executeSells s sl) = proj s.
Proof.
  unfold SellManager.executeSells. revert s.
  induction (playerSelections sl) as [|entry sels IH]; intros s; [done|].
  simpl. by rewrite IH, sellFor_blind.
Qed.

Lemma selectCardsToSell_blind (s : GameState) (playerId : string)
      (cardIds : option (list string)) :
  after (SellManager.selectCardsToSell s playerId cardIds)
        (λ s', proj s' = proj s).
Proof.
  unfold SellManager.selectCardsToSell.
  repeat case_match; simpl; by rewrite ?blind_sell.
Qed.

Lemma commitSell_blind (s : GameState) (playerId : string) :
  after (SellManager.commitSell s playerId) (λ s', proj s' = proj s).
Proof.
  unfold SellManager.commitSell.
  repeat case_match; simpl; try done;
    by rewrite ?executeSells_blind, blind_sell.
Qed.

(** *** TurnSystem *)

Lemma transitionToPhase_blind (s : GameState) (phase : Phase) :
  proj (TurnSystem.transitionToPhase s phase) = proj s.
Proof.
  unfold TurnSystem.transitionToPhase.
  assert (Hclean : ∀ ph, proj (TurnSystem.cleanupPhase s ph) = proj s).
  { intros [[]|]; simpl; by rewrite ?blind_auction, ?blind_trading,
                               ?blind_sell. }
  destruct phase; simpl.
  - by rewrite initializeAuction_blind, blind_currentPhase.
  - unfold TradingManager.initializeTrading.
    by rewrite blind_trading, blind_currentPhase.
  - unfold GoalResolutionManager.initializeGoalResolution.
    by rewrite blind_goalResolution, blind_currentPhase.
  - unfold SellManager.initializeSell.
    by rewrite blind_sell, blind_currentPhase.
Qed.

Lemma manuallyEndPhase_blind (s : GameState) :
  proj (TurnSystem.manuallyEndPhase s) = proj s.
Proof.
  unfold TurnSystem.manuallyEndPhase. case_bool_decide as Hph; [|done].
  unfold TurnSystem.advancePhase. rewrite Hph.
  cbn [TurnSystem.getNextPhase]. apply transitionToPhase_blind.
Qed.

Lemma dispatchAction_blind (env : Env) (s : GameState) (a : Action) :
  after (GameEngine.dispatchAction env s a) (λ s', proj s' = proj s).
Proof.
  destruct a as [playerId amount|playerId|playerId offer request
                |playerId id|playerId id|playerId|playerId goalCardId
                |playerId choices|playerId cardIds|playerId]; simpl.
  - apply placeBid_blind.
  - apply pass_blind.
  - apply proposeTrade_blind.
  - apply acceptTrade_blind.
  - apply cancelTrade_blind.
  - apply manuallyEndPhase_blind.
  - apply revealGoal_blind.
  - apply GoalResolutionManager_executeReward_blind.
  - apply selectCardsToSell_blind.
  - apply commitSell_blind.
Qed.

(** *** Setup *)

Lemma dealGoalsTo_blind (n : nat) (playerId : string) :
  ∀ s : GameState, proj (GameEngine.dealGoalsTo n playerId s) = proj s.
Proof.
  induction n as [|n IH]; intros s; [done|]. simpl.
  destruct (goalDeck_undealt s) as [|goalCard rest]; [apply IH|].
  rewrite IH. unfold GameStateOps.addGoalCard.
  by rewrite blind_players, blind_goalDeck.
Qed.

Lemma dealInitialCards_blind (s : GameState) :
  proj (GameEngine.dealInitialCards s) = proj s.
Proof.
  unfold GameEngine.dealInitialCards.
  destruct (GameEngine.dealResources _ _ _) as [ps deck].
  set (s1 := set_resourceDeck deck (set_players ps s)).
  assert (H1 : proj s1 = proj s)
    by (unfold s1; by rewrite blind_resourceDeck, blind_players).
  rewrite <- H1. generalize (p_id <$> players s1). clear H1.
  generalize s1. clear s1. intros s1 l. revert s1.
  induction l as [|playerId l IH]; intros s1; [done|].
  simpl. by rewrite IH, dealGoalsTo_blind.
Qed.

Lemma initialize_blind (cfg : Config) (infos : list PlayerInfo)
      (resourceCards : list Card) (goalCards : list GoalCard)
      (s : GameState) :
  GameEngine.initialize cfg infos resourceCards goalCards = Some s →
  proj s = proj (GameEngine.createInitialState cfg infos).
Proof.
  unfold GameEngine.initialize.
  destruct (_ <? _); [done|]. intros [= <-].
  by rewrite dealInitialCards_blind, blind_goalDeck, blind_resourceDeck.
Qed.

End Blind.

(** ** The course of a game: log, rounds and end *)

Lemma book_fields (s s' : GameState) :
  book s' = book s →
  status s' = status s ∧ currentRound s' = currentRound s
  ∧ config s' = config s ∧ gameId s' = gameId s
  ∧ turnOrder s' = turnOrder s ∧ history s' = history s.
Proof. unfold book. intros [= -> -> -> -> -> ->]. done. Qed.

Lemma dispatchAction_book (env : Env) (s : GameState) (a : Action) :
  after (GameEngine.dispatchAction env s a) (λ s', book s' = book s).
Proof. by apply dispatchAction_blind. Qed.

Lemma transitionToPhase_book (s : GameState) (phase : Phase) :
  book (TurnSystem.transitionToPhase s phase) = book s.
Proof. by apply transitionToPhase_blind. Qed.

Lemma transitionToPhase_phase (s : GameState) (phase : Phase) :
  currentPhase (TurnSystem.transitionToPhase s phase) = Some phase.
Proof.
  unfold TurnSystem.transitionToPhase.
  by destruct phase.
Qed.

(** What [advancePhase] does to the round and the status. *)
Lemma advancePhase_course (s : GameState) :
  let s' := TurnSystem.advancePhase s in
  config s' = config s ∧ gameId s' = gameId s
  ∧ turnOrder s' = turnOrder s ∧ history s' = history s
  ∧ (status s' = status s ∧ currentRound s' = currentRound s
     ∧ TurnSystem.getNextPhase (currentPhase s) = currentPhase s'
     ∧ is_Some (currentPhase s')
     ∨ status s' = status s ∧ currentRound s' = S (currentRound s)
       ∧ TurnSystem.getNextPhase (currentPhase s) = None
       ∧ currentRound s < totalRounds (config s)
       ∧ currentPhase s' = Some AUCTION
     ∨ s' = set_status COMPLETED s
       ∧ TurnSystem.getNextPhase (currentPhase s) = None
       ∧ totalRounds (config s) ≤ currentRound s).
Proof.
  unfold TurnSystem.advancePhase.
  destruct (TurnSystem.getNextPhase (currentPhase s)) as [next|] eqn:Hnext.
  - destruct (book_fields _ _ (transitionToPhase_book s next))
      as (-> & -> & -> & -> & -> & ->).
    repeat split; try done. left.
    rewrite transitionToPhase_phase. by eauto.
  - unfold TurnSystem.completeRound.
    destruct (Nat.ltb_spec (currentRound s) (totalRounds (config s)))
      as [Hlt|Hge].
    + destruct (book_fields _ _ (transitionToPhase_book
                                   (GameStateOps.advanceRound s) AUCTION))
        as (-> & -> & -> & -> & -> & ->).
      repeat split; try done. right. left.
      by rewrite transitionToPhase_phase.
    + repeat split; try done. right. right. done.
Qed.

(** One engine call: the action is logged, and the round and the status
    move as [advancePhase] moves them. *)
Lemma executeAction_course (env : Env) (s : GameState) (a : Action)
      (o : Outcome) :
  GameEngine.executeAction env s a = Ran o →
  after o (λ s',
    history s' = history s ++ [entryFor s a]
    ∧ config s' = config s ∧ gameId s' = gameId s
    ∧ turnOrder s' = turnOrder s
    ∧ (status s' = status s ∧ currentRound s' = currentRound s
       ∨ status s' = status s ∧ currentRound s' = S (currentRound s)
         ∧ currentRound s < totalRounds (config s)
         ∧ currentPhase s' = Some AUCTION
       ∨ status s' = COMPLETED ∧ currentRound s' = currentRound s
         ∧ totalRounds (config s) ≤ currentRound s
         ∧ finalSell s')).
Proof.
  intros [_ ->]%executeAction_Ran.
  pose proof (dispatchAction_book env (GameStateOps.recordAction s a) a)
    as Hmid.
  destruct (GameEngine.dispatchAction env _ a) as [s1|s1|]; simpl in *;
    [| |done].
  - apply book_fields in Hmid as (Hst & Hround & Hcfg & Hid & Hord & Hhist).
    simpl in *.
    destruct (TurnSystem.canAdvancePhase s1) as [[]|] eqn:Hcan; simpl.
    + destruct (advancePhase_course s1)
        as (Hcfg' & Hid' & Hord' & Hhist' & Hcases).
      rewrite Hcfg', Hid', Hord', Hhist'.
      repeat split; try done.
      destruct Hcases as [(-> & -> & _)|[(-> & -> & _ & Hlt & Hph)
                                        |(-> & Hnext & Hge)]].
      * by left.
      * right. left. rewrite <- Hcfg, <- Hround. done.
      * right. right. simpl. rewrite <- Hcfg, <- Hround.
        repeat split; try done.
        -- unfold TurnSystem.canAdvancePhase in Hcan. simpl.
           by destruct (currentPhase s1) as [[]|].
        -- unfold TurnSystem.canAdvancePhase in Hcan.
           unfold SellManager.areAllCommitted in *. simpl.
           destruct (currentPhase s1) as [[]|]; try done.
           by injection Hcan.
    + repeat split; try done. by left.
    + repeat split; try done. by left.
  - apply book_fields in Hmid as (Hst & Hround & Hcfg & Hid & Hord & Hhist).
    simpl in *. repeat split; try done. by left.
Qed.

(** The log of the engine: every action of the ten action types that
    passes validation is appended to the history, with the round and the
    phase in which it was submitted, whether the call returns or throws
    later on; nothing else is written to the history, and the game id, the
    configuration and the turn order stay.  So the history of a run lists the actions of the
    run in order, and the history of an earlier state is a prefix of the
    history of every later state.  (The time stamp of an entry is not
    modelled.) *)
Theorem executed_actions_logged :
  (∀ env s a s',
      GameEngine.executeAction env s a = Ran (Done s')
      ∨ GameEngine.executeAction env s a = Ran (Threw s') →
      history s' = history s ++ [{| h_round := currentRound s;
                                    h_phase := currentPhase s;
                                    h_action := a |}]
      ∧ gameId s' = gameId s ∧ config s' = config s
      ∧ turnOrder s' = turnOrder s)
  ∧ (∀ env s actions s',
        runActions env s actions = Some s' →
        h_action <$> history s' = (h_action <$> history s) ++ actions)
  ∧ (∀ s s', reachableWith anyAction s s' → history s `prefix_of` history s').
Proof.
  assert (Hstep : ∀ env s a s',
             GameEngine.executeAction env s a = Ran (Done s')
             ∨ GameEngine.executeAction env s a = Ran (Threw s') →
             history s' = history s ++ [entryFor s a]
             ∧ gameId s' = gameId s ∧ config s' = config s
             ∧ turnOrder s' = turnOrder s).
  { intros env s a s' [Hrun|Hrun];
      pose proof (executeAction_course _ _ _ _ Hrun) as H; simpl in H;
      by destruct H as (? & ? & ? & ? & _). }
  split; [exact Hstep|]. split.
  - intros env s actions. revert s.
    induction actions as [|a actions IH]; intros s s'; simpl.
    + intros [= <-]. by rewrite app_nil_r.
    + destruct (GameEngine.executeAction env s a) as [e|[s1|s1|]] eqn:Hrun;
        try done.
      intros Hrest. rewrite (IH s1 s' Hrest).
      destruct (Hstep env s a s1 (or_introl Hrun)) as (-> & _).
      rewrite fmap_app. simpl. by rewrite <- (assoc app).
  - intros s s' Hreach.
    induction Hreach as [s|s1 s2 s3 Hstep' _ IH]; [done|].
    destruct Hstep' as (env & a & _ & Hrun).
    destruct (Hstep env s1 a s2 Hrun) as (Hhist & _).
    etrans; [|exact IH]. rewrite Hhist. by apply prefix_app_r.
Qed.

(** *** The sell phase at the end *)

Lemma valid_in_sell (s : GameState) (a : Action) :
  currentPhase s = Some SELL →
  ValidationSystem.validateAction s a = Valid →
  (∃ playerId cardIds, a = SELECT_CARDS_TO_SELL playerId cardIds)
  ∨ (∃ playerId, a = END_TRADING playerId)
  ∨ (∃ playerId sl sel,
        a = COMMIT_SELL playerId
        ∧ sell (phaseState s) = Some sl
        ∧ lookupSelection (playerSelections sl) playerId = Some sel
        ∧ committed sel = false).
Proof.
  intros Hph.
  destruct a as [playerId amount|playerId|playerId offer request
                |playerId id|playerId id|playerId|playerId goalCardId
                |playerId choices|playerId cardIds|playerId]; simpl.
  - unfold ValidationSystem.validateBid. rewrite Hph.
    by rewrite bool_decide_eq_false_2.
  - unfold ValidationSystem.validatePass. rewrite Hph.
    by rewrite bool_decide_eq_false_2.
  - unfold ValidationSystem.validateTradeProposal. rewrite Hph.
    by rewrite bool_decide_eq_false_2.
  - unfold ValidationSystem.validateTradeAcceptance. rewrite Hph.
    by rewrite bool_decide_eq_false_2.
  - unfold ValidationSystem.validateTradeCancellation. rewrite Hph.
    by rewrite bool_decide_eq_false_2.
  - intros _. right. left. by eauto.
  - unfold ValidationSystem.validateGoalReveal. rewrite Hph.
    by rewrite bool_decide_eq_false_2.
  - unfold ValidationSystem.validateRewardExecution. rewrite Hph.
    by rewrite bool_decide_eq_false_2.
  - intros _. left. by eauto.
  - unfold ValidationSystem.validateSellCommit. rewrite Hph.
    rewrite bool_decide_eq_true_2 by done. simpl.
    destruct (sell (phaseState s)) as [sl|]; [|done].
    destruct (lookupSelection _ _) as [sel|] eqn:Hsel; [|done].
    destruct (committed sel) eqn:Hc; [done|]. intros _.
    right. right. exists playerId, sl, sel. done.
Qed.

Lemma lookupSelection_Forall (Q : Selection → Prop)
      (sels : list (string * Selection)) (playerId : string)
      (sel : Selection) :
  Forall (λ kv, Q kv.2) sels →
  lookupSelection sels playerId = Some sel → Q sel.
Proof.
  induction sels as [|[k x] sels IH]; [done|].
  rewrite Forall_cons, lookupSelection_cons. simpl. intros [Hx Hrest].
  destruct (String.eqb k playerId); [by intros [= <-]|by apply IH].
Qed.

Lemma Forall_alist_set (Q : Selection → Prop) (key : string) (v : Selection)
      (sels : list (string * Selection)) :
  Forall (λ kv, Q kv.2) sels → Q v →
  Forall (λ kv, Q kv.2) (alist_set key v sels).
Proof.
  intros Hall Hv. induction sels as [|[k x] sels IH]; simpl.
  - by constructor.
  - apply Forall_cons in Hall as [Hx Hrest].
    destruct (String.eqb k key); constructor; auto.
Qed.

Lemma finalSell_sell (s : GameState) :
  finalSell s →
  currentPhase s = Some SELL
  ∧ ∃ sl, sell (phaseState s) = Some sl ∧ allCommitted sl = true.
Proof.
  intros [Hph Hall]. split; [done|].
  unfold SellManager.areAllCommitted in Hall.
  destruct (sell (phaseState s)) as [sl|]; [|done]. by exists sl.
Qed.

(** An engine call on a completed game. *)
Lemma executeAction_over (env : Env) (s : GameState) (a : Action)
      (o : Outcome) :
  totalRounds (config s) ≤ currentRound s →
  finalSell s → sellSound s →
  GameEngine.executeAction env s a = Ran o →
  settles o (λ s',
    status s' = COMPLETED ∧ finalSell s' ∧ sellSound s'
    ∧ currentRound s' = currentRound s ∧ config s' = config s
    ∧ players s' = players s ∧ stockPrices s' = stockPrices s
    ∧ resourceDeck s' = resourceDeck s).
Proof.
  intros Hge Hfinal Hsound [Hv ->]%executeAction_Ran.
  pose proof Hfinal as (Hph & sl & Hsell & Hall)%finalSell_sell.
  pose proof (Hsound sl Hsell Hall) as Hcommitted.
  assert (Hend : ∀ s1,
             finalSell s1 → sellSound s1 →
             currentRound s1 = currentRound s → config s1 = config s →
             players s1 = players s → stockPrices s1 = stockPrices s →
             resourceDeck s1 = resourceDeck s →
             settles
               match TurnSystem.canAdvancePhase s1 with
               | Some true => Done (TurnSystem.advancePhase s1)
               | Some false => Done s1
               | None => Threw s1
               end
               (λ s', status s' = COMPLETED ∧ finalSell s' ∧ sellSound s'
                      ∧ currentRound s' = currentRound s
                      ∧ config s' = config s
                      ∧ players s' = players s
                      ∧ stockPrices s' = stockPrices s
                      ∧ resourceDeck s' = resourceDeck s)).
  { intros s1 Hfinal1 Hsound1 Hround Hcfg Hps Hprices Hdeck.
    pose proof Hfinal1 as [Hph1 Hall1].
    unfold TurnSystem.canAdvancePhase. rewrite Hph1, Hall1. simpl.
    destruct (advancePhase_course s1)
      as (_ & _ & _ & _ & [(_ & _ & Hnext & Hsome)
                          |[(_ & _ & _ & Hlt & _)|(-> & _ & _)]]).
    - rewrite Hph1 in Hnext. simpl in Hnext. rewrite <- Hnext in Hsome.
      by destruct Hsome.
    - rewrite Hcfg, Hround in Hlt. lia.
    - done. }
  destruct (valid_in_sell s a Hph Hv)
    as [(playerId & cardIds & ->)|[(playerId & ->)
       |(playerId & sl' & sel & -> & Hsell' & Hsel & Hc)]].
  - simpl. unfold SellManager.selectCardsToSell. simpl. rewrite Hsell.
    destruct (lookupSelection _ _) as [sel|] eqn:Hsel; simpl.
    + apply Hend; try done.
      intros sl1. simpl. intros [= <-] _. simpl.
      apply (Forall_alist_set (λ x, committed x = true)); [done|]. simpl.
      by apply (lookupSelection_Forall (λ x, committed x = true)
                  _ _ _ Hcommitted Hsel).
    + by apply Hend.
  - simpl. unfold TurnSystem.manuallyEndPhase. simpl. rewrite Hph.
    rewrite bool_decide_eq_false_2 by done. simpl. by apply Hend.
  - rewrite Hsell in Hsell'. injection Hsell' as <-.
    pose proof (lookupSelection_Forall (λ x, committed x = true)
                  _ _ _ Hcommitted Hsel) as Hc'.
    simpl in Hc'. congruence.
Qed.

Lemma sellSound_same (s s' : GameState) :
  sell (phaseState s') = sell (phaseState s) → sellSound s → sellSound s'.
Proof. unfold sellSound. by intros ->. Qed.

Lemma advancePhase_sellSound (s : GameState) :
  sellSound s → sellSound (TurnSystem.advancePhase s).
Proof.
  unfold sellSound, TurnSystem.advancePhase, TurnSystem.completeRound,
    TurnSystem.transitionToPhase.
  intros Hsound.
  destruct (currentPhase s) as [[]|] eqn:Hph; simpl; rewrite ?Hph; simpl;
    try done.
  - by intros sl [= <-].
  - by destruct (_ <? _).
  - by destruct (_ <? _).
Qed.

Lemma selectCardsToSell_sellSound (s : GameState) (playerId : string)
      (cardIds : option (list string)) :
  sellSound s →
  after (SellManager.selectCardsToSell s playerId cardIds) sellSound.
Proof.
  intros Hsound. unfold SellManager.selectCardsToSell.
  destruct (sell (phaseState s)) as [sl|] eqn:Hsell; [|done].
  destruct (lookupSelection _ _) as [sel|] eqn:Hsel; [|done]. simpl.
  intros sl1. simpl. intros [= <-]. simpl. intros Hall.
  pose proof (Hsound sl Hsell Hall) as Hcommitted.
  apply (Forall_alist_set (λ x, committed x = true)); [done|]. simpl.
  by apply (lookupSelection_Forall (λ x, committed x = true)
              _ _ _ Hcommitted Hsel).
Qed.

Lemma commitSell_sellSound (s : GameState) (playerId : string) :
  sellSound s → after (SellManager.commitSell s playerId) sellSound.
Proof.
  intros Hsound. unfold SellManager.commitSell.
  destruct (sell (phaseState s)) as [sl|] eqn:Hsell; [|done].
  destruct (lookupSelection _ _) as [sel|] eqn:Hsel; [|done].
  destruct (forallb _ _) eqn:Hall; simpl.
  - eapply sellSound_same.
    + by apply (executeSells_blind (λ s, sell (phaseState s))).
    + intros sl1. simpl. intros [= <-] _. simpl.
      apply Forall_forall. intros kv Hin.
      apply (proj1 (forallb_forall _ _) Hall). by apply list_elem_of_In.
  - intros sl1. simpl. intros [= <-]. simpl. intros Hflag.
    apply (Forall_alist_set (λ x, committed x = true));
      [by apply (Hsound sl)|done].
Qed.

Lemma dispatchAction_sellSound (env : Env) (s : GameState) (a : Action) :
  sellSound s → after (GameEngine.dispatchAction env s a) sellSound.
Proof.
  intros Hsound.
  assert (Hkeep : ∀ o, after o (λ s', sell (phaseState s')
                                      = sell (phaseState s)) →
                       after o sellSound).
  { intros o Ho. eapply after_mono; [exact Ho|].
    intros s' Heq. by apply (sellSound_same s). }
  destruct a as [playerId amount|playerId|playerId offer request
                |playerId id|playerId id|playerId|playerId goalCardId
                |playerId choices|playerId cardIds|playerId]; simpl.
  - by apply Hkeep, (placeBid_blind (λ s, sell (phaseState s))).
  - by apply Hkeep, (pass_blind (λ s, sell (phaseState s))).
  - by apply Hkeep, (proposeTrade_blind (λ s, sell (phaseState s))).
  - by apply Hkeep, (acceptTrade_blind (λ s, sell (phaseState s))).
  - by apply Hkeep, (cancelTrade_blind (λ s, sell (phaseState s))).
  - unfold TurnSystem.manuallyEndPhase.
    destruct (bool_decide _); [by apply advancePhase_sellSound|done].
  - by apply Hkeep, (revealGoal_blind (λ s, sell (phaseState s))).
  - by apply Hkeep,
      (GoalResolutionManager_executeReward_blind (λ s, sell (phaseState s))).
  - by apply selectCardsToSell_sellSound.
  - by apply commitSell_sellSound.
Qed.

Lemma executeAction_sellSound (env : Env) (s : GameState) (a : Action)
      (o : Outcome) :
  sellSound s → GameEngine.executeAction env s a = Ran o → after o sellSound.
Proof.
  intros Hsound [_ ->]%executeAction_Ran.
  eapply after_bind.
  - apply dispatchAction_sellSound. exact Hsound.
  - done.
  - intros s1 H1. destruct (TurnSystem.canAdvancePhase s1) as [[]|]; simpl;
      [by apply advancePhase_sellSound|done..].
Qed.

(** *** The invariant along a game *)

Lemma executeAction_clocked (env : Env) (s s' : GameState) (a : Action) :
  clocked s → sellSound s →
  GameEngine.executeAction env s a = Ran (Done s')
  ∨ GameEngine.executeAction env s a = Ran (Threw s') →
  clocked s' ∧ sellSound s' ∧ config s' = config s
  ∧ (currentRound s' = currentRound s
     ∨ currentRound s' = S (currentRound s)
       ∧ currentPhase s' = Some AUCTION ∧ status s' = IN_PROGRESS)
  ∧ (status s = COMPLETED →
     status s' = COMPLETED ∧ players s' = players s
     ∧ stockPrices s' = stockPrices s ∧ resourceDeck s' = resourceDeck s).
Proof.
  intros (Hone & Hmax & Hstarted & Hdone) Hsound Hrun.
  assert (∃ o, GameEngine.executeAction env s a = Ran o
               ∧ (o = Done s' ∨ o = Threw s')) as (o & Hran & Ho).
  { destruct Hrun as [Hrun|Hrun]; eexists; split; eauto. }
  assert (Hsound' : sellSound s').
  { pose proof (executeAction_sellSound env s a o Hsound Hran) as H.
    by destruct Ho as [-> | ->]. }
  destruct (decide (status s = COMPLETED)) as [Hst|Hst].
  - destruct (Hdone Hst) as [Hge Hfinal].
    pose proof (executeAction_over env s a o Hge Hfinal Hsound Hran) as H.
    assert (status s' = COMPLETED ∧ finalSell s' ∧ sellSound s'
            ∧ currentRound s' = currentRound s ∧ config s' = config s
            ∧ players s' = players s ∧ stockPrices s' = stockPrices s
            ∧ resourceDeck s' = resourceDeck s)
      as (Hst' & Hfinal' & _ & Hround & Hcfg & Hps & Hprices & Hdeck)
      by by destruct Ho as [-> | ->].
    split; [|by auto 10].
    unfold clocked. rewrite Hround, Hcfg, Hst'. by auto.
  - pose proof (executeAction_course env s a o Hran) as H.
    assert (config s' = config s
            ∧ (status s' = status s ∧ currentRound s' = currentRound s
               ∨ status s' = status s ∧ currentRound s' = S (currentRound s)
                 ∧ currentRound s < totalRounds (config s)
                 ∧ currentPhase s' = Some AUCTION
               ∨ status s' = COMPLETED ∧ currentRound s' = currentRound s
                 ∧ totalRounds (config s) ≤ currentRound s
                 ∧ finalSell s'))
      as (Hcfg & Hcases)
      by (destruct Ho as [-> | ->]; simpl in H;
          by destruct H as (_ & ? & _ & _ & ?)).
    destruct Hcases as [(Hst' & Hround)|[(Hst' & Hround & Hlt & Hph)
                                       |(Hst' & Hround & Hge & Hfinal)]].
    + split; [|split; [done|split; [done|split; [by left|done]]]].
      unfold clocked. rewrite Hround, Hcfg, Hst'. by auto.
    + split.
      * unfold clocked. rewrite Hround, Hcfg, Hst'.
        repeat split; [lia|lia|done|done..].
      * split; [done|]. split; [done|]. split; [|done]. right.
        split; [done|]. split; [done|]. rewrite Hst'.
        by destruct (status s).
    + split; [|split; [done|split; [done|split; [by left|done]]]].
      unfold clocked. rewrite Hround, Hcfg, Hst'. by auto.
Qed.

Lemma setup_clocked (deck0 : list Card) (s0 : GameState) :
  setupState deck0 s0 →
  clocked s0 ∧ sellSound s0 ∧ currentRound s0 = 1
  ∧ status s0 = IN_PROGRESS.
Proof.
  intros (cfg & infos & goals & s & _ & _ & _ & Hinit & Hstart).
  pose proof (initialize_blind
                (λ s, (sell (phaseState s), currentPhase s, currentRound s))
                (λ _ _, eq_refl) (λ _ _, eq_refl) (λ _ _, eq_refl)
                cfg infos deck0 goals s Hinit) as Hfields.
  simpl in Hfields. injection Hfields as Hsell Hph Hround.
  unfold GameEngine.start in Hstart.
  destruct (status s); [|discriminate Hstart..].
  apply (inj Some) in Hstart.
  assert (Hsell' : sell (phaseState s0) = None).
  { subst s0. unfold TurnSystem.transitionToPhase. simpl. rewrite Hph.
    simpl. done. }
  destruct (book_fields _ _ (transitionToPhase_book
                               (set_status IN_PROGRESS s) AUCTION))
    as (Hst' & Hround' & _).
  rewrite Hstart in Hst', Hround'.
  change (status s0 = IN_PROGRESS) in Hst'.
  change (currentRound s0 = currentRound s) in Hround'.
  rewrite Hround in Hround'. simpl in Hround'.
  split; [|split; [|split]].
  - unfold clocked. rewrite Hst', Hround'.
    repeat split; [lia|lia|done|done..].
  - intros sl. by rewrite Hsell'.
  - done.
  - done.
Qed.

Lemma reachable_clocked (ok : GameState → Action → Prop) (s0 s : GameState) :
  clocked s0 → sellSound s0 → reachableWith ok s0 s →
  clocked s ∧ sellSound s ∧ config s = config s0
  ∧ currentRound s0 ≤ currentRound s
  ∧ (status s0 = COMPLETED →
     status s = COMPLETED ∧ players s = players s0
     ∧ stockPrices s = stockPrices s0 ∧ resourceDeck s = resourceDeck s0
     ∧ currentRound s = currentRound s0).
Proof.
  intros Hclock Hsound Hreach.
  induction Hreach as [s|s1 s2 s3 Hstep _ IH]; [by auto 10|].
  destruct Hstep as (env & a & _ & Hrun).
  destruct (executeAction_clocked env s1 s2 a Hclock Hsound Hrun)
    as (Hclock2 & Hsound2 & Hcfg & Hround & Hover).
  destruct (IH Hclock2 Hsound2) as (Hc3 & Hs3 & Hcfg3 & Hr3 & Hover3).
  split; [done|]. split; [done|]. split; [congruence|].
  split; [destruct Hround as [?|(? & _)]; lia|].
  intros Hst. destruct (Hover Hst) as (Hst2 & Hps & Hprices & Hdeck).
  destruct (Hover3 Hst2) as (Hst3 & Hps3 & Hprices3 & Hdeck3 & Hr).
  repeat split; try congruence.
  destruct Hround as [?|(? & _ & ?)]; congruence.
Qed.

Lemma getFinalScores_same (s s' : GameState) :
  players s' = players s → stockPrices s' = stockPrices s →
  GameStateOps.getFinalScores s' = GameStateOps.getFinalScores s.
Proof.
  intros Hps Hprices. unfold GameStateOps.getFinalScores. rewrite Hps.
  f_equal. apply list_fmap_ext. intros i p _.
  unfold GameStateOps.scoreOf, GameStateOps.calculatePlayerWealth,
    GameStateOps.getPlayer.
  by rewrite Hps, Hprices.
Qed.

Lemma quietGame_runs :
  runActions Example.env Example.auctionState quietGame = Some finishedState.
Proof. vm_compute. reflexivity. Qed.

Lemma afterTheEnd_runs :
  runActions Example.env finishedState
             [SELECT_CARDS_TO_SELL "A" (Some ["r0"])]
  = Some afterTheEnd.
Proof. vm_compute. reflexivity. Qed.

(** The round counter of a game that was set up and started: it begins
    at 1, never goes down, goes up by one only when a step opens the
    auction of the next round, and never exceeds the number of rounds of
    the configuration (or 1, if that number is 0), which no step changes.
    The game is in progress until it is completed; it is completed in the
    sell phase of the last round, and stays completed.  As the counter
    stops at the last round, GameState.isGameOver, which asks whether the
    round exceeds the number of rounds, is false in every state of a game
    of at least one round, the completed ones included. *)
Theorem rounds_stop_at_the_last (deck0 : list Card) (s0 s : GameState) :
  setupState deck0 s0 → reachableWith anyAction s0 s →
  config s = config s0
  ∧ 1 ≤ currentRound s
  ∧ currentRound s ≤ Nat.max 1 (totalRounds (config s0))
  ∧ (status s = IN_PROGRESS ∨ status s = COMPLETED)
  ∧ (status s = COMPLETED →
     currentRound s = Nat.max 1 (totalRounds (config s0))
     ∧ currentPhase s = Some SELL)
  ∧ (1 ≤ totalRounds (config s0) → GameStateOps.isGameOver s = false)
  ∧ ∀ s', stepWith anyAction s s' →
          (currentRound s' = currentRound s
           ∨ currentRound s' = S (currentRound s)
             ∧ currentPhase s' = Some AUCTION ∧ status s' = IN_PROGRESS)
          ∧ (status s = COMPLETED → status s' = COMPLETED).
Proof.
  intros (Hclock0 & Hsound0 & _)%setup_clocked Hreach.
  destruct (reachable_clocked _ _ _ Hclock0 Hsound0 Hreach)
    as (Hclock & Hsound & Hcfg & _).
  pose proof Hclock as (Hone & Hmax & Hstarted & Hdone).
  rewrite Hcfg in Hmax, Hdone.
  split; [done|]. split; [done|]. split; [done|].
  split; [by destruct (status s); auto|].
  split; [|split].
  - intros [Hge [Hph _]]%Hdone. split; [lia|done].
  - intros Hrounds. unfold GameStateOps.isGameOver. rewrite Hcfg.
    apply Nat.ltb_ge. lia.
  - intros s' (env & a & _ & Hrun).
    destruct (executeAction_clocked env s s' a Hclock Hsound Hrun)
      as (_ & _ & _ & Hround & Hover).
    split; [done|]. by intros (? & _)%Hover.
Qed.

Lemma rounds_stop_at_the_last_witness :
  config finishedState = config Example.auctionState
  ∧ 1 ≤ currentRound finishedState
  ∧ currentRound finishedState
    ≤ Nat.max 1 (totalRounds (config Example.auctionState))
  ∧ (status finishedState = IN_PROGRESS ∨ status finishedState = COMPLETED)
  ∧ (status finishedState = COMPLETED →
     currentRound finishedState
     = Nat.max 1 (totalRounds (config Example.auctionState))
     ∧ currentPhase finishedState = Some SELL)
  ∧ (1 ≤ totalRounds (config Example.auctionState) →
     GameStateOps.isGameOver finishedState = false)
  ∧ ∀ s', stepWith anyAction finishedState s' →
          (currentRound s' = currentRound finishedState
           ∨ currentRound s' = S (currentRound finishedState)
             ∧ currentPhase s' = Some AUCTION ∧ status s' = IN_PROGRESS)
          ∧ (status finishedState = COMPLETED → status s' = COMPLETED).
Proof.
  apply (rounds_stop_at_the_last Example.deck Example.auctionState
                                 finishedState example_setup).
  exact (runActions_reachable Example.env quietGame _ _ quietGame_runs).
Defined.

Lemma runActions_plain (env : Env) (actions : list Action)
      (s s' : GameState) :
  Forall (λ a, plainKey (a_playerId a)) actions →
  runActions env s actions = Some s' → reachableWith plainPlayer s s'.
Proof.
  intros Hplain. revert s.
  induction Hplain as [|a actions Ha _ IH]; intros s; simpl.
  - intros [= <-]. apply rtc_refl.
  - destruct (GameEngine.executeAction env s a) as [e|[s1|s1|]] eqn:Hrun;
      try done.
    intros Hrest. eapply rtc_l; [|by apply IH].
    exists env, a. split; [done|]. by left.
Qed.

(** A completed game is final.  Whatever is submitted to a game that was
    set up, started and played to its end, by actions that name their
    player by a plain key: the status stays completed and the round, the
    players with their cash and hands, the prices and the piles stay as
    they are, so that getFinalScores keeps returning the same scores.
    Every such action of the ten action types is rejected, except
    SELECT_CARDS_TO_SELL and END_TRADING. *)
Theorem completed_game_is_final (deck0 : list Card) (s0 s s' : GameState) :
  setupState deck0 s0 → reachableWith plainPlayer s0 s →
  status s = COMPLETED → reachableWith plainPlayer s s' →
  status s' = COMPLETED ∧ currentRound s' = currentRound s
  ∧ players s' = players s ∧ stockPrices s' = stockPrices s
  ∧ resourceDeck s' = resourceDeck s
  ∧ GameEngine.getFinalScores s' = GameEngine.getFinalScores s
  ∧ ∀ env a,
      plainKey (a_playerId a) →
      (∀ playerId cardIds, a ≠ SELECT_CARDS_TO_SELL playerId cardIds) →
      (∀ playerId, a ≠ END_TRADING playerId) →
      ∃ error, GameEngine.executeAction env s' a = Rejected error.
Proof.
  intros (Hclock0 & Hsound0 & _)%setup_clocked Hreach Hst Hreach'.
  destruct (reachable_clocked _ _ _ Hclock0 Hsound0 Hreach)
    as (Hclock & Hsound & _).
  destruct (reachable_clocked _ _ _ Hclock Hsound Hreach')
    as (Hclock' & Hsound' & _ & _ & Hover).
  destruct (Hover Hst) as (Hst' & Hps & Hprices & Hdeck & Hround).
  repeat split; try done.
  - unfold GameEngine.getFinalScores. rewrite Hst, Hst'.
    by rewrite (getFinalScores_same s s').
  - intros env a _ Hselect Hend.
    destruct Hclock' as (_ & _ & _ & Hdone).
    destruct (Hdone Hst') as [_ Hfinal].
    pose proof Hfinal as (Hph & sl & Hsell & Hall)%finalSell_sell.
    unfold GameEngine.executeAction.
    destruct (ValidationSystem.validateAction s' a) as [|e] eqn:Hv;
      [|by eauto].
    destruct (valid_in_sell s' a Hph Hv)
      as [(playerId & cardIds & ->)|[(playerId & ->)
         |(playerId & sl' & sel & -> & Hsell' & Hsel & Hc)]].
    + by destruct (Hselect playerId cardIds).
    + by destruct (Hend playerId).
    + rewrite Hsell in Hsell'. injection Hsell' as <-.
      pose proof (lookupSelection_Forall (λ x, committed x = true)
                    _ _ _ (Hsound' sl Hsell Hall) Hsel) as Hc'.
      simpl in Hc'. congruence.
Qed.

Lemma completed_game_is_final_witness :
  status afterTheEnd = COMPLETED
  ∧ currentRound afterTheEnd = currentRound finishedState
  ∧ players afterTheEnd = players finishedState
  ∧ stockPrices afterTheEnd = stockPrices finishedState
  ∧ resourceDeck afterTheEnd = resourceDeck finishedState
  ∧ GameEngine.getFinalScores afterTheEnd
    = GameEngine.getFinalScores finishedState
  ∧ ∀ env a,
      plainKey (a_playerId a) →
      (∀ playerId cardIds, a ≠ SELECT_CARDS_TO_SELL playerId cardIds) →
      (∀ playerId, a ≠ END_TRADING playerId) →
      ∃ error, GameEngine.executeAction env afterTheEnd a = Rejected error.
Proof.
  apply (completed_game_is_final Example.deck Example.auctionState
                                 finishedState afterTheEnd example_setup).
  - apply (runActions_plain Example.env quietGame _ _);
      [|exact quietGame_runs].
    apply (bool_decide_unpack _). vm_compute. reflexivity.
  - vm_compute. reflexivity.
  - apply (runActions_plain Example.env
             [SELECT_CARDS_TO_SELL "A" (Some ["r0"])] _ _);
      [|exact afterTheEnd_runs].
    apply (bool_decide_unpack _). vm_compute. reflexivity.
Defined.
